(** * mcp-osrs: caching, indexing and markup-extraction core

    A shallow embedding of the caching and parsing functions of the
    server (the latest source snapshot unless a definition says otherwise),
    and the properties the specification states about them.

    Conventions of the embedding.
    - A JavaScript string is a Rocq [string]; every [ascii] stands for one
      UTF-16 code unit in the range 0..255 (ASCII and Latin-1), so [length]
      is the JavaScript [.length] on that alphabet.
    - A JavaScript number is an IEEE 754 binary64 value, [spec_float] of the
      standard library with [prec = 53] and [emax = 1024].  Array indices,
      sizes and millisecond time stamps are integers far below 2^53 and
      are kept as [nat] and [Z].
    - A JavaScript [Map] is an association list in insertion order without
      repeated keys.
    - Every call of [Date.now()] takes its reading as an argument of the
      embedded function, in the order of the calls in the source.
    - A [throw] is the [Throw] outcome of [result]. *)

From Stdlib Require Import ZArith List String Ascii Bool Lia Arith PeanoNat.
From Stdlib Require Import Floats.SpecFloat.
Import ListNotations.
Open Scope list_scope.
Open Scope string_scope.

Set Implicit Arguments.

(* ================================================================== *)
(** * JavaScript strings *)
(* ================================================================== *)

Module Js.

Definition code (c : ascii) : nat := nat_of_ascii c.

(** [\d] *)
Definition isDigit (c : ascii) : bool :=
  (48 <=? code c)%nat && (code c <=? 57)%nat.

(** [\s], and the characters [trim] removes, among the code units 0..255:
    TAB, LF, VT, FF, CR, SPACE and NBSP. *)
Definition isSpace (c : ascii) : bool :=
  let n := code c in
  ((9 <=? n)%nat && (n <=? 13)%nat) || (n =? 32)%nat || (n =? 160)%nat.

(** [toLowerCase] on one code unit: A-Z, and the Latin-1 capitals
    U+00C0..U+00DE except the multiplication sign U+00D7. *)
Definition lowerChar (c : ascii) : ascii :=
  let n := code c in
  if ((65 <=? n)%nat && (n <=? 90)%nat)
     || ((192 <=? n)%nat && (n <=? 222)%nat && negb (n =? 215)%nat)
  then ascii_of_nat (n + 32) else c.

Fixpoint toLowerCase (s : string) : string :=
  match s with
  | EmptyString => EmptyString
  | String c r => String (lowerChar c) (toLowerCase r)
  end.

Fixpoint dropWhile (p : ascii -> bool) (s : string) : string :=
  match s with
  | EmptyString => EmptyString
  | String c r => if p c then dropWhile p r else s
  end.

Fixpoint takeWhile (p : ascii -> bool) (s : string) : string :=
  match s with
  | EmptyString => EmptyString
  | String c r => if p c then String c (takeWhile p r) else EmptyString
  end.

Fixpoint rev_acc (s acc : string) : string :=
  match s with
  | EmptyString => acc
  | String c r => rev_acc r (String c acc)
  end.

Definition rev (s : string) : string := rev_acc s EmptyString.

Definition trimStart (s : string) : string := dropWhile isSpace s.
Definition trimEnd (s : string) : string := rev (dropWhile isSpace (rev s)).
Definition trim (s : string) : string := trimEnd (trimStart s).

(** [s.startsWith(p)] *)
Fixpoint startsWith (p s : string) : bool :=
  match p, s with
  | EmptyString, _ => true
  | String a p', String b s' => Ascii.eqb a b && startsWith p' s'
  | String _ _, EmptyString => false
  end.

(** [s.includes(p)] *)
Fixpoint includes (s p : string) : bool :=
  startsWith p s ||
  match s with
  | EmptyString => false
  | String _ r => includes r p
  end.

(** [s.replaceAll(" ", "_")], [s.replace(/ /g, "_")] and the like: every
    occurrence of the code unit [a] becomes [b]. *)
Fixpoint replaceAllChar (a b : ascii) (s : string) : string :=
  match s with
  | EmptyString => EmptyString
  | String c r =>
      String (if Ascii.eqb c a then b else c) (replaceAllChar a b r)
  end.

(** [s.split(sep)] for a separator of one code unit; the result is never
    empty ([""] splits into [[""]]). *)
Fixpoint splitChar (sep : ascii) (s : string) : list string :=
  match s with
  | EmptyString => [EmptyString]
  | String c r =>
      if Ascii.eqb c sep then EmptyString :: splitChar sep r
      else match splitChar sep r with
           | [] => [String c EmptyString]
           | w :: ws => String c w :: ws
           end
  end.

(** [parts.join(sep)] *)
Fixpoint join (sep : string) (parts : list string) : string :=
  match parts with
  | [] => EmptyString
  | [p] => p
  | p :: rest => p ++ sep ++ join sep rest
  end.

(** [s.substring(0, n)] for [0 <= n] *)
Fixpoint take (n : nat) (s : string) : string :=
  match n, s with
  | O, _ => EmptyString
  | S _, EmptyString => EmptyString
  | S n', String c r => String c (take n' r)
  end.

Fixpoint drop (n : nat) (s : string) : string :=
  match n, s with
  | O, _ => s
  | S _, EmptyString => EmptyString
  | S n', String _ r => drop n' r
  end.

Definition LF : ascii := ascii_of_nat 10.
Definition CR : ascii := ascii_of_nat 13.
Definition TAB : ascii := ascii_of_nat 9.

(** Truthiness of a string: only [""] is falsy. *)
Definition truthy (s : string) : bool :=
  match s with EmptyString => false | _ => true end.

End Js.

(* ================================================================== *)
(** * JavaScript numbers *)
(* ================================================================== *)

Module Num.

Definition number : Type := spec_float.

Definition prec : Z := 53.
Definition emax : Z := 1024.

(** The double nearest to an integer (ties to even), as [Number] and
    [parseInt] produce it. *)
Definition ofZ (z : Z) : number := binary_normalize prec emax z 0 false.

Definition mul (x y : number) : number := SFmul prec emax x y.
Definition div (x y : number) : number := SFdiv prec emax x y.
(** [x >= y], [x > y], [x <= y] *)
Definition ge (x y : number) : bool := SFleb y x.
Definition gt (x y : number) : bool := SFltb y x.
Definition le (x y : number) : bool := SFleb x y.

Definition isNaN (x : number) : bool :=
  match x with S754_nan => true | _ => false end.

Definition digitVal (c : ascii) : Z := Z.of_nat (Js.code c - 48).

Fixpoint digitsValue_acc (s : string) (acc : Z) : Z :=
  match s with
  | EmptyString => acc
  | String c r => digitsValue_acc r (10 * acc + digitVal c)
  end.

(** The integer a string of decimal digits denotes. *)
Definition digitsValue (s : string) : Z := digitsValue_acc s 0.

(** [parseInt(s, 10)]: optional leading white space, then the longest
    run of decimal digits; [NaN] when that run is empty.  (No sign is
    modelled: every caller passes text matched by [\d] or [[\d,]] with
    the commas removed.) *)
Definition parseInt10 (s : string) : number :=
  let run := Js.takeWhile Js.isDigit (Js.trimStart s) in
  match run with
  | EmptyString => S754_nan
  | _ => ofZ (digitsValue run)
  end.

(** Keys of a [Map] are compared with SameValueZero: [-0] is stored and
    looked up as [+0].  On the canonical values the operations above
    produce, SameValueZero is then equality. *)
Definition canonKey (x : number) : number :=
  match x with S754_zero _ => S754_zero false | _ => x end.

End Num.

(* ================================================================== *)
(** * JavaScript [Map]: insertion-ordered association list *)
(* ================================================================== *)

Class EqDec (K : Type) : Type :=
  eq_dec : forall x y : K, {x = y} + {x <> y}.

#[export] Instance string_EqDec : EqDec string := string_dec.

#[export] Instance number_EqDec : EqDec Num.number.
Proof.
  unfold EqDec, Num.number. intros x y.
  decide equality; try apply Bool.bool_dec.
  - apply Z.eq_dec.
  - apply Pos.eq_dec.
Defined.

Module JsMap.
Section Defs.
Context {K V : Type} `{EqDec K}.

Definition t : Type := list (K * V).

Definition empty : t := [].

Fixpoint get (k : K) (m : t) : option V :=
  match m with
  | [] => None
  | (k', v) :: r => if eq_dec k k' then Some v else get k r
  end.

Definition has (k : K) (m : t) : bool :=
  match get k m with Some _ => true | None => false end.

(** [m.set(k, v)]: an existing key keeps its position, a new key goes
    to the end. *)
Fixpoint set (k : K) (v : V) (m : t) : t :=
  match m with
  | [] => [(k, v)]
  | (k', v') :: r =>
      if eq_dec k k' then (k, v) :: r else (k', v') :: set k v r
  end.

(** [m.delete(k)] *)
Fixpoint delete (k : K) (m : t) : t :=
  match m with
  | [] => []
  | (k', v') :: r =>
      if eq_dec k k' then delete k r else (k', v') :: delete k r
  end.

Definition size (m : t) : nat := List.length m.

Definition keys (m : t) : list K := List.map fst m.

(** [m.keys().next().value]: the key inserted earliest among those
    held, [undefined] on an empty map. *)
Definition firstKey (m : t) : option K :=
  match m with [] => None | (k, _) :: _ => Some k end.

Definition wf (m : t) : Prop := NoDup (keys m).
End Defs.
Arguments t : clear implicits.
End JsMap.

Inductive result (A : Type) : Type :=
| Ok (a : A)
| Throw (message : string).
Arguments Ok {A} a.
Arguments Throw {A} message.

(* ================================================================== *)
(** * Line file store, ID index and the lookups built on them *)
(* ================================================================== *)

Module FileStore.
Import Js.

(** [const CACHE_TTL = 60 * 60 * 1000] *)
Definition CACHE_TTL : Z := 60 * 60 * 1000.

(** [line.replace(/\r$/, '')]: one carriage return at the very end of the
    line is removed. *)
Fixpoint stripTrailingCR (s : string) : string :=
  match s with
  | EmptyString => EmptyString
  | String c EmptyString => if Ascii.eqb c CR then EmptyString else s
  | String c r => String c (stripTrailingCR r)
  end.

(** [content.split('\n').map(line => line.replace(/\r$/, ''))] *)
Definition fileLines (content : string) : list string :=
  List.map stripTrailingCR (splitChar LF content).

(** The file system, read only here: the content of every existing file. *)
Definition FileSystem : Type := string -> option string.

Record FileEntry : Type := mkFileEntry {
  lines : list string;
  timestamp : Z
}.

(** The module-level caches and counters. *)
Record Store : Type := mkStore {
  fileCache : JsMap.t string FileEntry;
  idIndexCache : JsMap.t string (JsMap.t Num.number nat);
  fileCacheHits : nat;
  fileCacheMisses : nat
}.

Definition emptyStore : Store := mkStore JsMap.empty JsMap.empty 0 0.

Definition getCachedFileLines (fs : FileSystem) (now : Z) (filePath : string)
    (st : Store) : result (list string) * Store :=
  let miss :=
    let st1 := mkStore (fileCache st) (idIndexCache st)
                       (fileCacheHits st) (S (fileCacheMisses st)) in
    match fs filePath with
    | None => (Throw ("File not found: " ++ filePath), st1)
    | Some content =>
        let lines := fileLines content in
        (Ok lines,
         mkStore (JsMap.set filePath (mkFileEntry lines now) (fileCache st1))
                 (JsMap.delete filePath (idIndexCache st1))
                 (fileCacheHits st1) (fileCacheMisses st1))
    end in
  match JsMap.get filePath (fileCache st) with
  | Some cached =>
      if (now - timestamp cached <? CACHE_TTL)%Z
      then (Ok (lines cached),
            mkStore (fileCache st) (idIndexCache st)
                    (S (fileCacheHits st)) (fileCacheMisses st))
      else miss
  | None => miss
  end.

(** [line.match(/^(\d+)/)]: the maximal run of digits at the start of the
    line, when it is not empty. *)
Definition matchLeadingDigits (line : string) : option string :=
  match takeWhile isDigit line with
  | EmptyString => None
  | run => Some run
  end.

(** [index.set(id, i)] and [index.get(id)] on a [Map<number, number>]. *)
Definition indexSet (id : Num.number) (i : nat)
    (index : JsMap.t Num.number nat) : JsMap.t Num.number nat :=
  JsMap.set (Num.canonKey id) i index.

Definition indexGet (id : Num.number) (index : JsMap.t Num.number nat)
    : option nat :=
  JsMap.get (Num.canonKey id) index.

(** The body of the [for] loop of [buildIdIndex] from line [i] on. *)
Fixpoint indexLoop (ls : list string) (i : nat)
    (index : JsMap.t Num.number nat) : JsMap.t Num.number nat :=
  match ls with
  | [] => index
  | line :: rest =>
      indexLoop rest (S i)
        match matchLeadingDigits line with
        | Some run =>
            let id := Num.parseInt10 run in
            if negb (Num.isNaN id) then indexSet id i index else index
        | None => index
        end
  end.

Definition buildIdIndex (fs : FileSystem) (nowCheck nowRead : Z)
    (filePath : string) (st : Store)
    : result (JsMap.t Num.number nat) * Store :=
  let rebuild :=
    match getCachedFileLines fs nowRead filePath st with
    | (Throw e, st1) => (Throw e, st1)
    | (Ok ls, st1) =>
        let index := indexLoop ls 0 JsMap.empty in
        (Ok index,
         mkStore (fileCache st1)
                 (JsMap.set filePath index (idIndexCache st1))
                 (fileCacheHits st1) (fileCacheMisses st1))
    end in
  match JsMap.get filePath (idIndexCache st) with
  | Some cachedIndex =>
      match JsMap.get filePath (fileCache st) with
      | Some fileEntry =>
          if (nowCheck - timestamp fileEntry <? CACHE_TTL)%Z
          then (Ok cachedIndex, st)
          else rebuild
      | None => rebuild
      end
  | None => rebuild
  end.

Record Entry : Type := mkEntry {
  entry_id : Num.number;
  entry_name : string;
  entry_lineNumber : nat;
  entry_raw : string
}.

(** [getEntryById]: [None] is the [null] result.  The three readings of
    the clock are those of [buildIdIndex] and of the later
    [getCachedFileLines]. *)
Definition getEntryById (fs : FileSystem) (nowCheck nowRead nowLines : Z)
    (filePath : string) (id : Num.number) (st : Store)
    : result (option Entry) * Store :=
  match buildIdIndex fs nowCheck nowRead filePath st with
  | (Throw e, st1) => (Throw e, st1)
  | (Ok idIndex, st1) =>
      match indexGet id idIndex with
      | None => (Ok None, st1)
      | Some lineIndex =>
          match getCachedFileLines fs nowLines filePath st1 with
          | (Throw e, st2) => (Throw e, st2)
          | (Ok ls, st2) =>
              match nth_error ls lineIndex with
              | None => (Ok None, st2)
              | Some line =>
                  if negb (truthy line) then (Ok None, st2)
                  else
                    let parts := splitChar TAB line in
                    let name :=
                      if (2 <=? List.length parts)%nat
                      then join (String TAB EmptyString) (List.tl parts)
                      else EmptyString in
                    (Ok (Some (mkEntry id name (lineIndex + 1) line)), st2)
              end
          end
      end
  end.

(** ** Substring search *)

Record Hit : Type := mkHit {
  hit_line : string;
  hit_lineNumber : nat
}.

(** The loop of [searchFile] from line [i] on. *)
Fixpoint searchLoop (ls : list string) (i : nat) (searchTermLower : string)
    : list Hit :=
  match ls with
  | [] => []
  | line :: rest =>
      if includes (toLowerCase line) searchTermLower
      then mkHit line (i + 1) :: searchLoop rest (S i) searchTermLower
      else searchLoop rest (S i) searchTermLower
  end.

(** [line.split(/\s+/)]; [inSpace] tells that the previous code unit was
    white space already. *)
Fixpoint splitSpaces_aux (inSpace : bool) (s : string) : list string :=
  match s with
  | EmptyString => [EmptyString]
  | String c r =>
      if isSpace c then
        if inSpace then splitSpaces_aux true r
        else EmptyString :: splitSpaces_aux true r
      else match splitSpaces_aux false r with
           | [] => [String c EmptyString]
           | w :: ws => String c w :: ws
           end
  end.

(** A separator at the very start or end of the line leaves an empty
    first or last part. *)
Definition splitSpaces (s : string) : list string := splitSpaces_aux false s.

Record FormattedHit : Type := mkFormattedHit {
  fh_line : string;
  fh_lineNumber : nat;
  (** [id], [value] and [formatted], present when the line has two parts *)
  fh_parsed : option (string * string * string)
}.

Definition formatHit (h : Hit) : FormattedHit :=
  let parts := splitSpaces (hit_line h) in
  if (2 <=? List.length parts)%nat then
    let id := List.hd EmptyString parts in
    let value := join " " (List.tl parts) in
    mkFormattedHit (hit_line h) (hit_lineNumber h)
      (Some (id, value, id ++ String TAB EmptyString ++ value))
  else mkFormattedHit (hit_line h) (hit_lineNumber h) None.

Record Pagination : Type := mkPagination {
  page : nat;
  pageSize : nat;
  totalResults : nat;
  totalPages : nat;
  hasNextPage : bool;
  hasPreviousPage : bool
}.

Record SearchResult : Type := mkSearchResult {
  results : list FormattedHit;
  pagination : Pagination
}.

(** [Math.ceil(a / b)] for integers [0 <= a] and [0 < b]. *)
Definition ceilDiv (a b : nat) : nat := (a + b - 1) / b.

(** [searchFile].  [page] and [pageSize] are integers of at least 1, as the
    argument schemas ([z.number().int().min(1)]) leave them. *)
Definition searchFile (fs : FileSystem) (now : Z) (filePath searchTerm : string)
    (page pageSize : positive) (st : Store) : result SearchResult * Store :=
  let searchTerm := replaceAllChar " " "_" searchTerm in
  match getCachedFileLines fs now filePath st with
  | (Throw e, st1) => (Throw e, st1)
  | (Ok ls, st1) =>
      let searchTermLower := toLowerCase searchTerm in
      let results := searchLoop ls 0 searchTermLower in
      let page := Pos.to_nat page in
      let pageSize := Pos.to_nat pageSize in
      let totalResults := List.length results in
      let totalPages := ceilDiv totalResults pageSize in
      let startIndex := (page - 1) * pageSize in
      let paginatedResults := firstn pageSize (skipn startIndex results) in
      (Ok (mkSearchResult (List.map formatHit paginatedResults)
             (mkPagination page pageSize totalResults totalPages
                (page <? totalPages)%nat (1 <? page)%nat)),
       st1)
  end.

End FileStore.

(* ================================================================== *)
(** * Wiki response cache *)
(* ================================================================== *)

Module WikiCache.
Section WithData.
(** The cached responses ([any] in the source). *)
Variable Data : Type.

(** [const WIKI_CACHE_TTL = 30 * 60 * 1000] *)
Definition WIKI_CACHE_TTL : Z := 30 * 60 * 1000.
Definition WIKI_CACHE_MAX_SIZE : nat := 500.

Record CacheEntry : Type := mkCacheEntry {
  data : Data;
  timestamp : Z
}.

Record State : Type := mkState {
  wikiCache : JsMap.t string CacheEntry;
  wikiCacheHits : nat;
  wikiCacheMisses : nat
}.

Definition initial : State := mkState JsMap.empty 0 0.

(** [keys.sort()]: insertion into a list sorted by code units. *)
Fixpoint insertSorted (k : string) (l : list string) : list string :=
  match l with
  | [] => [k]
  | h :: r => if String.leb k h then k :: l else h :: insertSorted k r
  end.

Definition sortStrings (l : list string) : list string :=
  List.fold_right insertSorted [] l.

(** [params[key]], already converted to text as the template literal
    converts it. *)
Fixpoint paramValue (key : string) (params : list (string * string)) : string :=
  match params with
  | [] => "undefined"
  | (k, v) :: r => if String.eqb k key then v else paramValue key r
  end.

(** [getWikiCacheKey]; [params] lists the own properties of the object
    with their values as text. *)
Definition getWikiCacheKey (action : string) (params : list (string * string))
    : string :=
  let sortedParams :=
    Js.join "&"
      (List.map (fun key => key ++ "=" ++ paramValue key params)
                (sortStrings (List.map fst params))) in
  action ++ ":" ++ sortedParams.

(** [getFromWikiCache]; [None] is the [null] result.  [Date.now()] is
    read only when the key is present. *)
Definition getFromWikiCache (now : Z) (key : string) (st : State)
    : option Data * State :=
  match JsMap.get key (wikiCache st) with
  | None =>
      (None, mkState (wikiCache st) (wikiCacheHits st) (S (wikiCacheMisses st)))
  | Some cached =>
      if (WIKI_CACHE_TTL <? now - timestamp cached)%Z
      then (None, mkState (JsMap.delete key (wikiCache st))
                          (wikiCacheHits st) (S (wikiCacheMisses st)))
      else (Some (data cached),
            mkState (wikiCache st) (S (wikiCacheHits st)) (wikiCacheMisses st))
  end.

Definition setWikiCache (now : Z) (key : string) (d : Data) (st : State)
    : State :=
  let cache1 :=
    if (WIKI_CACHE_MAX_SIZE <=? JsMap.size (wikiCache st))%nat then
      match JsMap.firstKey (wikiCache st) with
      | Some oldestKey =>
          if Js.truthy oldestKey
          then JsMap.delete oldestKey (wikiCache st)
          else wikiCache st
      | None => wikiCache st
      end
    else wikiCache st in
  mkState (JsMap.set key (mkCacheEntry d now) cache1)
          (wikiCacheHits st) (wikiCacheMisses st).

(** The states of the cache the server can be in: every key it stores
    was built by [getWikiCacheKey]. *)
Inductive Reachable : State -> Prop :=
| Reachable_initial : Reachable initial
| Reachable_set : forall st now action params d,
    Reachable st ->
    Reachable (setWikiCache now (getWikiCacheKey action params) d st)
| Reachable_get : forall st now key,
    Reachable st ->
    Reachable (snd (getFromWikiCache now key st)).
End WithData.
End WikiCache.

(* ================================================================== *)
(** * Request deduplication *)
(* ================================================================== *)

Module Dedup.
Section WithValue.
(** What a fetch resolves with. *)
Variable Value : Type.

Inductive Settlement : Type :=
| Fulfilled (v : Value)
| Rejected (reason : string).

(** The life of the promise [fetcher().finally(...)]: the fetch is in
    flight; the fetch has settled and the [finally] callback is queued;
    the callback has run and the promise is settled with the outcome of
    the fetch. *)
Inductive PromiseState : Type :=
| InFlight
| CallbackQueued (o : Settlement)
| Settled (o : Settlement).

(** Promises are named by their index in the table of promises. *)
Definition PromiseId : Type := nat.

Record Promise : Type := mkPromise {
  key : string;          (* the [key] its [finally] callback deletes *)
  state : PromiseState
}.

Record State : Type := mkState {
  pendingRequests : JsMap.t string PromiseId;
  promises : list Promise;
  fetcherCalls : list string   (* one key per call of a [fetcher], latest first *)
}.

Definition initial : State := mkState JsMap.empty [] [].

(** [fetchWithDedup(key, fetcher)]: the promise the caller awaits.  The
    call of [fetcher] is recorded in [fetcherCalls]. *)
Definition fetchWithDedup (k : string) (st : State) : PromiseId * State :=
  match JsMap.get k (pendingRequests st) with
  | Some existing => (existing, st)
  | None =>
      let promise := List.length (promises st) in
      (promise,
       mkState (JsMap.set k promise (pendingRequests st))
               (promises st ++ [mkPromise k InFlight])%list
               (k :: fetcherCalls st))
  end.

Fixpoint update (p : PromiseId) (f : Promise -> Promise) (l : list Promise)
    : list Promise :=
  match l, p with
  | [], _ => []
  | x :: r, O => f x :: r
  | x :: r, S p' => x :: update p' f r
  end.

(** The fetch behind promise [p] settles with [o]: the [finally]
    callback is queued. *)
Definition fetchSettles (p : PromiseId) (o : Settlement) (st : State) : State :=
  match nth_error (promises st) p with
  | Some (mkPromise k InFlight) =>
      mkState (pendingRequests st)
              (update p (fun _ => mkPromise k (CallbackQueued o)) (promises st))
              (fetcherCalls st)
  | _ => st
  end.

(** The queued callback of [p] runs, [pendingRequests.delete(key)], and
    the promise settles. *)
Definition finallyRuns (p : PromiseId) (st : State) : State :=
  match nth_error (promises st) p with
  | Some (mkPromise k (CallbackQueued o)) =>
      mkState (JsMap.delete k (pendingRequests st))
              (update p (fun _ => mkPromise k (Settled o)) (promises st))
              (fetcherCalls st)
  | _ => st
  end.

(** What the callers awaiting [p] receive, once it is settled. *)
Definition received (st : State) (p : PromiseId) : option Settlement :=
  match nth_error (promises st) p with
  | Some (mkPromise _ (Settled o)) => Some o
  | _ => None
  end.

(** A promise is outstanding until its callback has run. *)
Definition outstanding (st : State) (p : PromiseId) : bool :=
  match nth_error (promises st) p with
  | Some (mkPromise _ (Settled _)) => false
  | Some _ => true
  | None => false
  end.

(** The events of the single-threaded event loop that touch the
    deduplicator. *)
Inductive Event : Type :=
| Call (k : string)
| FetchSettles (p : PromiseId) (o : Settlement)
| FinallyRuns (p : PromiseId).

Definition step (st : State) (e : Event) : State :=
  match e with
  | Call k => snd (fetchWithDedup k st)
  | FetchSettles p o => fetchSettles p o st
  | FinallyRuns p => finallyRuns p st
  end.

Definition run (evs : list Event) (st : State) : State :=
  List.fold_left step evs st.

(** The number of times the producing operation was called for [k]. *)
Definition produced (k : string) (st : State) : nat :=
  List.count_occ string_dec (fetcherCalls st) k.

Definition finalises (p : PromiseId) (e : Event) : bool :=
  match e with FinallyRuns q => Nat.eqb p q | _ => false end.
End WithValue.
End Dedup.

(* ================================================================== *)
(** * Numbers as text *)
(* ================================================================== *)

Module NumFmt.
Import Js Num.

Definition digitChar (d : Z) : ascii := ascii_of_nat (48 + Z.to_nat d).

Fixpoint decimal_fuel (fuel : nat) (z : Z) (acc : string) : string :=
  match fuel with
  | O => acc
  | S f =>
      let acc' := String (digitChar (z mod 10)) acc in
      if (z <? 10)%Z then acc' else decimal_fuel f (z / 10) acc'
  end.

(** The decimal digits of an integer [0 <= z], ["0"] for zero. *)
Definition decimal (z : Z) : string :=
  decimal_fuel (S (Z.to_nat (Z.log2 z))) z EmptyString.

(** The last [f] decimal digits of [z], with leading zeros. *)
Fixpoint fractionDigits (f : nat) (z : Z) : string :=
  match f with
  | O => EmptyString
  | S f' =>
      String (digitChar ((z / 10 ^ Z.of_nat f') mod 10)) (fractionDigits f' z)
  end.

(** The integer nearest to [m * 2^e * 10^f] for [0 < m], the larger one
    of two. *)
Definition scaledRound (m : positive) (e : Z) (f : nat) : Z :=
  let scaled := (Zpos m * 10 ^ Z.of_nat f)%Z in
  if (0 <=? e)%Z then (scaled * 2 ^ e)%Z
  else ((2 * scaled + 2 ^ (- e)) / 2 ^ (1 - e))%Z.

(** The shortest decimal significand that reads back as the double [X]
    (an integer of [n] digits, [10^21 <= X]): for [k] digits the two
    neighbours of [X / 10^(n-k)] are tried, the nearer one first. *)
Fixpoint shortestDigits (fuel : nat) (k : Z) (n : Z) (X : Z) : Z * Z :=
  let q := (10 ^ (n - k))%Z in
  let lo := (X / q)%Z in
  let hi := (lo + 1)%Z in
  let okLo := if number_EqDec (ofZ (lo * q)) (ofZ X) then true else false in
  let okHi := if number_EqDec (ofZ (hi * q)) (ofZ X) then true else false in
  let dLo := (X - lo * q)%Z in
  let dHi := (hi * q - X)%Z in
  let pickLo := okLo && (negb okHi || (dLo <? dHi)%Z
                          || ((dLo =? dHi)%Z && Z.even lo)) in
  match fuel with
  | O => (lo, k)
  | S fuel' =>
      if pickLo then (lo, k)
      else if okHi then (hi, k)
      else shortestDigits fuel' (k + 1) n X
  end.

(** [String(x)] for an integer-valued double with [10^21 <= X]:
    exponential notation with the shortest significand. *)
Definition toStringLarge (X : Z) : string :=
  let n := Z.of_nat (String.length (decimal X)) in
  let '(s, k) := shortestDigits 17 1 n X in
  let '(digits, n') :=
    if (s =? 10 ^ k)%Z then ("1", (n + 1)%Z) else (decimal s, n) in
  match digits with
  | String d EmptyString => String d ("e+" ++ decimal (n' - 1))
  | String d rest => String d ("." ++ rest ++ "e+" ++ decimal (n' - 1))
  | EmptyString => EmptyString
  end.

(** [x.toFixed(f)]: a magnitude of at least 10^21 is written as
    [String(x)] writes it. *)
Definition toFixed (x : number) (f : nat) : string :=
  match x with
  | S754_nan => "NaN"
  | S754_infinity s => if s then "-Infinity" else "Infinity"
  | S754_zero _ =>
      match f with
      | O => "0"
      | _ => "0." ++ fractionDigits f 0
      end
  | S754_finite s m e =>
      let sign := if s then "-" else "" in
      if ge (S754_finite false m e) (ofZ (10 ^ 21))
      then sign ++ toStringLarge (Zpos m * 2 ^ e)
      else
        let n := scaledRound m e f in
        let whole := decimal (n / 10 ^ Z.of_nat f) in
        match f with
        | O => sign ++ whole
        | _ => sign ++ whole ++ "." ++ fractionDigits f n
        end
  end.

(** [Math.round(x)]: the nearest integer, the larger one of two. *)
Definition Math_round (x : number) : number :=
  match x with
  | S754_finite s m e =>
      if (0 <=? e)%Z then x
      else
        let n := (((if s then -2 else 2) * Zpos m + 2 ^ (- e)) / 2 ^ (1 - e))%Z in
        if (n =? 0)%Z then S754_zero s else ofZ n
  | _ => x
  end.

(** Grouping of a digit string in threes from the right. *)
Fixpoint groupThousands (digits : string) : string :=
  match digits with
  | EmptyString => EmptyString
  | String c r =>
      String c
        (if (0 <? String.length r)%nat && (String.length r mod 3 =? 0)%nat
         then "," ++ groupThousands r
         else groupThousands r)
  end.

(** U+221E, the one character the functions here produce outside the
    code units 0..255; it is written as its three UTF-8 bytes. *)
Definition INFINITY_SIGN : string :=
  String (ascii_of_nat 226) (String (ascii_of_nat 136)
    (String (ascii_of_nat 158) EmptyString)).

Fixpoint stripTrailingZeros_rev (s : string) : string :=
  match s with
  | String "0" r => stripTrailingZeros_rev r
  | _ => s
  end.

(** [x.toLocaleString()] in the locale [en-US] with the default options:
    groups of three digits, at most three fraction digits. *)
Definition toLocaleString (x : number) : string :=
  match x with
  | S754_nan => "NaN"
  | S754_infinity s => (if s then "-" else "") ++ INFINITY_SIGN
  | S754_zero s => if s then "-0" else "0"
  | S754_finite s m e =>
      let n := scaledRound m e 3 in
      let whole := groupThousands (decimal (n / 1000)) in
      let frac := rev (stripTrailingZeros_rev (rev (fractionDigits 3 n))) in
      (if s then "-" else "") ++ whole ++
      match frac with
      | EmptyString => EmptyString
      | _ => "." ++ frac
      end
  end.

End NumFmt.

(* ================================================================== *)
(** * Rarity conversions *)
(* ================================================================== *)

Module Rarity.
Import Js Num NumFmt.

(** [[x×]] under the flag [i]: x, X and the multiplication sign U+00D7. *)
Definition isTimes (c : ascii) : bool :=
  let n := code c in (n =? 120)%nat || (n =? 88)%nat || (n =? 215)%nat.

Definition isDigitOrComma (c : ascii) : bool :=
  isDigit c || Ascii.eqb c ",".

(** [rarity.match(/^(\d+)\s*[x×]\s*/i)]: the first group. *)
Definition multiplierMatch (rarity : string) : option string :=
  match takeWhile isDigit rarity with
  | EmptyString => None
  | run =>
      match dropWhile isSpace (dropWhile isDigit rarity) with
      | String c _ => if isTimes c then Some run else None
      | EmptyString => None
      end
  end.

(** [/(\d+)\s*\/\s*([\d,]+)/] tried at the start of [s]: both groups. *)
Definition fractionAt (s : string) : option (string * string) :=
  match takeWhile isDigit s with
  | EmptyString => None
  | num =>
      match dropWhile isSpace (dropWhile isDigit s) with
      | String "/" r =>
          match takeWhile isDigitOrComma (dropWhile isSpace r) with
          | EmptyString => None
          | den => Some (num, den)
          end
      | _ => None
      end
  end.

(** [rarity.match(/(\d+)\s*\/\s*([\d,]+)/)]: the leftmost match. *)
Fixpoint fractionMatch (s : string) : option (string * string) :=
  match fractionAt s with
  | Some groups => Some groups
  | None =>
      match s with
      | EmptyString => None
      | String _ r => fractionMatch r
      end
  end.

(** [s.replace(/,/g, '')] *)
Fixpoint removeCommas (s : string) : string :=
  match s with
  | EmptyString => EmptyString
  | String c r =>
      if Ascii.eqb c "," then removeCommas r else String c (removeCommas r)
  end.

(** [rarityToPercent]; [None] is [undefined]. *)
Definition rarityToPercent (rarity : string) : option string :=
  let cleaned := trim (toLowerCase rarity) in
  if String.eqb cleaned "always" then Some "100%"
  else if String.eqb cleaned "common" then Some "~10-20%"
  else if String.eqb cleaned "uncommon" then Some "~5-10%"
  else if String.eqb cleaned "rare" then Some "~1-5%"
  else if String.eqb cleaned "very rare" then Some "<1%"
  else
    let multiplier :=
      match multiplierMatch rarity with
      | Some run => parseInt10 run
      | None => ofZ 1
      end in
    match fractionMatch rarity with
    | Some (g1, g2) =>
        let numerator := parseInt10 (removeCommas g1) in
        let denominator := parseInt10 (removeCommas g2) in
        if gt denominator (ofZ 0) then
          let percentage := mul (mul (div numerator denominator) multiplier) (ofZ 100) in
          if ge percentage (ofZ 1) then Some (toFixed percentage 2 ++ "%")
          else if ge percentage (div (ofZ 1) (ofZ 100))
               then Some (toFixed percentage 3 ++ "%")
               else Some (toFixed percentage 4 ++ "%")
        else None
    | None => None
    end.

(** [rarityToFraction] *)
Definition rarityToFraction (rarity : number) : string :=
  if ge rarity (ofZ 1) then "Always"
  else if le rarity (ofZ 0) then "Never"
  else
    let denominator := Math_round (div (ofZ 1) rarity) in
    "1/" ++ toLocaleString denominator.

(** Modelled from the spec: the string-to-decimal conversion of the
    round-trip property, [rarityToDecimal], is in none of the source
    files.  It reads a fraction ["N/D"] as the quotient of its two
    integers, the probability the text stands for. *)
Definition rarityToDecimal (rarity : string) : number :=
  match fractionMatch rarity with
  | Some (g1, g2) => div (parseInt10 (removeCommas g1)) (parseInt10 (removeCommas g2))
  | None => S754_nan
  end.

End Rarity.

(* ================================================================== *)
(** * Structured dataset cache (osrsreboxed-db) *)
(* ================================================================== *)

#[export] Instance Z_EqDec : EqDec Z := Z.eq_dec.

Module OsrsBox.
Import Num.

Record OsrsBoxDrop : Type := mkDrop {
  drop_id : Z;
  drop_name : string;
  drop_members : bool;
  drop_quantity : string;
  drop_noted : bool;
  drop_rarity : number;
  drop_rolls : Z
}.

Record OsrsBoxMonster : Type := mkMonster {
  id : Z;
  name : string;
  combat_level : Z;
  hitpoints : Z;
  wiki_url : string;
  drops : option (list OsrsBoxDrop)   (* [None]: the property is missing *)
}.

Record ItemSourceEntry : Type := mkSource {
  monsterId : Z;
  monsterName : string;
  combatLevel : Z;
  rarity : number;
  quantity : string;
  noted : bool
}.

Record OsrsBoxCache : Type := mkCache {
  monsters : JsMap.t Z OsrsBoxMonster;
  monsterNameIndex : JsMap.t string (list Z);
  itemDropIndex : JsMap.t Z (list ItemSourceEntry);
  timestamp : Z
}.

(** The fetched JSON document: an object from monster IDs to monsters. *)
Definition RawData : Type := list (string * OsrsBoxMonster).

Definition Object_values (rawData : RawData) : list OsrsBoxMonster :=
  List.map snd rawData.

(** The inner loop of [buildOsrsBoxIndexes] over the drops of a monster. *)
Fixpoint indexDrops (monster : OsrsBoxMonster) (ds : list OsrsBoxDrop)
    (itemDropIndex : JsMap.t Z (list ItemSourceEntry))
    : JsMap.t Z (list ItemSourceEntry) :=
  match ds with
  | [] => itemDropIndex
  | drop :: rest =>
      let sources :=
        match JsMap.get (drop_id drop) itemDropIndex with
        | Some l => l
        | None => []
        end in
      indexDrops monster rest
        (JsMap.set (drop_id drop)
           (sources ++ [mkSource (id monster) (name monster) (combat_level monster)
                          (drop_rarity drop) (drop_quantity drop) (drop_noted drop)])%list
           itemDropIndex)
  end.

Fixpoint indexMonsters (ms : list OsrsBoxMonster)
    (acc : JsMap.t Z OsrsBoxMonster * JsMap.t string (list Z)
           * JsMap.t Z (list ItemSourceEntry))
    : JsMap.t Z OsrsBoxMonster * JsMap.t string (list Z)
      * JsMap.t Z (list ItemSourceEntry) :=
  match ms with
  | [] => acc
  | monster :: rest =>
      let '(monsterMap, nameIndex, itemDropIndex) := acc in
      let nameLower := Js.toLowerCase (name monster) in
      let existing :=
        match JsMap.get nameLower nameIndex with
        | Some l => l
        | None => []
        end in
      indexMonsters rest
        (JsMap.set (id monster) monster monsterMap,
         JsMap.set nameLower (existing ++ [id monster])%list nameIndex,
         match drops monster with
         | Some ds => indexDrops monster ds itemDropIndex
         | None => itemDropIndex
         end)
  end.

Definition buildOsrsBoxIndexes (now : Z) (ms : list OsrsBoxMonster)
    : OsrsBoxCache :=
  let '(monsterMap, nameIndex, itemDropIndex) :=
    indexMonsters ms (JsMap.empty, JsMap.empty, JsMap.empty) in
  mkCache monsterMap nameIndex itemDropIndex now.

Record FetchResult : Type := mkFetchResult {
  success : bool;
  monsterCount : nat;
  totalDrops : nat;
  uniqueItems : nat;
  dryRun : bool;
  filePath : option string
}.

(** The snapshot file [osrsbox-monsters.json] (text and modification time,
    [None] while it does not exist) and the in-memory cache. *)
Record World : Type := mkWorld {
  snapshot : option (string * Z);
  osrsBoxCache : option OsrsBoxCache
}.

Fixpoint countDrops (ms : list OsrsBoxMonster) : nat :=
  match ms with
  | [] => 0
  | m :: rest =>
      match drops m with
      | Some ds => List.length ds + countDrops rest
      | None => countDrops rest
      end
  end.

(** [uniqueItemIds.add(drop.id)] over all drops, as the set grows. *)
Fixpoint collectItemIds (ms : list OsrsBoxMonster) (seen : list Z) : list Z :=
  match ms with
  | [] => seen
  | m :: rest =>
      collectItemIds rest
        match drops m with
        | Some ds =>
            List.fold_left
              (fun s d => if List.in_dec Z.eq_dec (drop_id d) s then s
                          else (s ++ [drop_id d])%list)
              ds seen
        | None => seen
        end
  end.

Section Files.
(** [JSON.stringify] and [JSON.parse] on the dataset, and the path
    [path.join(DATA_DIR, OSRSBOX_CACHE_FILE)]. *)
Variable JSON_stringify : RawData -> string.
Variable JSON_parse : string -> option RawData.
Variable snapshotPath : string.

(** [const OSRSBOX_CACHE_TTL = 24 * 60 * 60 * 1000] *)
Definition OSRSBOX_CACHE_TTL : Z := 24 * 60 * 60 * 1000.

(** [fetchOsrsBoxData]; [response] is what [axios.get] resolved or
    rejected with, [nowWrite] the modification time the written file
    gets and [nowBuild] the reading of the clock in
    [buildOsrsBoxIndexes]. *)
Definition fetchOsrsBoxData (response : result RawData) (saveToDisk : bool)
    (nowWrite nowBuild : Z) (w : World) : result FetchResult * World :=
  match response with
  | Throw e => (Throw e, w)
  | Ok rawData =>
      let monsters := Object_values rawData in
      if (List.length monsters =? 0)%nat then
        (Throw "No monsters found in osrsreboxed-db data", w)
      else if (List.length monsters <? 1000)%nat then
        (Throw ("Only " ++ NumFmt.decimal (Z.of_nat (List.length monsters))
                ++ " monsters found, expected 2800+. "
                ++ "Data structure may have changed."), w)
      else
        let totalDrops := countDrops monsters in
        let uniqueItems := List.length (collectItemIds monsters []) in
        let result :=
          mkFetchResult true (List.length monsters) totalDrops uniqueItems
                        (negb saveToDisk) in
        if saveToDisk then
          (Ok (result (Some snapshotPath)),
           mkWorld (Some (JSON_stringify rawData, nowWrite))
                   (Some (buildOsrsBoxIndexes nowBuild monsters)))
        else (Ok (result None), w)
  end.

(** [loadOsrsBoxFromDisk]; a failing [JSON.parse] is caught. *)
Definition loadOsrsBoxFromDisk (nowStat nowBuild : Z) (w : World)
    : bool * World :=
  match snapshot w with
  | None => (false, w)
  | Some (content, mtimeMs) =>
      if (OSRSBOX_CACHE_TTL <? nowStat - mtimeMs)%Z then (false, w)
      else
        match JSON_parse content with
        | None => (false, w)
        | Some rawData =>
            (true, mkWorld (snapshot w)
                     (Some (buildOsrsBoxIndexes nowBuild (Object_values rawData))))
        end
  end.

(** [getOsrsBoxCache]; [None] is the [null] result. *)
Definition getOsrsBoxCache (forceRefresh : bool) (response : result RawData)
    (nowAge nowStat nowBuild nowWrite : Z) (w : World)
    : option OsrsBoxCache * World :=
  let fetch (w0 : World) :=
    match fetchOsrsBoxData response true nowWrite nowBuild w0 with
    | (Ok _, w1) => (osrsBoxCache w1, w1)
    | (Throw _, w1) => (None, w1)
    end in
  let disk (w0 : World) :=
    if forceRefresh then fetch w0
    else
      match loadOsrsBoxFromDisk nowStat nowBuild w0 with
      | (true, w1) => (osrsBoxCache w1, w1)
      | (false, w1) => fetch w1
      end in
  match forceRefresh, osrsBoxCache w with
  | false, Some cache =>
      if (nowAge - timestamp cache <? OSRSBOX_CACHE_TTL)%Z
      then (Some cache, w)
      else disk w
  | _, _ => disk w
  end.
End Files.

End OsrsBox.

(* ================================================================== *)
(** * Truncation of page content *)
(* ================================================================== *)

Module Truncate.
Import Js.

Record TruncateResult : Type := mkTruncateResult {
  content : string;
  truncated : bool;
  originalLength : nat;
  truncatedAtSection : option string
}.

Definition truncationMsg : string :=
  String LF (String LF ("---" ++ String LF
    "*[Content truncated. Use sections parameter to request specific sections, or increase max_content_length.]*")).

Definition notLF (c : ascii) : bool := negb (Ascii.eqb c LF).
Definition isHash (c : ascii) : bool := Ascii.eqb c "#".

(** [\s*([^\n]+)] at the start of [s], the white space greedy: how many
    code units the white space takes, and the group. *)
Fixpoint spacesThenText (s : string) : option (nat * string) :=
  match s with
  | EmptyString => None
  | String c r =>
      if isSpace c then
        match spacesThenText r with
        | Some (k, txt) => Some (S k, txt)
        | None => if notLF c then Some (0, takeWhile notLF s) else None
        end
      else Some (0, takeWhile notLF s)
  end.

(** [/\n#{2,3}\s+([^\n]+)/] tried at the start of [s]: the group and the
    length of the match. *)
Definition headingAt (s : string) : option (string * nat) :=
  match s with
  | String c r =>
      if Ascii.eqb c LF then
        let hashes := String.length (takeWhile isHash r) in
        if (hashes =? 2)%nat || (hashes =? 3)%nat then
          match dropWhile isHash r with
          | String w r' =>
              if isSpace w then
                match spacesThenText r' with
                | Some (k, txt) =>
                    Some (txt, 1 + hashes + 1 + k + String.length txt)
                | None => None
                end
              else None
          | EmptyString => None
          end
        else None
      else None
  | EmptyString => None
  end.

(** [[...s.matchAll(/\n#{2,3}\s+([^\n]+)/g)]]: index and group of every
    match, left to right; [skip] code units still belong to the match
    before. *)
Fixpoint headingMatches_from (s : string) (i skip : nat) : list (nat * string) :=
  match s with
  | EmptyString => []
  | String _ r =>
      match skip with
      | S k => headingMatches_from r (S i) k
      | O =>
          match headingAt s with
          | Some (txt, len) => (i, txt) :: headingMatches_from r (S i) (len - 1)
          | None => headingMatches_from r (S i) 0
          end
      end
  end.

Definition headingMatches (s : string) : list (nat * string) :=
  headingMatches_from s 0 0.

(** The loop over the matches: the cut point and section of the last
    match that starts at or before [targetLength]. *)
Fixpoint lastHeading (ms : list (nat * string)) (targetLength : nat)
    (acc : option (nat * string)) : option (nat * string) :=
  match ms with
  | [] => acc
  | (index, group) :: rest =>
      lastHeading rest targetLength
        (if (index <=? targetLength)%nat then Some (index, trim group) else acc)
  end.

(** [s.lastIndexOf(p, bound)]; [None] is [-1]. *)
Fixpoint lastIndexOf_from (p s : string) (i bound : nat) (last : option nat)
    : option nat :=
  let here := if (i <=? bound)%nat && startsWith p s then Some i else last in
  match s with
  | EmptyString => here
  | String _ r => lastIndexOf_from p r (S i) bound here
  end.

Definition lastIndexOf (s p : string) (bound : nat) : option nat :=
  lastIndexOf_from p s 0 bound None.

Definition truncateContent (content : string) (maxLength : Z) : TruncateResult :=
  let originalLength := String.length content in
  if (Z.of_nat originalLength <=? maxLength)%Z then
    mkTruncateResult content false originalLength None
  else
    let targetLength := (maxLength - Z.of_nat (String.length truncationMsg))%Z in
    if (targetLength <=? 0)%Z then
      mkTruncateResult (trim truncationMsg) true originalLength None
    else
      let targetLength := Z.to_nat targetLength in
      let searchRegion := take (targetLength + 500) content in
      let found := lastHeading (headingMatches searchRegion) targetLength None in
      let cutPoint :=
        match found with
        | Some (index, _) => index
        | None =>
            match lastIndexOf content (String LF (String LF EmptyString)) targetLength with
            | Some lastParaBreak =>
                if (targetLength <? 2 * lastParaBreak)%nat then lastParaBreak
                else targetLength
            | None => targetLength
            end
        end in
      mkTruncateResult (trim (take cutPoint content) ++ truncationMsg) true
        originalLength (option_map snd found).

End Truncate.

(* ================================================================== *)
(** * Drop table extraction *)
(* ================================================================== *)

Module DropTable.
Import Js.

(** The parsed page, as [cheerio.load] hands it over. *)
#[warnings="-register-all"]
Inductive node : Type :=
| Text (s : string)
| Element (tag : string) (attrs : list (string * string)) (children : list node).

Record DropTableEntry : Type := mkDropTableEntry {
  item : string;
  quantity : string;
  rarity : string;
  rarityPercent : option string
}.

Record DropTableSection : Type := mkSection {
  category : string;
  drops : list DropTableEntry
}.

Definition isElement (n : node) : bool :=
  match n with Element _ _ _ => true | Text _ => false end.

Definition hasTag (t : string) (n : node) : bool :=
  match n with Element tag _ _ => String.eqb tag t | Text _ => false end.

Fixpoint attr (name : string) (attrs : list (string * string)) : option string :=
  match attrs with
  | [] => None
  | (k, v) :: r => if String.eqb k name then Some v else attr name r
  end.

Definition hasClass (cls : string) (n : node) : bool :=
  match n with
  | Element _ attrs _ =>
      match attr "class" attrs with
      | Some v => List.existsb (String.eqb cls) (FileStore.splitSpaces v)
      | None => false
      end
  | Text _ => false
  end.

(** [.text()] of one node *)
Fixpoint text (n : node) : string :=
  match n with
  | Text s => s
  | Element _ _ kids =>
      (fix go (l : list node) : string :=
         match l with
         | [] => EmptyString
         | k :: r => text k ++ go r
         end) kids
  end.

(** [.text()] of a selection *)
Definition textAll (l : list node) : string :=
  List.fold_right (fun n acc => text n ++ acc) EmptyString l.

(** [.find(selector)]: the descendants that satisfy [p], in document order *)
Fixpoint find (p : node -> bool) (n : node) : list node :=
  match n with
  | Text _ => []
  | Element _ _ kids =>
      (fix go (l : list node) : list node :=
         match l with
         | [] => []
         | k :: r => ((if p k then [k] else []) ++ find p k ++ go r)%list
         end) kids
  end.

Definition findAll (p : node -> bool) (l : list node) : list node :=
  List.flat_map (find p) l.

(** [table.wikitable] *)
Definition isWikitable (n : node) : bool :=
  hasTag "table" n && hasClass "wikitable" n.

(** Every [table.wikitable] below [n] ([n] included) in document order,
    each with its preceding sibling elements, the nearest first: what
    repeated [.prev()] walks through. *)
Fixpoint tablesWithPrev (prevs : list node) (n : node)
    : list (list node * node) :=
  match n with
  | Text _ => []
  | Element _ _ kids =>
      ((if isWikitable n then [(prevs, n)] else []) ++
       (fix go (before : list node) (l : list node) : list (list node * node) :=
          match l with
          | [] => []
          | k :: r =>
              (tablesWithPrev before k ++
               go (if isElement k then k :: before else before) r)%list
          end) [] kids)%list
  end.

(** [$('table.wikitable')] on a document given by its top-level nodes *)
Definition selectTables (document : list node) : list (list node * node) :=
  tablesWithPrev [] (Element "#document" [] document).

(** The headers of a table: [th] texts, trimmed and in lower case. *)
Definition headersOf (table : node) : list string :=
  List.map (fun th => toLowerCase (trim (text th))) (find (hasTag "th") table).

Definition qualifies (table : node) : bool :=
  List.existsb (fun h => includes h "item") (headersOf table) &&
  List.existsb (fun h => includes h "rarity") (headersOf table).

(** The test that ends the backward walk: a [table.wikitable] one of whose
    [th] mentions "rarity". *)
Definition isRarityTable (n : node) : bool :=
  isWikitable n &&
  List.existsb (fun th => includes (toLowerCase (text th)) "rarity")
               (find (hasTag "th") n).

Definition isHeading (n : node) : bool :=
  hasTag "h2" n || hasTag "h3" n || hasTag "h4" n.

(** The backward walk of the snapshot that takes the closest heading
    (unnamed/part_001): the first [h2], [h3] or [h4] met before a table
    with a rarity header. *)
Fixpoint precedingHeading (prevs : list node) : option node :=
  match prevs with
  | [] => None
  | currentElement :: rest =>
      if isHeading currentElement then Some currentElement
      else if isRarityTable currentElement then None
      else precedingHeading rest
  end.

(** The backward walk of the latest snapshot (unnamed/part_000), which
    prefers higher-level headings: [best] is the heading kept so far with
    its level, 5 when there is none. *)
Fixpoint bestHeading (prevs : list node) (best : option node * nat)
    : option node :=
  match prevs with
  | [] => fst best
  | currentElement :: rest =>
      if hasTag "h2" currentElement then Some currentElement
      else
        let best' :=
          if hasTag "h3" currentElement && (3 <? snd best)%nat
          then (Some currentElement, 3)
          else if hasTag "h4" currentElement && (4 <? snd best)%nat
          then (Some currentElement, 4)
          else best in
        if isRarityTable currentElement then fst best'
        else bestHeading rest best'
  end.

(** [s.replace(/\[edit\]/gi, '')]; [skip] code units still belong to the
    occurrence being removed. *)
Fixpoint removeEdit_from (s : string) (skip : nat) : string :=
  match s with
  | EmptyString => EmptyString
  | String c r =>
      match skip with
      | S k => removeEdit_from r k
      | O =>
          if startsWith "[edit]" (toLowerCase s) then removeEdit_from r 5
          else String c (removeEdit_from r 0)
      end
  end.

Definition headingTextOf (heading : node) : string :=
  match trim (textAll (find (hasClass "mw-headline") heading)) with
  | EmptyString => trim (removeEdit_from (text heading) 0)
  | t => t
  end.

(** [s.replace(/\s+/g, ' ')] *)
Fixpoint collapseSpaces (inSpace : bool) (s : string) : string :=
  match s with
  | EmptyString => EmptyString
  | String c r =>
      if isSpace c then
        if inSpace then collapseSpaces true r
        else String " " (collapseSpaces true r)
      else String c (collapseSpaces false r)
  end.

Definition clean (s : string) : string := trim (collapseSpaces false s).

(** The first loop over the [th] of the first row: the first column
    whose header mentions [word], [None] for -1. *)
Fixpoint firstColumn (word : string) (ths : list node) (idx : nat) : option nat :=
  match ths with
  | [] => None
  | th :: r =>
      if includes (toLowerCase (trim (text th))) word then Some idx
      else firstColumn word r (S idx)
  end.

(** The second loop, run when no header mentions "item". *)
Fixpoint imageColumnLoop (all ths : list node) (idx : nat) (itemColIdx : option nat)
    : option nat :=
  match ths with
  | [] => itemColIdx
  | th :: r =>
      let t := toLowerCase (trim (text th)) in
      imageColumnLoop all r (S idx)
        (if String.eqb t "" || String.eqb t "item" then
           match nth_error all (idx + 1) with
           | Some nextTh =>
               if includes (toLowerCase (trim (text nextTh))) "item"
               then Some (idx + 1)
               else if String.eqb t "" && (idx =? 0)%nat then Some 1
               else itemColIdx
           | None =>
               if String.eqb t "" && (idx =? 0)%nat then Some 1 else itemColIdx
           end
         else itemColIdx)
  end.

(** Item, quantity and rarity columns of a table; [None] is -1. *)
Definition columnsOf (table : node) : option nat * option nat * option nat :=
  let ths :=
    match find (hasTag "tr") table with
    | firstRow :: _ => find (hasTag "th") firstRow
    | [] => []
    end in
  let itemColIdx := firstColumn "item" ths 0 in
  let quantityColIdx := firstColumn "quantity" ths 0 in
  let rarityColIdx := firstColumn "rarity" ths 0 in
  match itemColIdx with
  | Some _ => (itemColIdx, quantityColIdx, rarityColIdx)
  | None =>
      match imageColumnLoop ths ths 0 None with
      | Some i => (Some i, quantityColIdx, rarityColIdx)
      | None => (Some 1, Some 2, Some 3)
      end
  end.

Definition isWikiLink (n : node) : bool :=
  match n with
  | Element tag attrs _ =>
      String.eqb tag "a" &&
      match attr "href" attrs with
      | Some h => startsWith "/w/" h
      | None => false
      end
  | Text _ => false
  end.

Definition nodeAttr (name : string) (n : node) : option string :=
  match n with Element _ attrs _ => attr name attrs | Text _ => None end.

(** The text of the first link below the selection, else of the selection *)
Definition linkOrText (sel : list node) : string :=
  match findAll (hasTag "a") sel with
  | link :: _ => trim (text link)
  | [] => trim (textAll sel)
  end.

(** [cells.eq(i)] and its text, trimmed; [None] when there is no such cell *)
Definition cellText (cells : list node) (i : nat) : option string :=
  option_map (fun c => trim (text c)) (nth_error cells i).

(** One data row; [None] when the row is skipped. *)
Definition parseRow (cols : option nat * option nat * option nat) (row : node)
    : option DropTableEntry :=
  let '(itemColIdx, quantityColIdx, rarityColIdx) := cols in
  (* [itemColIdx + 1] and [itemColIdx + 2], also for -1 *)
  let afterItem := match itemColIdx with Some i => (i + 1)%nat | None => 0%nat end in
  let afterQuantity := match itemColIdx with Some i => (i + 2)%nat | None => 1%nat end in
  let cells := find (hasTag "td") row in
  if (List.length cells <? 3)%nat then None
  else
    let itemName0 :=
      match find (hasClass "item-col") row with
      | _ :: _ as itemCell => linkOrText itemCell
      | [] =>
          match itemColIdx with
          | Some i =>
              match nth_error cells i with
              | Some cell => linkOrText [cell]
              | None => EmptyString
              end
          | None => EmptyString
          end
      end in
    let itemName1 :=
      if truthy itemName0 then itemName0
      else
        match findAll isWikiLink cells with
        | anyLink :: _ =>
            match nodeAttr "title" anyLink with
            | Some t => if truthy t then t else trim (text anyLink)
            | None => trim (text anyLink)
            end
        | [] => itemName0
        end in
    let orEmpty (o : option string) :=
      match o with Some s => s | None => EmptyString end in
    let quantity0 :=
      match quantityColIdx with
      | Some q =>
          match cellText cells q with
          | Some s => s
          | None => orEmpty (cellText cells afterItem)
          end
      | None => orEmpty (cellText cells afterItem)
      end in
    let rarity0 :=
      match rarityColIdx with
      | Some q =>
          match cellText cells q with
          | Some s => s
          | None => orEmpty (cellText cells afterQuantity)
          end
      | None => orEmpty (cellText cells afterQuantity)
      end in
    let itemName := clean itemName1 in
    let quantity := clean quantity0 in
    let rarity := clean rarity0 in
    if negb (truthy itemName) || String.eqb itemName "Nothing"
       || String.eqb itemName "N/A" then None
    else if negb (truthy rarity) then None
    else
      Some (mkDropTableEntry itemName
              (if truthy quantity then quantity else "1")
              rarity
              match Rarity.rarityToPercent rarity with
              | Some percent => if truthy percent then Some percent else None
              | None => None
              end).

Fixpoint filterMap {A B : Type} (f : A -> option B) (l : list A) : list B :=
  match l with
  | [] => []
  | x :: r =>
      match f x with
      | Some y => y :: filterMap f r
      | None => filterMap f r
      end
  end.

(** The drops of a table: every [tr] after the first. *)
Definition dropsOf (table : node) : list DropTableEntry :=
  filterMap (parseRow (columnsOf table)) (List.tl (find (hasTag "tr") table)).

(** [dropSections.find(s => s.category === currentCategory)] and the
    append to it, or the push of a new section. *)
Fixpoint addDrops (currentCategory : string) (ds : list DropTableEntry)
    (dropSections : list DropTableSection) : list DropTableSection :=
  match dropSections with
  | [] => [mkSection currentCategory ds]
  | s :: r =>
      if String.eqb (category s) currentCategory
      then mkSection (category s) (drops s ++ ds)%list :: r
      else s :: addDrops currentCategory ds r
  end.

Section Walk.
(** The backward walk from a table through its preceding siblings. *)
Variable walk : list node -> option node.

(** The category a table gets, given the category carried so far. *)
Definition categoryOf (prevs : list node) (currentCategory : string) : string :=
  match walk prevs with
  | Some heading =>
      let headingText := headingTextOf heading in
      if truthy headingText then headingText else currentCategory
  | None => currentCategory
  end.

(** The callback of [$('table.wikitable').each] over the tables left. *)
Fixpoint eachTable (tables : list (list node * node)) (currentCategory : string)
    (dropSections : list DropTableSection) : list DropTableSection :=
  match tables with
  | [] => dropSections
  | (prevs, table) :: rest =>
      if negb (qualifies table) then eachTable rest currentCategory dropSections
      else
        let currentCategory := categoryOf prevs currentCategory in
        let ds := dropsOf table in
        eachTable rest currentCategory
          (if (0 <? List.length ds)%nat
           then addDrops currentCategory ds dropSections
           else dropSections)
  end.

Definition extractDropTableWith (document : list node) : list DropTableSection :=
  eachTable (selectTables document) "Drops" [].
End Walk.

(** [extractDropTable] of the latest snapshot (unnamed/part_000) *)
Definition extractDropTable (document : list node) : list DropTableSection :=
  extractDropTableWith (fun prevs => bestHeading prevs (None, 5)) document.

(** [extractDropTable] of the snapshot unnamed/part_001; the two differ
    in the backward walk only. *)
Definition extractDropTable_nearest (document : list node)
    : list DropTableSection :=
  extractDropTableWith precedingHeading document.

End DropTable.

From Stdlib Require Sorting.Permutation.

(* ================================================================== *)
(** * Further lookups on the line files *)
(* ================================================================== *)

Module JsExtra.
Import Js Num.

(** [parseInt(s, 10)] on any text: leading white space, an optional
    sign, then the longest run of decimal digits; [NaN] when that run is
    empty, and [-0] for a negated zero. *)
Definition parseInt (s : string) : number :=
  let t := trimStart s in
  let '(negative, body) :=
    match t with
    | String "-" r => (true, r)
    | String "+" r => (false, r)
    | _ => (false, t)
    end in
  match takeWhile isDigit body with
  | EmptyString => S754_nan
  | run =>
      let n := ofZ (digitsValue run) in
      if negative then SFopp n else n
  end.

End JsExtra.

Module FileTools.
Import Js FileStore.

(** The loop of [findByExactName] from line [i] on; [None] is [null]. *)
Fixpoint findLoop (ls : list string) (i : nat) (searchName : string)
    : option Entry :=
  match ls with
  | [] => None
  | line :: rest =>
      if negb (truthy (trim line)) then findLoop rest (S i) searchName
      else
        let parts := splitChar TAB line in
        if (2 <=? List.length parts)%nat
           && String.eqb (toLowerCase (nth 1 parts EmptyString)) searchName
        then Some (mkEntry (JsExtra.parseInt (nth 0 parts EmptyString))
                           (nth 1 parts EmptyString) (i + 1) line)
        else findLoop rest (S i) searchName
  end.

Definition findByExactName (fs : FileSystem) (now : Z) (filePath name : string)
    (st : Store) : result (option Entry) * Store :=
  match getCachedFileLines fs now filePath st with
  | (Throw e, st1) => (Throw e, st1)
  | (Ok ls, st1) =>
      let searchName := replaceAllChar " " "_" (toLowerCase name) in
      (Ok (findLoop ls 0 searchName), st1)
  end.

(** [getFileLineCount]: an error of [getCachedFileLines] is caught and
    gives 0. *)
Definition getFileLineCount (fs : FileSystem) (now : Z) (filePath : string)
    (st : Store) : nat * Store :=
  match getCachedFileLines fs now filePath st with
  | (Ok ls, st1) => (List.length ls, st1)
  | (Throw _, st1) => (0%nat, st1)
  end.

(** The loop of the bulk lookups ([get_npctypes_by_ids] and the like):
    [results] and [notFound] in the order of the requested IDs.  Lookup
    number [n] reads the clock as [clock n] tells. *)
Fixpoint bulkLoop (fs : FileSystem) (clock : nat -> Z * Z * Z) (n : nat)
    (filePath : string) (ids : list Num.number)
    (results : list Entry) (notFound : list Num.number) (st : Store)
    : result (list Entry * list Num.number) * Store :=
  match ids with
  | [] => (Ok (results, notFound), st)
  | id :: rest =>
      let '(nowCheck, nowRead, nowLines) := clock n in
      match getEntryById fs nowCheck nowRead nowLines filePath id st with
      | (Throw e, st1) => (Throw e, st1)
      | (Ok None, st1) =>
          bulkLoop fs clock (S n) filePath rest results (notFound ++ [id])%list st1
      | (Ok (Some entry), st1) =>
          bulkLoop fs clock (S n) filePath rest (results ++ [entry])%list notFound st1
      end
  end.

Definition bulkLookup (fs : FileSystem) (clock : nat -> Z * Z * Z)
    (filePath : string) (ids : list Num.number) (st : Store)
    : result (list Entry * list Num.number) * Store :=
  bulkLoop fs clock 0 filePath ids [] [] st.

Record RangeEntry : Type := mkRangeEntry {
  range_id : Z;
  range_name : string;
  range_lineNumber : nat
}.

(** The integer an integer-valued double stands for. *)
Definition integerOf (x : Num.number) : Z :=
  match x with
  | S754_finite s m e => ((if s then -1 else 1) * Z.shiftl (Zpos m) e)%Z
  | _ => 0%Z
  end.

(** [id++] on an integer-valued double, given by the integer it stands
    for: the sum is the double nearest to [id + 1], which from 2^53 on
    need not be [id + 1]. *)
Definition increment (id : Z) : Z := integerOf (Num.ofZ (id + 1)).

(** The loop of [get_id_range] from [id] on: while [id <= endId] and
    fewer than [limit] entries are collected, an ID the index knows adds
    its entry, and [id++] follows.  A line index beyond the lines makes
    [line.split] throw.  [fuel] bounds the number of tests of the loop
    condition; [None] says that the loop has not ended within it. *)
Fixpoint rangeLoop (idIndex : JsMap.t Num.number nat) (ls : list string)
    (limit : nat) (fuel : nat) (id endId : Z) (results : list RangeEntry)
    : option (result (list RangeEntry)) :=
  match fuel with
  | O => None
  | S fuel' =>
      if (id <=? endId)%Z && (List.length results <? limit)%nat then
        match indexGet (Num.ofZ id) idIndex with
        | Some lineIndex =>
            match nth_error ls lineIndex with
            | Some line =>
                let parts := splitChar TAB line in
                rangeLoop idIndex ls limit fuel' (increment id) endId
                  (results ++
                   [mkRangeEntry id
                      (if (2 <=? List.length parts)%nat
                       then nth 1 parts EmptyString else EmptyString)
                      (lineIndex + 1)])%list
            | None =>
                Some (Throw "Cannot read properties of undefined (reading 'split')")
            end
        | None => rangeLoop idIndex ls limit fuel' (increment id) endId results
        end
      else Some (Ok results)
  end.

(** The handler [get_id_range] once the file is known to exist;
    [startId] and [endId] are the integers the two doubles of the
    request stand for.  [Some (Ok None)] is the response "startId must
    be <= endId", [None] a loop that has not ended within [fuel]. *)
Definition getIdRange (fuel : nat) (fs : FileSystem) (nowCheck nowRead nowLines : Z)
    (filePath : string) (startId endId : Z) (limit : nat) (st : Store)
    : option (result (option (list RangeEntry))) * Store :=
  if (endId <? startId)%Z then (Some (Ok None), st)
  else
    match buildIdIndex fs nowCheck nowRead filePath st with
    | (Throw e, st1) => (Some (Throw e), st1)
    | (Ok idIndex, st1) =>
        match getCachedFileLines fs nowLines filePath st1 with
        | (Throw e, st2) => (Some (Throw e), st2)
        | (Ok ls, st2) =>
            (match rangeLoop idIndex ls limit fuel startId endId [] with
             | Some (Ok results) => Some (Ok (Some results))
             | Some (Throw e) => Some (Throw e)
             | None => None
             end, st2)
        end
    end.

End FileTools.

(* ================================================================== *)
(** * Monster and drop lookups on the structured dataset *)
(* ================================================================== *)

Module MonsterTools.
Import Js Num OsrsBox.

(** The loop of [osrs_search_monster_drops] over the name index: the
    monsters of every name that contains [searchLower], in the order
    of the index. *)
Definition matchingMonsters (cache : OsrsBoxCache) (searchLower : string)
    : list OsrsBoxMonster :=
  flat_map
    (fun entry : string * list Z =>
       let '(name, ids) := entry in
       if includes name searchLower then
         flat_map
           (fun id =>
              match JsMap.get id (monsters cache) with
              | Some monster => [monster]
              | None => []
              end)
           ids
       else [])
    (monsterNameIndex cache).

Record FormattedDrop : Type := mkFormattedDrop {
  fd_id : Z;
  fd_name : string;
  fd_quantity : string;
  fd_rarity : number;
  fd_rarity_fraction : string;
  fd_rarity_percent : string;
  fd_noted : bool
}.

(** One drop as the monster lookups report it. *)
Definition formatDrop (drop : OsrsBoxDrop) : FormattedDrop :=
  mkFormattedDrop (drop_id drop) (drop_name drop) (drop_quantity drop)
    (drop_rarity drop)
    (Rarity.rarityToFraction (drop_rarity drop))
    (NumFmt.toFixed (mul (drop_rarity drop) (ofZ 100)) 4 ++ "%")
    (drop_noted drop).

Record MonsterResult : Type := mkMonsterResult {
  mr_id : Z;
  mr_name : string;
  mr_combat_level : Z;
  mr_hitpoints : Z;
  mr_wiki_url : string;
  mr_drop_count : nat;
  mr_drops : list FormattedDrop
}.

Definition formatMonster (monster : OsrsBoxMonster) : MonsterResult :=
  let formattedDrops :=
    match drops monster with
    | Some ds => List.map formatDrop ds
    | None => []
    end in
  mkMonsterResult (id monster) (name monster) (combat_level monster)
    (hitpoints monster) (wiki_url monster)
    (List.length formattedDrops) formattedDrops.

Record MonsterPagination : Type := mkMonsterPagination {
  mp_page : nat;
  mp_pageSize : nat;
  mp_totalPages : nat;
  mp_hasNextPage : bool;
  mp_hasPreviousPage : bool
}.

Record MonsterPage : Type := mkMonsterPage {
  mp_query : string;
  mp_totalResults : nat;
  mp_pagination : MonsterPagination;
  mp_monsters : list MonsterResult
}.

(** The handler [osrs_search_monster_drops] on a cache, without prices
    ([include_ge_prices] false, the default); [None] is the response
    "No monsters found matching ...".  [page] and [pageSize] are integers
    of at least 1, as the argument schema leaves them. *)
Definition searchMonsterDrops (cache : OsrsBoxCache) (monster_name : string)
    (page pageSize : positive) : option MonsterPage :=
  let searchLower := toLowerCase monster_name in
  let matching := matchingMonsters cache searchLower in
  match matching with
  | [] => None
  | _ =>
      let page := Pos.to_nat page in
      let pageSize := Pos.to_nat pageSize in
      let totalResults := List.length matching in
      let totalPages := FileStore.ceilDiv totalResults pageSize in
      let startIndex := (page - 1) * pageSize in
      let paginatedMonsters := firstn pageSize (skipn startIndex matching) in
      Some (mkMonsterPage monster_name totalResults
              (mkMonsterPagination page pageSize totalPages
                 (page <? totalPages)%nat (1 <? page)%nat)
              (List.map formatMonster paginatedMonsters))
  end.

End MonsterTools.

(* ================================================================== *)
(** * Section filter of page content *)
(* ================================================================== *)

Module Sections.
Import Js Truncate.

(** The line terminators among the code units 0..255: what [.] does not
    match, and where [^] and [$] match under the flag [m]. *)
Definition isLineTerminator (c : ascii) : bool :=
  Ascii.eqb c LF || Ascii.eqb c CR.

Definition notLineTerminator (c : ascii) : bool := negb (isLineTerminator c).

(** [\s*(.+)$] at the start of [s], the white space greedy: how many
    code units the white space takes, and the group. *)
Fixpoint spacesThenLine (s : string) : option (nat * string) :=
  match s with
  | EmptyString => None
  | String c r =>
      if isSpace c then
        match spacesThenLine r with
        | Some (k, txt) => Some (S k, txt)
        | None =>
            if notLineTerminator c
            then Some (0, takeWhile notLineTerminator s)
            else None
        end
      else Some (0, takeWhile notLineTerminator s)
  end.

(** [/^(#{2,3})\s+(.+)$/m] tried at the start of a line [s]: the length
    of the first group, the second group and the length of the match. *)
Definition sectionAt (s : string) : option (nat * string * nat) :=
  let hashes := String.length (takeWhile isHash s) in
  if (hashes =? 2)%nat || (hashes =? 3)%nat then
    match dropWhile isHash s with
    | String w r' =>
        if isSpace w then
          match spacesThenLine r' with
          | Some (k, txt) => Some (hashes, txt, hashes + 1 + k + String.length txt)
          | None => None
          end
        else None
    | EmptyString => None
    end
  else None.

Record SectionMatch : Type := mkSectionMatch {
  sm_title : string;
  sm_level : nat;
  sm_start : nat
}.

(** The [while] loop over [sectionRegex.exec(content)]: the matches from
    left to right.  [skip] code units still belong to the match before,
    and [lineStart] tells whether [^] matches here. *)
Fixpoint sectionMatches_from (s : string) (i skip : nat) (lineStart : bool)
    : list SectionMatch :=
  match s with
  | EmptyString => []
  | String c r =>
      match skip with
      | S k => sectionMatches_from r (S i) k (isLineTerminator c)
      | O =>
          match (if lineStart then sectionAt s else None) with
          | Some (level, txt, len) =>
              mkSectionMatch (trim txt) level i ::
              sectionMatches_from r (S i) (len - 1) (isLineTerminator c)
          | None => sectionMatches_from r (S i) 0 (isLineTerminator c)
          end
      end
  end.

Definition sectionMatches (content : string) : list SectionMatch :=
  sectionMatches_from content 0 0 true.

Record Section : Type := mkSection {
  sec_title : string;
  sec_level : nat;
  sec_start : nat;
  sec_content : string
}.

(** [content.substring(a, b)] for [a <= b] *)
Definition substring (a b : nat) (s : string) : string := take (b - a) (drop a s).

(** The second loop: the text of a section runs up to the start of the
    next one, or to the end of the content. *)
Fixpoint sectionsOf (content : string) (matches : list SectionMatch)
    : list Section :=
  match matches with
  | [] => []
  | current :: rest =>
      let nextStart :=
        match rest with
        | next :: _ => sm_start next
        | [] => String.length content
        end in
      mkSection (sm_title current) (sm_level current) (sm_start current)
                (trim (substring (sm_start current) nextStart content))
      :: sectionsOf content rest
  end.

(** The filter: a section stays when its title contains a title asked
    for, or is contained in one, case ignored. *)
Definition sectionMatchesTitles (normalizedTitles : list string) (section : Section)
    : bool :=
  let sectionTitleLower := toLowerCase (sec_title section) in
  List.existsb (fun t => includes sectionTitleLower t || includes t sectionTitleLower)
               normalizedTitles.

Definition extractSections (content : string) (sectionTitles : list string)
    : string :=
  match sectionTitles with
  | [] => content
  | _ =>
      let normalizedTitles := List.map (fun t => trim (toLowerCase t)) sectionTitles in
      let sections := sectionsOf content (sectionMatches content) in
      let matchedSections :=
        List.filter (sectionMatchesTitles normalizedTitles) sections in
      match matchedSections with
      | [] =>
          "*[No sections matching: " ++ join ", " sectionTitles ++ "]*"
          ++ String LF (String LF ("Available sections:" ++ String LF
               (join (String LF EmptyString)
                     (List.map (fun s => "- " ++ sec_title s) sections))))
      | _ =>
          join (String LF (String LF EmptyString))
               (List.map sec_content matchedSections)
      end
  end.

End Sections.

(* ================================================================== *)
(** * Sound IDs from the wiki *)
(* ================================================================== *)

Module SoundIds.
Import Js Num NumFmt DropTable FileStore.

Record SoundIdEntry : Type := mkSoundIdEntry {
  sound_id : number;
  sound_name : string
}.

Record IdRange : Type := mkIdRange {
  range_min : number;
  range_max : number
}.

Record UpdateSoundIdsResult : Type := mkUpdateResult {
  upd_success : bool;
  upd_entriesFound : nat;
  upd_entriesWritten : option nat;
  upd_idRange : option IdRange;
  upd_dryRun : bool;
  upd_filePath : option string;
  upd_error : option string
}.

(** [x - y] *)
Definition sub (x y : number) : number := SFsub prec emax x y.

(** [s.replace(/\s+/g, '_')] *)
Fixpoint underscoreSpaces (inSpace : bool) (s : string) : string :=
  match s with
  | EmptyString => EmptyString
  | String c r =>
      if isSpace c then
        if inSpace then underscoreSpaces true r
        else String "_" (underscoreSpaces true r)
      else String c (underscoreSpaces false r)
  end.

(** [headers.findIndex(p)] from index [i] on; [None] is -1. *)
Fixpoint findIndex_from (p : string -> bool) (headers : list string) (i : nat)
    : option nat :=
  match headers with
  | [] => None
  | h :: r => if p h then Some i else findIndex_from p r (S i)
  end.

Definition findIndex (p : string -> bool) (headers : list string) : option nat :=
  findIndex_from p headers 0.

(** [cells.eq(i).text().trim()]: the empty text when there is no such
    cell. *)
Definition cellTextAt (cells : list node) (i : nat) : string :=
  match nth_error cells i with
  | Some cell => trim (text cell)
  | None => EmptyString
  end.

(** A [Set<number>]: its members in insertion order, compared with
    SameValueZero. *)
Definition setHas (x : number) (s : list number) : bool :=
  List.existsb (fun y => if eq_dec (canonKey x) y then true else false) s.

Definition setAdd (x : number) (s : list number) : list number :=
  if setHas x s then s else (s ++ [canonKey x])%list.

Record ParseState : Type := mkParseState {
  entries : list SoundIdEntry;
  seenIds : list number
}.

(** The body of the loop over the data rows. *)
Definition parseSoundRow (idColIdx soundColIdx : nat) (st : ParseState)
    (row : node) : ParseState :=
  let cells := find (hasTag "td") row in
  if (List.length cells <? 2)%nat then st
  else
    let idText := cellTextAt cells idColIdx in
    let id := JsExtra.parseInt idText in
    if isNaN id then st
    else if setHas id (seenIds st) then st
    else
      let soundName := underscoreSpaces false (cellTextAt cells soundColIdx) in
      if negb (truthy soundName) then st
      else mkParseState (entries st ++ [mkSoundIdEntry id soundName])%list
                        (setAdd id (seenIds st)).

(** The body of the loop over the tables. *)
Definition parseSoundTable (st : ParseState) (table : node) : ParseState :=
  let headers :=
    match find (hasTag "tr") table with
    | firstRow :: _ =>
        List.map (fun th => toLowerCase (trim (text th)))
                 (find (hasTag "th") firstRow)
    | [] => []
    end in
  match findIndex (String.eqb "id") headers,
        findIndex (String.eqb "sound") headers with
  | Some idColIdx, Some soundColIdx =>
      List.fold_left (parseSoundRow idColIdx soundColIdx)
                     (List.tl (find (hasTag "tr") table)) st
  | _, _ => st
  end.

(** The comparator [(a, b) => a.id - b.id]. *)
Definition compareIds (a b : SoundIdEntry) : number :=
  sub (sound_id a) (sound_id b).

(** [entries.sort(compareIds)].  The sort is stable and the comparator
    consistent (no ID is [NaN]; a [NaN] difference, of two infinities,
    counts as 0), which fixes the result: an entry goes behind those
    that compare smaller, and stays in front of its equals that came
    later. *)
Fixpoint insertEntry (e : SoundIdEntry) (sorted : list SoundIdEntry)
    : list SoundIdEntry :=
  match sorted with
  | [] => [e]
  | h :: r =>
      if gt (compareIds e h) (ofZ 0) then h :: insertEntry e r
      else e :: sorted
  end.

Definition sortEntries (l : list SoundIdEntry) : list SoundIdEntry :=
  List.fold_right insertEntry [] l.

(** [parseSoundIdTables] on the parsed page. *)
Definition parseSoundIdTables (document : list node) : list SoundIdEntry :=
  sortEntries
    (entries
       (List.fold_left parseSoundTable (List.map snd (selectTables document))
                       (mkParseState [] []))).

(** [String(x)] for the numbers [parseInt] returns: [NaN], the
    infinities and integers.  An integer below 2^53 is written with all
    its digits, a larger one below 10^21 with the shortest digits that
    read back as it and zeros after them, one from 10^21 on in
    exponential notation.  (A number with a fraction, which [parseInt]
    never returns, is written as its integer part here.) *)
Definition integerToString (x : number) : string :=
  match x with
  | S754_nan => "NaN"
  | S754_infinity s => if s then "-Infinity" else "Infinity"
  | S754_zero _ => "0"
  | S754_finite s m e =>
      let X := if (0 <=? e)%Z then (Zpos m * 2 ^ e)%Z else (Zpos m / 2 ^ (- e))%Z in
      (if s then "-" else "") ++
      (if (X <? 2 ^ 53)%Z then decimal X
       else if (X <? 10 ^ 21)%Z then
         let n := Z.of_nat (String.length (decimal X)) in
         let '(digits, k) := shortestDigits 17 1 n X in
         decimal (digits * 10 ^ (n - k))
       else toStringLarge X)
  end.

(** One line of the file: [`${entry.id}\t${entry.name}`]. *)
Definition entryLine (entry : SoundIdEntry) : string :=
  integerToString (sound_id entry) ++ String TAB (sound_name entry).

(** [fs.writeFileSync(path, content, 'utf8')] where it succeeds. *)
Definition writeFile (path content : string) (fs : FileSystem) : FileSystem :=
  fun p => if String.eqb p path then Some content else fs p.

(** [updateSoundIdsFromWiki].  [response] is what the request of the
    page gives: an error, no text ([None], also for the empty text), or
    the page as [cheerio.load] parses it.  [writeError] is the error of
    [writeFileSync] when the file cannot be written; the file is then
    taken to be as it was.  [soundIdsPath] is
    [path.join(DATA_DIR, 'soundids.txt')]. *)
Definition updateSoundIdsFromWiki (response : result (option (list node)))
    (writeError : option string) (soundIdsPath : string) (dryRun : bool)
    (fs : FileSystem) (st : Store)
    : result UpdateSoundIdsResult * FileSystem * Store :=
  match response with
  | Throw e => (Throw e, fs, st)
  | Ok None => (Throw "Failed to fetch wiki page content", fs, st)
  | Ok (Some html) =>
      let entries := parseSoundIdTables html in
      match entries with
      | [] => (Throw "No sound ID entries found in wiki page", fs, st)
      | first :: _ =>
          if (List.length entries <? 1000)%nat then
            (Throw ("Only " ++ decimal (Z.of_nat (List.length entries))
                    ++ " entries found, expected 10,000+. "
                    ++ "Wiki page structure may have changed."), fs, st)
          else
            let idRange :=
              Some (mkIdRange (sound_id first)
                              (sound_id (List.last entries first))) in
            if dryRun then
              (Ok (mkUpdateResult true (List.length entries) None idRange
                                  dryRun None None), fs, st)
            else
              let fileContent :=
                join (String LF EmptyString) (List.map entryLine entries) in
              match writeError with
              | Some e => (Throw e, fs, st)
              | None =>
                  (Ok (mkUpdateResult true (List.length entries)
                                      (Some (List.length entries)) idRange
                                      dryRun (Some soundIdsPath) None),
                   writeFile soundIdsPath fileContent fs,
                   mkStore (JsMap.delete soundIdsPath (fileCache st))
                           (JsMap.delete soundIdsPath (idIndexCache st))
                           (fileCacheHits st) (fileCacheMisses st))
              end
      end
  end.

End SoundIds.

(* ================================================================== *)
(** * Notions the properties are stated with *)
(* ================================================================== *)

Module Spec.
Import Js.

(** Every code unit of [s] satisfies [p]. *)
Fixpoint allChars (p : ascii -> bool) (s : string) : bool :=
  match s with
  | EmptyString => true
  | String c r => p c && allChars p r
  end.

(** [run] is the maximal run of ASCII digits [line] starts with, and it
    is not empty. *)
Definition LeadingRun (line run : string) : Prop :=
  exists rest,
    line = run ++ rest /\ run <> EmptyString /\ allChars isDigit run = true /\
    (forall c rest', rest = String c rest' -> isDigit c = false).

(** [id] is the ID [line] starts with. *)
Definition LineId (line : string) (id : Num.number) : Prop :=
  exists run, LeadingRun line run /\ id = Num.parseInt10 run.

(** Line [j] of [ls] is the last one that starts with the ID [id]. *)
Definition LastWithId (ls : list string) (id : Num.number) (j : nat) (line : string)
    : Prop :=
  nth_error ls j = Some line /\ LineId line id /\
  forall k line', (j < k)%nat -> nth_error ls k = Some line' -> ~ LineId line' id.

(** A finite double that stands for the integer [z]. *)
Definition represents (x : Num.number) (z : Z) : Prop :=
  exists m e, x = S754_finite false m e /\ (e <= 0)%Z /\
              Zpos m = (z * 2 ^ (- e))%Z.

(** Groups of a comma and three digits. *)
Inductive ThreeDigitGroups : string -> Prop :=
| groups_nil : ThreeDigitGroups EmptyString
| groups_cons : forall a b c rest,
    isDigit a = true -> isDigit b = true -> isDigit c = true ->
    ThreeDigitGroups rest ->
    ThreeDigitGroups (String "," (String a (String b (String c rest)))).

(** A number written with thousands separators: one to three digits, then
    groups of a comma and three digits. *)
Definition GroupedInThrees (s : string) : Prop :=
  exists first rest,
    s = first ++ rest /\ (1 <= String.length first <= 3)%nat /\
    allChars isDigit first = true /\ ThreeDigitGroups rest.

(** [p] occurs in [s]. *)
Definition Occurs (p s : string) : Prop :=
  exists before after, s = before ++ p ++ after.

(** [line] contains [query] when case is ignored. *)
Definition ContainsIgnoringCase (line query : string) : Prop :=
  Occurs (toLowerCase query) (toLowerCase line).

(** The underscore form of a query. *)
Definition underscoreForm (query : string) : string :=
  replaceAllChar " " "_" query.

(** ** Lines, IDs and queries, said without the functions of the server *)

(** The text of [pieces] with a line feed between each two. *)
Fixpoint unlines (pieces : list string) : string :=
  match pieces with
  | [] => EmptyString
  | [p] => p
  | p :: rest => p ++ String LF (unlines rest)
  end.

Definition notLineFeed (c : ascii) : bool := negb (Ascii.eqb c LF).

Fixpoint lastChar (s : string) : option ascii :=
  match s with
  | EmptyString => None
  | String c EmptyString => Some c
  | String _ r => lastChar r
  end.

(** [line] is [piece] without the carriage return it may end with. *)
Definition WithoutCR (piece line : string) : Prop :=
  piece = line ++ String CR EmptyString \/
  (piece = line /\ lastChar line <> Some CR).

(** [ls] are the lines of [content]: the pieces between its line feeds,
    each without the carriage return it may end with. *)
Definition LinesOf (content : string) (ls : list string) : Prop :=
  exists pieces,
    pieces <> [] /\ content = unlines pieces /\
    (forall p, In p pieces -> allChars notLineFeed p = true) /\
    Forall2 WithoutCR pieces ls.

(** The place of [c] in [s], counted from [i] on. *)
Fixpoint positionIn (c : ascii) (s : string) (i : Z) : option Z :=
  match s with
  | EmptyString => None
  | String d r => if Ascii.eqb c d then Some i else positionIn c r (i + 1)
  end.

(** The value of a decimal digit: its place among the ten digits. *)
Definition digitOf (c : ascii) : option Z := positionIn c "0123456789" 0.

(** [run] is a non-empty string of decimal digits that denotes [z]. *)
Inductive Denotes : string -> Z -> Prop :=
| Denotes_digit : forall c d,
    digitOf c = Some d -> Denotes (String c EmptyString) d
| Denotes_more : forall run z c d,
    Denotes run z -> digitOf c = Some d ->
    Denotes (run ++ String c EmptyString) (10 * z + d).

(** [line] starts with the ID [z]: digits that denote [z], and no digit
    after them. *)
Definition StartsWithId (line : string) (z : Z) : Prop :=
  exists run rest,
    line = run ++ rest /\ Denotes run z /\
    forall c r, rest = String c r -> digitOf c = None.

(** [key] is the key of the line in an index: the ID the line starts
    with as a JavaScript number, the double nearest to it. *)
Definition Keyed (line : string) (key : Num.number) : Prop :=
  exists z, StartsWithId line z /\ key = Num.ofZ z.

(** Line [i] of [ls] is the last one with the key [key]. *)
Definition LastKeyed (ls : list string) (key : Num.number) (i : nat) : Prop :=
  exists line,
    nth_error ls i = Some line /\ Keyed line key /\
    forall j line', (i < j)%nat -> nth_error ls j = Some line' -> ~ Keyed line' key.

(** [u] is [query] with an underscore in the place of every space. *)
Inductive Underscored : string -> string -> Prop :=
| Underscored_end : Underscored EmptyString EmptyString
| Underscored_space : forall q u,
    Underscored q u -> Underscored (String " " q) (String "_" u)
| Underscored_other : forall c q u,
    c <> " "%char -> Underscored q u -> Underscored (String c q) (String c u).

(** The capital letters with their small letters: A to Z, and the
    capitals of Latin-1 (U+00C0 to U+00DE without the multiplication
    sign), each 32 code units below its small letter. *)
Definition letterPairs : list (ascii * ascii) :=
  (List.combine (list_ascii_of_string "ABCDEFGHIJKLMNOPQRSTUVWXYZ")
                (list_ascii_of_string "abcdefghijklmnopqrstuvwxyz") ++
   List.map (fun n => (ascii_of_nat n, ascii_of_nat (n + 32)))
            (seq 192 23 ++ seq 216 7))%list.

(** A letter without its case: the small letter of a capital. *)
Definition foldCase (c : ascii) : ascii :=
  match List.find (fun pair => Ascii.eqb (fst pair) c) letterPairs with
  | Some (_, small) => small
  | None => c
  end.

(** [a] and [b] are the same text when case is ignored. *)
Fixpoint SameIgnoringCase (a b : string) : Prop :=
  match a, b with
  | EmptyString, EmptyString => True
  | String c a', String d b' => foldCase c = foldCase d /\ SameIgnoringCase a' b'
  | _, _ => False
  end.

(** [line] holds [text], case ignored. *)
Definition HoldsIgnoringCase (line text : string) : Prop :=
  exists before part after,
    line = before ++ part ++ after /\ SameIgnoringCase part text.

(** The numbers of [l] increase strictly. *)
Fixpoint Ascending (l : list nat) : Prop :=
  match l with
  | a :: (b :: _) as rest => (a < b)%nat /\ Ascending rest
  | _ => True
  end.

End Spec.

Module FileStoreSpec.
Import FileStore.

(** The caches agree with the files: a cached snapshot holds the lines of
    the file as it is, and a cached index was built from the cached
    snapshot of its file. *)
Definition store_ok (fs : FileSystem) (st : Store) : Prop :=
  (forall path e, JsMap.get path (fileCache st) = Some e ->
     exists content, fs path = Some content /\ lines e = fileLines content) /\
  (forall path idx e,
     JsMap.get path (idIndexCache st) = Some idx ->
     JsMap.get path (fileCache st) = Some e ->
     idx = indexLoop (lines e) 0 JsMap.empty).

(** The key the loop of [buildIdIndex] stores a line under. *)
Definition lineKey (line : string) : option Num.number :=
  match matchLeadingDigits line with
  | Some run =>
      let id := Num.parseInt10 run in
      if negb (Num.isNaN id) then Some (Num.canonKey id) else None
  | None => None
  end.

(** The last offset, counted from [i], of a line stored under [k]. *)
Fixpoint lastOffset (ls : list string) (i : nat) (k : Num.number) : option nat :=
  match ls with
  | [] => None
  | line :: rest =>
      match lastOffset rest (S i) k with
      | Some j => Some j
      | None =>
          match lineKey line with
          | Some k' => if eq_dec k k' then Some i else None
          | None => None
          end
      end
  end.

(** The hits of a search before pagination. *)
Definition allHits (content query : string) : list Hit :=
  searchLoop (fileLines content) 0
             (Js.toLowerCase (Js.replaceAllChar " " "_" query)).

End FileStoreSpec.

Module WikiCacheSpec.
Import WikiCache.
Section WithData.
Variable Data : Type.

(** What holds of every reachable cache: no key twice, no empty key, at
    most [WIKI_CACHE_MAX_SIZE] entries. *)
Definition Inv (st : State Data) : Prop :=
  JsMap.wf (wikiCache st) /\
  (forall k, In k (JsMap.keys (wikiCache st)) -> Js.truthy k = true) /\
  (JsMap.size (wikiCache st) <= WIKI_CACHE_MAX_SIZE)%nat.

(** The map after the eviction step of [setWikiCache]. *)
Definition evicted (st : State Data) : JsMap.t string (CacheEntry Data) :=
  if (WIKI_CACHE_MAX_SIZE <=? JsMap.size (wikiCache st))%nat then
    match JsMap.firstKey (wikiCache st) with
    | Some oldestKey =>
        if Js.truthy oldestKey
        then JsMap.delete oldestKey (wikiCache st)
        else wikiCache st
    | None => wikiCache st
    end
  else wikiCache st.
End WithData.
End WikiCacheSpec.

Module DedupSpec.
Import Dedup.
Section WithValue.
Variable Value : Type.

(** The states the deduplicator can be in. *)
Definition Reachable (st : State Value) : Prop :=
  exists evs, st = run evs (initial Value).

(** A promise is not yet settled. *)
Definition unsettled (s : PromiseState Value) : Prop :=
  forall o, s <> Settled o.

(** The outstanding set and the promises agree: a key maps to the
    promise of its own fetch, which is not settled yet, and every promise
    that is not settled yet is the one its key maps to. *)
Definition Inv (st : State Value) : Prop :=
  (forall k p, JsMap.get k (pendingRequests st) = Some p ->
     exists s, nth_error (promises st) p = Some (mkPromise k s) /\ unsettled s) /\
  (forall p k s, nth_error (promises st) p = Some (mkPromise k s) ->
     unsettled s -> JsMap.get k (pendingRequests st) = Some p).
End WithValue.
End DedupSpec.

Module TruncateSpec.
Import Js Truncate.

(** The cut point: the maximum length less the room for the notice. *)
Definition targetLengthOf (maxLength : Z) : Z :=
  (maxLength - Z.of_nat (String.length truncationMsg))%Z.

(** White space within a line: any but the line feed. *)
Definition isBlank (c : ascii) : bool := isSpace c && Spec.notLineFeed c.

(** [level] times [#]. *)
Fixpoint hashes (level : nat) : string :=
  match level with
  | O => EmptyString
  | S n => String "#" (hashes n)
  end.

(** A title: no line feed in it, no white space at its start or end. *)
Definition Title (title : string) : Prop :=
  Spec.allChars Spec.notLineFeed title = true /\
  (exists c r, title = String c r /\ isSpace c = false) /\
  (exists init c, title = init ++ String c EmptyString /\ isSpace c = false).

(** [s] has a heading line of level [level] with the title [title] at
    [idx]: there a line feed, then [level] times [#], blanks, the title,
    and nothing but blanks up to the end of the line. *)
Definition HeadingLine (s : string) (idx level : nat) (title : string) : Prop :=
  exists before blanks trailing rest,
    s = before ++ String LF (hashes level ++ blanks ++ title ++ trailing ++ rest) /\
    String.length before = idx /\
    blanks <> EmptyString /\ Spec.allChars isBlank blanks = true /\
    Title title /\
    Spec.allChars isBlank trailing = true /\
    (rest = EmptyString \/ exists r, rest = String LF r).

(** The levels of markdown headings, and those the truncation cuts at
    ([##] and [###]). *)
Definition markdownLevel (level : nat) : Prop := (1 <= level <= 6)%nat.
Definition sectionLevel (level : nat) : Prop := level = 2%nat \/ level = 3%nat.

(** The latest heading line of [s], of a level among [levels], at or
    before [bound]. *)
Definition LatestHeading (levels : nat -> Prop) (s : string) (bound : Z)
    (idx : nat) (title : string) : Prop :=
  (exists level, levels level /\ HeadingLine s idx level title) /\
  (Z.of_nat idx <= bound)%Z /\
  forall idx' level' title',
    levels level' -> HeadingLine s idx' level' title' ->
    (Z.of_nat idx' <= bound)%Z -> (idx' <= idx)%nat.

(** At [idx] of [s] a line starts with [##] or [###] and white space. *)
Definition StartsHeading (s : string) (idx : nat) : Prop :=
  exists before level c after,
    s = before ++ String LF (hashes level ++ String c after) /\
    String.length before = idx /\ sectionLevel level /\ isSpace c = true.

(** Wherever a line of [s] starts with [##] or [###] and white space, it
    is a heading line. *)
Definition CleanHeadings (s : string) : Prop :=
  forall idx, StartsHeading s idx ->
    exists level title, sectionLevel level /\ HeadingLine s idx level title.

(** The property as the specification states it, for every content and
    every maximum length, with the headings of the levels [levels]:
    content that fits is returned unchanged, and longer content with a
    heading at or before the cut point reports the title of the latest
    such heading. *)
Definition AsSpecifiedFor (levels : nat -> Prop) : Prop :=
  forall content maxLength,
    ((Z.of_nat (String.length content) <= maxLength)%Z ->
     truncateContent content maxLength
     = mkTruncateResult content false (String.length content) None) /\
    (forall idx title,
       (maxLength < Z.of_nat (String.length content))%Z ->
       LatestHeading levels content (targetLengthOf maxLength) idx title ->
       truncated (truncateContent content maxLength) = true /\
       truncatedAtSection (truncateContent content maxLength) = Some title).

(** The specification speaks of markdown headings. *)
Definition AsSpecified : Prop := AsSpecifiedFor markdownLevel.

(** The indices of a list of matches increase strictly from [lo] on. *)
Fixpoint increasing (lo : nat) (l : list (nat * string)) : Prop :=
  match l with
  | [] => True
  | (i, _) :: r => (lo <= i)%nat /\ increasing (S i) r
  end.

End TruncateSpec.

Module DropTableSpec.
Import Js DropTable.

(** The sections attribute [entry] to the category [cat]. *)
Definition AttributedTo (sections : list DropTableSection)
    (entry : DropTableEntry) (cat : string) : Prop :=
  exists s, In s sections /\ category s = cat /\ In entry (drops s).

(** Among the preceding siblings [prevs] of a table (the nearest first),
    [h] is the nearest heading, and no table with a rarity header lies
    between it and the table. *)
Definition NearestHeading (prevs : list node) (h : node) : Prop :=
  exists before after,
    prevs = (before ++ h :: after)%list /\ isHeading h = true /\
    forall x, In x before -> isHeading x = false /\ isRarityTable x = false.

(** The property as the specification states it, of an extraction
    function: the drops of every qualifying table are attributed to the
    nearest heading that precedes the table. *)
Definition AsSpecified (extract : list node -> list DropTableSection) : Prop :=
  forall document prevs table h entry,
    In (prevs, table) (selectTables document) -> qualifies table = true ->
    NearestHeading prevs h -> truthy (headingTextOf h) = true ->
    In entry (dropsOf table) ->
    AttributedTo (extract document) entry (headingTextOf h).

(** The siblings the level-preferring walk looks at: up to the first [h2]
    or the first table with a rarity header, that one included. *)
Fixpoint walked (prevs : list node) : list node :=
  match prevs with
  | [] => []
  | x :: r => if hasTag "h2" x || isRarityTable x then [x] else x :: walked r
  end.

(** The heading the level-preferring walk is meant to choose: the nearest
    [h2] it looks at, else the nearest [h3], else the nearest [h4]. *)
Definition preferredHeading (prevs : list node) : option node :=
  match List.find (hasTag "h2") (walked prevs) with
  | Some h => Some h
  | None =>
      match List.find (hasTag "h3") (walked prevs) with
      | Some h => Some h
      | None => List.find (hasTag "h4") (walked prevs)
      end
  end.

(** The heading the level-preferring walk is meant to choose, as a
    relation. *)
Definition PreferredHeading (prevs : list node) (h : node) : Prop :=
  preferredHeading prevs = Some h.

(** The category of a table with the preceding siblings [prevs], when
    [carried] is the category of the table before it: the text of the
    heading chosen, when there is one and its text is not empty, else
    the category carried. *)
Definition LabelOf (Chosen : list node -> node -> Prop) (prevs : list node)
    (carried label : string) : Prop :=
  (exists h, Chosen prevs h /\ headingTextOf h <> EmptyString /\
             label = headingTextOf h) \/
  ((forall h, Chosen prevs h -> headingTextOf h = EmptyString) /\
   label = carried).

(** The qualifying tables among [tables], in their order, each with its
    category and its drops. *)
Inductive Labelling (Chosen : list node -> node -> Prop)
    : list (list node * node) -> string ->
      list (string * list DropTableEntry) -> Prop :=
| Labelling_nil carried : Labelling Chosen [] carried []
| Labelling_skip prevs table rest carried out :
    qualifies table = false ->
    Labelling Chosen rest carried out ->
    Labelling Chosen ((prevs, table) :: rest) carried out
| Labelling_table prevs table rest carried label out :
    qualifies table = true ->
    LabelOf Chosen prevs carried label ->
    Labelling Chosen rest label out ->
    Labelling Chosen ((prevs, table) :: rest) carried
              ((label, dropsOf table) :: out).

(** The drops the sections hold under the category [c], and the drops of
    the tables of the category [c], in the order of the tables. *)
Definition dropsUnder (sections : list DropTableSection) (c : string)
    : list DropTableEntry :=
  flat_map drops (List.filter (fun s => String.eqb (category s) c) sections).

Definition dropsLabelled (labelling : list (string * list DropTableEntry))
    (c : string) : list DropTableEntry :=
  flat_map snd (List.filter (fun p => String.eqb (fst p) c) labelling).

(** The sections file the drops as the labelling says: under every
    category the drops of the tables of that category and no others, one
    section for a category, no section without drops. *)
Definition FiledAs (sections : list DropTableSection)
    (labelling : list (string * list DropTableEntry)) : Prop :=
  NoDup (List.map category sections) /\
  (forall s, In s sections -> drops s <> []) /\
  forall c, dropsUnder sections c = dropsLabelled labelling c.

End DropTableSpec.

(** Concrete inputs the properties are instantiated on. *)
Module Examples.
Import Js.

Definition tab : string := String TAB EmptyString.
Definition nl : string := String LF EmptyString.

(** A data file with the ID 12 on two lines. *)
Definition npcFile : string :=
  "12" ++ tab ++ "Goblin" ++ nl ++
  "# comment" ++ nl ++
  "12" ++ tab ++ "Imp king" ++ nl ++
  "7" ++ tab ++ "Abyssal_whip" ++ nl ++
  "8" ++ tab ++ "Abyssal whip".

Definition npcLines : list string :=
  ["12" ++ tab ++ "Goblin"; "# comment"; "12" ++ tab ++ "Imp king";
   "7" ++ tab ++ "Abyssal_whip"; "8" ++ tab ++ "Abyssal whip"].

Definition dataFiles : FileStore.FileSystem :=
  fun path => if String.eqb path "npctypes.txt" then Some npcFile else None.

(** A wiki cache filled with [n] responses under distinct keys. *)
Definition actionName (n : nat) : string :=
  String (ascii_of_nat (97 + n / 26))
    (String (ascii_of_nat (97 + n mod 26)) EmptyString).

Fixpoint filledCache (n : nat) : WikiCache.State unit :=
  match n with
  | O => WikiCache.initial unit
  | S k =>
      WikiCache.setWikiCache 0 (WikiCache.getWikiCacheKey (actionName k) [])
                             tt (filledCache k)
  end.

(** A truncated download of one monster, and a world that holds a good
    snapshot on disk and in memory. *)
Definition goblin : OsrsBox.OsrsBoxMonster :=
  OsrsBox.mkMonster 3029 "Goblin" 2 5 "https://oldschool.runescape.wiki/w/Goblin"
    (Some [OsrsBox.mkDrop 526 "Bones" false "1" false (Num.ofZ 1) 1]).

Definition truncatedDownload : OsrsBox.RawData := [("3029", goblin)].

Definition goodWorld : OsrsBox.World :=
  OsrsBox.mkWorld (Some ("{...}", 1000%Z))
    (Some (OsrsBox.buildOsrsBoxIndexes 1000 [goblin; goblin])).

(** A page that starts with a heading, and a page with two headings. *)
Fixpoint repeatText (n : nat) (s : string) : string :=
  match n with
  | O => EmptyString
  | S k => s ++ repeatText k s
  end.

Definition headingFirst : string :=
  nl ++ "## Drops" ++ nl ++ repeatText 15 "Bones 1 Always. ".

(** One section of a page, as the section filter returns it: the heading
    stands on the first line. *)
Definition strategySection : string :=
  "## Strategy" ++ nl ++ repeatText 60 "Use protection prayers. ".

(** A page of 1461 characters with two headings. *)
Definition longPage : string :=
  "The abyssal whip is a weapon." ++ nl ++
  "## Combat" ++ nl ++ repeatText 40 "It hits fast. " ++ nl ++
  "### Special attack " ++ nl ++ repeatText 60 "Energy Drain. ".

(** A page of 1161 characters whose only heading is of the fourth
    level. *)
Definition notesPage : string :=
  "The abyssal whip is a weapon." ++ nl ++
  "#### Notes" ++ nl ++ repeatText 80 "It hits fast. ".

(** A page whose heading line runs beyond the first 1387 characters. *)
Definition longTitlePage : string :=
  repeatText 60 "It hits fast. " ++ nl ++
  "## " ++ repeatText 50 "Special attack " ++ nl ++ "Energy Drain.".

Definition twoHeadings : string :=
  "The abyssal whip is a weapon." ++ nl ++
  "## Combat" ++ nl ++ repeatText 10 "It hits fast. " ++ nl ++
  "### Special attack " ++ nl ++ repeatText 30 "Energy Drain. ".

(** A page with the heading "Drops" (h2), below it "Weapons" (h3) with a
    drop table, and "Runes" (h3) with another. *)
Definition th (s : string) : DropTable.node :=
  DropTable.Element "th" [] [DropTable.Text s].
Definition td (s : string) : DropTable.node :=
  DropTable.Element "td" [] [DropTable.Text s].

Definition dropTableOf (itemName rarity : string) : DropTable.node :=
  DropTable.Element "table" [("class", "wikitable sortable")]
    [DropTable.Element "tbody" []
       [DropTable.Element "tr" [] [th ""; th "Item"; th "Quantity"; th "Rarity"];
        DropTable.Element "tr" []
          [td "";
           DropTable.Element "td" [("class", "item-col")]
             [DropTable.Element "a" [("href", "/w/" ++ itemName)]
                [DropTable.Text itemName]];
           td "1"; td rarity]]].

Definition headingOf (tag title : string) : DropTable.node :=
  DropTable.Element tag []
    [DropTable.Element "span" [("class", "mw-headline")] [DropTable.Text title];
     DropTable.Text "[edit]"].

Definition paragraph : DropTable.node :=
  DropTable.Element "p" [] [DropTable.Text "Drop rates are estimates."].

Definition dropsPage : list DropTable.node :=
  [headingOf "h2" "Drops";
   headingOf "h3" "Weapons"; paragraph; dropTableOf "Sword" "1/128";
   headingOf "h3" "Runes"; dropTableOf "Fire rune" "2 x 1/1,024"].

(** A page with two drop tables and no heading between them. *)
Definition pairPage : list DropTable.node :=
  [headingOf "h3" "Weapons"; dropTableOf "Sword" "1/128";
   paragraph; dropTableOf "Fire rune" "2 x 1/1,024"].

Definition sword : DropTable.DropTableEntry :=
  DropTable.mkDropTableEntry "Sword" "1" "1/128" (Some "0.781%").

Definition fireRune : DropTable.DropTableEntry :=
  DropTable.mkDropTableEntry "Fire rune" "1" "2 x 1/1,024" (Some "0.195%").

End Examples.

(* ================================================================== *)
(** * Notions for the further properties *)
(* ================================================================== *)

Module FileToolsSpec.
Import Js Spec FileStore FileStoreSpec FileTools.

(** The number of occurrences of the code unit [c] in [s]. *)
Fixpoint countChar (c : ascii) (s : string) : nat :=
  match s with
  | EmptyString => 0
  | String d r => (if Ascii.eqb d c then 1 else 0) + countChar c r
  end.

Definition notTab (c : ascii) : bool := negb (Ascii.eqb c TAB).

(** [field] is a field of a line: it holds no tabulator. *)
Definition Field (field : string) : Prop := allChars notTab field = true.

(** [rest] is what follows a field: nothing, or a tabulator and more. *)
Definition FieldEnd (rest : string) : Prop :=
  rest = EmptyString \/ exists more, rest = String TAB more.

(** [line] is not blank, its first field is [idField], and its second
    field is [name]. *)
Definition NamedLine (line idField name : string) : Prop :=
  truthy (trim line) = true /\
  exists rest,
    Field idField /\ Field name /\ FieldEnd rest /\
    line = idField ++ String TAB (name ++ rest).

(** The name [getEntryById] reports for a line: what follows the first
    tabulator, nothing for a line without one. *)
Definition nameOfLine (line : string) : string :=
  match dropWhile notTab line with
  | String _ r => r
  | EmptyString => EmptyString
  end.

(** The entry of the last line that starts with [id]. *)
Definition entryOf (ls : list string) (id : Num.number) : option Entry :=
  match lastOffset ls 0 (Num.canonKey id) with
  | Some j =>
      match nth_error ls j with
      | Some line => Some (mkEntry id (nameOfLine line) (j + 1) line)
      | None => None
      end
  | None => None
  end.

(** What a bulk lookup adds to its results, and whether it adds to its
    list of IDs not found. *)
Definition found (ls : list string) (id : Num.number) : list Entry :=
  match entryOf ls id with Some e => [e] | None => [] end.

Definition missing (ls : list string) (id : Num.number) : bool :=
  match entryOf ls id with Some _ => false | None => true end.

Definition notBlank (c : ascii) : bool := negb (Ascii.eqb c " ").

(** The second field of a line, nothing for a line without tabulator. *)
Definition secondField (line : string) : string :=
  takeWhile notTab (nameOfLine line).

(** The entry a range query reports for [id]. *)
Definition rangeEntryOf (ls : list string) (id : Z) : list RangeEntry :=
  match lastOffset ls 0 (Num.canonKey (Num.ofZ id)) with
  | Some j =>
      match nth_error ls j with
      | Some line => [mkRangeEntry id (secondField line) (j + 1)]
      | None => []
      end
  | None => []
  end.

(** The integers [start], [start + 1], ... ([count] of them). *)
Fixpoint zseq (start : Z) (count : nat) : list Z :=
  match count with
  | O => []
  | S n => start :: zseq (start + 1) n
  end.

(** What the line caches can come to hold, whatever the files are at the
    time of each call: by the functions that set or delete an entry of
    [fileCache] or [idIndexCache] ([getCachedFileLines], [buildIdIndex]
    and [updateSoundIdsFromWiki]) and by the lookups built on them. *)
Inductive Reachable : Store -> Prop :=
| Reachable_empty : Reachable emptyStore
| Reachable_lines : forall fs now path st,
    Reachable st -> Reachable (snd (getCachedFileLines fs now path st))
| Reachable_index : forall fs nowCheck nowRead path st,
    Reachable st -> Reachable (snd (buildIdIndex fs nowCheck nowRead path st))
| Reachable_entry : forall fs nowCheck nowRead nowLines path id st,
    Reachable st ->
    Reachable (snd (getEntryById fs nowCheck nowRead nowLines path id st))
| Reachable_search : forall fs now path query page pageSize st,
    Reachable st -> Reachable (snd (searchFile fs now path query page pageSize st))
| Reachable_find : forall fs now path name st,
    Reachable st -> Reachable (snd (findByExactName fs now path name st))
| Reachable_count : forall fs now path st,
    Reachable st -> Reachable (snd (getFileLineCount fs now path st))
| Reachable_bulk : forall fs clock path ids st,
    Reachable st -> Reachable (snd (bulkLookup fs clock path ids st))
| Reachable_range : forall fuel fs nowCheck nowRead nowLines path startId endId
                            limit st,
    Reachable st ->
    Reachable (snd (getIdRange fuel fs nowCheck nowRead nowLines path
                               startId endId limit st))
| Reachable_update : forall response writeError path dryRun fs st,
    Reachable st ->
    Reachable (snd (SoundIds.updateSoundIdsFromWiki response writeError path
                                                    dryRun fs st)).

(** Every cached index was built from the lines cached for its file. *)
Definition IndexCurrent (st : Store) : Prop :=
  forall path idx,
    JsMap.get path (idIndexCache st) = Some idx ->
    exists e, JsMap.get path (fileCache st) = Some e /\
              idx = indexLoop (lines e) 0 JsMap.empty.

End FileToolsSpec.

Module DedupMoreSpec.
Import Dedup.
Section WithValue.
Variable Value : Type.

(** The number of promises made for the key [k]. *)
Definition promisesFor (k : string) (st : State Value) : nat :=
  List.length (List.filter (fun pr => String.eqb (key pr) k) (promises st)).

(** The fetcher was called once for every promise. *)
Definition Counted (st : State Value) : Prop :=
  forall k, produced k st = promisesFor k st.
End WithValue.
End DedupMoreSpec.

Module OsrsBoxMoreSpec.
Import OsrsBox.

(** The last monster of the dataset with the ID [i]. *)
Definition lastWithId (ms : list OsrsBoxMonster) (i : Z) : option OsrsBoxMonster :=
  List.find (fun m => Z.eqb (id m) i) (List.rev ms).

(** The IDs of the monsters named [lname] when case is ignored, in the
    order of the dataset. *)
Definition idsNamed (ms : list OsrsBoxMonster) (lname : string) : list Z :=
  List.map id
    (List.filter (fun m => String.eqb (Js.toLowerCase (name m)) lname) ms).

(** The source entry of a drop of a monster. *)
Definition sourceOf (m : OsrsBoxMonster) (d : OsrsBoxDrop) : ItemSourceEntry :=
  mkSource (id m) (name m) (combat_level m)
           (drop_rarity d) (drop_quantity d) (drop_noted d).

Definition dropsOf (m : OsrsBoxMonster) : list OsrsBoxDrop :=
  match drops m with Some ds => ds | None => [] end.

(** The sources of the item [item]: one entry for every drop of it, in
    the order of the dataset. *)
Definition sourcesOf (ms : list OsrsBoxMonster) (item : Z) : list ItemSourceEntry :=
  flat_map (fun m => List.map (sourceOf m)
                       (List.filter (fun d => Z.eqb (drop_id d) item) (dropsOf m)))
           ms.

(** A list as a map holds it: no entry for the empty list. *)
Definition nonEmpty {A : Type} (l : list A) : option (list A) :=
  match l with [] => None | _ => Some l end.

(** The list under a key after [new] was appended to it, element by
    element. *)
Definition appended {A : Type} (o : option (list A)) (new : list A)
    : option (list A) :=
  match new with
  | [] => o
  | _ => Some ((match o with Some l => l | None => [] end) ++ new)%list
  end.


End OsrsBoxMoreSpec.

Module SectionsSpec.
Import Js Sections.




End SectionsSpec.

Module DropTableMoreSpec.
Import Js DropTable.

(** An entry as a drop table may hold it: an item that is named and is
    neither "Nothing" nor "N/A", a rarity, a quantity, and the percentage
    of the rarity where there is one. *)
Definition ValidEntry (e : DropTableEntry) : Prop :=
  truthy (item e) = true /\ item e <> "Nothing" /\ item e <> "N/A" /\
  truthy (rarity e) = true /\ truthy (quantity e) = true /\
  rarityPercent e = Rarity.rarityToPercent (rarity e).

(** No category twice, no section without drops, valid entries only. *)
Definition WellFormed (sections : list DropTableSection) : Prop :=
  NoDup (List.map category sections) /\
  forall s, In s sections ->
    drops s <> [] /\ forall e, In e (drops s) -> ValidEntry e.

End DropTableMoreSpec.

Module RarityMoreSpec.
Import Js Spec Rarity.

(** The rarity terms with a fixed answer. *)
Definition rarityTerms : list string :=
  ["always"; "common"; "uncommon"; "rare"; "very rare"].

(** [text] holds the fraction [N/D]: digits, a slash that white space may
    surround, then digits and commas. *)
Definition FractionIn (text N D : string) : Prop :=
  exists before sp1 sp2 after,
    text = before ++ N ++ sp1 ++ "/" ++ sp2 ++ D ++ after /\
    N <> EmptyString /\ allChars isDigit N = true /\
    D <> EmptyString /\ allChars isDigitOrComma D = true /\
    allChars isSpace sp1 = true /\ allChars isSpace sp2 = true.

End RarityMoreSpec.

Module WikiCacheMoreSpec.
Import Spec.

(** [s] holds no code unit [c]. *)
Definition lacks (c : ascii) (s : string) : Prop :=
  allChars (fun d => negb (Ascii.eqb d c)) s = true.

(** A request whose key can be read back: no colon in the action, no
    parameter named twice, no [=] or [&] in a name and no [&] in a
    value. *)
Definition Plain (action : string) (params : list (string * string)) : Prop :=
  lacks ":" action /\ NoDup (List.map fst params) /\
  forall k v, In (k, v) params -> lacks "=" k /\ lacks "&" k /\ lacks "&" v.

End WikiCacheMoreSpec.

Module SoundIdsSpec.
Import Js Spec Num SoundIds.

Definition notSpace (c : ascii) : bool := negb (isSpace c).

(** An entry as the parser may give it: an ID that is a number, and a
    name that is not empty and holds no white space. *)
Definition ValidEntry (e : SoundIdEntry) : Prop :=
  isNaN (sound_id e) = false /\ sound_name e <> EmptyString /\
  allChars notSpace (sound_name e) = true.

(** What the loops of the parser keep: no ID twice, valid entries only,
    and every ID that was entered is in the set of IDs seen. *)
Definition Kept (st : ParseState) : Prop :=
  NoDup (List.map (fun e => canonKey (sound_id e)) (entries st)) /\
  forall e, In e (entries st) ->
    ValidEntry e /\ setHas (sound_id e) (seenIds st) = true.

(** Every ID is an integer from 0 to 2^53 - 1. *)
Definition SafeIds (entries : list SoundIdEntry) : Prop :=
  forall e, In e entries ->
    exists z, (0 <= z < 2 ^ 53)%Z /\ sound_id e = ofZ z.

(** The files other than [path] are those of [fs]. *)
Definition SameElsewhere (path : string) (fs fs' : FileStore.FileSystem) : Prop :=
  forall p, p <> path -> fs' p = fs p.

End SoundIdsSpec.

Module Fixtures.
Import Js.

(** A dataset of [n] goblins, the second of every three with a new ID. *)
Fixpoint goblins (n : nat) : OsrsBox.RawData :=
  match n with
  | O => []
  | S k =>
      ("3029",
       OsrsBox.mkMonster (3029 + Z.of_nat (k mod 3)) "Goblin" 2 5
         "https://oldschool.runescape.wiki/w/Goblin"
         (Some [OsrsBox.mkDrop 526 "Bones" false "1" false (Num.ofZ 1) 1]))
      :: goblins k
  end.

(** The data file of the examples after an edit on disk. *)
Definition npcFileEdited : string :=
  "12" ++ Examples.tab ++ "Hobgoblin".

Definition dataFilesEdited : FileStore.FileSystem :=
  fun path => if String.eqb path "npctypes.txt" then Some npcFileEdited else None.

Definition noFiles : FileStore.FileSystem := fun _ => None.

(** A page with an introduction and three sections. *)
Definition whipPage : string :=
  "The abyssal whip is a weapon." ++ Examples.nl ++ Examples.nl ++
  "## Combat" ++ Examples.nl ++ "It hits fast." ++ Examples.nl ++ Examples.nl ++
  "### Special attack" ++ Examples.nl ++ "Energy Drain." ++ Examples.nl ++ Examples.nl ++
  "## Drop sources" ++ Examples.nl ++ "Abyssal demon.".

(** A page with one table of [n] sounds, the IDs 0 to [n - 1]. *)
Fixpoint soundRows (n : nat) : list DropTable.node :=
  match n with
  | O => []
  | S k =>
      (soundRows k ++
       [DropTable.Element "tr" []
          [Examples.td (NumFmt.decimal (Z.of_nat k));
           Examples.td ("sound " ++ NumFmt.decimal (Z.of_nat k))]])%list
  end.

Definition soundPage (n : nat) : list DropTable.node :=
  [DropTable.Element "table" [("class", "wikitable")]
     (DropTable.Element "tr" [] [Examples.th "ID"; Examples.th "Sound"]
      :: soundRows n)].

End Fixtures.

(* ================================================================== *)
(** * Facts about strings, numbers and maps *)
(* ================================================================== *)

Module JsFacts.
Import Js Spec.

Lemma takeWhile_dropWhile (p : ascii -> bool) (s : string) :
  takeWhile p s ++ dropWhile p s = s.
Proof.
  induction s as [|c r IH]; simpl; [reflexivity|].
  destruct (p c); simpl; [now rewrite IH | reflexivity].
Qed.

Lemma takeWhile_all (p : ascii -> bool) (s : string) :
  allChars p (takeWhile p s) = true.
Proof.
  induction s as [|c r IH]; simpl; [reflexivity|].
  destruct (p c) eqn:E; simpl; [now rewrite E | reflexivity].
Qed.

Lemma dropWhile_head (p : ascii -> bool) (s : string) c r :
  dropWhile p s = String c r -> p c = false.
Proof.
  induction s as [|a s IH]; simpl; [discriminate|].
  destruct (p a) eqn:E; [exact IH|].
  intros H; inversion H; subst; exact E.
Qed.

Lemma takeWhile_app_stop (p : ascii -> bool) (run rest : string) :
  allChars p run = true ->
  (forall c rest', rest = String c rest' -> p c = false) ->
  takeWhile p (run ++ rest) = run.
Proof.
  intros Hall Hstop. induction run as [|c r IH]; simpl in *.
  - destruct rest as [|c r]; [reflexivity|].
    simpl. now rewrite (Hstop c r eq_refl).
  - apply andb_true_iff in Hall as [Hc Hr]. rewrite Hc. now rewrite IH.
Qed.

Lemma append_nil_r (s : string) : s ++ "" = s.
Proof. induction s; simpl; congruence. Qed.

Lemma append_assoc (a b c : string) : (a ++ b) ++ c = a ++ (b ++ c).
Proof. induction a; simpl; congruence. Qed.

Lemma startsWith_iff (p s : string) :
  startsWith p s = true <-> exists after, s = p ++ after.
Proof.
  revert s; induction p as [|a p IH]; intros s; simpl.
  - split; [intros _; now exists s | reflexivity].
  - destruct s as [|b s]; simpl.
    + split; [discriminate | intros [x Hx]; discriminate].
    + rewrite andb_true_iff, Ascii.eqb_eq, IH. split.
      * intros [-> [x ->]]. now exists x.
      * intros [x Hx]. inversion Hx; subst. split; [reflexivity | now exists x].
Qed.

Lemma includes_iff (s p : string) :
  includes s p = true <-> Occurs p s.
Proof.
  unfold Occurs. induction s as [|c s IH].
  - simpl. rewrite orb_false_r, startsWith_iff. split.
    + intros [x Hx]. exists "", x. exact Hx.
    + intros [b [a H]]. destruct b; [now exists a | discriminate].
  - simpl. rewrite orb_true_iff, startsWith_iff, IH. split.
    + intros [[x Hx] | [b [a H]]].
      * exists "", x. exact Hx.
      * exists (String c b), a. simpl. now rewrite H.
    + intros [b [a H]]. destruct b as [|c' b]; simpl in H.
      * left. now exists a.
      * right. inversion H; subst. now exists b, a.
Qed.

End JsFacts.

Module NumFacts.
Import Num.

Lemma iter_pos_inv {A : Type} (P : A -> Prop) (f : A -> A) :
  (forall x, P x -> P (f x)) ->
  forall n x, P x -> P (iter_pos f n x).
Proof.
  intros Hf. induction n as [n IH|n IH|]; intros x Hx; simpl.
  - apply IH, IH, Hf, Hx.
  - apply IH, IH, Hx.
  - apply Hf, Hx.
Qed.

Lemma shr_1_nonneg mrs : (0 <= shr_m mrs)%Z -> (0 <= shr_m (shr_1 mrs))%Z.
Proof.
  destruct mrs as [m r s]; simpl. intros H.
  destruct m as [|p|p]; simpl; try lia; destruct p; simpl; lia.
Qed.

Lemma shr_fexp_nonneg m e l :
  (0 <= m)%Z -> (0 <= shr_m (fst (shr_fexp prec emax m e l)))%Z.
Proof.
  intros H. unfold shr_fexp, shr.
  assert (H0 : (0 <= shr_m (shr_record_of_loc m l))%Z).
  { destruct l as [|[]]; simpl; exact H. }
  destruct (fexp prec emax (Zdigits2 m + e) - e)%Z; simpl; try exact H0.
  apply iter_pos_inv; [apply shr_1_nonneg | exact H0].
Qed.

Lemma round_nearest_even_nonneg m l :
  (0 <= m)%Z -> (0 <= round_nearest_even m l)%Z.
Proof.
  intros H. unfold round_nearest_even.
  destruct l as [|[]]; try lia. destruct (Z.even m); lia.
Qed.

(** Rounding a non-negative significand gives +0, a positive number or
    +Infinity. *)
Lemma binary_round_aux_nonneg m e l :
  (0 <= m)%Z ->
  isNaN (binary_round_aux prec emax false m e l) = false /\
  canonKey (binary_round_aux prec emax false m e l)
  = binary_round_aux prec emax false m e l.
Proof.
  intros H. unfold binary_round_aux.
  pose proof (shr_fexp_nonneg e l H) as H1.
  destruct (shr_fexp prec emax m e l) as [mrs' e'] eqn:E1. simpl in H1.
  pose proof (round_nearest_even_nonneg (loc_of_shr_record mrs') H1) as H2.
  pose proof (shr_fexp_nonneg e' loc_Exact H2) as H3.
  destruct (shr_fexp prec emax _ e' loc_Exact) as [mrs'' e''] eqn:E2.
  simpl in H3. destruct (shr_m mrs'') as [|p|p]; simpl.
  - split; reflexivity.
  - destruct (_ <=? _)%Z; split; reflexivity.
  - lia.
Qed.

Lemma ofZ_nonneg z :
  (0 <= z)%Z -> isNaN (ofZ z) = false /\ canonKey (ofZ z) = ofZ z.
Proof.
  intros H. unfold ofZ, binary_normalize. destruct z as [|p|p]; try lia.
  - split; reflexivity.
  - unfold binary_round.
    destruct (shl_align p 0 _) as [mz ez].
    apply binary_round_aux_nonneg. lia.
Qed.

Lemma digitsValue_acc_nonneg s acc :
  (0 <= acc)%Z -> (0 <= digitsValue_acc s acc)%Z.
Proof.
  revert acc; induction s as [|c r IH]; intros acc H;
    cbn [digitsValue_acc]; [exact H|].
  apply IH. unfold digitVal.
  pose proof (Nat2Z.is_nonneg (Js.code c - 48)). lia.
Qed.

(** A non-empty run of digits parses to a number, never to [NaN], and the
    number is its own key. *)
Lemma parseInt10_run run :
  run <> EmptyString -> Spec.allChars Js.isDigit run = true ->
  parseInt10 run = ofZ (digitsValue run) /\
  isNaN (parseInt10 run) = false /\
  canonKey (parseInt10 run) = parseInt10 run.
Proof.
  intros Hne Hall. unfold parseInt10.
  assert (Ht : Js.trimStart run = run).
  { destruct run as [|c r]; [congruence|]. simpl in *.
    apply andb_true_iff in Hall as [Hc _].
    unfold Js.trimStart; simpl.
    assert (Hs : Js.isSpace c = false).
    { unfold Js.isDigit in Hc. unfold Js.isSpace.
      apply andb_true_iff in Hc as [H1 H2].
      apply Nat.leb_le in H1. apply Nat.leb_le in H2.
      repeat rewrite orb_false_iff. repeat split.
      - apply andb_false_iff. right. apply Nat.leb_gt. lia.
      - apply Nat.eqb_neq. lia.
      - apply Nat.eqb_neq. lia. }
    now rewrite Hs. }
  rewrite Ht.
  assert (Hk : Js.takeWhile Js.isDigit run = run).
  { rewrite <- (JsFacts.append_nil_r run) at 1.
    apply JsFacts.takeWhile_app_stop; [exact Hall | discriminate]. }
  rewrite Hk.
  destruct run as [|c r]; [congruence|].
  pose proof (@ofZ_nonneg (digitsValue (String c r))
                (digitsValue_acc_nonneg _ (Z.le_refl 0))) as [H1 H2].
  repeat split; assumption.
Qed.

(** ** Integers below 2^53 are doubles *)

Lemma digits2_pos_size p : digits2_pos p = Pos.size p.
Proof. induction p; simpl; congruence. Qed.

Lemma iter_xO_value p k : Zpos (Pos.iter xO p k) = (Zpos p * 2 ^ Zpos k)%Z.
Proof.
  induction k as [|k IH] using Pos.peano_ind.
  - simpl. lia.
  - rewrite Pos.iter_succ, Pos2Z.inj_xO, IH, Pos2Z.inj_succ, Z.pow_succ_r by lia.
    lia.
Qed.

Lemma iter_xO_digits p k :
  digits2_pos (Pos.iter xO p k) = (digits2_pos p + k)%positive.
Proof.
  induction k as [|k IH] using Pos.peano_ind.
  - simpl. lia.
  - rewrite Pos.iter_succ. cbn [digits2_pos]. rewrite IH. lia.
Qed.

Lemma digits2_pos_bound p :
  (Zpos p < 2 ^ 53)%Z -> (Zpos (digits2_pos p) <= 53)%Z.
Proof.
  intros H. rewrite digits2_pos_size.
  destruct (Z.le_gt_cases (Zpos (Pos.size p)) 53) as [Hle|Hgt]; [exact Hle|].
  exfalso. pose proof (Pos.size_le p) as Hs.
  assert (H2 : (2 ^ Zpos (Pos.size p) <= 2 * Zpos p)%Z).
  { rewrite <- Pos2Z.inj_pow. change (2 * Zpos p)%Z with (Zpos p~0). exact Hs. }
  assert (H3 : (2 ^ 54 <= 2 ^ Zpos (Pos.size p))%Z)
    by (apply Z.pow_le_mono_r; lia).
  change (2 ^ 54)%Z with (2 * 2 ^ 53)%Z in H3. lia.
Qed.

Lemma binary_round_aux_exact m e :
  Zpos (digits2_pos m) = 53%Z -> (-52 <= e <= 0)%Z ->
  binary_round_aux prec emax false (Zpos m) e loc_Exact = S754_finite false m e.
Proof.
  intros Hd He.
  assert (Hshr : shr_fexp prec emax (Zpos m) e loc_Exact
                 = (Build_shr_record (Zpos m) false false, e)).
  { unfold shr_fexp, shr, shr_record_of_loc. cbn [Zdigits2].
    rewrite Hd. unfold fexp, emin, prec, emax.
    replace (Z.max (53 + e - 53) (3 - 1024 - 53) - e)%Z with 0%Z by lia.
    reflexivity. }
  unfold binary_round_aux. rewrite Hshr. cbn [shr_m loc_of_shr_record
    round_nearest_even]. rewrite Hshr. cbn [shr_m].
  assert (Hle : (e <=? emax - prec)%Z = true) by (apply Z.leb_le; unfold emax, prec; lia).
  now rewrite Hle.
Qed.

Lemma ofZ_exact z : (0 < z < 2 ^ 53)%Z -> Spec.represents (ofZ z) z.
Proof.
  intros [Hpos Hlt]. destruct z as [|p|p]; try lia.
  unfold ofZ, binary_normalize, binary_round.
  pose proof (@digits2_pos_bound p Hlt) as Hd.
  pose proof (Pos2Z.is_pos (digits2_pos p)) as Hd0.
  unfold shl_align, fexp, emin, prec, emax in *.
  replace (Z.max (Zpos (digits2_pos p) + 0 - 53) (3 - 1024 - 53) - 0)%Z
    with (Zpos (digits2_pos p) - 53)%Z by lia.
  destruct (Zpos (digits2_pos p) - 53)%Z as [|d|d] eqn:Ed; try lia.
  - rewrite binary_round_aux_exact by lia.
    exists p, 0%Z. repeat split; [lia | simpl; lia].
  - replace (Z.max (Zpos (digits2_pos p) + 0 - 53) (3 - 1024 - 53))%Z
      with (Zneg d) by lia.
    rewrite binary_round_aux_exact.
    + exists (Pos.iter xO p d), (Zneg d). repeat split; [lia|].
      rewrite iter_xO_value. reflexivity.
    + rewrite iter_xO_digits. lia.
    + lia.
Qed.

(** Different integers below 2^53 are different doubles. *)
Lemma ofZ_injective z1 z2 :
  (0 <= z1 < 2 ^ 53)%Z -> (0 <= z2 < 2 ^ 53)%Z -> ofZ z1 = ofZ z2 -> z1 = z2.
Proof.
  intros H1 H2 E.
  destruct (Z.eq_dec z1 0) as [->|N1]; destruct (Z.eq_dec z2 0) as [->|N2];
    try reflexivity.
  - destruct (@ofZ_exact z2) as [m [e [Hx _]]]; [lia|].
    rewrite <- E in Hx. discriminate.
  - destruct (@ofZ_exact z1) as [m [e [Hx _]]]; [lia|].
    rewrite E in Hx. discriminate.
  - destruct (@ofZ_exact z1) as [m1 [e1 [Hx1 [He1 Hm1]]]]; [lia|].
    destruct (@ofZ_exact z2) as [m2 [e2 [Hx2 [He2 Hm2]]]]; [lia|].
    rewrite E, Hx2 in Hx1. injection Hx1 as <- <-.
    rewrite Hm1 in Hm2.
    assert (Hp : (0 < 2 ^ (- e2))%Z) by (apply Z.pow_pos_nonneg; lia).
    nia.
Qed.

End NumFacts.

(** The notions of lines, IDs and queries agree with what the server
    computes. *)
Module SpecFacts.
Import Js Spec Num.

(** ** Lines *)

Lemma splitChar_piece rest : forall p,
  allChars notLineFeed p = true ->
  splitChar LF (p ++ String LF rest) = p :: splitChar LF rest.
Proof.
  induction p as [|c r IH]; intros Hp; cbn [append splitChar allChars] in *.
  - now rewrite Ascii.eqb_refl.
  - apply andb_true_iff in Hp as [Hc Hr]. unfold notLineFeed in Hc.
    destruct (Ascii.eqb c LF); [discriminate|]. now rewrite IH.
Qed.

Lemma splitChar_last : forall p,
  allChars notLineFeed p = true -> splitChar LF p = [p].
Proof.
  induction p as [|c r IH]; intros Hp; cbn [splitChar allChars] in *;
    [reflexivity|].
  apply andb_true_iff in Hp as [Hc Hr]. unfold notLineFeed in Hc.
  destruct (Ascii.eqb c LF); [discriminate|]. now rewrite IH.
Qed.

Lemma splitChar_unlines : forall pieces,
  pieces <> [] ->
  (forall p, In p pieces -> allChars notLineFeed p = true) ->
  splitChar LF (unlines pieces) = pieces.
Proof.
  induction pieces as [|p r IH]; intros Hne Hall; [now elim Hne|].
  destruct r as [|q r'].
  - cbn [unlines]. apply splitChar_last. apply Hall. now left.
  - change (unlines (p :: q :: r')) with (p ++ String LF (unlines (q :: r'))).
    rewrite splitChar_piece by (apply Hall; now left).
    f_equal. apply IH; [discriminate|]. intros x Hx. apply Hall. now right.
Qed.

Lemma stripTrailingCR_snoc : forall line,
  FileStore.stripTrailingCR (line ++ String CR EmptyString) = line.
Proof.
  induction line as [|c r IH]; [reflexivity|].
  cbn [append FileStore.stripTrailingCR].
  destruct (r ++ String CR EmptyString) as [|d r'] eqn:E.
  - destruct r; discriminate.
  - now rewrite IH.
Qed.

Lemma stripTrailingCR_none : forall line,
  lastChar line <> Some CR -> FileStore.stripTrailingCR line = line.
Proof.
  induction line as [|c r IH]; intros H; [reflexivity|].
  cbn [FileStore.stripTrailingCR lastChar] in *. destruct r as [|d r'].
  - destruct (Ascii.eqb_spec c CR) as [->|_]; [now elim H | reflexivity].
  - now rewrite (IH H).
Qed.

Lemma LinesOf_fileLines content ls :
  LinesOf content ls -> FileStore.fileLines content = ls.
Proof.
  intros (pieces & Hne & -> & Hall & Hcr). unfold FileStore.fileLines.
  rewrite splitChar_unlines by assumption.
  clear Hne Hall. induction Hcr as [|piece line pieces ls H _ IH];
    [reflexivity|].
  cbn [List.map]. rewrite IH. f_equal.
  destruct H as [->|[-> H]];
    [apply stripTrailingCR_snoc | now apply stripTrailingCR_none].
Qed.

(** ** IDs *)

Lemma digitOf_Some c d :
  digitOf c = Some d <-> isDigit c = true /\ digitVal c = d.
Proof.
  destruct c as [[] [] [] [] [] [] [] []]; vm_compute;
    first [ split; [intros H; discriminate H | intros [H _]; discriminate H]
          | split; [intros H; injection H as <-; split; reflexivity
                   | intros [_ <-]; reflexivity] ].
Qed.

Lemma digitOf_None c : digitOf c = None <-> isDigit c = false.
Proof.
  destruct c as [[] [] [] [] [] [] [] []]; vm_compute;
    split; intros H; first [reflexivity | discriminate H].
Qed.

Lemma digitsValue_snoc s c :
  digitsValue (s ++ String c EmptyString) = (10 * digitsValue s + digitVal c)%Z.
Proof.
  unfold digitsValue. generalize 0%Z.
  induction s as [|x r IH]; intros a; cbn [append digitsValue_acc];
    [reflexivity | apply IH].
Qed.

Lemma allChars_snoc p s c :
  allChars p (s ++ String c EmptyString) = allChars p s && p c.
Proof.
  induction s as [|x r IH]; cbn [append allChars].
  - now rewrite andb_true_r.
  - now rewrite IH, andb_assoc.
Qed.

Lemma Denotes_digits run z :
  Denotes run z ->
  run <> EmptyString /\ allChars isDigit run = true /\ digitsValue run = z.
Proof.
  induction 1 as [c d Hd|run z c d _ (Hne & Hall & Hval) Hd];
    apply digitOf_Some in Hd as [Hc Hv].
  - split; [discriminate|]. split; [cbn; now rewrite Hc|].
    subst d. unfold digitsValue. cbn. lia.
  - split; [destruct run; discriminate|].
    split; [now rewrite allChars_snoc, Hall, Hc|].
    rewrite digitsValue_snoc. now subst.
Qed.

Lemma string_snoc (s : string) :
  s <> EmptyString -> exists init c, s = init ++ String c EmptyString.
Proof.
  induction s as [|x r IH]; intros H; [now elim H|].
  destruct r as [|y r'].
  - now exists EmptyString, x.
  - destruct IH as (init & c & E); [discriminate|].
    exists (String x init), c. cbn [append]. now rewrite <- E.
Qed.

Lemma length_snoc (s : string) c :
  String.length (s ++ String c EmptyString) = S (String.length s).
Proof. induction s as [|x r IH]; cbn; [reflexivity | now rewrite IH]. Qed.

Lemma digits_Denotes : forall n run,
  String.length run = n -> run <> EmptyString ->
  allChars isDigit run = true -> Denotes run (digitsValue run).
Proof.
  induction n as [|n IH]; intros run Hlen Hne Hall.
  - destruct run; [now elim Hne | discriminate].
  - destruct (string_snoc Hne) as (init & c & ->).
    rewrite allChars_snoc in Hall. apply andb_true_iff in Hall as [Hi Hc].
    assert (Hd : digitOf c = Some (digitVal c)) by (now apply digitOf_Some).
    destruct init as [|x r].
    + cbn [append]. unfold digitsValue. cbn [digitsValue_acc].
      replace (10 * 0 + digitVal c)%Z with (digitVal c) by lia.
      now constructor.
    + rewrite digitsValue_snoc. constructor; [|exact Hd].
      apply IH; [|discriminate | exact Hi].
      rewrite length_snoc in Hlen. now injection Hlen.
Qed.

Lemma Keyed_LineId line key : Keyed line key <-> LineId line key.
Proof.
  unfold Keyed, StartsWithId, LineId, LeadingRun. split.
  - intros (z & (run & rest & -> & Hd & Hstop) & ->).
    destruct (Denotes_digits Hd) as (Hne & Hall & Hval).
    exists run. split.
    + exists rest. repeat split; try assumption.
      intros c r Hr. apply digitOf_None. now apply (Hstop c r).
    + destruct (NumFacts.parseInt10_run Hne Hall) as (-> & _). now rewrite Hval.
  - intros (run & (rest & -> & Hne & Hall & Hstop) & ->).
    exists (digitsValue run). split.
    + exists run, rest. split; [reflexivity|]. split.
      * now apply (@digits_Denotes (String.length run)).
      * intros c r Hr. apply digitOf_None. now apply (Hstop c r).
    + now destruct (NumFacts.parseInt10_run Hne Hall) as (-> & _).
Qed.

Lemma LastKeyed_LastWithId ls key i :
  LastKeyed ls key i <-> exists line, LastWithId ls key i line.
Proof.
  unfold LastKeyed, LastWithId. split; intros (line & Hn & Hk & Hlast);
    exists line; (split; [exact Hn|]); (split; [now apply Keyed_LineId|]);
    intros j line' Hj Hn' Hk'; apply (Hlast j line' Hj Hn');
    now apply Keyed_LineId.
Qed.

(** ** Queries *)

Lemma Underscored_replaceAllChar q u :
  Underscored q u <-> u = replaceAllChar " " "_" q.
Proof.
  split.
  - induction 1 as [|q u _ IH|c q u Hc _ IH]; cbn [replaceAllChar];
      [reflexivity | now rewrite IH |].
    destruct (Ascii.eqb_spec c " ") as [->|_]; [now elim Hc | now rewrite IH].
  - intros ->. induction q as [|c q IH]; cbn [replaceAllChar]; [constructor|].
    destruct (Ascii.eqb_spec c " ") as [->|Hc]; now constructor.
Qed.

Lemma foldCase_lowerChar c : foldCase c = lowerChar c.
Proof. destruct c as [[] [] [] [] [] [] [] []]; vm_compute; reflexivity. Qed.

Lemma SameIgnoringCase_toLowerCase : forall a b,
  SameIgnoringCase a b <-> toLowerCase a = toLowerCase b.
Proof.
  induction a as [|c a IH]; intros [|d b]; cbn [SameIgnoringCase toLowerCase];
    try (split; [tauto | discriminate]); [tauto|].
  rewrite IH, !foldCase_lowerChar. split.
  - intros [-> ->]. reflexivity.
  - intros [= -> ->]. now split.
Qed.

Lemma toLowerCase_app a b :
  toLowerCase (a ++ b) = toLowerCase a ++ toLowerCase b.
Proof. induction a as [|c a IH]; cbn; [reflexivity | now rewrite IH]. Qed.

Lemma toLowerCase_split : forall x s y,
  toLowerCase s = x ++ y ->
  exists a b, s = a ++ b /\ toLowerCase a = x /\ toLowerCase b = y.
Proof.
  induction x as [|c x IH]; intros s y H.
  - exists EmptyString, s. now repeat split.
  - destruct s as [|d s]; [discriminate|]. cbn [toLowerCase append] in H.
    injection H as Hc H. destruct (IH s y H) as (a & b & -> & Ha & Hb).
    exists (String d a), b. cbn. now rewrite Hc, Ha, Hb.
Qed.

Lemma HoldsIgnoringCase_includes line text :
  HoldsIgnoringCase line text <->
  includes (toLowerCase line) (toLowerCase text) = true.
Proof.
  rewrite JsFacts.includes_iff. unfold HoldsIgnoringCase, Occurs. split.
  - intros (before & part & after & -> & Hs).
    apply SameIgnoringCase_toLowerCase in Hs.
    exists (toLowerCase before), (toLowerCase after).
    now rewrite !toLowerCase_app, Hs.
  - intros (x & y & H).
    destruct (toLowerCase_split _ _ _ H) as (before & rest & -> & Hb & Hr).
    destruct (toLowerCase_split _ _ _ Hr) as (part & after & -> & Hp & Ha).
    exists before, part, after. split; [reflexivity|].
    now apply SameIgnoringCase_toLowerCase.
Qed.

End SpecFacts.

Module JsMapFacts.
Import JsMap.
Section Facts.
Context {K V : Type} `{EqDec K}.
Implicit Types (m : JsMap.t K V) (k : K) (v : V).

Lemma get_set_eq m k v : get k (set k v m) = Some v.
Proof.
  induction m as [|[k' v'] r IH]; simpl.
  - destruct (eq_dec k k); congruence.
  - destruct (eq_dec k k') as [E|E]; simpl.
    + destruct (eq_dec k k); congruence.
    + destruct (eq_dec k k'); congruence.
Qed.

Lemma get_set_neq m k k' v : k <> k' -> get k' (set k v m) = get k' m.
Proof.
  intros Hne. induction m as [|[k0 v0] r IH]; simpl.
  - destruct (eq_dec k' k); congruence.
  - destruct (eq_dec k k0) as [E|E]; simpl.
    + subst. destruct (eq_dec k' k0); congruence.
    + destruct (eq_dec k' k0); congruence.
Qed.

Lemma get_delete_eq m k : get k (delete k m) = None.
Proof.
  induction m as [|[k0 v0] r IH]; simpl; [reflexivity|].
  destruct (eq_dec k k0) as [E|E]; simpl; [exact IH|].
  destruct (eq_dec k k0); congruence.
Qed.

Lemma get_delete_neq m k k' : k <> k' -> get k' (delete k m) = get k' m.
Proof.
  intros Hne. induction m as [|[k0 v0] r IH]; simpl; [reflexivity|].
  destruct (eq_dec k k0) as [E|E]; simpl.
  - subst. destruct (eq_dec k' k0); congruence.
  - destruct (eq_dec k' k0); congruence.
Qed.

Lemma get_None_notin m k : get k m = None <-> ~ In k (keys m).
Proof.
  induction m as [|[k0 v0] r IH]; simpl.
  - tauto.
  - destruct (eq_dec k k0) as [E|E].
    + subst. split; [discriminate | intros Hn; exfalso; apply Hn; now left].
    + rewrite IH. intuition congruence.
Qed.

Lemma keys_set_new m k v : get k m = None -> keys (set k v m) = (keys m ++ [k])%list.
Proof.
  induction m as [|[k0 v0] r IH]; simpl; [reflexivity|].
  destruct (eq_dec k k0) as [E|E]; [discriminate|].
  intros Hn. simpl. now rewrite IH.
Qed.

Lemma keys_set_old m k v : get k m <> None -> keys (set k v m) = keys m.
Proof.
  induction m as [|[k0 v0] r IH]; simpl; [congruence|].
  destruct (eq_dec k k0) as [E|E]; simpl; [now subst|].
  intros Hn. now rewrite IH.
Qed.

Lemma size_set_new m k v : get k m = None -> size (set k v m) = S (size m).
Proof.
  intros Hn. unfold size. rewrite <- !(length_map fst).
  change (List.map fst (set k v m)) with (keys (set k v m)).
  rewrite keys_set_new by exact Hn. rewrite length_app. simpl.
  unfold keys. lia.
Qed.

Lemma size_set_le m k v : (size (set k v m) <= S (size m))%nat.
Proof.
  unfold size. induction m as [|[k0 v0] r IH]; simpl; [lia|].
  destruct (eq_dec k k0); simpl; lia.
Qed.

Lemma size_delete_le m k : (size (delete k m) <= size m)%nat.
Proof.
  unfold size. induction m as [|[k0 v0] r IH]; simpl; [lia|].
  destruct (eq_dec k k0); simpl; lia.
Qed.

Lemma delete_notin m k : get k m = None -> delete k m = m.
Proof.
  induction m as [|[k0 v0] r IH]; simpl; [reflexivity|].
  destruct (eq_dec k k0); [discriminate|]. intros Hn. now rewrite IH.
Qed.

Lemma wf_set m k v : wf m -> wf (set k v m).
Proof.
  unfold wf. intros Hw.
  destruct (get k m) eqn:E.
  - rewrite keys_set_old by congruence. exact Hw.
  - rewrite keys_set_new by exact E.
    apply NoDup_app; [exact Hw | repeat constructor; simpl; tauto |].
    intros x Hx [<-|[]]. now apply get_None_notin in E.
Qed.

Lemma keys_delete_subset m k x : In x (keys (delete k m)) -> In x (keys m).
Proof.
  induction m as [|[k0 v0] r IH]; simpl; [tauto|].
  destruct (eq_dec k k0); simpl; intuition.
Qed.

Lemma wf_delete m k : wf m -> wf (delete k m).
Proof.
  unfold wf. induction m as [|[k0 v0] r IH]; simpl; [trivial|].
  intros Hw. inversion Hw as [|? ? Hn Hr]; subst.
  destruct (eq_dec k k0); simpl; [now apply IH|].
  constructor; [|now apply IH].
  intros Hin. apply Hn. eapply keys_delete_subset, Hin.
Qed.

(** Deleting the first key of a map without repeated keys removes
    exactly its first entry. *)
Lemma delete_first m k v r : wf ((k, v) :: r) -> delete k ((k, v) :: r) = r.
Proof.
  intros Hw. simpl. destruct (eq_dec k k); [|congruence].
  inversion Hw; subst. apply delete_notin. now apply get_None_notin.
Qed.

End Facts.
End JsMapFacts.

(* ================================================================== *)
(** * The ID index and the lookups *)
(* ================================================================== *)

Module FileStoreFacts.
Import Js Spec FileStore FileStoreSpec.

Lemma matchLeadingDigits_iff line run :
  matchLeadingDigits line = Some run <-> LeadingRun line run.
Proof.
  unfold matchLeadingDigits, LeadingRun. split.
  - intros Hm. exists (dropWhile isDigit line).
    assert (Hrun : takeWhile isDigit line = run).
    { destruct (takeWhile isDigit line); [discriminate | congruence]. }
    rewrite <- Hrun. repeat split.
    + symmetry. apply JsFacts.takeWhile_dropWhile.
    + rewrite Hrun. destruct (takeWhile isDigit line); [discriminate|].
      inversion Hm. discriminate.
    + apply JsFacts.takeWhile_all.
    + intros c r. apply JsFacts.dropWhile_head.
  - intros [rest [-> [Hne [Hall Hstop]]]].
    rewrite JsFacts.takeWhile_app_stop by assumption.
    destruct run; congruence.
Qed.

Lemma lineKey_iff line k : lineKey line = Some k <-> LineId line k.
Proof.
  unfold lineKey, LineId. split.
  - destruct (matchLeadingDigits line) as [run|] eqn:E; [|discriminate].
    apply matchLeadingDigits_iff in E. pose proof E as [rest [_ [Hne [Hall _]]]].
    destruct (NumFacts.parseInt10_run Hne Hall) as [_ [Hn Hc]].
    cbv zeta. rewrite Hn, Hc. simpl. intros [= <-]. now exists run.
  - intros [run [Hrun ->]]. pose proof Hrun as [rest [_ [Hne [Hall _]]]].
    apply matchLeadingDigits_iff in Hrun. rewrite Hrun.
    destruct (NumFacts.parseInt10_run Hne Hall) as [_ [Hn Hc]].
    cbv zeta. now rewrite Hn, Hc.
Qed.

Lemma lineKey_None line :
  lineKey line = None <-> forall run, ~ LeadingRun line run.
Proof.
  split.
  - intros Hk run Hrun.
    assert (H : lineKey line = Some (Num.parseInt10 run)).
    { apply lineKey_iff. now exists run. }
    congruence.
  - intros Hno. destruct (lineKey line) as [k|] eqn:E; [|reflexivity].
    apply lineKey_iff in E as [run [Hrun _]]. now apply Hno in Hrun.
Qed.

(** One turn of the loop of [buildIdIndex], in terms of the key of the
    line. *)
Lemma indexLoop_cons line rest i index :
  indexLoop (line :: rest) i index
  = indexLoop rest (S i)
      match lineKey line with
      | Some k => JsMap.set k i index
      | None => index
      end.
Proof.
  simpl. f_equal. unfold lineKey, indexSet.
  destruct (matchLeadingDigits line) as [run|]; [|reflexivity].
  cbv zeta. destruct (negb (Num.isNaN (Num.parseInt10 run))); reflexivity.
Qed.

Lemma indexLoop_get ls : forall i index k,
  JsMap.get k (indexLoop ls i index)
  = match lastOffset ls i k with
    | Some j => Some j
    | None => JsMap.get k index
    end.
Proof.
  induction ls as [|line rest IH]; intros i index k; [reflexivity|].
  rewrite indexLoop_cons, IH. cbn [lastOffset].
  destruct (lastOffset rest (S i) k); [reflexivity|].
  destruct (lineKey line) as [k'|]; [|reflexivity].
  destruct (eq_dec k k') as [->|Hne].
  - apply JsMapFacts.get_set_eq.
  - apply JsMapFacts.get_set_neq. congruence.
Qed.

Lemma lastOffset_Some ls : forall i k j,
  lastOffset ls i k = Some j ->
  exists n line,
    j = (i + n)%nat /\ nth_error ls n = Some line /\ lineKey line = Some k /\
    forall n' line', (n < n')%nat -> nth_error ls n' = Some line' ->
                     lineKey line' <> Some k.
Proof.
  induction ls as [|line rest IH]; intros i k j; [discriminate|].
  cbn [lastOffset]. destruct (lastOffset rest (S i) k) as [j'|] eqn:E.
  - intros [= <-]. destruct (IH _ _ _ E) as [n [l [-> [Hn [Hk Hlast]]]]].
    exists (S n), l. repeat split; [lia | exact Hn | exact Hk |].
    intros [|n'] line' Hlt Hnth; [lia|]. apply (Hlast n'); [lia | exact Hnth].
  - destruct (lineKey line) as [k'|] eqn:Ek; [|discriminate].
    destruct (eq_dec k k') as [->|]; [|discriminate]. intros [= <-].
    exists 0%nat, line. repeat split; [lia | exact Ek |].
    intros [|n'] line' Hlt Hnth; [lia|]. simpl in Hnth.
    clear -E Hnth. revert i n' E Hnth.
    induction rest as [|l r IHr]; intros i n' E Hnth.
    + destruct n'; discriminate.
    + cbn [lastOffset] in E.
      destruct (lastOffset r (S (S i)) k') eqn:E2; [discriminate|].
      destruct n' as [|n'].
      * simpl in Hnth. injection Hnth as <-.
        destruct (lineKey l) as [k2|]; [|discriminate].
        destruct (eq_dec k' k2); [discriminate | congruence].
      * simpl in Hnth. apply (IHr (S i) n'); [|exact Hnth].
        exact E2.
Qed.

Lemma lastOffset_None ls : forall i k,
  lastOffset ls i k = None ->
  forall n line, nth_error ls n = Some line -> lineKey line <> Some k.
Proof.
  induction ls as [|l r IH]; intros i k E n line Hnth.
  - destruct n; discriminate.
  - cbn [lastOffset] in E.
    destruct (lastOffset r (S i) k) eqn:E2; [discriminate|].
    destruct n as [|n]; simpl in Hnth.
    + injection Hnth as <-. destruct (lineKey l) as [k2|]; [|discriminate].
      destruct (eq_dec k k2); [discriminate | congruence].
    + eapply IH; eassumption.
Qed.

(** The index maps [k] to [j] exactly when line [j] is the last line
    with the ID [k]. *)
Lemma indexLoop_last ls k j :
  JsMap.get k (indexLoop ls 0 JsMap.empty) = Some j <->
  exists line, LastWithId ls k j line.
Proof.
  rewrite indexLoop_get. split.
  - destruct (lastOffset ls 0 k) as [j'|] eqn:E; [|discriminate].
    intros [= ->]. destruct (lastOffset_Some _ _ _ E) as [n [l [-> [Hn [Hk Hl]]]]].
    exists l. repeat split; [exact Hn | now apply lineKey_iff |].
    intros n' l' Hlt Hn' Hid. apply lineKey_iff in Hid.
    now apply (Hl n' l' Hlt Hn').
  - intros [line [Hn [Hid Hlast]]]. apply lineKey_iff in Hid.
    destruct (lastOffset ls 0 k) as [j'|] eqn:E.
    + destruct (lastOffset_Some _ _ _ E) as [n [l [-> [Hn' [Hk Hl]]]]].
      simpl. f_equal.
      destruct (Nat.lt_trichotomy n j) as [Hlt|[->|Hgt]]; [|reflexivity|].
      * exfalso. now apply (Hl j line Hlt Hn).
      * exfalso. apply (Hlast n l Hgt Hn'). now apply lineKey_iff.
    + exfalso. now apply (lastOffset_None _ _ E _ Hn).
Qed.

Lemma indexLoop_skips ls : forall i index,
  (forall line, In line ls -> lineKey line = None) ->
  indexLoop ls i index = index.
Proof.
  induction ls as [|l r IH]; intros i index Hno; [reflexivity|].
  rewrite indexLoop_cons, (Hno l (or_introl eq_refl)).
  apply IH. intros line Hin. apply Hno. now right.
Qed.

(** ** The caches *)

Lemma store_ok_empty fs : store_ok fs emptyStore.
Proof. split; intros; discriminate. Qed.

Lemma getCachedFileLines_ok fs now path content st :
  store_ok fs st -> fs path = Some content ->
  exists st',
    getCachedFileLines fs now path st = (Ok (fileLines content), st') /\
    store_ok fs st' /\
    (exists e, JsMap.get path (fileCache st') = Some e /\
               lines e = fileLines content) /\
    (forall p, p <> path ->
       JsMap.get p (fileCache st') = JsMap.get p (fileCache st) /\
       JsMap.get p (idIndexCache st') = JsMap.get p (idIndexCache st)).
Proof.
  intros [Hsync Hidx] Hfs. unfold getCachedFileLines.
  assert (Hmiss : exists st',
    (let st1 := mkStore (fileCache st) (idIndexCache st) (fileCacheHits st)
                        (S (fileCacheMisses st)) in
     match fs path with
     | None => (Throw ("File not found: " ++ path), st1)
     | Some content0 =>
         (Ok (fileLines content0),
          mkStore (JsMap.set path (mkFileEntry (fileLines content0) now) (fileCache st1))
                  (JsMap.delete path (idIndexCache st1))
                  (fileCacheHits st1) (fileCacheMisses st1))
     end) = (Ok (fileLines content), st') /\
    store_ok fs st' /\
    (exists e, JsMap.get path (fileCache st') = Some e /\
               lines e = fileLines content) /\
    (forall p, p <> path ->
       JsMap.get p (fileCache st') = JsMap.get p (fileCache st) /\
       JsMap.get p (idIndexCache st') = JsMap.get p (idIndexCache st))).
  { cbv zeta. rewrite Hfs. eexists. split; [reflexivity|]. cbn.
    split; [split|split].
    - intros p e. cbn. destruct (string_dec path p) as [<-|Hne].
      + rewrite JsMapFacts.get_set_eq. intros [= <-]. now exists content.
      + rewrite JsMapFacts.get_set_neq by exact Hne. apply Hsync.
    - intros p idx e. cbn. destruct (string_dec path p) as [<-|Hne].
      + now rewrite JsMapFacts.get_delete_eq.
      + rewrite JsMapFacts.get_delete_neq, JsMapFacts.get_set_neq by exact Hne.
        apply Hidx.
    - eexists. split; [apply JsMapFacts.get_set_eq | reflexivity].
    - intros p Hne. split.
      + apply JsMapFacts.get_set_neq. congruence.
      + apply JsMapFacts.get_delete_neq. congruence. }
  destruct (JsMap.get path (fileCache st)) as [cached|] eqn:Ec; [|exact Hmiss].
  destruct (now - timestamp cached <? CACHE_TTL)%Z; [|exact Hmiss].
  destruct (Hsync _ _ Ec) as [c [Hc Hl]].
  assert (c = content) by congruence. subst c.
  eexists. split; [now rewrite Hl|]. cbn.
  split; [split; assumption|]. split; [now exists cached|]. tauto.
Qed.

Lemma buildIdIndex_ok fs nowCheck nowRead path content st :
  store_ok fs st -> fs path = Some content ->
  exists st',
    buildIdIndex fs nowCheck nowRead path st
    = (Ok (indexLoop (fileLines content) 0 JsMap.empty), st') /\
    store_ok fs st'.
Proof.
  intros Hok Hfs. unfold buildIdIndex.
  assert (Hre : exists st',
    match getCachedFileLines fs nowRead path st with
    | (Throw e, st1) => (Throw e, st1)
    | (Ok ls, st1) =>
        (Ok (indexLoop ls 0 JsMap.empty),
         mkStore (fileCache st1)
                 (JsMap.set path (indexLoop ls 0 JsMap.empty) (idIndexCache st1))
                 (fileCacheHits st1) (fileCacheMisses st1))
    end = (Ok (indexLoop (fileLines content) 0 JsMap.empty), st') /\
    store_ok fs st').
  { destruct (@getCachedFileLines_ok fs nowRead path content st Hok Hfs)
      as [st1 [-> [[Hs1 Hi1] [[e [He Hl]] _]]]].
    eexists. split; [reflexivity|]. split; cbn.
    - exact Hs1.
    - intros p idx e'. destruct (string_dec path p) as [<-|Hne].
      + rewrite JsMapFacts.get_set_eq. intros [= <-] He'.
        assert (e' = e) by congruence. subst. now rewrite Hl.
      + rewrite JsMapFacts.get_set_neq by exact Hne. apply Hi1. }
  destruct (JsMap.get path (idIndexCache st)) as [cachedIndex|] eqn:Ei;
    [|exact Hre].
  destruct (JsMap.get path (fileCache st)) as [fileEntry|] eqn:Ef; [|exact Hre].
  destruct (nowCheck - timestamp fileEntry <? CACHE_TTL)%Z; [|exact Hre].
  exists st. split; [|exact Hok].
  destruct Hok as [Hsync Hidx].
  rewrite (Hidx _ _ _ Ei Ef).
  destruct (Hsync _ _ Ef) as [c [Hc ->]]. congruence.
Qed.

(** The agreement of the caches with the files is kept by every
    operation, whether it returns or throws. *)
Lemma getCachedFileLines_preserves fs now path st :
  store_ok fs st -> store_ok fs (snd (getCachedFileLines fs now path st)).
Proof.
  intros Hok. destruct (fs path) as [content|] eqn:Hfs.
  - destruct (@getCachedFileLines_ok fs now path content st Hok Hfs)
      as [st' [-> [Hok' _]]]. exact Hok'.
  - unfold getCachedFileLines. rewrite Hfs.
    destruct (JsMap.get path (fileCache st)) as [cached|];
      [destruct (now - timestamp cached <? CACHE_TTL)%Z|];
      destruct Hok as [H1 H2]; split; assumption.
Qed.

Lemma buildIdIndex_preserves fs nowCheck nowRead path st :
  store_ok fs st -> store_ok fs (snd (buildIdIndex fs nowCheck nowRead path st)).
Proof.
  intros Hok. destruct (fs path) as [content|] eqn:Hfs.
  - destruct (@buildIdIndex_ok fs nowCheck nowRead path content st Hok Hfs)
      as [st' [-> Hok']]. exact Hok'.
  - assert (Hnone : JsMap.get path (fileCache st) = None).
    { destruct (JsMap.get path (fileCache st)) as [e|] eqn:E; [|reflexivity].
      destruct Hok as [Hsync _]. destruct (Hsync _ _ E) as [c [Hc _]].
      congruence. }
    unfold buildIdIndex, getCachedFileLines. rewrite Hnone, Hfs.
    destruct (JsMap.get path (idIndexCache st));
      destruct Hok as [H1 H2]; split; assumption.
Qed.

Lemma getEntryById_preserves fs nowCheck nowRead nowLines path id st :
  store_ok fs st ->
  store_ok fs (snd (getEntryById fs nowCheck nowRead nowLines path id st)).
Proof.
  intros Hok. unfold getEntryById.
  pose proof (@buildIdIndex_preserves fs nowCheck nowRead path st Hok) as H1.
  destruct (buildIdIndex fs nowCheck nowRead path st) as [[idx|e] st1];
    [|exact H1].
  cbn [snd] in H1. destruct (indexGet id idx) as [lineIndex|]; [|exact H1].
  pose proof (@getCachedFileLines_preserves fs nowLines path st1 H1) as H2.
  destruct (getCachedFileLines fs nowLines path st1) as [[ls|e] st2];
    [|exact H2].
  cbn [snd] in H2. destruct (nth_error ls lineIndex) as [line|]; [|exact H2].
  destruct (negb (truthy line)); exact H2.
Qed.

Lemma searchFile_preserves fs now path query page pageSize st :
  store_ok fs st ->
  store_ok fs (snd (searchFile fs now path query page pageSize st)).
Proof.
  intros Hok. unfold searchFile.
  pose proof (@getCachedFileLines_preserves fs now path st Hok) as H1.
  destruct (getCachedFileLines fs now path st) as [[ls|e] st1]; exact H1.
Qed.

End FileStoreFacts.

Module FileStoreProperties.
Import Js Spec FileStore FileStoreSpec FileStoreFacts.

(** The lines of the example file. *)
Lemma npcFile_lines : LinesOf Examples.npcFile Examples.npcLines.
Proof.
  exists Examples.npcLines. split; [discriminate|]. split; [reflexivity|].
  split.
  - intros p Hp. repeat (destruct Hp as [<-|Hp]; [reflexivity|]). destruct Hp.
  - repeat (apply Forall2_cons;
            [right; split; [reflexivity|];
             intros H; vm_compute in H; discriminate H|]).
    apply Forall2_nil.
Qed.

(** What a line is keyed with can be computed. *)
Lemma Keyed_lineKey line key : Keyed line key <-> lineKey line = Some key.
Proof. now rewrite SpecFacts.Keyed_LineId, lineKey_iff. Qed.

(** C1.  For every file, the ID index built by [buildIdIndex] contains
    exactly the IDs that are the maximal leading run of ASCII digits of
    some line, each mapped to the 0-based offset of its line (of the last
    such line when there are several): the index has an entry for a key
    exactly when a line of the file is the last one that starts with
    digits denoting an ID of this key; every line that starts with an ID
    has this ID in the index; and a file none of whose lines starts with
    a digit yields the empty index.  The lines are the pieces of the
    content between its line feeds, an ID is what the digits denote, and
    the key of an ID is the JavaScript number it is read as. *)
Theorem buildIdIndex_exact fs nowCheck nowRead path content ls st :
  store_ok fs st -> fs path = Some content -> LinesOf content ls ->
  exists index st',
    buildIdIndex fs nowCheck nowRead path st = (Ok index, st') /\
    (forall key i, JsMap.get key index = Some i <-> LastKeyed ls key i) /\
    (forall i line z,
       nth_error ls i = Some line -> StartsWithId line z ->
       exists j, JsMap.get (Num.ofZ z) index = Some j /\ (i <= j)%nat) /\
    ((forall line c r, In line ls -> line = String c r -> digitOf c = None) ->
     index = JsMap.empty).
Proof.
  intros Hok Hfs Hls. apply SpecFacts.LinesOf_fileLines in Hls. subst ls.
  destruct (@buildIdIndex_ok fs nowCheck nowRead path content st Hok Hfs)
    as [st' [Hb _]].
  exists (indexLoop (fileLines content) 0 JsMap.empty), st'.
  split; [exact Hb|]. split; [|split].
  - intros key i. now rewrite indexLoop_last, SpecFacts.LastKeyed_LastWithId.
  - intros i line z Hn Hid. rewrite indexLoop_get.
    assert (Hkey : lineKey line = Some (Num.ofZ z))
      by (apply Keyed_lineKey; now exists z).
    destruct (lastOffset (fileLines content) 0 (Num.ofZ z)) as [j|] eqn:E.
    + exists j. split; [reflexivity|].
      destruct (lastOffset_Some _ _ _ E) as [n [l [-> [_ [_ Hlast]]]]].
      destruct (Nat.le_gt_cases i n) as [Hle|Hgt]; [simpl; lia|].
      exfalso. now apply (Hlast i line Hgt Hn).
    + exfalso. now apply (lastOffset_None _ _ E _ Hn).
  - intros Hno. apply indexLoop_skips.
    intros line Hin. apply lineKey_None.
    intros run (rest & -> & Hne & Hall & _).
    destruct run as [|c r]; [now elim Hne|].
    cbn [allChars] in Hall. apply andb_true_iff in Hall as [Hc _].
    pose proof (Hno _ c (r ++ rest) Hin eq_refl) as Hd.
    apply SpecFacts.digitOf_None in Hd. congruence.
Qed.

Lemma buildIdIndex_exact_witness :
  exists index st',
    buildIdIndex Examples.dataFiles 0 0 "npctypes.txt" emptyStore = (Ok index, st') /\
    JsMap.get (Num.ofZ 12) index = Some 2%nat /\
    JsMap.get (Num.ofZ 7) index = Some 3%nat /\
    JsMap.get (Num.ofZ 8) index = Some 4%nat /\
    JsMap.get (Num.ofZ 99) index = None /\
    (forall key, JsMap.get key index <> Some 1%nat).
Proof.
  destruct (@buildIdIndex_exact Examples.dataFiles 0 0 "npctypes.txt"
              Examples.npcFile Examples.npcLines emptyStore
              (store_ok_empty _) eq_refl npcFile_lines)
    as (index & st' & Hb & Hiff & _).
  exists index, st'. split; [exact Hb|].
  assert (Hlast : forall key i line,
            nth_error Examples.npcLines i = Some line ->
            lineKey line = Some key ->
            (forall j line', (i < j)%nat ->
               nth_error Examples.npcLines j = Some line' ->
               lineKey line' <> Some key) ->
            JsMap.get key index = Some i).
  { intros key i line Hn Hk Hl. apply Hiff. exists line.
    split; [exact Hn|]. split; [now apply Keyed_lineKey|].
    intros j line' Hj Hn' Hk'. apply (Hl j line' Hj Hn').
    now apply Keyed_lineKey. }
  assert (Hlater : forall key i,
            (forall j line', (i < j)%nat ->
               nth_error Examples.npcLines j = Some line' ->
               lineKey line' <> Some key) <->
            (forall j, (i < j)%nat -> (j < 5)%nat ->
               match nth_error Examples.npcLines j with
               | Some line' => lineKey line' <> Some key
               | None => True
               end)).
  { intros key i. split.
    - intros H j Hj _. destruct (nth_error Examples.npcLines j) eqn:E;
        [now apply (H j) | exact I].
    - intros H j line' Hj Hn. destruct (Nat.lt_ge_cases j 5) as [H5|H5].
      + specialize (H j Hj H5). now rewrite Hn in H.
      + assert (Hnone : nth_error Examples.npcLines j = None)
          by (apply nth_error_None; exact H5).
        congruence. }
  split; [|split; [|split; [|split]]].
  - apply (Hlast _ 2%nat ("12" ++ Examples.tab ++ "Imp king"));
      [reflexivity | reflexivity |].
    apply Hlater. intros j H1 H2.
    assert (Hj : j = 3%nat \/ j = 4%nat) by lia.
    destruct Hj as [->| ->]; vm_compute; discriminate.
  - apply (Hlast _ 3%nat ("7" ++ Examples.tab ++ "Abyssal_whip"));
      [reflexivity | reflexivity |].
    apply Hlater. intros j H1 H2.
    assert (Hj : j = 4%nat) by lia. subst j. vm_compute. discriminate.
  - apply (Hlast _ 4%nat ("8" ++ Examples.tab ++ "Abyssal whip"));
      [reflexivity | reflexivity |].
    apply Hlater. intros j H1 H2. lia.
  - destruct (JsMap.get (Num.ofZ 99) index) as [i|] eqn:E; [|reflexivity].
    apply Hiff in E as (line & Hn & Hk & _). apply Keyed_lineKey in Hk.
    do 5 (destruct i as [|i];
          [vm_compute in Hn; injection Hn as <-; vm_compute in Hk;
           discriminate Hk|]).
    destruct i; discriminate Hn.
  - intros key E. apply Hiff in E as (line & Hn & Hk & _).
    apply Keyed_lineKey in Hk. vm_compute in Hn. injection Hn as <-.
    vm_compute in Hk. discriminate Hk.
Defined.

Lemma LineId_canon line id : LineId line id -> Num.canonKey id = id.
Proof.
  intros [run [[rest [_ [Hne [Hall _]]]] ->]].
  now destruct (NumFacts.parseInt10_run Hne Hall) as [_ [_ Hc]].
Qed.

Lemma LineId_truthy line id : LineId line id -> truthy line = true.
Proof.
  intros [run [[rest [-> [Hne _]]] _]].
  destruct run; [congruence | reflexivity].
Qed.

(** C10.  When two or more lines begin with the same ID, the index maps
    the ID to the 0-based offset of the last of them, and a subsequent
    [getEntryById] for the ID returns that last line. *)
Theorem duplicate_id_last_line_wins
    fs nowCheck nowRead path content st id i j line_i line_j :
  store_ok fs st -> fs path = Some content ->
  (i < j)%nat ->
  nth_error (fileLines content) i = Some line_i -> LineId line_i id ->
  LastWithId (fileLines content) id j line_j ->
  exists index st',
    buildIdIndex fs nowCheck nowRead path st = (Ok index, st') /\
    JsMap.get id index = Some j /\
    forall nowCheck' nowRead' nowLines',
    exists entry st'',
      getEntryById fs nowCheck' nowRead' nowLines' path id st'
      = (Ok (Some entry), st'') /\
      entry_id entry = id /\ entry_raw entry = line_j /\
      entry_lineNumber entry = (j + 1)%nat.
Proof.
  intros Hok Hfs _ _ _ Hlast.
  destruct (@buildIdIndex_ok fs nowCheck nowRead path content st Hok Hfs)
    as [st' [Hb Hok']].
  assert (Hget : JsMap.get id (indexLoop (fileLines content) 0 JsMap.empty)
                 = Some j).
  { apply indexLoop_last. now exists line_j. }
  exists (indexLoop (fileLines content) 0 JsMap.empty), st'.
  split; [exact Hb|]. split; [exact Hget|].
  intros t1 t2 t3. unfold getEntryById.
  destruct (@buildIdIndex_ok fs t1 t2 path content st' Hok' Hfs)
    as [st1 [-> Hok1]].
  destruct Hlast as [Hn [Hid _]].
  unfold indexGet. rewrite (LineId_canon Hid), Hget.
  destruct (@getCachedFileLines_ok fs t3 path content st1 Hok1 Hfs)
    as [st2 [-> _]].
  rewrite Hn, (LineId_truthy Hid). cbn [negb].
  eexists. eexists. split; [reflexivity|]. cbn. repeat split.
Qed.

Lemma duplicate_id_last_line_wins_witness :
  exists index st',
    buildIdIndex Examples.dataFiles 0 0 "npctypes.txt" emptyStore = (Ok index, st') /\
    JsMap.get (Num.parseInt10 "12") index = Some 2%nat /\
    forall nowCheck' nowRead' nowLines',
    exists entry st'',
      getEntryById Examples.dataFiles nowCheck' nowRead' nowLines'
                   "npctypes.txt" (Num.parseInt10 "12") st'
      = (Ok (Some entry), st'') /\
      entry_id entry = Num.parseInt10 "12" /\
      entry_raw entry = "12" ++ Examples.tab ++ "Imp king" /\
      entry_lineNumber entry = (2 + 1)%nat.
Proof.
  apply (@duplicate_id_last_line_wins Examples.dataFiles 0 0 "npctypes.txt"
           Examples.npcFile emptyStore (Num.parseInt10 "12") 0 2
           ("12" ++ Examples.tab ++ "Goblin")
           ("12" ++ Examples.tab ++ "Imp king")).
  - apply store_ok_empty.
  - reflexivity.
  - lia.
  - reflexivity.
  - apply lineKey_iff. reflexivity.
  - split; [reflexivity|]. split; [apply lineKey_iff; reflexivity|].
    intros k line' Hlt Hn Hid. apply lineKey_iff in Hid.
    do 3 (destruct k as [|k]; [lia|]).
    do 2 (destruct k as [|k]; [vm_compute in Hn; injection Hn as <-;
                               vm_compute in Hid; discriminate|]).
    destruct k; discriminate.
Defined.

Lemma searchLoop_In ls term : forall i line n,
  In (mkHit line n) (searchLoop ls i term) <->
  exists k, n = (i + k + 1)%nat /\ nth_error ls k = Some line /\
            includes (toLowerCase line) term = true.
Proof.
  induction ls as [|l r IH]; intros i line n.
  - simpl. split; [tauto|]. intros [[|k] [_ [H _]]]; discriminate.
  - cbn [searchLoop].
    assert (Hrec : In (mkHit line n) (searchLoop r (S i) term) <->
                   exists k, n = (i + S k + 1)%nat /\ nth_error r k = Some line /\
                             includes (toLowerCase line) term = true).
    { rewrite IH. split; intros [k [-> H]]; exists k; (split; [lia | exact H]). }
    destruct (includes (toLowerCase l) term) eqn:E.
    + simpl. rewrite Hrec. split.
      * intros [[= <- <-] | [k [-> H]]].
        -- exists 0%nat. repeat split; [lia | exact E].
        -- exists (S k). split; [lia | exact H].
      * intros [[|k] [-> [Hn Hi]]].
        -- left. simpl in Hn. injection Hn as ->. f_equal. lia.
        -- right. exists k. split; [lia | split; [exact Hn | exact Hi]].
    + rewrite Hrec. split.
      * intros [k [-> H]]. exists (S k). split; [lia | exact H].
      * intros [[|k] [-> [Hn Hi]]].
        -- simpl in Hn. injection Hn as ->. congruence.
        -- exists k. split; [lia | split; [exact Hn | exact Hi]].
Qed.

(** The hits of the loop are numbered in ascending order. *)
Lemma searchLoop_ascending ls term : forall i,
  Ascending (List.map hit_lineNumber (searchLoop ls i term)) /\
  forall h, In h (searchLoop ls i term) -> (i < hit_lineNumber h)%nat.
Proof.
  induction ls as [|l r IH]; intros i; [split; [exact I | intros h []]|].
  cbn [searchLoop]. destruct (IH (S i)) as [Hasc Hlow].
  destruct (includes (toLowerCase l) term).
  - split.
    + cbn [List.map hit_lineNumber].
      destruct (searchLoop r (S i) term) as [|h t] eqn:E; [exact I|].
      split; [|exact Hasc].
      pose proof (Hlow h (or_introl eq_refl)). cbn [List.map]. lia.
    + intros h [<-|Hin]; [cbn; lia|]. pose proof (Hlow h Hin). lia.
  - split; [exact Hasc|]. intros h Hin. pose proof (Hlow h Hin). lia.
Qed.

(** C9.  A substring search replaces every space of the search term with
    an underscore and then matches without regard to case: the hits are,
    in the order of the file, exactly the lines that hold the underscore
    form of the query when case is ignored, so that a line that holds
    the query with its spaces, and not the underscore form, is no hit.
    The underscore form is the query with an underscore in the place of
    every space; the lines are the pieces of the content between its
    line feeds. *)
Theorem searchFile_matches_underscore_form
    fs now path query u page pageSize content ls st :
  store_ok fs st -> fs path = Some content ->
  LinesOf content ls -> Underscored query u ->
  exists res st' hits,
    searchFile fs now path query page pageSize st = (Ok res, st') /\
    totalResults (pagination res) = List.length hits /\
    results res
    = List.map formatHit
        (firstn (Pos.to_nat pageSize)
           (skipn ((Pos.to_nat page - 1) * Pos.to_nat pageSize) hits)) /\
    Ascending (List.map hit_lineNumber hits) /\
    (forall line n,
       In (mkHit line n) hits <->
       exists i, n = (i + 1)%nat /\ nth_error ls i = Some line /\
                 HoldsIgnoringCase line u).
Proof.
  intros Hok Hfs Hls Hu. apply SpecFacts.LinesOf_fileLines in Hls. subst ls.
  apply SpecFacts.Underscored_replaceAllChar in Hu. subst u.
  unfold searchFile.
  destruct (@getCachedFileLines_ok fs now path content st Hok Hfs)
    as [st1 [-> _]].
  eexists. eexists.
  exists (searchLoop (fileLines content) 0
            (toLowerCase (replaceAllChar " " "_" query))).
  split; [reflexivity|]. cbn.
  split; [reflexivity|]. split; [reflexivity|].
  split; [apply searchLoop_ascending|].
  intros line n. rewrite searchLoop_In.
  split; intros [k [-> [Hn Hi]]]; exists k;
    (split; [lia | split; [exact Hn | now apply SpecFacts.HoldsIgnoringCase_includes]]).
Qed.

Lemma searchFile_matches_underscore_form_witness :
  exists res st' hits,
    searchFile Examples.dataFiles 0 "npctypes.txt" "abyssal WHIP" 1 10 emptyStore
    = (Ok res, st') /\
    hits = [mkHit ("7" ++ Examples.tab ++ "Abyssal_whip") 4] /\
    totalResults (pagination res) = 1%nat /\
    results res = List.map formatHit hits /\
    HoldsIgnoringCase ("8" ++ Examples.tab ++ "Abyssal whip") "abyssal WHIP" /\
    ~ In (mkHit ("8" ++ Examples.tab ++ "Abyssal whip") 5) hits.
Proof.
  assert (Hu : Underscored "abyssal WHIP" "abyssal_WHIP")
    by (repeat (first [ apply Underscored_end | apply Underscored_space
                      | apply Underscored_other; [discriminate|] ])).
  destruct (@searchFile_matches_underscore_form Examples.dataFiles 0
              "npctypes.txt" "abyssal WHIP" "abyssal_WHIP" 1 10
              Examples.npcFile Examples.npcLines emptyStore
              (store_ok_empty _) eq_refl npcFile_lines Hu)
    as (res & st' & hits & Hs & Htot & Hres & Hasc & Hiff).
  assert (Hin : In (mkHit ("7" ++ Examples.tab ++ "Abyssal_whip") 4) hits).
  { apply Hiff. exists 3%nat. split; [reflexivity|]. split; [reflexivity|].
    exists ("7" ++ Examples.tab), "Abyssal_whip", EmptyString.
    split; [reflexivity|]. cbn. repeat split. }
  assert (Honly : forall h, In h hits ->
                    h = mkHit ("7" ++ Examples.tab ++ "Abyssal_whip") 4).
  { intros [line n] Hh. apply Hiff in Hh as (i & -> & Hn & Hc).
    apply SpecFacts.HoldsIgnoringCase_includes in Hc.
    do 5 (destruct i as [|i];
          [vm_compute in Hn; injection Hn as <-;
           first [reflexivity | vm_compute in Hc; discriminate Hc]|]).
    destruct i; discriminate Hn. }
  assert (Hhits : hits = [mkHit ("7" ++ Examples.tab ++ "Abyssal_whip") 4]).
  { destruct hits as [|h [|h' t]]; [destruct Hin | |].
    - now rewrite (Honly h (or_introl eq_refl)).
    - rewrite (Honly h (or_introl eq_refl)) in Hasc.
      rewrite (Honly h' (or_intror (or_introl eq_refl))) in Hasc.
      cbn in Hasc. lia. }
  exists res, st', hits. split; [exact Hs|]. split; [exact Hhits|].
  rewrite Htot, Hres, Hhits. split; [reflexivity|]. split; [reflexivity|].
  split.
  - exists ("8" ++ Examples.tab), "Abyssal whip", EmptyString.
    split; [reflexivity|]. cbn. repeat split.
  - intros [H|[]]. discriminate H.
Defined.

End FileStoreProperties.

(* ================================================================== *)
(** * The wiki response cache *)
(* ================================================================== *)

Module WikiCacheFacts.
Import WikiCache WikiCacheSpec.

Lemma getWikiCacheKey_truthy action params :
  Js.truthy (getWikiCacheKey action params) = true.
Proof.
  unfold getWikiCacheKey. destruct action; reflexivity.
Qed.

Section Invariant.
Variable Data : Type.
Implicit Types (st : State Data).

Lemma keys_set_In (m : JsMap.t string (CacheEntry Data)) k v x :
  In x (JsMap.keys (JsMap.set k v m)) -> x = k \/ In x (JsMap.keys m).
Proof.
  destruct (JsMap.get k m) eqn:E.
  - rewrite JsMapFacts.keys_set_old by congruence. tauto.
  - rewrite JsMapFacts.keys_set_new by exact E.
    rewrite in_app_iff. simpl. intuition.
Qed.

Lemma setWikiCache_unfold now key d st :
  setWikiCache now key d st
  = mkState (JsMap.set key (mkCacheEntry d now) (evicted st))
            (wikiCacheHits st) (wikiCacheMisses st).
Proof. reflexivity. Qed.

Lemma evicted_full st :
  Inv st -> JsMap.size (wikiCache st) = WIKI_CACHE_MAX_SIZE ->
  exists oldest v rest,
    wikiCache st = (oldest, v) :: rest /\ evicted st = rest.
Proof.
  intros [Hwf [Hkeys _]] Hsize. unfold evicted.
  rewrite Hsize, Nat.leb_refl.
  destruct (wikiCache st) as [|[oldest v] rest] eqn:E; [discriminate|].
  exists oldest, v, rest. split; [reflexivity|].
  cbn [JsMap.firstKey]. rewrite (Hkeys oldest) by (now left).
  now apply JsMapFacts.delete_first.
Qed.

Lemma evicted_inv st :
  Inv st ->
  JsMap.wf (evicted st) /\
  (forall k, In k (JsMap.keys (evicted st)) -> Js.truthy k = true) /\
  (JsMap.size (evicted st) < WIKI_CACHE_MAX_SIZE)%nat.
Proof.
  intros Hinv. pose proof Hinv as [Hwf [Hkeys Hsize]].
  destruct (Nat.eq_dec (JsMap.size (wikiCache st)) WIKI_CACHE_MAX_SIZE) as [E|E].
  - destruct (evicted_full Hinv E) as [oldest [v [rest [Hc ->]]]].
    rewrite Hc in *. repeat split.
    + now inversion Hwf.
    + intros k Hin. apply Hkeys. now right.
    + unfold JsMap.size in *. simpl in E. lia.
  - unfold evicted.
    destruct (WIKI_CACHE_MAX_SIZE <=? JsMap.size (wikiCache st))%nat eqn:El.
    + apply Nat.leb_le in El. lia.
    + repeat split; [exact Hwf | exact Hkeys | lia].
Qed.

Lemma setWikiCache_inv now key d st :
  Inv st -> Js.truthy key = true -> Inv (setWikiCache now key d st).
Proof.
  intros Hinv Hkey. rewrite setWikiCache_unfold.
  destruct (evicted_inv Hinv) as [Hwf [Hkeys Hsize]].
  unfold Inv. cbn [wikiCache]. repeat split.
  - now apply JsMapFacts.wf_set.
  - intros k Hin. apply keys_set_In in Hin as [->|Hin]; auto.
  - pose proof (JsMapFacts.size_set_le (evicted st) key (mkCacheEntry d now)).
    lia.
Qed.

Lemma getFromWikiCache_inv now key st :
  Inv st -> Inv (snd (getFromWikiCache now key st)).
Proof.
  intros Hinv. pose proof Hinv as [Hwf [Hkeys Hsize]]. unfold getFromWikiCache.
  destruct (JsMap.get key (wikiCache st)) as [cached|]; [|exact Hinv].
  destruct (WIKI_CACHE_TTL <? now - timestamp cached)%Z; [|exact Hinv].
  unfold Inv. cbn [snd wikiCache]. repeat split.
  - now apply JsMapFacts.wf_delete.
  - intros k Hin. apply Hkeys. eapply JsMapFacts.keys_delete_subset, Hin.
  - pose proof (JsMapFacts.size_delete_le (wikiCache st) key). lia.
Qed.

Lemma Reachable_cache_inv st : Reachable st -> Inv st.
Proof.
  induction 1 as [|st now action params d _ IH|st now key _ IH].
  - repeat split; [constructor | intros k [] | apply Nat.le_0_l].
  - apply setWikiCache_inv; [exact IH | apply getWikiCacheKey_truthy].
  - now apply getFromWikiCache_inv.
Qed.

End Invariant.

Lemma filledCache_Reachable n : Reachable (Examples.filledCache n).
Proof.
  induction n as [|n IH]; simpl; [constructor | now constructor].
Qed.

End WikiCacheFacts.

Module WikiCacheProperties.
Import WikiCache WikiCacheSpec WikiCacheFacts.

(** C2.  When the wiki response cache holds exactly
    [WIKI_CACHE_MAX_SIZE] (500) entries, one more [setWikiCache] of a new
    key leaves it with exactly 500 entries: the key inserted earliest
    among those held is evicted and no longer present, every other entry
    stays, and the new key is added last.  The size of the cache never
    exceeds 500. *)
Theorem setWikiCache_evicts_oldest
    (Data : Type) (st : State Data) (now : Z) (key : string) (d : Data) :
  Reachable st ->
  JsMap.size (wikiCache st) = WIKI_CACHE_MAX_SIZE ->
  JsMap.get key (wikiCache st) = None ->
  (exists oldest,
     JsMap.firstKey (wikiCache st) = Some oldest /\
     let st' := setWikiCache now key d st in
     JsMap.size (wikiCache st') = WIKI_CACHE_MAX_SIZE /\
     JsMap.get oldest (wikiCache st') = None /\
     JsMap.get key (wikiCache st') = Some (mkCacheEntry d now) /\
     JsMap.keys (wikiCache st') = (List.tl (JsMap.keys (wikiCache st)) ++ [key])%list /\
     (forall k, k <> oldest -> k <> key ->
        JsMap.get k (wikiCache st') = JsMap.get k (wikiCache st))) /\
  (forall st2 : State Data,
     Reachable st2 -> (JsMap.size (wikiCache st2) <= WIKI_CACHE_MAX_SIZE)%nat).
Proof.
  intros Hreach Hsize Hnew. split.
  - pose proof (Reachable_cache_inv Hreach) as Hinv.
    destruct (evicted_full Hinv Hsize) as [oldest [v [rest [Hc He]]]].
    exists oldest. rewrite Hc. split; [reflexivity|].
    cbv zeta. rewrite setWikiCache_unfold, He. cbn [wikiCache].
    destruct Hinv as [Hwf _]. rewrite Hc in Hwf, Hnew, Hsize.
    assert (Hne : key <> oldest).
    { intros ->. simpl in Hnew. destruct (eq_dec oldest oldest); congruence. }
    assert (Hnew' : JsMap.get key rest = None).
    { simpl in Hnew. destruct (eq_dec key oldest); congruence. }
    assert (Hold : JsMap.get oldest rest = None).
    { apply JsMapFacts.get_None_notin. now inversion Hwf. }
    repeat split.
    + rewrite JsMapFacts.size_set_new by exact Hnew'.
      unfold JsMap.size in *. simpl in Hsize. exact Hsize.
    + rewrite JsMapFacts.get_set_neq by exact Hne. exact Hold.
    + apply JsMapFacts.get_set_eq.
    + now rewrite JsMapFacts.keys_set_new.
    + intros k Hk1 Hk2. rewrite JsMapFacts.get_set_neq by congruence.
      simpl. destruct (eq_dec k oldest); congruence.
  - intros st2 H2. now destruct (Reachable_cache_inv H2) as [_ [_ H]].
Qed.

Lemma setWikiCache_evicts_oldest_witness :
  (exists oldest,
     JsMap.firstKey (wikiCache (Examples.filledCache 500)) = Some oldest /\
     let st' := setWikiCache 7 "wiki_search:srsearch=whip" tt
                             (Examples.filledCache 500) in
     JsMap.size (wikiCache st') = WIKI_CACHE_MAX_SIZE /\
     JsMap.get oldest (wikiCache st') = None /\
     JsMap.get "wiki_search:srsearch=whip" (wikiCache st')
     = Some (mkCacheEntry tt 7) /\
     JsMap.keys (wikiCache st')
     = (List.tl (JsMap.keys (wikiCache (Examples.filledCache 500)))
        ++ ["wiki_search:srsearch=whip"])%list /\
     (forall k, k <> oldest -> k <> "wiki_search:srsearch=whip" ->
        JsMap.get k (wikiCache st')
        = JsMap.get k (wikiCache (Examples.filledCache 500)))) /\
  (forall st2 : State unit,
     Reachable st2 -> (JsMap.size (wikiCache st2) <= WIKI_CACHE_MAX_SIZE)%nat).
Proof.
  apply (@setWikiCache_evicts_oldest unit (Examples.filledCache 500) 7
           "wiki_search:srsearch=whip" tt).
  - apply filledCache_Reachable.
  - vm_compute. reflexivity.
  - vm_compute. reflexivity.
Defined.

End WikiCacheProperties.

(* ================================================================== *)
(** * Request deduplication *)
(* ================================================================== *)

Module DedupFacts.
Import Dedup DedupSpec.
Section WithValue.
Variable Value : Type.
Implicit Types (st : State Value) (e : Event Value) (o : Settlement Value).

Lemma nth_error_update (l : list (Promise Value)) f : forall p q,
  nth_error (update p f l) q
  = if Nat.eqb p q then option_map f (nth_error l q) else nth_error l q.
Proof.
  induction l as [|x r IH]; intros p q.
  - destruct p, q; simpl; try reflexivity. now destruct (Nat.eqb p q).
  - destruct p as [|p], q as [|q]; simpl; try reflexivity. apply IH.
Qed.

Lemma length_update (l : list (Promise Value)) f : forall p,
  List.length (update p f l) = List.length l.
Proof.
  induction l as [|x r IH]; intros [|p]; simpl; auto.
Qed.


Lemma Inv_initial : Inv (initial Value).
Proof.
  split.
  - intros k p H. discriminate.
  - intros [|p] k s H; discriminate.
Qed.

Lemma fetchWithDedup_pending k p st :
  JsMap.get k (pendingRequests st) = Some p ->
  fetchWithDedup k st = (p, st).
Proof. intros H. unfold fetchWithDedup. now rewrite H. Qed.

Lemma fetchWithDedup_fresh k st :
  JsMap.get k (pendingRequests st) = None ->
  fetchWithDedup k st
  = (List.length (promises st),
     mkState (JsMap.set k (List.length (promises st)) (pendingRequests st))
             (promises st ++ [mkPromise k (InFlight Value)])%list
             (k :: fetcherCalls st)).
Proof. intros H. unfold fetchWithDedup. now rewrite H. Qed.

Lemma fetchWithDedup_inv k st : Inv st -> Inv (snd (fetchWithDedup k st)).
Proof.
  intros [Ha Hc].
  destruct (JsMap.get k (pendingRequests st)) as [p|] eqn:E.
  - rewrite (fetchWithDedup_pending _ _ E). now split.
  - rewrite (fetchWithDedup_fresh _ _ E). cbn [snd]. split; cbn.
    + intros k' p. destruct (string_dec k k') as [<-|Hne].
      * rewrite JsMapFacts.get_set_eq. intros [= <-].
        exists (InFlight Value). split; [|intros o; discriminate].
        rewrite nth_error_app2, Nat.sub_diag by lia. reflexivity.
      * rewrite JsMapFacts.get_set_neq by exact Hne. intros Hg.
        destruct (Ha _ _ Hg) as [s [Hn Hs]]. exists s. split; [|exact Hs].
        rewrite nth_error_app1; [exact Hn|].
        apply nth_error_Some. congruence.
    + intros p k' s Hn Hs.
      destruct (Nat.lt_ge_cases p (List.length (promises st))) as [Hlt|Hge].
      * rewrite nth_error_app1 in Hn by exact Hlt.
        pose proof (Hc _ _ _ Hn Hs) as Hg.
        destruct (string_dec k k') as [<-|Hne]; [congruence|].
        now rewrite JsMapFacts.get_set_neq.
      * rewrite nth_error_app2 in Hn by exact Hge.
        destruct (p - List.length (promises st))%nat as [|d] eqn:Ed.
        -- simpl in Hn. injection Hn as <- <-.
           rewrite JsMapFacts.get_set_eq. f_equal. lia.
        -- simpl in Hn. destruct d; discriminate.
Qed.

Lemma fetchSettles_inv p o st : Inv st -> Inv (fetchSettles p o st).
Proof.
  intros [Ha Hc]. unfold fetchSettles.
  destruct (nth_error (promises st) p) as [[k s]|] eqn:E; [|now split].
  destruct s; try (now split). split; cbn.
  - intros k' q Hg. destruct (Ha _ _ Hg) as [s [Hn Hs]].
    rewrite nth_error_update. destruct (Nat.eqb_spec p q) as [->|Hne].
    + rewrite Hn. simpl. exists (CallbackQueued o).
      split; [congruence | intros o'; discriminate].
    + now exists s.
  - intros q k' s. rewrite nth_error_update.
    destruct (Nat.eqb_spec p q) as [->|Hne].
    + rewrite E. simpl. intros [= <- <-] _.
      apply (Hc q k (InFlight Value) E). intros o'; discriminate.
    + apply Hc.
Qed.

Lemma finallyRuns_inv p st : Inv st -> Inv (finallyRuns p st).
Proof.
  intros [Ha Hc]. unfold finallyRuns.
  destruct (nth_error (promises st) p) as [[k s]|] eqn:E; [|now split].
  destruct s as [|o|]; try (now split).
  assert (Hp : JsMap.get k (pendingRequests st) = Some p).
  { apply (Hc p k _ E). intros o'; discriminate. }
  split; cbn.
  - intros k' q. destruct (string_dec k k') as [<-|Hne].
    + now rewrite JsMapFacts.get_delete_eq.
    + rewrite JsMapFacts.get_delete_neq by exact Hne. intros Hg.
      destruct (Ha _ _ Hg) as [s [Hn Hs]]. exists s. split; [|exact Hs].
      rewrite nth_error_update. destruct (Nat.eqb_spec p q) as [->|]; [|exact Hn].
      congruence.
  - intros q k' s. rewrite nth_error_update.
    destruct (Nat.eqb_spec p q) as [->|Hne].
    + rewrite E. simpl. intros [= <- <-] Hs. now destruct (Hs o).
    + intros Hn Hs. pose proof (Hc _ _ _ Hn Hs) as Hg.
      destruct (string_dec k k') as [<-|Hk]; [congruence|].
      now rewrite JsMapFacts.get_delete_neq.
Qed.

Lemma step_inv e st : Inv st -> Inv (step st e).
Proof.
  destruct e; simpl.
  - apply fetchWithDedup_inv.
  - apply fetchSettles_inv.
  - apply finallyRuns_inv.
Qed.

Lemma run_inv evs : forall st, Inv st -> Inv (run evs st).
Proof.
  induction evs as [|e r IH]; intros st H; [exact H|].
  apply IH, step_inv, H.
Qed.

Lemma Reachable_dedup_inv st : Reachable st -> Inv st.
Proof. intros [evs ->]. apply run_inv, Inv_initial. Qed.

Lemma Reachable_run evs st : Reachable st -> Reachable (run evs st).
Proof.
  intros [evs0 ->]. exists (evs0 ++ evs)%list. unfold run.
  now rewrite fold_left_app.
Qed.

(** A promise keeps its key, and a settled promise stays settled. *)
Lemma step_promise e st p k s :
  nth_error (promises st) p = Some (mkPromise k s) ->
  exists s', nth_error (promises (step st e)) p = Some (mkPromise k s') /\
             (unsettled s' -> unsettled s).
Proof.
  intros Hn. destruct e as [k'|q o|q]; simpl.
  - unfold fetchWithDedup. destruct (JsMap.get k' (pendingRequests st)).
    + exists s. now split.
    + exists s. split; [|trivial]. cbn. rewrite nth_error_app1; [exact Hn|].
      apply nth_error_Some. congruence.
  - unfold fetchSettles.
    destruct (nth_error (promises st) q) as [[k2 s2]|] eqn:E;
      [|exists s; now split].
    destruct s2; try (exists s; now split). cbn.
    rewrite nth_error_update. destruct (Nat.eqb_spec q p) as [->|];
      [|exists s; now split].
    rewrite Hn. simpl. assert (k2 = k /\ s = InFlight Value) as [-> ->] by (split; congruence).
    exists (CallbackQueued o). split; [reflexivity|]. intros _ o'. discriminate.
  - unfold finallyRuns.
    destruct (nth_error (promises st) q) as [[k2 s2]|] eqn:E;
      [|exists s; now split].
    destruct s2 as [|o|]; try (exists s; now split). cbn.
    rewrite nth_error_update. destruct (Nat.eqb_spec q p) as [->|];
      [|exists s; now split].
    rewrite Hn. simpl. assert (k2 = k) as -> by congruence.
    exists (Settled o). split; [reflexivity|]. intros Hs. now destruct (Hs o).
Qed.

Lemma run_promise evs : forall st p k s,
  nth_error (promises st) p = Some (mkPromise k s) ->
  exists s', nth_error (promises (run evs st)) p = Some (mkPromise k s') /\
             (unsettled s' -> unsettled s).
Proof.
  induction evs as [|e r IH]; intros st p k s Hn.
  - exists s. now split.
  - destruct (@step_promise e st p k s Hn) as [s1 [H1 Hu1]].
    destruct (IH _ _ _ _ H1) as [s2 [H2 Hu2]].
    exists s2. split; [exact H2 | auto].
Qed.

Lemma outstanding_unsettled st p k s :
  nth_error (promises st) p = Some (mkPromise k s) ->
  outstanding st p = true -> unsettled s.
Proof.
  unfold outstanding. intros ->. destruct s; [intros _ o' | intros _ o' | ];
    discriminate.
Qed.

Lemma step_produced e st k p :
  JsMap.get k (pendingRequests st) = Some p ->
  produced k (step st e) = produced k st.
Proof.
  intros Hg. destruct e as [k'|q o|q]; simpl.
  - destruct (string_dec k' k) as [->|Hne].
    + now rewrite (fetchWithDedup_pending _ _ Hg).
    + unfold fetchWithDedup. destruct (JsMap.get k' (pendingRequests st));
        [reflexivity|].
      unfold produced. cbn. destruct (string_dec k' k); congruence.
  - unfold fetchSettles. destruct (nth_error (promises st) q) as [[? []]|];
      reflexivity.
  - unfold finallyRuns. destruct (nth_error (promises st) q) as [[? []]|];
      reflexivity.
Qed.

(** While a fetch for [k] is outstanding, whatever happens, no further
    fetch is started for [k] and [k] stays mapped to its promise. *)
Lemma outstanding_window evs : forall st p k s,
  Inv st -> nth_error (promises st) p = Some (mkPromise k s) ->
  outstanding (run evs st) p = true ->
  produced k (run evs st) = produced k st /\
  JsMap.get k (pendingRequests (run evs st)) = Some p.
Proof.
  induction evs as [|e r IH]; intros st p k s Hinv Hn Hout.
  - split; [reflexivity|]. destruct Hinv as [_ Hc].
    apply (Hc p k s Hn). now apply (@outstanding_unsettled st p k s Hn).
  - change (run (e :: r) st) with (run r (step st e)) in *.
    destruct (@step_promise e st p k s Hn) as [s1 [H1 Hu1]].
    destruct (IH _ _ _ _ (@step_inv e st Hinv) H1 Hout) as [Hp Hg].
    split; [|exact Hg]. rewrite Hp.
    destruct (@run_promise r _ p k s1 H1) as [s2 [H2 Hu2]].
    pose proof (@outstanding_unsettled _ p k s2 H2 Hout) as Hs2.
    destruct Hinv as [_ Hc].
    apply (@step_produced e st k p (Hc p k s Hn (Hu1 (Hu2 Hs2)))).
Qed.

End WithValue.
End DedupFacts.

Module DedupProperties.
Import Dedup DedupSpec DedupFacts.

(** C3.  When [fetchWithDedup] is called with a key while an earlier
    call with the same key is still outstanding, the producing operation
    has been called exactly once and the later caller gets the promise of
    the earlier one, hence the same result.  Once the operation has
    completed, by success or by failure, and the [finally] callback has
    run, the key is no longer in the outstanding set and the next call
    with it calls the producing operation afresh. *)
Theorem fetchWithDedup_coalesces
    (Value : Type) (st0 : State Value) (k : string)
    (between : list (Event Value)) :
  Reachable st0 ->
  JsMap.get k (pendingRequests st0) = None ->
  let p1 := fst (fetchWithDedup k st0) in
  let st2 := run between (snd (fetchWithDedup k st0)) in
  outstanding st2 p1 = true ->
  fetchWithDedup k st2 = (p1, st2) /\
  produced k st2 = S (produced k st0) /\
  forall (later : list (Event Value)) (o : Settlement Value),
    let st3 := run later st2 in
    nth_error (promises st3) p1 = Some (mkPromise k (CallbackQueued o)) ->
    let st4 := finallyRuns p1 st3 in
    JsMap.get k (pendingRequests st4) = None /\
    received st4 p1 = Some o /\
    fst (fetchWithDedup k st4) <> p1 /\
    produced k (snd (fetchWithDedup k st4)) = S (produced k st4).
Proof.
  intros Hreach Hnone p1 st2 Hout.
  pose proof (Reachable_dedup_inv Hreach) as Hinv0.
  pose proof (fetchWithDedup_inv k Hinv0) as Hinv1.
  assert (Hn1 : nth_error (promises (snd (fetchWithDedup k st0))) p1
                = Some (mkPromise k (InFlight Value))).
  { subst p1. rewrite (fetchWithDedup_fresh _ _ Hnone). cbn.
    rewrite nth_error_app2, Nat.sub_diag by lia. reflexivity. }
  destruct (@outstanding_window Value between _ _ _ _ Hinv1 Hn1 Hout)
    as [Hprod Hget].
  fold st2 in Hprod, Hget.
  split; [now apply fetchWithDedup_pending|]. split.
  { rewrite Hprod, (fetchWithDedup_fresh _ _ Hnone). unfold produced. cbn.
    destruct (string_dec k k); congruence. }
  intros later o st3 Hq st4.
  assert (H4 : st4 = mkState (JsMap.delete k (pendingRequests st3))
                 (update p1 (fun _ => mkPromise k (Settled o)) (promises st3))
                 (fetcherCalls st3)).
  { subst st4. unfold finallyRuns. now rewrite Hq. }
  assert (Hnone4 : JsMap.get k (pendingRequests st4) = None).
  { rewrite H4. cbn. apply JsMapFacts.get_delete_eq. }
  split; [exact Hnone4|]. split.
  { rewrite H4. unfold received. cbn. rewrite nth_error_update, Nat.eqb_refl, Hq.
    reflexivity. }
  rewrite (fetchWithDedup_fresh _ _ Hnone4). cbn [fst snd]. split.
  - rewrite H4. cbn. rewrite length_update.
    assert (p1 < List.length (promises st3))%nat; [|lia].
    apply nth_error_Some. congruence.
  - unfold produced. cbn. destruct (string_dec k k); congruence.
Qed.

Lemma fetchWithDedup_coalesces_witness :
  let k := "wiki_search:srsearch=whip" in
  let between := [Call nat "wiki_images:page=Whip";
                  Call nat k;
                  FetchSettles 0 (Fulfilled 42)] in
  let p1 := fst (fetchWithDedup k (initial nat)) in
  let st2 := run between (snd (fetchWithDedup k (initial nat))) in
  fetchWithDedup k st2 = (p1, st2) /\
  produced k st2 = S (produced k (initial nat)) /\
  forall (later : list (Event nat)) (o : Settlement nat),
    let st3 := run later st2 in
    nth_error (promises st3) p1 = Some (mkPromise k (CallbackQueued o)) ->
    let st4 := finallyRuns p1 st3 in
    JsMap.get k (pendingRequests st4) = None /\
    received st4 p1 = Some o /\
    fst (fetchWithDedup k st4) <> p1 /\
    produced k (snd (fetchWithDedup k st4)) = S (produced k st4).
Proof.
  intros k between.
  apply (@fetchWithDedup_coalesces nat (initial nat) k between).
  - exists []. reflexivity.
  - reflexivity.
  - reflexivity.
Defined.

End DedupProperties.

(* ================================================================== *)
(** * Rejection of an implausibly small dataset *)
(* ================================================================== *)

Module OsrsBoxProperties.
Import OsrsBox.

(** C4.  A fetched dataset of fewer than 1000 records makes the refresh
    reject with an error; the snapshot on disk is neither written nor
    deleted and the in-memory cache with its indexes stays as it was.
    The same holds of a forced refresh through [getOsrsBoxCache], which
    turns the error into the [null] result. *)
Theorem small_dataset_rejected
    (JSON_stringify : RawData -> string) (JSON_parse : string -> option RawData)
    (snapshotPath : string) (rawData : RawData) (saveToDisk : bool)
    (nowWrite nowBuild : Z) (w : World) :
  (List.length (Object_values rawData) < 1000)%nat ->
  (exists message,
     fetchOsrsBoxData JSON_stringify snapshotPath (Ok rawData) saveToDisk
                      nowWrite nowBuild w
     = (Throw message, w)) /\
  (forall nowAge nowStat,
     getOsrsBoxCache JSON_stringify JSON_parse snapshotPath true (Ok rawData)
                     nowAge nowStat nowBuild nowWrite w
     = (None, w)).
Proof.
  intros Hlt.
  assert (H : exists message,
     fetchOsrsBoxData JSON_stringify snapshotPath (Ok rawData) true
                      nowWrite nowBuild w = (Throw message, w) /\
     fetchOsrsBoxData JSON_stringify snapshotPath (Ok rawData) saveToDisk
                      nowWrite nowBuild w = (Throw message, w)).
  { unfold fetchOsrsBoxData.
    destruct (List.length (Object_values rawData) =? 0)%nat.
    - eexists. split; reflexivity.
    - apply Nat.ltb_lt in Hlt. rewrite Hlt. eexists. split; reflexivity. }
  destruct H as [message [Ht Hs]]. split.
  - now exists message.
  - intros nowAge nowStat. unfold getOsrsBoxCache. rewrite Ht.
    destruct (osrsBoxCache w); reflexivity.
Qed.

Lemma small_dataset_rejected_witness :
  (exists message,
     fetchOsrsBoxData (fun _ => "{}") "data/osrsbox-monsters.json"
                      (Ok Examples.truncatedDownload) true 5000 5000
                      Examples.goodWorld
     = (Throw message, Examples.goodWorld)) /\
  (forall nowAge nowStat,
     getOsrsBoxCache (fun _ => "{}") (fun _ => None) "data/osrsbox-monsters.json"
                     true (Ok Examples.truncatedDownload)
                     nowAge nowStat 5000 5000 Examples.goodWorld
     = (None, Examples.goodWorld)).
Proof.
  apply (@small_dataset_rejected (fun _ => "{}") (fun _ => None)
           "data/osrsbox-monsters.json" Examples.truncatedDownload true
           5000 5000 Examples.goodWorld).
  simpl. lia.
Defined.

(** The error of the example. *)
Example small_dataset_message :
  fst (fetchOsrsBoxData (fun _ => "{}") "data/osrsbox-monsters.json"
         (Ok Examples.truncatedDownload) true 5000 5000 Examples.goodWorld)
  = Throw "Only 1 monsters found, expected 2800+. Data structure may have changed.".
Proof. reflexivity. Qed.

End OsrsBoxProperties.

(* ================================================================== *)
(** * Rarity conversions *)
(* ================================================================== *)

Module RarityFacts.
Import Js Num NumFmt Rarity Spec.

(** ** Comparisons of doubles *)

Lemma SFcompare_antisym x y :
  SFcompare y x = option_map CompOpp (SFcompare x y).
Proof.
  destruct x as [sx|sx| |sx mx ex], y as [sy|sy| |sy my ey]; simpl;
    try reflexivity;
    try (destruct sx; reflexivity); try (destruct sy; reflexivity);
    try (destruct sx, sy; reflexivity).
  destruct sx, sy; try reflexivity.
  - rewrite (Z.compare_antisym ex ey).
    destruct (ex ?= ey)%Z; simpl; try reflexivity.
    now rewrite (Pos.compare_cont_antisym mx my Eq).
  - rewrite (Z.compare_antisym ex ey).
    destruct (ex ?= ey)%Z; simpl; try reflexivity.
    now rewrite (Pos.compare_cont_antisym mx my Eq).
Qed.

(** [x <= y] excludes [y < x], and [x < y] excludes [y <= x]. *)
Lemma le_not_gt x y : le x y = true -> gt x y = false.
Proof.
  unfold le, gt, SFleb, SFltb. rewrite (SFcompare_antisym x y).
  destruct (SFcompare x y) as [[]|]; simpl; congruence.
Qed.

Lemma gt_not_le x y : gt x y = true -> le x y = false.
Proof.
  intros H. destruct (le x y) eqn:E; [|reflexivity].
  apply le_not_gt in E. congruence.
Qed.

Lemma ge_le x y : ge x y = le y x.
Proof. reflexivity. Qed.

Lemma one_def : ofZ 1 = S754_finite false 4503599627370496 (-52).
Proof. reflexivity. Qed.

Lemma zero_def : ofZ 0 = S754_zero false.
Proof. reflexivity. Qed.

(** A number that is at most 0 is not at least 1. *)
Lemma le_zero_not_ge_one p : le p (ofZ 0) = true -> ge p (ofZ 1) = false.
Proof.
  rewrite one_def, zero_def. unfold le, ge, SFleb.
  destruct p as [s|s| |s m e]; simpl; try (destruct s; simpl; congruence).
  congruence.
Qed.

Lemma large_def : ofZ (10 ^ 21) = S754_finite false 7629394531250000 17.
Proof. vm_compute. reflexivity. Qed.

(** A finite number below 1 is below 10^21. *)
Lemma below_one_not_large m e :
  ge (S754_finite false m e) (ofZ 1) = false ->
  ge (S754_finite false m e) (ofZ (10 ^ 21)) = false.
Proof.
  rewrite one_def, large_def. unfold ge, SFleb, SFcompare.
  destruct (Z.compare_spec (-52) e) as [<-|Hlt|Hgt].
  - intros _. reflexivity.
  - discriminate.
  - intros _. destruct (Z.compare_spec 17 e); [lia | lia | reflexivity].
Qed.

(** ** Digits *)

Lemma digitChar_isDigit d : (0 <= d < 10)%Z -> isDigit (digitChar d) = true.
Proof.
  intros H. assert (Hd : (d = 0 \/ d = 1 \/ d = 2 \/ d = 3 \/ d = 4 \/ d = 5
                          \/ d = 6 \/ d = 7 \/ d = 8 \/ d = 9)%Z) by lia.
  repeat (destruct Hd as [->|Hd]; [reflexivity|]). subst. reflexivity.
Qed.

Lemma fractionDigits_length f z : String.length (fractionDigits f z) = f.
Proof. induction f as [|f IH]; simpl; [reflexivity | now rewrite IH]. Qed.

Lemma fractionDigits_digits f z : allChars isDigit (fractionDigits f z) = true.
Proof.
  induction f as [|f IH]; cbn [fractionDigits allChars]; [reflexivity|].
  rewrite IH, digitChar_isDigit; [reflexivity|].
  apply Z.mod_pos_bound. lia.
Qed.

Lemma decimal_fuel_digits fuel : forall z acc,
  allChars isDigit acc = true ->
  allChars isDigit (decimal_fuel fuel z acc) = true.
Proof.
  induction fuel as [|fuel IH]; intros z acc Hacc; cbn [decimal_fuel];
    [exact Hacc|].
  assert (Hd : allChars isDigit (String (digitChar (z mod 10)) acc) = true).
  { cbn [allChars]. rewrite Hacc, digitChar_isDigit; [reflexivity|].
    apply Z.mod_pos_bound. lia. }
  destruct (z <? 10)%Z; [exact Hd | now apply IH].
Qed.

Lemma decimal_fuel_nonempty fuel : forall z acc,
  acc <> EmptyString -> decimal_fuel fuel z acc <> EmptyString.
Proof.
  induction fuel as [|fuel IH]; intros z acc Hacc; cbn [decimal_fuel];
    [exact Hacc|].
  destruct (z <? 10)%Z; [discriminate | apply IH; discriminate].
Qed.

Lemma decimal_digits z : allChars isDigit (decimal z) = true.
Proof. apply decimal_fuel_digits. reflexivity. Qed.

Lemma decimal_nonempty z : decimal z <> EmptyString.
Proof.
  unfold decimal. cbn [decimal_fuel].
  destruct (z <? 10)%Z; [discriminate | apply decimal_fuel_nonempty; discriminate].
Qed.

(** [toFixed] of a number in the band from 0.01 up to 1: digits, a point
    and exactly [f] digits. *)
Lemma toFixed_below_one p f :
  ge p (ofZ 1) = false -> ge p (div (ofZ 1) (ofZ 100)) = true -> f <> O ->
  exists whole frac,
    toFixed p f = whole ++ "." ++ frac /\
    String.length frac = f /\ allChars isDigit frac = true /\
    allChars isDigit whole = true /\ whole <> EmptyString.
Proof.
  intros H1 H2 Hf.
  assert (Hp : exists m e, p = S754_finite false m e).
  { revert H1 H2. rewrite one_def.
    change (div (S754_finite false 4503599627370496 (-52)) (ofZ 100))
      with (S754_finite false 5764607523034235 (-59)).
    unfold ge, SFleb.
    destruct p as [s|s| |s m e];
      [destruct s; simpl; congruence | destruct s; simpl; congruence
      | simpl; congruence |].
    destruct s; [simpl; congruence|]. intros _ _. now exists m, e. }
  destruct Hp as [m [e ->]].
  unfold toFixed. rewrite (below_one_not_large _ _ H1).
  destruct f as [|f]; [congruence|].
  eexists. eexists. split; [reflexivity|]. repeat split.
  - apply fractionDigits_length.
  - apply fractionDigits_digits.
  - apply decimal_digits.
  - apply decimal_nonempty.
Qed.

(** ** Strings that start with a digit *)

Lemma rev_acc_app s : forall acc, rev_acc s acc = rev_acc s "" ++ acc.
Proof.
  induction s as [|c r IH]; intros acc; simpl; [reflexivity|].
  rewrite (IH (String c acc)), (IH (String c "")).
  now rewrite JsFacts.append_assoc.
Qed.

Lemma rev_cons c s : rev (String c s) = rev s ++ String c "".
Proof. unfold rev. simpl. apply rev_acc_app. Qed.

Lemma rev_snoc s c : rev (s ++ String c "") = String c (rev s).
Proof.
  induction s as [|a s IH]; [reflexivity|].
  simpl. rewrite !rev_cons, IH. reflexivity.
Qed.

Lemma dropWhile_snoc p s c :
  p c = false -> exists y, dropWhile p (s ++ String c "") = y ++ String c "".
Proof.
  intros Hc. induction s as [|a s [y IH]]; simpl.
  - rewrite Hc. now exists "".
  - destruct (p a); [now exists y|]. now exists (String a s).
Qed.

(** [trim] keeps a first code unit that is no white space. *)
Lemma trim_head c s :
  isSpace c = false -> exists r, trim (String c s) = String c r.
Proof.
  intros Hc. unfold trim, trimStart, trimEnd. simpl. rewrite Hc.
  rewrite rev_cons.
  destruct (dropWhile_snoc isSpace (rev s) c Hc) as [y ->].
  rewrite rev_snoc. now exists (rev y).
Qed.

Lemma digit_not_space c : isDigit c = true -> isSpace c = false.
Proof.
  unfold isDigit, isSpace. intros H.
  apply andb_true_iff in H as [H1 H2].
  apply Nat.leb_le in H1. apply Nat.leb_le in H2.
  repeat rewrite orb_false_iff. repeat split.
  - apply andb_false_iff. right. apply Nat.leb_gt. lia.
  - apply Nat.eqb_neq. lia.
  - apply Nat.eqb_neq. lia.
Qed.

Lemma digit_lower c : isDigit c = true -> lowerChar c = c.
Proof.
  unfold isDigit, lowerChar. intros H.
  apply andb_true_iff in H as [H1 H2].
  apply Nat.leb_le in H1. apply Nat.leb_le in H2.
  assert (E1 : ((65 <=? code c)%nat && (code c <=? 90)%nat) = false).
  { apply andb_false_iff. left. apply Nat.leb_gt. lia. }
  assert (E2 : ((192 <=? code c)%nat && (code c <=? 222)%nat
                && negb (code c =? 215)%nat) = false).
  { apply andb_false_iff. left. apply andb_false_iff. left.
    apply Nat.leb_gt. lia. }
  now rewrite E1, E2.
Qed.

(** A rarity with a multiplier starts with a digit, so it is none of the
    words [rarityToPercent] knows. *)
Lemma multiplier_no_keyword rarity run :
  multiplierMatch rarity = Some run ->
  exists c r, trim (toLowerCase rarity) = String c r /\ isDigit c = true.
Proof.
  unfold multiplierMatch. destruct rarity as [|c s]; [discriminate|].
  simpl. destruct (isDigit c) eqn:Ec; [|discriminate]. intros _.
  rewrite (@digit_lower c Ec).
  destruct (@trim_head c (toLowerCase s) (@digit_not_space c Ec)) as [r ->].
  now exists c, r.
Qed.

(** ** Thousands separators *)

Ltac mod3 n :=
  pose proof (Nat.div_mod_eq n 3);
  pose proof (Nat.mod_upper_bound n 3 ltac:(discriminate)).

Lemma groupThousands_shape digits :
  digits <> EmptyString -> allChars isDigit digits = true ->
  exists first rest,
    groupThousands digits = first ++ rest /\
    String.length first = ((String.length digits - 1) mod 3 + 1)%nat /\
    allChars isDigit first = true /\ ThreeDigitGroups rest.
Proof.
  induction digits as [|c r IH]; [congruence|]. intros _ Hall.
  cbn [allChars] in Hall. apply andb_true_iff in Hall as [Hc Hr].
  cbn [groupThousands].
  destruct r as [|c' r'].
  - exists (String c ""), "". split; [reflexivity|]. split; [reflexivity|].
    split; [cbn [allChars]; now rewrite Hc | constructor].
  - destruct (IH ltac:(discriminate) Hr) as [f [t [Hg [Hlen [Hf Ht]]]]].
    rewrite Hg. set (r := String c' r') in *.
    assert (Hpos : (0 < String.length r)%nat) by (subst r; simpl; lia).
    apply Nat.ltb_lt in Hpos as Hpos'. rewrite Hpos'. cbn [andb].
    cbn [String.length]. rewrite Nat.sub_succ, Nat.sub_0_r.
    destruct (String.length r mod 3 =? 0)%nat eqn:E.
    + apply Nat.eqb_eq in E.
      assert (H3 : String.length f = 3%nat).
      { mod3 (String.length r). mod3 (String.length r - 1)%nat. lia. }
      destruct f as [|a [|b [|d [|? ?]]]]; try discriminate.
      cbn [allChars] in Hf.
      apply andb_true_iff in Hf as [Ha Hf]. apply andb_true_iff in Hf as [Hb Hf].
      apply andb_true_iff in Hf as [Hd _].
      exists (String c ""), ("," ++ String a (String b (String d "")) ++ t).
      split; [reflexivity|]. split; [now rewrite E|].
      split; [cbn [allChars]; now rewrite Hc | simpl; now constructor].
    + apply Nat.eqb_neq in E.
      exists (String c f), t. split; [reflexivity|]. split; [|split].
      * cbn [String.length]. rewrite Hlen.
        mod3 (String.length r). mod3 (String.length r - 1)%nat. lia.
      * cbn [allChars]. now rewrite Hc, Hf.
      * exact Ht.
Qed.

Lemma groupThousands_grouped digits :
  digits <> EmptyString -> allChars isDigit digits = true ->
  GroupedInThrees (groupThousands digits).
Proof.
  intros Hne Hall.
  destruct (@groupThousands_shape digits Hne Hall) as [f [t [Hg [Hlen [Hf Ht]]]]].
  exists f, t. split; [exact Hg|]. split; [|split; assumption].
  rewrite Hlen. mod3 (String.length digits - 1)%nat. lia.
Qed.

(** [toLocaleString] of a double that stands for a positive integer. *)
Lemma toLocaleString_integer x N :
  represents x N -> (0 < N)%Z -> toLocaleString x = groupThousands (decimal N).
Proof.
  intros [m [e [-> [He Hm]]]] HN. unfold toLocaleString.
  assert (Hn : scaledRound m e 3 = (1000 * N)%Z).
  { unfold scaledRound. change (10 ^ Z.of_nat 3)%Z with 1000%Z.
    destruct (Z.eq_dec e 0) as [->|Hne].
    - change (2 ^ (- 0))%Z with 1%Z in Hm. change (0 <=? 0)%Z with true.
      change (2 ^ 0)%Z with 1%Z. cbv iota. lia.
    - assert (El : (0 <=? e)%Z = false) by (apply Z.leb_gt; lia). rewrite El.
      assert (Hk : (0 < 2 ^ (- e))%Z) by (apply Z.pow_pos_nonneg; lia).
      replace (2 ^ (1 - e))%Z with (2 * 2 ^ (- e))%Z
        by (replace (1 - e)%Z with (Z.succ (- e)) by lia;
            rewrite Z.pow_succ_r by lia; reflexivity).
      rewrite Hm.
      replace (2 * (N * 2 ^ (- e) * 1000) + 2 ^ (- e))%Z
        with ((2000 * N + 1) * 2 ^ (- e))%Z by lia.
      rewrite (Z.mul_comm 2 (2 ^ (- e))), (Z.mul_comm (2000 * N + 1)).
      rewrite Z.div_mul_cancel_l by lia.
      Z.to_euclidean_division_equations; lia. }
  rewrite Hn.
  replace (1000 * N / 1000)%Z with N
    by (Z.to_euclidean_division_equations; lia).
  assert (Hfrac : fractionDigits 3 (1000 * N) = "000").
  { cbn [fractionDigits].
    change (10 ^ Z.of_nat 2)%Z with 100%Z. change (10 ^ Z.of_nat 1)%Z with 10%Z.
    change (10 ^ Z.of_nat 0)%Z with 1%Z.
    replace ((1000 * N / 100) mod 10)%Z with 0%Z
      by (Z.to_euclidean_division_equations; lia).
    replace ((1000 * N / 10) mod 10)%Z with 0%Z
      by (Z.to_euclidean_division_equations; lia).
    replace ((1000 * N / 1) mod 10)%Z with 0%Z
      by (Z.to_euclidean_division_equations; lia).
    reflexivity. }
  rewrite Hfrac. cbn. now rewrite JsFacts.append_nil_r.
Qed.

End RarityFacts.

Module RarityProperties.
Import Js Num NumFmt Rarity Spec RarityFacts.

Lemma digit_head_no_keyword c r kw k :
  isDigit c = true -> isDigit k = false ->
  String.eqb (String c r) (String k kw) = false.
Proof.
  intros Hc Hk. simpl. destruct (Ascii.eqb_spec c k) as [->|]; [congruence|].
  reflexivity.
Qed.

(** What [rarityToPercent] returns for a multiplier and a fraction. *)
Lemma rarityToPercent_unfold rarity K N D :
  multiplierMatch rarity = Some K -> fractionMatch rarity = Some (N, D) ->
  gt (parseInt10 (removeCommas D)) (ofZ 0) = true ->
  rarityToPercent rarity
  = let percentage :=
      mul (mul (div (parseInt10 (removeCommas N)) (parseInt10 (removeCommas D)))
               (parseInt10 K)) (ofZ 100) in
    if ge percentage (ofZ 1) then Some (toFixed percentage 2 ++ "%")
    else if ge percentage (div (ofZ 1) (ofZ 100))
         then Some (toFixed percentage 3 ++ "%")
         else Some (toFixed percentage 4 ++ "%").
Proof.
  intros HK HF HD. unfold rarityToPercent.
  destruct (@multiplier_no_keyword rarity K HK) as [c [r [-> Hc]]].
  rewrite !(@digit_head_no_keyword c r _ _ Hc) by reflexivity.
  rewrite HK, HF, HD. reflexivity.
Qed.

(** C6.  [rarityToPercent "2 x 1/1,024"] is ["0.195%"].  A multiplier K
    before a fraction N/D gives the percentage K * N / D * 100, here
    0.1953125 = 25/128, and a percentage below 1 that is at least 0.01
    is written with exactly three decimal places. *)
Theorem rarityToPercent_multiplier_fraction :
  rarityToPercent "2 x 1/1,024" = Some "0.195%" /\
  mul (mul (div (parseInt10 "1") (parseInt10 "1024")) (parseInt10 "2")) (ofZ 100)
  = div (ofZ 25) (ofZ 128) /\
  forall rarity K N D,
    multiplierMatch rarity = Some K ->
    fractionMatch rarity = Some (N, D) ->
    gt (parseInt10 (removeCommas D)) (ofZ 0) = true ->
    let percentage :=
      mul (mul (div (parseInt10 (removeCommas N)) (parseInt10 (removeCommas D)))
               (parseInt10 K)) (ofZ 100) in
    ge percentage (ofZ 1) = false ->
    ge percentage (div (ofZ 1) (ofZ 100)) = true ->
    exists whole frac,
      rarityToPercent rarity = Some (whole ++ "." ++ frac ++ "%") /\
      toFixed percentage 3 = whole ++ "." ++ frac /\
      String.length frac = 3%nat /\ allChars isDigit frac = true /\
      allChars isDigit whole = true /\ whole <> EmptyString.
Proof.
  split; [vm_compute; reflexivity|]. split; [vm_compute; reflexivity|].
  intros rarity K N D HK HF HD percentage H1 H2.
  destruct (@toFixed_below_one percentage 3 H1 H2) as [whole [frac [Ht Hrest]]];
    [discriminate|].
  exists whole, frac. split; [|split; [exact Ht | exact Hrest]].
  rewrite (@rarityToPercent_unfold rarity K N D HK HF HD). cbv zeta.
  fold percentage. rewrite H1, H2, Ht.
  now rewrite !JsFacts.append_assoc.
Qed.

Lemma rarityToPercent_multiplier_fraction_witness :
  exists whole frac,
    rarityToPercent "2 x 1/1,024" = Some (whole ++ "." ++ frac ++ "%") /\
    toFixed (mul (mul (div (parseInt10 (removeCommas "1"))
                           (parseInt10 (removeCommas "1,024")))
                      (parseInt10 "2")) (ofZ 100)) 3
    = whole ++ "." ++ frac /\
    String.length frac = 3%nat /\ allChars isDigit frac = true /\
    allChars isDigit whole = true /\ whole <> EmptyString.
Proof.
  destruct rarityToPercent_multiplier_fraction as [_ [_ H]].
  apply (H "2 x 1/1,024" "2" "1" "1,024"); vm_compute; reflexivity.
Defined.

Lemma digit_not_comma c : isDigit c = true -> Ascii.eqb c "," = false.
Proof.
  intros H. destruct (Ascii.eqb_spec c ",") as [->|]; [discriminate | reflexivity].
Qed.

(** Grouping only inserts commas. *)
Lemma removeCommas_groupThousands digits :
  allChars isDigit digits = true ->
  removeCommas (groupThousands digits) = digits.
Proof.
  induction digits as [|c r IH]; [reflexivity|].
  cbn [allChars]. intros H. apply andb_true_iff in H as [Hc Hr].
  cbn [groupThousands removeCommas]. rewrite (@digit_not_comma c Hc).
  f_equal. destruct ((0 <? String.length r)%nat && (String.length r mod 3 =? 0)%nat).
  - simpl. now apply IH.
  - now apply IH.
Qed.

(** C7.  [rarityToFraction] maps every probability of at least 1 to
    "Always" and every probability of at most 0 to "Never", and renders
    every probability strictly between 0 and 1 as "1/" followed by
    [Math.round(1/p)] with thousands separators.  The string "1/300"
    survives the round trip through the string-to-decimal conversion and
    [rarityToFraction]. *)
Theorem rarityToFraction_rendering :
  (forall p, ge p (ofZ 1) = true -> rarityToFraction p = "Always") /\
  (forall p, le p (ofZ 0) = true -> rarityToFraction p = "Never") /\
  (forall p, gt p (ofZ 0) = true -> gt (ofZ 1) p = true ->
     rarityToFraction p = "1/" ++ toLocaleString (Math_round (div (ofZ 1) p))) /\
  (forall p m e,
     gt p (ofZ 0) = true -> gt (ofZ 1) p = true ->
     div (ofZ 1) p = S754_finite false m e -> (e < 0)%Z ->
     let n := ((2 * Zpos m + 2 ^ (- e)) / 2 ^ (1 - e))%Z in
     (0 < n < 2 ^ 53)%Z ->
     rarityToFraction p = "1/" ++ groupThousands (decimal n) /\
     GroupedInThrees (groupThousands (decimal n)) /\
     removeCommas (groupThousands (decimal n)) = decimal n) /\
  rarityToFraction (rarityToDecimal "1/300") = "1/300" /\
  rarityToFraction (ofZ 1) = "Always" /\
  rarityToFraction (ofZ 0) = "Never" /\
  rarityToFraction (div (ofZ 1) (ofZ 12345678)) = "1/12,345,678".
Proof.
  assert (H3 : forall p, gt p (ofZ 0) = true -> gt (ofZ 1) p = true ->
     rarityToFraction p = "1/" ++ toLocaleString (Math_round (div (ofZ 1) p))).
  { intros p H0 H1. unfold rarityToFraction.
    assert (E1 : ge p (ofZ 1) = false) by (apply (@gt_not_le _ _ H1)).
    assert (E0 : le p (ofZ 0) = false) by (apply (@gt_not_le _ _ H0)).
    now rewrite E1, E0. }
  split; [|split; [|split; [|split]]].
  - intros p H. unfold rarityToFraction. now rewrite H.
  - intros p H. unfold rarityToFraction.
    now rewrite (@le_zero_not_ge_one p H), H.
  - exact H3.
  - intros p m e H0 H1 Hd He n Hn. split; [|split].
    + rewrite (H3 p H0 H1), Hd. unfold Math_round.
      assert (El : (0 <=? e)%Z = false) by (apply Z.leb_gt; lia).
      rewrite El. fold n.
      assert (En : (n =? 0)%Z = false) by (apply Z.eqb_neq; lia).
      rewrite En. f_equal. apply toLocaleString_integer; [|lia].
      now apply NumFacts.ofZ_exact.
    + apply groupThousands_grouped; [apply decimal_nonempty | apply decimal_digits].
    + apply removeCommas_groupThousands, decimal_digits.
  - repeat split; vm_compute; reflexivity.
Qed.

Lemma rarityToFraction_rendering_witness :
  rarityToFraction (ofZ 3) = "Always" /\
  rarityToFraction (SFopp (ofZ 2)) = "Never" /\
  rarityToFraction (div (ofZ 1) (ofZ 300))
  = "1/" ++ toLocaleString (Math_round (div (ofZ 1) (div (ofZ 1) (ofZ 300)))) /\
  (let n := ((2 * 5277655813324800 + 2 ^ (- -44)) / 2 ^ (1 - -44))%Z in
   rarityToFraction (div (ofZ 1) (ofZ 300)) = "1/" ++ groupThousands (decimal n) /\
   GroupedInThrees (groupThousands (decimal n)) /\
   removeCommas (groupThousands (decimal n)) = decimal n).
Proof.
  destruct rarityToFraction_rendering as [H1 [H2 [H3 [H4 _]]]].
  split; [|split; [|split]].
  - apply H1. vm_compute. reflexivity.
  - apply H2. vm_compute. reflexivity.
  - apply H3; vm_compute; reflexivity.
  - apply (H4 (div (ofZ 1) (ofZ 300)) 5277655813324800%positive (-44)%Z).
    + vm_compute. reflexivity.
    + vm_compute. reflexivity.
    + vm_compute. reflexivity.
    + lia.
    + vm_compute. split; reflexivity.
Defined.

End RarityProperties.

(* ================================================================== *)
(** * Truncation *)
(* ================================================================== *)

Module TruncateFacts.
Import Js Spec Truncate TruncateSpec.

Lemma increasing_weaken l : forall lo lo',
  (lo' <= lo)%nat -> increasing lo l -> increasing lo' l.
Proof.
  destruct l as [|[i g] r]; intros lo lo' Hle H; [exact I|].
  simpl in *. destruct H as [H1 H2]. split; [lia | exact H2].
Qed.

Lemma increasing_In l : forall lo i g,
  increasing lo l -> In (i, g) l -> (lo <= i)%nat.
Proof.
  induction l as [|[i0 g0] r IH]; intros lo i g Hinc Hin; [destruct Hin|].
  destruct Hinc as [H1 H2]. destruct Hin as [[= <- <-]|Hin]; [exact H1|].
  pose proof (IH _ _ _ H2 Hin). lia.
Qed.

(** The scan reports its matches from left to right. *)
Lemma headingMatches_from_increasing s : forall i skip,
  increasing i (headingMatches_from s i skip).
Proof.
  induction s as [|c r IH]; intros i skip; [exact I|].
  cbn [headingMatches_from]. destruct skip as [|k].
  - destruct (headingAt (String c r)) as [[txt len]|].
    + split; [lia | apply IH].
    + apply (@increasing_weaken _ (S i) i); [lia | apply IH].
  - apply (@increasing_weaken _ (S i) i); [lia | apply IH].
Qed.

Lemma lastHeading_none ms : forall t acc,
  (forall i g, In (i, g) ms -> (t < i)%nat) -> lastHeading ms t acc = acc.
Proof.
  induction ms as [|[i0 g0] r IH]; intros t acc H; [reflexivity|].
  cbn [lastHeading]. rewrite IH.
  - pose proof (H i0 g0 (or_introl eq_refl)) as Hlt.
    apply Nat.leb_gt in Hlt. now rewrite Hlt.
  - intros i g Hin. apply (H i g). now right.
Qed.

(** The loop keeps the match with the greatest index at or before the
    target. *)
Lemma lastHeading_latest ms : forall lo t acc idx txt,
  increasing lo ms -> In (idx, txt) ms -> (idx <= t)%nat ->
  (forall i g, In (i, g) ms -> (i <= t)%nat -> (i <= idx)%nat) ->
  lastHeading ms t acc = Some (idx, trim txt).
Proof.
  induction ms as [|[i0 g0] r IH]; intros lo t acc idx txt Hinc Hin Hle Hmax;
    [destruct Hin|].
  destruct Hinc as [_ Hinc]. cbn [lastHeading].
  destruct Hin as [[= -> ->]|Hin].
  - apply Nat.leb_le in Hle. rewrite Hle. apply lastHeading_none.
    intros i g Hi. pose proof (@increasing_In r (S idx) i g Hinc Hi) as Hlo.
    destruct (Nat.le_gt_cases i t) as [Hit|Hit]; [|exact Hit].
    pose proof (Hmax i g (or_intror Hi) Hit). lia.
  - apply (IH (S i0)); try assumption.
    intros i g Hi Hit. apply (Hmax i g); [now right | exact Hit].
Qed.

(** ** Texts and their parts *)

Lemma length_app_str (a b : string) :
  String.length (a ++ b) = (String.length a + String.length b)%nat.
Proof. induction a as [|c a IH]; cbn; [reflexivity | now rewrite IH]. Qed.

Lemma drop_prefix (a b : string) : drop (String.length a) (a ++ b) = b.
Proof. induction a as [|c a IH]; [reflexivity | exact IH]. Qed.

Lemma drop_add n : forall m s, drop (n + m) s = drop m (drop n s).
Proof.
  induction n as [|n IH]; intros m s; [reflexivity|].
  destruct s as [|c s]; [now destruct m | apply IH].
Qed.

Lemma drop_beyond : forall n s, (String.length s <= n)%nat -> drop n s = EmptyString.
Proof.
  induction n as [|n IH]; intros s H.
  - destruct s; [reflexivity | cbn in H; lia].
  - destruct s as [|c s]; [reflexivity|]. apply IH. cbn in H. lia.
Qed.

Lemma take_drop_join : forall n s, take n s ++ drop n s = s.
Proof.
  induction n as [|n IH]; intros s; [reflexivity|].
  destruct s as [|c s]; [reflexivity|]. cbn. now rewrite IH.
Qed.

Lemma length_take_within : forall n s,
  (n <= String.length s)%nat -> String.length (take n s) = n.
Proof.
  induction n as [|n IH]; intros s H; [reflexivity|].
  destruct s as [|c s]; [cbn in H; lia|]. cbn. rewrite IH; [reflexivity|].
  cbn in H. lia.
Qed.

(** A text read from [idx] on splits there. *)
Lemma drop_splits s idx c r :
  drop idx s = String c r ->
  exists before, s = before ++ String c r /\ String.length before = idx.
Proof.
  intros H. exists (take idx s). split.
  - rewrite <- H. symmetry. apply take_drop_join.
  - apply length_take_within.
    destruct (Nat.le_gt_cases idx (String.length s)) as [Hle|Hgt]; [exact Hle|].
    rewrite drop_beyond in H by lia. discriminate.
Qed.

Lemma drop_inside : forall k X r,
  (k < String.length X)%nat ->
  exists c t, drop k (X ++ r) = String c t /\
              forall p, allChars p X = true -> p c = true.
Proof.
  induction k as [|k IH]; intros X r H; (destruct X as [|x X]; [cbn in H; lia|]).
  - exists x, (X ++ r). split; [reflexivity|].
    intros p Hp. cbn in Hp. now apply andb_true_iff in Hp as [Hx _].
  - destruct (IH X r) as (c & t & E & Hc); [cbn in H; lia|].
    exists c, t. split; [exact E|].
    intros p Hp. cbn in Hp. apply andb_true_iff in Hp as [_ HX]. now apply Hc.
Qed.

Lemma allChars_append p (a b : string) :
  allChars p (a ++ b) = allChars p a && allChars p b.
Proof.
  induction a as [|c a IH]; [reflexivity|].
  cbn [append allChars]. now rewrite IH, andb_assoc.
Qed.

(** Of two line feeds of a text, the later one lies behind what follows
    the earlier one up to the next line feed. *)
Lemma line_ends_before w bp X rest bi Y :
  w = bp ++ String LF (X ++ rest) -> allChars notLineFeed X = true ->
  w = bi ++ String LF Y ->
  (String.length bp < String.length bi)%nat ->
  (String.length bp + S (String.length X) <= String.length bi)%nat.
Proof.
  intros Hp HX Hi Hlt.
  destruct (Nat.le_gt_cases (String.length bp + S (String.length X))
                            (String.length bi)) as [H|H]; [exact H|].
  exfalso.
  assert (E1 : drop (String.length bi) w = String LF Y)
    by (rewrite Hi; apply drop_prefix).
  replace (String.length bi)
    with (String.length bp + (1 + (String.length bi - String.length bp - 1)))%nat
    in E1 by lia.
  rewrite drop_add, Hp, drop_prefix in E1.
  rewrite drop_add in E1. cbn [drop] in E1.
  destruct (@drop_inside (String.length bi - String.length bp - 1) X rest)
    as (c & t & E2 & Hc); [lia|].
  rewrite E2 in E1. injection E1 as -> _.
  specialize (Hc notLineFeed HX). discriminate Hc.
Qed.

(** ** Heading lines and the pattern *)

Lemma length_hashes level : String.length (hashes level) = level.
Proof. induction level as [|n IH]; cbn; [reflexivity | now rewrite IH]. Qed.

Lemma hashes_run level c r :
  isHash c = false ->
  takeWhile isHash (hashes level ++ String c r) = hashes level /\
  dropWhile isHash (hashes level ++ String c r) = String c r.
Proof.
  intros Hc. induction level as [|n [IH1 IH2]]; cbn.
  - now rewrite Hc.
  - now rewrite IH1, IH2.
Qed.

Lemma run_hashes : forall s, allChars isHash s = true -> s = hashes (String.length s).
Proof.
  induction s as [|c s IH]; intros H; [reflexivity|].
  cbn in H. apply andb_true_iff in H as [Hc Hs].
  apply Ascii.eqb_eq in Hc. subst c. cbn. now rewrite <- IH.
Qed.

Lemma blank_space c : isBlank c = true -> isSpace c = true /\ notLF c = true.
Proof. unfold isBlank. intros H. now apply andb_true_iff in H. Qed.

Lemma blanks_one_line : forall s,
  allChars isBlank s = true -> allChars notLineFeed s = true.
Proof.
  induction s as [|x t IH]; intros H; [reflexivity|].
  cbn [allChars] in *. apply andb_true_iff in H as [Hx Ht].
  destruct (blank_space _ Hx) as [_ Hx'].
  apply andb_true_iff. split; [exact Hx' | now apply IH].
Qed.

Lemma spacesThenText_blanks t c r : forall blanks,
  allChars isBlank blanks = true -> t = String c r -> isSpace c = false ->
  spacesThenText (blanks ++ t) = Some (String.length blanks, takeWhile notLF t).
Proof.
  intros blanks Hb -> Hc. induction blanks as [|b blanks IH].
  - cbn [append spacesThenText String.length]. now rewrite Hc.
  - cbn [allChars] in Hb. apply andb_true_iff in Hb as [Hb1 Hb2].
    destruct (blank_space _ Hb1) as [Hs _].
    cbn [append spacesThenText String.length]. now rewrite Hs, (IH Hb2).
Qed.

(** The pattern matches a heading line of the second or third level,
    from its line feed to the end of the line. *)
Lemma headingAt_line level blanks title trailing rest :
  sectionLevel level ->
  blanks <> EmptyString -> allChars isBlank blanks = true -> Title title ->
  allChars isBlank trailing = true ->
  (rest = EmptyString \/ exists r, rest = String LF r) ->
  headingAt (String LF (hashes level ++ blanks ++ title ++ trailing ++ rest))
  = Some (title ++ trailing,
          S (String.length (hashes level ++ blanks ++ title ++ trailing))) /\
  allChars notLineFeed (hashes level ++ blanks ++ title ++ trailing) = true.
Proof.
  intros Hlevel Hne Hb (Hnl & (c & r & -> & Hc) & _) Ht Hrest.
  destruct blanks as [|w blanks]; [now elim Hne|].
  cbn [allChars] in Hb. apply andb_true_iff in Hb as [Hw Hb].
  destruct (blank_space _ Hw) as [Hws Hwl].
  assert (Hwh : isHash w = false).
  { unfold isHash. destruct (Ascii.eqb_spec w "#") as [->|_];
      [discriminate Hws | reflexivity]. }
  pose proof (blanks_one_line _ Ht) as Htl.
  pose proof (blanks_one_line _ Hb) as Hbl.
  assert (Hhl : allChars notLineFeed (hashes level) = true)
    by (destruct Hlevel as [-> | ->]; reflexivity).
  split.
  - unfold headingAt. rewrite Ascii.eqb_refl.
    change (String w blanks ++ String c r ++ trailing ++ rest)
      with (String w (blanks ++ String c r ++ trailing ++ rest)).
    destruct (@hashes_run level w
                (blanks ++ String c r ++ trailing ++ rest) Hwh) as [-> ->].
    rewrite length_hashes.
    replace ((level =? 2)%nat || (level =? 3)%nat) with true
      by (destruct Hlevel as [-> | ->]; reflexivity).
    rewrite Hws.
    change (String c r ++ trailing ++ rest)
      with (String c (r ++ trailing ++ rest)).
    rewrite (@spacesThenText_blanks _ c (r ++ trailing ++ rest) blanks Hb eq_refl Hc).
    change (String c (r ++ trailing ++ rest))
      with (String c r ++ trailing ++ rest).
    rewrite <- JsFacts.append_assoc.
    rewrite JsFacts.takeWhile_app_stop.
    + f_equal. f_equal.
      rewrite !length_app_str, length_hashes. cbn [String.length]. lia.
    + rewrite allChars_append. change notLF with notLineFeed.
      now rewrite Hnl, Htl.
    + intros x rest' Hx. destruct Hrest as [->|[r0 ->]]; [discriminate|].
      injection Hx as <- _. reflexivity.
  - rewrite !allChars_append, Hhl, Hnl, Htl. cbn [allChars].
    unfold notLF in Hwl. unfold notLineFeed at 1. now rewrite Hwl, Hbl.
Qed.

(** A match of the pattern starts with a line feed, [##] or [###] and
    white space. *)
Lemma headingAt_starts s g len :
  headingAt s = Some (g, len) ->
  exists level c after,
    s = String LF (hashes level ++ String c after) /\
    sectionLevel level /\ isSpace c = true.
Proof.
  unfold headingAt. destruct s as [|c0 r]; [discriminate|].
  destruct (Ascii.eqb_spec c0 LF) as [->|_]; [|discriminate].
  pose proof (JsFacts.takeWhile_dropWhile isHash r) as Hr.
  pose proof (JsFacts.takeWhile_all isHash r) as Hall.
  destruct ((String.length (takeWhile isHash r) =? 2)%nat
            || (String.length (takeWhile isHash r) =? 3)%nat) eqn:E;
    [|discriminate].
  destruct (dropWhile isHash r) as [|w r'] eqn:Ed; [discriminate|].
  destruct (isSpace w) eqn:Ew; [|discriminate]. intros _.
  exists (String.length (takeWhile isHash r)), w, r'. split.
  - rewrite <- (run_hashes _ Hall). now rewrite Hr.
  - split; [|exact Ew]. apply orb_true_iff in E as [E|E];
      apply Nat.eqb_eq in E; [now left | now right].
Qed.

(** ** The scan *)

(** Every match the scan reports is a match of the pattern where it is
    reported. *)
Lemma headingMatches_from_sound s : forall i skip idx g,
  In (idx, g) (headingMatches_from s i skip) ->
  exists n len, idx = (i + n)%nat /\ headingAt (drop n s) = Some (g, len).
Proof.
  induction s as [|c r IH]; intros i skip idx g Hin; [destruct Hin|].
  cbn [headingMatches_from] in Hin.
  assert (Hrec : forall k, In (idx, g) (headingMatches_from r (S i) k) ->
            exists n len, idx = (i + n)%nat /\
                          headingAt (drop n (String c r)) = Some (g, len)).
  { intros k H. destruct (IH _ _ _ _ H) as (n & len & -> & E).
    exists (S n), len. split; [lia | exact E]. }
  destruct skip as [|k]; [|now apply (Hrec k)].
  destruct (headingAt (String c r)) as [[txt len]|] eqn:E; [|now apply (Hrec 0%nat)].
  destruct Hin as [[= <- <-]|Hin]; [|now apply (Hrec (len - 1)%nat)].
  exists 0%nat, len. split; [lia | exact E].
Qed.

(** The scan reports a match of the pattern when no earlier match
    reaches beyond its start. *)
Lemma headingMatches_from_finds s : forall i skip n g len,
  (skip <= n)%nat -> headingAt (drop n s) = Some (g, len) ->
  (forall p g' len', (p < n)%nat -> headingAt (drop p s) = Some (g', len') ->
                     (p + len' <= n)%nat) ->
  In ((i + n)%nat, g) (headingMatches_from s i skip).
Proof.
  induction s as [|c r IH]; intros i skip n g len Hskip Hat Hfree.
  - destruct n; discriminate Hat.
  - cbn [headingMatches_from].
    assert (Hrec : forall k n', n = S n' -> (k <= n')%nat ->
              In ((i + n)%nat, g) (headingMatches_from r (S i) k)).
    { intros k n' -> Hk. replace (i + S n')%nat with (S i + n')%nat by lia.
      apply (IH (S i) k n' g len Hk Hat).
      intros p g' len' Hp Hp'.
      pose proof (Hfree (S p) g' len' ltac:(lia) Hp'). lia. }
    destruct skip as [|k].
    + destruct n as [|n'].
      * cbn [drop] in Hat. rewrite Hat. left. f_equal. lia.
      * destruct (headingAt (String c r)) as [[txt len0]|] eqn:E.
        -- right. apply (Hrec _ n' eq_refl).
           pose proof (Hfree 0%nat txt len0 ltac:(lia) E). lia.
        -- apply (Hrec _ n' eq_refl). lia.
    + destruct n as [|n']; [lia|]. apply (Hrec _ n' eq_refl). lia.
Qed.

(** ** Titles *)

Lemma rev_append (a b : string) : rev (a ++ b) = rev b ++ rev a.
Proof.
  induction a as [|c a IH].
  - cbn [append]. now rewrite JsFacts.append_nil_r.
  - cbn [append]. rewrite !RarityFacts.rev_cons, IH.
    apply JsFacts.append_assoc.
Qed.

Lemma rev_rev (s : string) : rev (rev s) = s.
Proof.
  induction s as [|c s IH]; [reflexivity|].
  now rewrite RarityFacts.rev_cons, RarityFacts.rev_snoc, IH.
Qed.

Lemma dropWhile_rev_blanks : forall blanks y,
  allChars isBlank blanks = true ->
  dropWhile isSpace (rev blanks ++ y) = dropWhile isSpace y.
Proof.
  induction blanks as [|b blanks IH]; intros y H; [reflexivity|].
  cbn [allChars] in H. apply andb_true_iff in H as [Hb H].
  destruct (blank_space _ Hb) as [Hs _].
  rewrite RarityFacts.rev_cons, JsFacts.append_assoc. cbn [append].
  rewrite (IH _ H). cbn [dropWhile]. now rewrite Hs.
Qed.

(** Trimming a title with blanks after it leaves the title. *)
Lemma trim_title title trailing :
  Title title -> allChars isBlank trailing = true ->
  trim (title ++ trailing) = title.
Proof.
  intros (_ & (c & r & Hfirst & Hc) & (init & d & Hlast & Hd)) Ht.
  unfold trim, trimStart, trimEnd.
  assert (E : dropWhile isSpace (title ++ trailing) = title ++ trailing).
  { rewrite Hfirst. cbn [append dropWhile]. now rewrite Hc. }
  rewrite E, rev_append, (dropWhile_rev_blanks _ _ Ht).
  rewrite Hlast at 1. rewrite RarityFacts.rev_snoc. cbn [dropWhile].
  rewrite Hd. rewrite <- RarityFacts.rev_snoc, <- Hlast. apply rev_rev.
Qed.

(** ** The latest heading line *)

Lemma HeadingLine_drop s idx level title :
  HeadingLine s idx level title ->
  exists after, drop idx s = String LF (hashes level ++ after).
Proof.
  intros (before & blanks & trailing & rest & -> & <- & _).
  eexists. apply drop_prefix.
Qed.

(** In a text with clean headings the scan finds the latest heading line
    at or before the target, with its title. *)
Lemma lastHeading_clean w target idx title :
  CleanHeadings w ->
  LatestHeading sectionLevel w (Z.of_nat target) idx title ->
  lastHeading (headingMatches w) target None = Some (idx, title).
Proof.
  intros Hclean ((level & Hlevel & Hline) & Hle & Hmax).
  pose proof Hline as (before & blanks & trailing & rest & Hw & Hlen & Hne
                       & Hb & Htitle & Ht & Hrest).
  destruct (@headingAt_line level blanks title trailing rest
              Hlevel Hne Hb Htitle Ht Hrest) as [Hat _].
  assert (Hdrop : drop idx w
                  = String LF (hashes level ++ blanks ++ title ++ trailing ++ rest))
    by (rewrite Hw, <- Hlen; apply drop_prefix).
  assert (Hstart : forall p g len,
            headingAt (drop p w) = Some (g, len) ->
            exists level' title' bp X rest',
              sectionLevel level' /\ HeadingLine w p level' title' /\
              w = bp ++ String LF (X ++ rest') /\ String.length bp = p /\
              allChars notLineFeed X = true /\ len = S (String.length X)).
  { intros p g len Hp.
    destruct (headingAt_starts _ Hp) as (lv & c & after & Es & Hlv & Hc).
    destruct (drop_splits _ _ Es) as (bp & Hbp & Hbplen).
    destruct (Hclean p) as (level' & title' & Hlevel' & Hline').
    { exists bp, lv, c, after. now repeat split. }
    pose proof Hline' as (bp' & blanks' & trailing' & rest' & Hw' & Hlen' & Hne'
                          & Hb' & Htitle' & Ht' & Hrest').
    destruct (@headingAt_line level' blanks' title' trailing' rest'
                Hlevel' Hne' Hb' Htitle' Ht' Hrest') as [Hat' Hnl'].
    assert (Hdrop' : drop p w
              = String LF (hashes level' ++ blanks' ++ title' ++ trailing' ++ rest'))
      by (rewrite Hw', <- Hlen'; apply drop_prefix).
    rewrite Hdrop', Hat' in Hp. injection Hp as _ <-.
    exists level', title', bp', (hashes level' ++ blanks' ++ title' ++ trailing'),
           rest'.
    repeat split; try assumption.
    rewrite Hw'. now rewrite !JsFacts.append_assoc. }
  rewrite <- (@trim_title title trailing Htitle Ht).
  apply (@lastHeading_latest (headingMatches w) 0 target None idx
           (title ++ trailing)).
  - apply headingMatches_from_increasing.
  - change idx with (0 + idx)%nat. unfold headingMatches.
    apply (@headingMatches_from_finds w 0 0 idx (title ++ trailing)
             (S (String.length (hashes level ++ blanks ++ title ++ trailing)))).
    + lia.
    + now rewrite Hdrop.
    + intros p g' len' Hp Hp'.
      destruct (Hstart p g' len' Hp')
        as (level' & title' & bp & X & rest' & _ & _ & Hwp & Hbp & HX & ->).
      rewrite <- Hbp, <- Hlen. rewrite <- Hbp, <- Hlen in Hp.
      now apply (@line_ends_before w bp X rest' before
                   (hashes level ++ blanks ++ title ++ trailing ++ rest)).
  - lia.
  - intros i g Hi Hit.
    destruct (headingMatches_from_sound _ _ _ _ _ Hi) as (n & len & -> & Hn).
    destruct (Hstart n g len Hn) as (level' & title' & _ & _ & _ & Hlv & Hl & _).
    apply (Hmax n level' title' Hlv Hl). cbn. lia.
Qed.

(** ** Texts that are given *)

(** Where a pattern starts in a text can be found out by looking at
    every index. *)
Lemma starts_checked (p s : string) (ok : nat -> bool) :
  p <> EmptyString ->
  List.forallb (fun i => negb (startsWith p (drop i s)) || ok i)
               (seq 0 (String.length s)) = true ->
  forall idx, startsWith p (drop idx s) = true -> ok idx = true.
Proof.
  intros Hp Hall idx Hs.
  destruct (Nat.lt_ge_cases idx (String.length s)) as [Hlt|Hge].
  - rewrite forallb_forall in Hall.
    specialize (Hall idx ltac:(apply in_seq; lia)). now rewrite Hs in Hall.
  - rewrite drop_beyond in Hs by exact Hge.
    destruct p; [now elim Hp | discriminate Hs].
Qed.

Lemma HeadingLine_starts s idx level title :
  HeadingLine s idx (S level) title ->
  startsWith (String LF "#") (drop idx s) = true.
Proof.
  intros H. destruct (HeadingLine_drop H) as [after ->]. reflexivity.
Qed.

Lemma StartsHeading_starts s idx :
  StartsHeading s idx -> startsWith (String LF "##") (drop idx s) = true.
Proof.
  intros (before & level & c & after & -> & <- & Hlevel & _).
  rewrite drop_prefix. destruct Hlevel as [-> | ->]; reflexivity.
Qed.

(** A heading line, from what the text holds at an index. *)
Lemma HeadingLine_at s idx level blanks title trailing rest :
  drop idx s = String LF (hashes level ++ blanks ++ title ++ trailing ++ rest) ->
  blanks <> EmptyString -> allChars isBlank blanks = true -> Title title ->
  allChars isBlank trailing = true ->
  (rest = EmptyString \/ exists r, rest = String LF r) ->
  HeadingLine s idx level title.
Proof.
  intros Hd Hne Hb Ht Htr Hrest.
  destruct (drop_splits _ _ Hd) as (before & Hs & Hlen).
  exists before, blanks, trailing, rest.
  repeat (split; [assumption|]). assumption.
Qed.

End TruncateFacts.

Module TruncateProperties.
Import Js Spec Truncate TruncateSpec TruncateFacts.

(** The title of the heading of [Examples.longTitlePage]. *)
Lemma longTitle_line :
  HeadingLine Examples.longTitlePage 840 2
              (trim (Examples.repeatText 50 "Special attack ")).
Proof.
  apply (@HeadingLine_at _ _ _ " " _ " " (Examples.nl ++ "Energy Drain."));
    [vm_compute; reflexivity | discriminate | reflexivity | | reflexivity
    | right; eexists; reflexivity].
  split; [vm_compute; reflexivity|]. split.
  - eexists; eexists. split; [vm_compute; reflexivity | reflexivity].
  - exists (take 748 (trim (Examples.repeatText 50 "Special attack "))), "k"%char.
    split; [vm_compute; reflexivity | reflexivity].
Qed.

(** C8 as stated fails: a page of 1161 characters whose only heading is
    of the fourth level ([#### Notes], at index 29) is cut at a maximum
    of 1000 characters without a section being reported; the truncation
    cuts at headings of the second and third level only.  And with the
    headings of these two levels alone it fails as well: of a heading
    line that starts before the cut point and runs beyond the look-ahead
    window, the first 887 + 500 characters, the title is reported cut at
    the end of the window. *)
Lemma truncateContent_counterexample :
  ~ AsSpecified /\ ~ AsSpecifiedFor sectionLevel.
Proof.
  split; intros H.
  - destruct (H Examples.notesPage 1000%Z) as [_ H2].
    destruct (H2 29%nat "Notes") as [_ Hs].
    + vm_compute. reflexivity.
    + split; [|split].
      * exists 4%nat. split; [unfold markdownLevel; lia|].
        apply (@HeadingLine_at _ _ _ " " "Notes" ""
                 (Examples.nl ++ Examples.repeatText 80 "It hits fast. "));
          [vm_compute; reflexivity | discriminate | reflexivity | | reflexivity
          | right; eexists; reflexivity].
        split; [reflexivity|]. split.
        -- now exists "N"%char, "otes".
        -- now exists "Note", "s"%char.
      * vm_compute. discriminate.
      * intros idx' level' title' [Hlo _] Hl _.
        destruct level' as [|level']; [lia|].
        apply HeadingLine_starts in Hl.
        apply Nat.leb_le.
        apply (@starts_checked (String LF "#") Examples.notesPage
                 (fun i => (i <=? 29)%nat)); [discriminate | | exact Hl].
        vm_compute. reflexivity.
    + vm_compute in Hs. discriminate.
  - destruct (H Examples.longTitlePage 1000%Z) as [_ H2].
    destruct (H2 840%nat (trim (Examples.repeatText 50 "Special attack ")))
      as [_ Hs].
    + vm_compute. reflexivity.
    + split; [|split].
      * exists 2%nat. split; [now left | exact longTitle_line].
      * vm_compute. discriminate.
      * intros idx' level' title' Hlevel Hl _.
        assert (Hs : startsWith (String LF "##")
                       (drop idx' Examples.longTitlePage) = true).
        { destruct (HeadingLine_drop Hl) as [after ->].
          destruct Hlevel as [-> | ->]; reflexivity. }
        apply Nat.leb_le.
        apply (@starts_checked (String LF "##") Examples.longTitlePage
                 (fun i => (i <=? 840)%nat)); [discriminate | | exact Hs].
        vm_compute. reflexivity.
    + vm_compute in Hs. discriminate.
Qed.

(** The heading of the fourth level is no cut point: the page is cut at
    the target length, 887, and no section is reported. *)
Example truncateContent_fourth_level :
  truncateContent Examples.notesPage 1000
  = mkTruncateResult (trim (take 887 Examples.notesPage) ++ truncationMsg)
                     true 1161 None.
Proof. vm_compute. reflexivity. Qed.

(** The look-ahead window at work: of a heading line that starts before
    the target and runs beyond the first 887 + 500 characters, the
    section reported is the part within the window. *)
Example truncateContent_window :
  truncatedAtSection (truncateContent Examples.longTitlePage 1000)
  = Some (trim (take 543 (Examples.repeatText 50 "Special attack "))) /\
  truncatedAtSection (truncateContent Examples.longTitlePage 1000)
  <> Some (trim (Examples.repeatText 50 "Special attack ")).
Proof. split; vm_compute; [reflexivity | discriminate]. Qed.

(** A heading on the first line has no line feed before it: the scan
    does not find it, and a section of 1452 characters cut at 1000
    reports no heading. *)
Example truncateContent_first_line :
  headingMatches Examples.strategySection = [] /\
  truncated (truncateContent Examples.strategySection 1000) = true /\
  truncatedAtSection (truncateContent Examples.strategySection 1000) = None.
Proof. repeat split; vm_compute; reflexivity. Qed.

(** C8, amended.  Content of at most [maxLength] is returned unchanged
    with [truncated = false]; longer content gives [truncated = true];
    and when a heading line of the second or third level (a line feed,
    [##] or [###], blanks, a title) starts at or before the cut point
    [maxLength - 113] within the look-ahead window, the first cut point
    + 500 characters, [truncatedAtSection] is the title of the latest
    such heading line and the content is cut at its line feed.  This for
    a maximum length above the 113 characters of the notice, as every
    length the caller passes is, and for a window in which a line that
    starts with [##] or [###] and white space is always a heading
    line. *)
Theorem truncateContent_heading (content : string) (maxLength : Z) :
  ((Z.of_nat (String.length content) <= maxLength)%Z ->
   truncateContent content maxLength
   = mkTruncateResult content false (String.length content) None) /\
  ((maxLength < Z.of_nat (String.length content))%Z ->
   truncated (truncateContent content maxLength) = true) /\
  (forall idx title,
     (maxLength < Z.of_nat (String.length content))%Z ->
     (0 < targetLengthOf maxLength)%Z ->
     let window := take (Z.to_nat (targetLengthOf maxLength) + 500) content in
     CleanHeadings window ->
     LatestHeading sectionLevel window (targetLengthOf maxLength) idx title ->
     truncatedAtSection (truncateContent content maxLength) = Some title /\
     Truncate.content (truncateContent content maxLength)
     = trim (take idx content) ++ truncationMsg).
Proof.
  split; [|split].
  - intros H. unfold truncateContent. apply Z.leb_le in H. now rewrite H.
  - intros H. unfold truncateContent. apply Z.leb_gt in H. rewrite H.
    destruct (_ <=? 0)%Z; reflexivity.
  - intros idx title Hlong Hpos window Hclean Hlatest.
    unfold truncateContent.
    apply Z.leb_gt in Hlong. rewrite Hlong.
    fold (targetLengthOf maxLength).
    assert (E : (targetLengthOf maxLength <=? 0)%Z = false)
      by (apply Z.leb_gt; exact Hpos).
    rewrite E. fold window.
    rewrite (@lastHeading_clean window (Z.to_nat (targetLengthOf maxLength))
               idx title Hclean).
    + split; reflexivity.
    + now rewrite Z2Nat.id by lia.
Qed.

Lemma truncateContent_heading_witness :
  truncatedAtSection (truncateContent Examples.longPage 1000)
  = Some "Special attack" /\
  Truncate.content (truncateContent Examples.longPage 1000)
  = trim (take 600 Examples.longPage) ++ truncationMsg.
Proof.
  destruct (truncateContent_heading Examples.longPage 1000) as [_ [_ H]].
  cbv zeta in H.
  change (Z.to_nat (targetLengthOf 1000) + 500)%nat with 1387%nat in H.
  assert (Hcombat : HeadingLine (take 1387 Examples.longPage) 29 2 "Combat").
  { apply (@HeadingLine_at _ _ _ " " "Combat" ""
             (drop 39 (take 1387 Examples.longPage)));
      [vm_compute; reflexivity | discriminate | reflexivity | | reflexivity
      | right; eexists; vm_compute; reflexivity].
    split; [reflexivity|]. split.
    - now exists "C"%char, "ombat".
    - now exists "Comba", "t"%char. }
  assert (Hspecial : HeadingLine (take 1387 Examples.longPage) 600 3
                                 "Special attack").
  { apply (@HeadingLine_at _ _ _ " " "Special attack" " "
             (drop 620 (take 1387 Examples.longPage)));
      [vm_compute; reflexivity | discriminate | reflexivity | | reflexivity
      | right; eexists; vm_compute; reflexivity].
    split; [reflexivity|]. split.
    - now exists "S"%char, "pecial attack".
    - now exists "Special attac", "k"%char. }
  assert (Hwhere : forall idx,
            startsWith (String LF "##") (drop idx (take 1387 Examples.longPage))
            = true -> idx = 29%nat \/ idx = 600%nat).
  { intros idx Hs.
    assert (Hok : ((idx =? 29)%nat || (idx =? 600)%nat) = true).
    { apply (@starts_checked (String LF "##") (take 1387 Examples.longPage)
               (fun i => (i =? 29)%nat || (i =? 600)%nat));
        [discriminate | vm_compute; reflexivity | exact Hs]. }
    apply orb_true_iff in Hok as [Hok|Hok]; apply Nat.eqb_eq in Hok; tauto. }
  apply (H 600%nat "Special attack").
  - vm_compute. reflexivity.
  - vm_compute. reflexivity.
  - intros idx Hst. apply StartsHeading_starts in Hst.
    destruct (Hwhere idx Hst) as [-> | ->].
    + exists 2%nat, "Combat". split; [now left | exact Hcombat].
    + exists 3%nat, "Special attack". split; [now right | exact Hspecial].
  - split; [|split].
    + exists 3%nat. split; [now right | exact Hspecial].
    + vm_compute. discriminate.
    + intros idx' level' title' Hlevel Hl _.
      assert (Hs : startsWith (String LF "##")
                     (drop idx' (take 1387 Examples.longPage)) = true).
      { destruct (HeadingLine_drop Hl) as [after ->].
        destruct Hlevel as [-> | ->]; reflexivity. }
      destruct (Hwhere idx' Hs) as [-> | ->]; lia.
Defined.

(** Content that fits is returned as it is; the same page cut at 1000
    characters reports its latest heading. *)
Example truncateContent_examples :
  truncateContent Examples.longPage 2000
  = mkTruncateResult Examples.longPage false 1461 None /\
  truncatedAtSection (truncateContent Examples.longPage 1000)
  = Some "Special attack".
Proof. repeat split; vm_compute; reflexivity. Qed.

End TruncateProperties.

(* ================================================================== *)
(** * Drop table extraction *)
(* ================================================================== *)

Module DropTableFacts.
Import Js DropTable DropTableSpec.

(** ** Sections *)

Lemma addDrops_old secs : forall cc ds e c,
  AttributedTo secs e c -> AttributedTo (addDrops cc ds secs) e c.
Proof.
  induction secs as [|s r IH]; intros cc ds e c [s0 [Hin [Hc He]]];
    [destruct Hin|].
  cbn [addDrops]. destruct (String.eqb (category s) cc) eqn:E.
  - destruct Hin as [<-|Hin].
    + exists (mkSection (category s) (drops s ++ ds)). cbn.
      repeat split; [now left | exact Hc | apply in_or_app; now left].
    + exists s0. repeat split; [now right | exact Hc | exact He].
  - destruct Hin as [<-|Hin].
    + exists s. repeat split; [now left | exact Hc | exact He].
    + destruct (IH cc ds e c) as [s1 [H1 [H2 H3]]]; [now exists s0|].
      exists s1. repeat split; [now right | exact H2 | exact H3].
Qed.

Lemma addDrops_new secs : forall cc ds e,
  In e ds -> AttributedTo (addDrops cc ds secs) e cc.
Proof.
  induction secs as [|s r IH]; intros cc ds e He; cbn [addDrops].
  - exists (mkSection cc ds). cbn. repeat split; [now left | exact He].
  - destruct (String.eqb (category s) cc) eqn:E.
    + apply String.eqb_eq in E.
      exists (mkSection (category s) (drops s ++ ds)). cbn.
      repeat split; [now left | exact E | apply in_or_app; now right].
    + destruct (IH cc ds e He) as [s1 [H1 [H2 H3]]].
      exists s1. repeat split; [now right | exact H2 | exact H3].
Qed.

Section Walk.
Variable walk : list node -> option node.

Lemma eachTable_preserves tables : forall cc secs e c,
  AttributedTo secs e c -> AttributedTo (eachTable walk tables cc secs) e c.
Proof.
  induction tables as [|[prevs table] rest IH]; intros cc secs e c H;
    [exact H|].
  cbn [eachTable]. destruct (negb (qualifies table)); [now apply IH|].
  apply IH. destruct (0 <? List.length (dropsOf table))%nat; [|exact H].
  now apply addDrops_old.
Qed.

(** A qualifying table whose walk finds a heading with a text has its
    drops attributed to that text. *)
Lemma eachTable_attributes tables : forall cc secs prevs table h e,
  In (prevs, table) tables -> qualifies table = true ->
  walk prevs = Some h -> truthy (headingTextOf h) = true ->
  In e (dropsOf table) ->
  AttributedTo (eachTable walk tables cc secs) e (headingTextOf h).
Proof.
  induction tables as [|[prevs0 table0] rest IH];
    intros cc secs prevs table h e Hin Hq Hw Ht He; [destruct Hin|].
  cbn [eachTable]. destruct Hin as [[= -> ->]|Hin].
  - rewrite Hq. cbn [negb]. apply eachTable_preserves.
    assert (Hlen : (0 <? List.length (dropsOf table))%nat = true).
    { apply Nat.ltb_lt. destruct (dropsOf table); [destruct He | simpl; lia]. }
    rewrite Hlen. unfold categoryOf. rewrite Hw, Ht.
    now apply addDrops_new.
  - destruct (negb (qualifies table0)); now apply (IH _ _ prevs table).
Qed.

End Walk.

(** ** The walk that takes the closest heading *)

Lemma precedingHeading_nearest prevs h :
  NearestHeading prevs h -> precedingHeading prevs = Some h.
Proof.
  intros [before [after [-> [Hh Hb]]]].
  induction before as [|x r IH]; cbn [app precedingHeading].
  - now rewrite Hh.
  - destruct (Hb x (or_introl eq_refl)) as [H1 H2]. rewrite H1, H2.
    apply IH. intros y Hy. apply Hb. now right.
Qed.

Lemma precedingHeading_found prevs : forall h,
  precedingHeading prevs = Some h -> NearestHeading prevs h.
Proof.
  induction prevs as [|x r IH]; intros h; cbn [precedingHeading];
    [discriminate|].
  destruct (isHeading x) eqn:E1.
  - intros [= <-]. exists [], r. split; [reflexivity|]. split; [exact E1|].
    intros y [].
  - destruct (isRarityTable x) eqn:E2; [discriminate|]. intros Hr.
    destruct (IH h Hr) as [before [after [-> [Hh Hb]]]].
    exists (x :: before), after. split; [reflexivity|]. split; [exact Hh|].
    intros y [<-|Hy]; [now split | now apply Hb].
Qed.

(** ** The walk that prefers higher-level headings *)

Lemma hasTag_exclusive a b x :
  a <> b -> hasTag a x = true -> hasTag b x = false.
Proof.
  intros Hne. destruct x as [s|tag attrs kids]; [discriminate|]. simpl.
  intros Ha. apply String.eqb_eq in Ha. subst.
  now apply String.eqb_neq.
Qed.

Lemma heading_no_table a x :
  a <> "table" -> hasTag a x = true -> isRarityTable x = false.
Proof.
  intros Hne Ha. unfold isRarityTable, isWikitable.
  now rewrite (@hasTag_exclusive a "table" x Hne Ha).
Qed.

(** The walk from an intermediate state: [lvl] is 5 when no heading is
    kept, else the level of the heading [b] kept. *)
Lemma bestHeading_general prevs : forall b lvl,
  bestHeading prevs (b, lvl)
  = match List.find (hasTag "h2") (walked prevs) with
    | Some h => Some h
    | None =>
        if (3 <? lvl)%nat then
          match List.find (hasTag "h3") (walked prevs) with
          | Some h => Some h
          | None =>
              if (4 <? lvl)%nat then
                match List.find (hasTag "h4") (walked prevs) with
                | Some h => Some h
                | None => b
                end
              else b
          end
        else b
    end.
Proof.
  induction prevs as [|x r IH]; intros b lvl.
  - simpl. destruct (3 <? lvl)%nat; [destruct (4 <? lvl)%nat|]; reflexivity.
  - cbn [bestHeading walked fst snd].
    destruct (hasTag "h2" x) eqn:E2.
    { cbn [orb List.find]. now rewrite E2. }
    cbn [orb].
    destruct (hasTag "h3" x) eqn:E3.
    { assert (Er : isRarityTable x = false)
        by (apply (@heading_no_table "h3" x); [discriminate | exact E3]).
      assert (E4 : hasTag "h4" x = false)
        by (apply (@hasTag_exclusive "h3" "h4" x); [discriminate | exact E3]).
      rewrite Er. cbn [andb List.find]. rewrite E2, E3.
      destruct (3 <? lvl)%nat eqn:L3.
      - rewrite IH. cbn [fst snd].
        destruct (List.find (hasTag "h2") (walked r)); reflexivity.
      - rewrite E4. cbn [andb]. rewrite IH, L3.
        destruct (List.find (hasTag "h2") (walked r)); reflexivity. }
    cbn [andb].
    destruct (hasTag "h4" x) eqn:E4.
    { assert (Er : isRarityTable x = false)
        by (apply (@heading_no_table "h4" x); [discriminate | exact E4]).
      rewrite Er. cbn [andb List.find]. rewrite E2, E3, E4.
      destruct (4 <? lvl)%nat eqn:L4.
      - assert (L3 : (3 <? lvl)%nat = true)
          by (apply Nat.ltb_lt; apply Nat.ltb_lt in L4; lia).
        rewrite IH, L3. cbn [fst snd Nat.ltb Nat.leb].
        destruct (List.find (hasTag "h2") (walked r)); [reflexivity|].
        destruct (List.find (hasTag "h3") (walked r)); reflexivity.
      - rewrite IH.
        destruct (List.find (hasTag "h2") (walked r)); [reflexivity|].
        destruct (3 <? lvl)%nat; [|reflexivity].
        destruct (List.find (hasTag "h3") (walked r)); [reflexivity|].
        now rewrite L4. }
    cbn [andb]. destruct (isRarityTable x) eqn:Er.
    + cbn [List.find fst]. rewrite E2, E3, E4.
      destruct (3 <? lvl)%nat; [destruct (4 <? lvl)%nat|]; reflexivity.
    + cbn [List.find]. rewrite E2, E3, E4. apply IH.
Qed.

Lemma bestHeading_preferred prevs :
  bestHeading prevs (None, 5) = preferredHeading prevs.
Proof.
  rewrite bestHeading_general. unfold preferredHeading.
  destruct (List.find (hasTag "h2") (walked prevs)); [reflexivity|].
  cbn. destruct (List.find (hasTag "h3") (walked prevs)); [reflexivity|].
  destruct (List.find (hasTag "h4") (walked prevs)); reflexivity.
Qed.

(** Everything the level-preferring walk looks at lies before the first
    [h2] and the first table with a rarity header, that one included. *)
Lemma walked_prefix prevs : forall h,
  In h (walked prevs) ->
  exists before after,
    prevs = (before ++ h :: after)%list /\
    forall x, In x before -> isRarityTable x = false /\ hasTag "h2" x = false.
Proof.
  induction prevs as [|x r IH]; intros h; cbn [walked]; [intros []|].
  destruct (hasTag "h2" x || isRarityTable x) eqn:E.
  - intros [<-|[]]. exists [], r. split; [reflexivity | intros y []].
  - apply orb_false_iff in E as [E1 E2]. intros [<-|Hin].
    + exists [], r. split; [reflexivity | intros y []].
    + destruct (IH h Hin) as [before [after [-> Hb]]].
      exists (x :: before), after. split; [reflexivity|].
      intros y [<-|Hy]; [now split | now apply Hb].
Qed.

Lemma preferredHeading_found prevs h :
  preferredHeading prevs = Some h ->
  exists before after,
    prevs = (before ++ h :: after)%list /\ isHeading h = true /\
    forall x, In x before -> isRarityTable x = false /\ hasTag "h2" x = false.
Proof.
  unfold preferredHeading. intros H.
  assert (Hf : exists t, (t = "h2" \/ t = "h3" \/ t = "h4") /\
                         List.find (hasTag t) (walked prevs) = Some h).
  { destruct (List.find (hasTag "h2") (walked prevs)) eqn:F2.
    - exists "h2". split; [now left | congruence].
    - destruct (List.find (hasTag "h3") (walked prevs)) eqn:F3.
      + exists "h3". split; [right; now left | congruence].
      + exists "h4". split; [right; now right | exact H]. }
  destruct Hf as [t [Ht Hfind]].
  apply find_some in Hfind as [Hin Htag].
  destruct (@walked_prefix prevs h Hin) as [before [after [-> Hb]]].
  exists before, after. split; [reflexivity|]. split; [|exact Hb].
  unfold isHeading. destruct Ht as [-> | [-> | ->]]; rewrite Htag;
    repeat rewrite orb_true_r; reflexivity.
Qed.

(** ** Sections and labellings *)

Lemma addDrops_category_from secs : forall cc ds x,
  In x (List.map category (addDrops cc ds secs)) ->
  x = cc \/ In x (List.map category secs).
Proof.
  induction secs as [|s r IH]; intros cc ds x H; cbn [addDrops] in H.
  - destruct H as [<-|[]]. now left.
  - destruct (String.eqb (category s) cc) eqn:E.
    + right. exact H.
    + destruct H as [<-|H]; [right; now left|].
      destruct (IH _ _ _ H) as [->|H']; [now left | right; now right].
Qed.

Lemma addDrops_distinct secs : forall cc ds,
  NoDup (List.map category secs) ->
  NoDup (List.map category (addDrops cc ds secs)).
Proof.
  induction secs as [|s r IH]; intros cc ds Hnd; cbn [addDrops].
  - cbn. constructor; [intros [] | constructor].
  - destruct (String.eqb (category s) cc) eqn:E; [exact Hnd|].
    cbn [List.map] in *. inversion Hnd as [|? ? Hnot Hr]; subst.
    constructor; [|now apply IH].
    intros H. destruct (addDrops_category_from _ _ _ _ H) as [Heq|H'].
    + rewrite Heq, String.eqb_refl in E. discriminate E.
    + now apply Hnot.
Qed.

Lemma addDrops_keeps_drops secs : forall cc ds,
  ds <> [] -> (forall s, In s secs -> drops s <> []) ->
  forall s, In s (addDrops cc ds secs) -> drops s <> [].
Proof.
  induction secs as [|s0 r IH]; intros cc ds Hds Hall s H; cbn [addDrops] in H.
  - destruct H as [<-|[]]. exact Hds.
  - destruct (String.eqb (category s0) cc).
    + destruct H as [<-|H]; [|apply Hall; now right].
      cbn. intros E. apply app_eq_nil in E as [_ E]. now apply Hds.
    + destruct H as [<-|H]; [apply Hall; now left|].
      apply (IH cc ds Hds); [|exact H]. intros s' Hs'. apply Hall. now right.
Qed.

Lemma dropsUnder_absent secs c :
  ~ In c (List.map category secs) -> dropsUnder secs c = [].
Proof.
  unfold dropsUnder. induction secs as [|s r IH]; intros H; [reflexivity|].
  cbn [List.filter]. destruct (String.eqb_spec (category s) c) as [E|_].
  - elim H. left. exact E.
  - apply IH. intros H'. apply H. now right.
Qed.

(** Adding drops under a category appends them to what the sections hold
    under it, and changes nothing under any other. *)
Lemma addDrops_dropsUnder secs : forall cc ds c,
  NoDup (List.map category secs) ->
  dropsUnder (addDrops cc ds secs) c
  = (dropsUnder secs c ++ if String.eqb cc c then ds else [])%list.
Proof.
  induction secs as [|s r IH]; intros cc ds c Hnd; cbn [addDrops].
  - unfold dropsUnder. cbn [List.filter category].
    destruct (String.eqb cc c); cbn; [now rewrite app_nil_r | reflexivity].
  - inversion Hnd as [|? ? Hnot Hr]; subst.
    destruct (String.eqb_spec (category s) cc) as [E|E].
    + unfold dropsUnder. cbn [List.filter category]. rewrite E.
      destruct (String.eqb_spec cc c) as [Ec|Ec].
      * cbn [flat_map drops].
        assert (Hr0 : dropsUnder r c = [])
          by (apply dropsUnder_absent; now rewrite <- Ec, <- E).
        unfold dropsUnder in Hr0. rewrite Hr0, !app_nil_r. reflexivity.
      * now rewrite app_nil_r.
    + unfold dropsUnder. cbn [List.filter].
      destruct (String.eqb (category s) c).
      * cbn [flat_map]. fold (dropsUnder (addDrops cc ds r) c).
        fold (dropsUnder r c). rewrite (IH cc ds c Hr).
        now rewrite app_assoc.
      * fold (dropsUnder (addDrops cc ds r) c). fold (dropsUnder r c).
        now apply IH.
Qed.

Section Labelled.
Variable walk : list node -> option node.
Variable Chosen : list node -> node -> Prop.
Hypothesis walk_chosen : forall prevs h, Chosen prevs h <-> walk prevs = Some h.

Lemma truthy_nonempty (s : string) : truthy s = true <-> s <> EmptyString.
Proof. destruct s; cbn; split; intros H; congruence. Qed.

(** The category the extraction gives a table is its label. *)
Lemma LabelOf_categoryOf prevs carried label :
  LabelOf Chosen prevs carried label <-> label = categoryOf walk prevs carried.
Proof.
  unfold LabelOf, categoryOf. split.
  - intros [(h & Hc & Ht & ->)|[Hnone ->]].
    + apply walk_chosen in Hc. rewrite Hc.
      apply truthy_nonempty in Ht. now rewrite Ht.
    + destruct (walk prevs) as [h|] eqn:E; [|reflexivity].
      apply walk_chosen in E. now rewrite (Hnone h E).
  - intros ->. destruct (walk prevs) as [h|] eqn:E.
    + destruct (truthy (headingTextOf h)) eqn:Et.
      * left. exists h. split; [now apply walk_chosen|].
        split; [now apply truthy_nonempty | reflexivity].
      * right. split; [|reflexivity].
        intros h' Hc. apply walk_chosen in Hc. rewrite E in Hc.
        injection Hc as <-. destruct (headingTextOf h); [reflexivity | discriminate].
    + right. split; [|reflexivity].
      intros h' Hc. apply walk_chosen in Hc. congruence.
Qed.

Lemma Labelling_exists tables : forall carried,
  exists labelling, Labelling Chosen tables carried labelling.
Proof.
  induction tables as [|[prevs table] rest IH]; intros carried.
  - exists []. constructor.
  - destruct (qualifies table) eqn:Eq.
    + destruct (IH (categoryOf walk prevs carried)) as [out Hout].
      exists ((categoryOf walk prevs carried, dropsOf table) :: out).
      apply Labelling_table; [exact Eq | now apply LabelOf_categoryOf | exact Hout].
    + destruct (IH carried) as [out Hout]. exists out.
      now apply Labelling_skip.
Qed.

(** The loop over the tables files the drops of every qualifying table
    under its label, after what the sections hold already. *)
Lemma eachTable_labelled tables carried labelling :
  Labelling Chosen tables carried labelling ->
  forall secs,
    NoDup (List.map category secs) ->
    (forall s, In s secs -> drops s <> []) ->
    NoDup (List.map category (eachTable walk tables carried secs)) /\
    (forall s, In s (eachTable walk tables carried secs) -> drops s <> []) /\
    forall c, dropsUnder (eachTable walk tables carried secs) c
              = (dropsUnder secs c ++ dropsLabelled labelling c)%list.
Proof.
  induction 1 as [carried|prevs table rest carried out Hq _ IH
                 |prevs table rest carried label out Hq Hl _ IH];
    intros secs Hnd Hne.
  - cbn [eachTable]. repeat split; [exact Hnd | exact Hne|].
    intros c. unfold dropsLabelled. cbn. now rewrite app_nil_r.
  - cbn [eachTable]. rewrite Hq. cbn [negb]. now apply IH.
  - cbn [eachTable]. rewrite Hq. cbn [negb].
    apply LabelOf_categoryOf in Hl. rewrite <- Hl.
    destruct (dropsOf table) as [|d ds] eqn:Ed.
    + cbn [List.length Nat.ltb Nat.leb].
      destruct (IH secs Hnd Hne) as (H1 & H2 & H3).
      repeat split; [exact H1 | exact H2|].
      intros c. rewrite H3. unfold dropsLabelled. cbn [List.filter fst].
      destruct (String.eqb label c); [|reflexivity].
      cbn [flat_map snd]. reflexivity.
    + change (0 <? List.length (d :: ds))%nat with true. cbv iota.
      destruct (IH (addDrops label (d :: ds) secs)) as (H1 & H2 & H3).
      * now apply addDrops_distinct.
      * apply addDrops_keeps_drops; [discriminate | exact Hne].
      * repeat split; [exact H1 | exact H2|].
        intros c. rewrite H3, (addDrops_dropsUnder _ _ _ _ Hnd).
        unfold dropsLabelled. cbn [List.filter fst].
        rewrite <- app_assoc. f_equal.
        destruct (String.eqb label c); reflexivity.
Qed.

Lemma extractDropTableWith_filed document labelling :
  Labelling Chosen (selectTables document) "Drops" labelling ->
  FiledAs (extractDropTableWith walk document) labelling.
Proof.
  intros H. unfold extractDropTableWith.
  destruct (eachTable_labelled H) with (secs := @nil DropTableSection)
    as (H1 & H2 & H3).
  - constructor.
  - intros s [].
  - repeat split; [exact H1 | exact H2 | exact H3].
Qed.

End Labelled.

Lemma NearestHeading_walk prevs h :
  NearestHeading prevs h <-> precedingHeading prevs = Some h.
Proof.
  split; [apply precedingHeading_nearest | apply precedingHeading_found].
Qed.

Lemma PreferredHeading_walk prevs h :
  PreferredHeading prevs h <-> bestHeading prevs (None, 5%nat) = Some h.
Proof. unfold PreferredHeading. now rewrite bestHeading_preferred. Qed.

End DropTableFacts.

Module DropTableProperties.
Import Js DropTable DropTableSpec DropTableFacts.

(** C5 as stated fails for the latest [extractDropTable]: on a page with
    the heading "Drops" (h2) and below it "Weapons" (h3) with a drop
    table, the drops of that table go to "Drops", the more distant
    heading of higher level, not to "Weapons". *)
Lemma extractDropTable_counterexample : ~ AsSpecified extractDropTable.
Proof.
  intros H.
  destruct (H Examples.dropsPage
              [Examples.paragraph; Examples.headingOf "h3" "Weapons";
               Examples.headingOf "h2" "Drops"]
              (Examples.dropTableOf "Sword" "1/128")
              (Examples.headingOf "h3" "Weapons") Examples.sword)
    as [s [Hin [Hc _]]].
  - vm_compute. now left.
  - vm_compute. reflexivity.
  - exists [Examples.paragraph], [Examples.headingOf "h2" "Drops"].
    split; [reflexivity|]. split; [reflexivity|].
    intros x [<-|[]]. split; reflexivity.
  - vm_compute. reflexivity.
  - vm_compute. now left.
  - vm_compute in Hin. destruct Hin as [<-|[<-|[]]]; vm_compute in Hc;
      discriminate.
Qed.

(** C5, amended.  Both snapshots give every qualifying table a
    category and file its drops under that category and no other, the
    drops of the tables of one category in one section, in the order of
    the tables.  The category of a table is the text of the heading the
    backward walk chooses, when it chooses one and its text is not
    empty; else it is the category of the qualifying table before it,
    "Drops" for the first.  In the snapshot that takes the closest
    heading (unnamed/part_001) the heading chosen is the nearest h2, h3
    or h4 among the preceding siblings of the table with neither a
    heading nor a table with a rarity header between it and the table,
    never a more distant one.  In the latest snapshot (unnamed/part_000)
    the walk prefers higher levels: it chooses the nearest h2 met before
    a table with a rarity header, else the nearest h3, else the nearest
    h4; and the heading chosen never lies beyond a preceding table with
    a rarity header. *)
Theorem extractDropTable_attribution (document : list node) :
  (exists labelling,
     Labelling NearestHeading (selectTables document) "Drops" labelling) /\
  (forall labelling,
     Labelling NearestHeading (selectTables document) "Drops" labelling ->
     FiledAs (extractDropTable_nearest document) labelling) /\
  (exists labelling,
     Labelling PreferredHeading (selectTables document) "Drops" labelling) /\
  (forall labelling,
     Labelling PreferredHeading (selectTables document) "Drops" labelling ->
     FiledAs (extractDropTable document) labelling) /\
  (forall prevs h,
     PreferredHeading prevs h ->
     exists before after,
       prevs = (before ++ h :: after)%list /\ isHeading h = true /\
       forall x, In x before -> isRarityTable x = false /\ hasTag "h2" x = false).
Proof.
  split; [|split; [|split; [|split]]].
  - apply (@Labelling_exists _ _ NearestHeading_walk).
  - apply (@extractDropTableWith_filed _ _ NearestHeading_walk).
  - apply (@Labelling_exists _ _ PreferredHeading_walk).
  - apply (@extractDropTableWith_filed _ _ PreferredHeading_walk).
  - intros prevs h. apply preferredHeading_found.
Qed.

Lemma extractDropTable_attribution_witness :
  (dropsUnder (extractDropTable_nearest Examples.dropsPage) "Weapons"
   = [Examples.sword] /\
   dropsUnder (extractDropTable_nearest Examples.dropsPage) "Drops" = [] /\
   dropsUnder (extractDropTable_nearest Examples.dropsPage) "Runes"
   = [Examples.fireRune]) /\
  (dropsUnder (extractDropTable Examples.dropsPage) "Drops" = [Examples.sword] /\
   dropsUnder (extractDropTable Examples.dropsPage) "Weapons" = [] /\
   dropsUnder (extractDropTable Examples.dropsPage) "Runes"
   = [Examples.fireRune]) /\
  (dropsUnder (extractDropTable_nearest Examples.pairPage) "Weapons"
   = [Examples.sword; Examples.fireRune] /\
   dropsUnder (extractDropTable Examples.pairPage) "Weapons"
   = [Examples.sword; Examples.fireRune]).
Proof.
  pose (weapons := Examples.headingOf "h3" "Weapons").
  pose (runes := Examples.headingOf "h3" "Runes").
  pose (swords := Examples.dropTableOf "Sword" "1/128").
  pose (fires := Examples.dropTableOf "Fire rune" "2 x 1/1,024").
  assert (Hnone : forall Chosen : list node -> node -> Prop,
            (forall h, ~ Chosen [Examples.paragraph; swords; weapons] h) ->
            LabelOf Chosen [Examples.paragraph; swords; weapons]
                    "Weapons" "Weapons").
  { intros Chosen H. right. split; [|reflexivity]. intros h Hh. now elim (H h). }
  split; [|split].
  - destruct (extractDropTable_attribution Examples.dropsPage)
      as (_ & H & _).
    destruct (H [("Weapons", [Examples.sword]); ("Runes", [Examples.fireRune])])
      as (_ & _ & Hd).
    + apply (@Labelling_table _ _ swords _ _ "Weapons");
        [vm_compute; reflexivity | |].
      * left. exists weapons. split; [|split; [discriminate | reflexivity]].
        exists [Examples.paragraph], [Examples.headingOf "h2" "Drops"].
        split; [reflexivity|]. split; [reflexivity|].
        intros x [<-|[]]. split; reflexivity.
      * apply (@Labelling_table _ _ fires _ _ "Runes");
          [vm_compute; reflexivity | | constructor].
        left. exists runes. split; [|split; [discriminate | reflexivity]].
        exists [], [swords; Examples.paragraph; weapons;
                    Examples.headingOf "h2" "Drops"].
        split; [reflexivity|]. split; [reflexivity|]. intros x [].
    + repeat split; rewrite Hd; reflexivity.
  - destruct (extractDropTable_attribution Examples.dropsPage)
      as (_ & _ & _ & H & _).
    destruct (H [("Drops", [Examples.sword]); ("Runes", [Examples.fireRune])])
      as (_ & _ & Hd).
    + apply (@Labelling_table _ _ swords _ _ "Drops");
        [vm_compute; reflexivity | |].
      * left. exists (Examples.headingOf "h2" "Drops").
        split; [|split; [discriminate | reflexivity]]. reflexivity.
      * apply (@Labelling_table _ _ fires _ _ "Runes");
          [vm_compute; reflexivity | | constructor].
        left. exists runes. split; [|split; [discriminate | reflexivity]].
        reflexivity.
    + repeat split; rewrite Hd; reflexivity.
  - destruct (extractDropTable_attribution Examples.pairPage)
      as (_ & H1 & _ & H2 & _).
    destruct (H1 [("Weapons", [Examples.sword]); ("Weapons", [Examples.fireRune])])
      as (_ & _ & Hd1).
    + apply (@Labelling_table _ _ swords _ _ "Weapons");
        [vm_compute; reflexivity | |].
      * left. exists weapons. split; [|split; [discriminate | reflexivity]].
        exists [], []. split; [reflexivity|]. split; [reflexivity|].
        intros x [].
      * apply (@Labelling_table _ _ fires _ _ "Weapons");
          [vm_compute; reflexivity | | constructor].
        apply Hnone. intros h Hh. apply NearestHeading_walk in Hh.
        discriminate Hh.
    + destruct (H2 [("Weapons", [Examples.sword]);
                    ("Weapons", [Examples.fireRune])]) as (_ & _ & Hd2).
      * apply (@Labelling_table _ _ swords _ _ "Weapons");
          [vm_compute; reflexivity | |].
        -- left. exists weapons. split; [|split; [discriminate | reflexivity]].
           reflexivity.
        -- apply (@Labelling_table _ _ fires _ _ "Weapons");
             [vm_compute; reflexivity | | constructor].
           apply Hnone. intros h Hh. discriminate Hh.
      * split; [rewrite Hd1 | rewrite Hd2]; reflexivity.
Defined.

(** The two snapshots on the page of the example. *)
Example extractDropTable_examples :
  extractDropTable Examples.dropsPage
  = [mkSection "Drops" [Examples.sword]; mkSection "Runes" [Examples.fireRune]] /\
  extractDropTable_nearest Examples.dropsPage
  = [mkSection "Weapons" [Examples.sword]; mkSection "Runes" [Examples.fireRune]].
Proof. split; vm_compute; reflexivity. Qed.

(** The category is carried from one table to the next: on a page with
    two drop tables and no heading between them, both snapshots file the
    drops of the second table under the heading of the first. *)
Example extractDropTable_carried :
  extractDropTable Examples.pairPage
  = [mkSection "Weapons" [Examples.sword; Examples.fireRune]] /\
  extractDropTable_nearest Examples.pairPage
  = [mkSection "Weapons" [Examples.sword; Examples.fireRune]].
Proof. split; vm_compute; reflexivity. Qed.

End DropTableProperties.

(* ================================================================== *)
(** * Further properties of the line files *)
(* ================================================================== *)

Module FileToolsFacts.
Import Js Spec FileStore FileStoreSpec FileTools FileToolsSpec.

Lemma length_splitChar sep s :
  List.length (splitChar sep s) = S (countChar sep s).
Proof.
  induction s as [|c r IH]; [reflexivity|].
  cbn [splitChar countChar]. destruct (Ascii.eqb c sep).
  - cbn [List.length]. now rewrite IH.
  - destruct (splitChar sep r) as [|w ws]; [discriminate|].
    cbn [List.length] in *. lia.
Qed.

Lemma length_fileLines content :
  List.length (fileLines content) = S (countChar LF content).
Proof. unfold fileLines. now rewrite length_map, length_splitChar. Qed.

(** A cached snapshot exists only for an existing file. *)
Lemma store_ok_missing fs st path :
  store_ok fs st -> fs path = None -> JsMap.get path (fileCache st) = None.
Proof.
  intros [Hsync _] Hfs. destruct (JsMap.get path (fileCache st)) as [e|] eqn:E;
    [|reflexivity].
  destruct (Hsync _ _ E) as [content [Hc _]]. congruence.
Qed.

(** What a call of [getCachedFileLines] does to the caches. *)
Lemma getCachedFileLines_cases fs now path st :
  let r := getCachedFileLines fs now path st in
  (fileCache (snd r) = fileCache st /\ idIndexCache (snd r) = idIndexCache st /\
   forall ls, fst r = Ok ls ->
     exists e, JsMap.get path (fileCache st) = Some e /\ lines e = ls) \/
  (exists ls, fst r = Ok ls /\
     fileCache (snd r) = JsMap.set path (mkFileEntry ls now) (fileCache st) /\
     idIndexCache (snd r) = JsMap.delete path (idIndexCache st)).
Proof.
  unfold getCachedFileLines. cbv zeta.
  destruct (JsMap.get path (fileCache st)) as [e|] eqn:E.
  - destruct (now - timestamp e <? CACHE_TTL)%Z.
    + left. cbn. repeat split. intros ls [= <-]. now exists e.
    + destruct (fs path) as [content|].
      * right. eexists. cbn. repeat split.
      * left. cbn. repeat split. discriminate.
  - destruct (fs path) as [content|].
    + right. eexists. cbn. repeat split.
    + left. cbn. repeat split. discriminate.
Qed.

Lemma getCachedFileLines_cached fs now path st ls :
  fst (getCachedFileLines fs now path st) = Ok ls ->
  exists e, JsMap.get path (fileCache (snd (getCachedFileLines fs now path st)))
            = Some e /\ lines e = ls.
Proof.
  intros Hr. destruct (getCachedFileLines_cases fs now path st)
    as [[Hf [_ Hl]]|[ls' [Hr' [Hf _]]]].
  - rewrite Hf. now apply Hl.
  - rewrite Hf, JsMapFacts.get_set_eq. eexists. split; [reflexivity|].
    cbn. congruence.
Qed.

Lemma getCachedFileLines_current fs now path st :
  IndexCurrent st -> IndexCurrent (snd (getCachedFileLines fs now path st)).
Proof.
  intros Hinv p idx.
  destruct (getCachedFileLines_cases fs now path st)
    as [[Hf [Hi _]]|[ls [_ [Hf Hi]]]]; rewrite Hf, Hi.
  - apply Hinv.
  - destruct (string_dec path p) as [<-|Hne].
    + now rewrite JsMapFacts.get_delete_eq.
    + rewrite JsMapFacts.get_delete_neq, JsMapFacts.get_set_neq by exact Hne.
      apply Hinv.
Qed.

(** The index [buildIdIndex] returns was built from the lines that are
    cached for the file when it returns. *)
Lemma buildIdIndex_current fs nowCheck nowRead path st :
  IndexCurrent st ->
  IndexCurrent (snd (buildIdIndex fs nowCheck nowRead path st)) /\
  forall idx, fst (buildIdIndex fs nowCheck nowRead path st) = Ok idx ->
    exists e,
      JsMap.get path (fileCache (snd (buildIdIndex fs nowCheck nowRead path st)))
      = Some e /\
      idx = indexLoop (lines e) 0 JsMap.empty.
Proof.
  intros Hinv. unfold buildIdIndex. cbv zeta.
  assert (Hrebuild :
    let r := match getCachedFileLines fs nowRead path st with
             | (Throw e, st1) => (Throw e, st1)
             | (Ok ls, st1) =>
                 (Ok (indexLoop ls 0 JsMap.empty),
                  mkStore (fileCache st1)
                          (JsMap.set path (indexLoop ls 0 JsMap.empty)
                                     (idIndexCache st1))
                          (fileCacheHits st1) (fileCacheMisses st1))
             end in
    IndexCurrent (snd r) /\
    forall idx, fst r = Ok idx ->
      exists e, JsMap.get path (fileCache (snd r)) = Some e /\
                idx = indexLoop (lines e) 0 JsMap.empty).
  { pose proof (@getCachedFileLines_current fs nowRead path st Hinv) as Hc.
    pose proof (@getCachedFileLines_cached fs nowRead path st) as Hl.
    destruct (getCachedFileLines fs nowRead path st) as [[ls|msg] st1].
    - cbn [fst snd] in *. destruct (Hl ls eq_refl) as [e [He Hls]].
      split.
      + intros p idx. cbn [idIndexCache fileCache].
        destruct (string_dec path p) as [<-|Hne].
        * rewrite JsMapFacts.get_set_eq. intros [= <-]. exists e.
          split; [exact He | now rewrite Hls].
        * rewrite JsMapFacts.get_set_neq by exact Hne. apply Hc.
      + intros idx [= <-]. exists e. cbn [fileCache].
        split; [exact He | now rewrite Hls].
    - cbn [fst snd] in *. split; [exact Hc | discriminate]. }
  destruct (JsMap.get path (idIndexCache st)) as [cachedIndex|] eqn:Ei;
    [|exact Hrebuild].
  destruct (JsMap.get path (fileCache st)) as [fileEntry|] eqn:Ef;
    [|exact Hrebuild].
  destruct (nowCheck - timestamp fileEntry <? CACHE_TTL)%Z; [|exact Hrebuild].
  cbn [fst snd]. split; [exact Hinv|].
  intros idx [= <-]. destruct (Hinv _ _ Ei) as [e [He Hidx]].
  exists e. split; [exact He | exact Hidx].
Qed.

Lemma getEntryById_current fs nowCheck nowRead nowLines path id st :
  IndexCurrent st ->
  IndexCurrent (snd (getEntryById fs nowCheck nowRead nowLines path id st)).
Proof.
  intros Hinv. unfold getEntryById.
  pose proof (@buildIdIndex_current fs nowCheck nowRead path st Hinv) as [Hb _].
  destruct (buildIdIndex fs nowCheck nowRead path st) as [[idx|msg] st1];
    cbn [snd] in *; [|exact Hb].
  destruct (indexGet id idx) as [lineIndex|]; [|exact Hb].
  pose proof (@getCachedFileLines_current fs nowLines path st1 Hb) as Hc.
  destruct (getCachedFileLines fs nowLines path st1) as [[ls|msg] st2];
    cbn [snd] in *; [|exact Hc].
  destruct (nth_error ls lineIndex) as [line|]; [|exact Hc].
  destruct (negb (truthy line)); exact Hc.
Qed.

Lemma bulkLoop_current fs clock path ids : forall n results notFound st,
  IndexCurrent st ->
  IndexCurrent (snd (bulkLoop fs clock n path ids results notFound st)).
Proof.
  induction ids as [|id rest IH]; intros n results notFound st Hinv;
    [exact Hinv|].
  cbn [bulkLoop]. destruct (clock n) as [[nowCheck nowRead] nowLines].
  pose proof (@getEntryById_current fs nowCheck nowRead nowLines path id st Hinv)
    as He.
  destruct (getEntryById fs nowCheck nowRead nowLines path id st)
    as [[[entry|]|msg] st1]; cbn [snd] in *.
  - now apply IH.
  - now apply IH.
  - exact He.
Qed.

(** The update of the sound IDs deletes the cached lines and the cached
    index of the file together. *)
Lemma updateSoundIdsFromWiki_current response writeError path dryRun fs st :
  IndexCurrent st ->
  IndexCurrent (snd (SoundIds.updateSoundIdsFromWiki response writeError path
                                                     dryRun fs st)).
Proof.
  intros Hinv. unfold SoundIds.updateSoundIdsFromWiki.
  destruct response as [[html|]|e]; try exact Hinv. cbv zeta.
  destruct (SoundIds.parseSoundIdTables html) as [|first rest]; [exact Hinv|].
  destruct (List.length (first :: rest) <? 1000)%nat; [exact Hinv|].
  destruct dryRun; [exact Hinv|].
  destruct writeError as [e|]; [exact Hinv|].
  cbn [snd]. intros p idx. cbn [idIndexCache fileCache].
  destruct (string_dec path p) as [<-|Hne].
  - rewrite JsMapFacts.get_delete_eq. discriminate.
  - rewrite !JsMapFacts.get_delete_neq by exact Hne. apply Hinv.
Qed.

Lemma Reachable_current st : Reachable st -> IndexCurrent st.
Proof.
  induction 1 as [|fs now path st _ IH|fs nowCheck nowRead path st _ IH
                  |fs nowCheck nowRead nowLines path id st _ IH
                  |fs now path query page pageSize st _ IH
                  |fs now path name st _ IH|fs now path st _ IH
                  |fs clock path ids st _ IH
                  |fuel fs nowCheck nowRead nowLines path startId endId limit st
                   _ IH
                  |response writeError path dryRun fs st _ IH].
  - intros path idx H. discriminate H.
  - now apply getCachedFileLines_current.
  - now apply buildIdIndex_current.
  - now apply getEntryById_current.
  - unfold searchFile.
    pose proof (@getCachedFileLines_current fs now path st IH) as Hc.
    destruct (getCachedFileLines fs now path st) as [[ls|msg] st1]; exact Hc.
  - unfold findByExactName.
    pose proof (@getCachedFileLines_current fs now path st IH) as Hc.
    destruct (getCachedFileLines fs now path st) as [[ls|msg] st1]; exact Hc.
  - unfold getFileLineCount.
    pose proof (@getCachedFileLines_current fs now path st IH) as Hc.
    destruct (getCachedFileLines fs now path st) as [[ls|msg] st1]; exact Hc.
  - now apply bulkLoop_current.
  - unfold getIdRange. destruct (endId <? startId)%Z; [exact IH|].
    pose proof (@buildIdIndex_current fs nowCheck nowRead path st IH) as [Hb _].
    destruct (buildIdIndex fs nowCheck nowRead path st) as [[idx|msg] st1];
      cbn [snd] in *; [|exact Hb].
    pose proof (@getCachedFileLines_current fs nowLines path st1 Hb) as Hc.
    destruct (getCachedFileLines fs nowLines path st1) as [[ls|msg] st2];
      cbn [snd] in *; [|exact Hc].
    exact Hc.
  - now apply updateSoundIdsFromWiki_current.
Qed.

(** ** Fields of a line *)

Lemma join_splitChar sep s :
  join (String sep EmptyString) (splitChar sep s) = s.
Proof.
  induction s as [|c r IH]; [reflexivity|].
  cbn [splitChar]. destruct (Ascii.eqb c sep) eqn:E.
  - apply Ascii.eqb_eq in E. subst c.
    destruct (splitChar sep r) as [|w ws] eqn:Es.
    + pose proof (length_splitChar sep r) as Hl. rewrite Es in Hl. discriminate.
    + change (join (String sep "") ("" :: w :: ws))
        with (String sep (join (String sep "") (w :: ws))).
      now rewrite IH.
  - destruct (splitChar sep r) as [|w ws] eqn:Es.
    + pose proof (length_splitChar sep r) as Hl. rewrite Es in Hl. discriminate.
    + destruct ws as [|w' ws'].
      * cbn [join] in *. now rewrite IH.
      * change (join (String sep "") (String c w :: w' :: ws'))
          with (String c (join (String sep "") (w :: w' :: ws'))).
        now rewrite IH.
Qed.

(** The first field, and the fields of what follows the first
    tabulator. *)
Lemma splitChar_unfold s :
  splitChar TAB s
  = takeWhile notTab s ::
    match dropWhile notTab s with
    | EmptyString => []
    | String _ r => splitChar TAB r
    end.
Proof.
  induction s as [|c r IH]; [reflexivity|].
  cbn [splitChar takeWhile dropWhile].
  replace (notTab c) with (negb (Ascii.eqb c TAB)) by reflexivity.
  destruct (Ascii.eqb c TAB); cbn [negb].
  - reflexivity.
  - rewrite IH. reflexivity.
Qed.

Lemma splitChar_name line :
  (if (2 <=? List.length (splitChar TAB line))%nat
   then join (String TAB EmptyString) (List.tl (splitChar TAB line))
   else EmptyString)
  = nameOfLine line.
Proof.
  rewrite splitChar_unfold. unfold nameOfLine. cbn [List.tl List.length].
  destruct (dropWhile notTab line) as [|c r]; [reflexivity|].
  rewrite length_splitChar. cbn. apply join_splitChar.
Qed.

Lemma splitChar_second line :
  (if (2 <=? List.length (splitChar TAB line))%nat
   then nth 1 (splitChar TAB line) EmptyString
   else EmptyString)
  = secondField line.
Proof.
  rewrite splitChar_unfold. unfold secondField, nameOfLine.
  cbn [List.length nth].
  destruct (dropWhile notTab line) as [|c r]; [reflexivity|].
  rewrite length_splitChar. cbn [Nat.leb]. rewrite (splitChar_unfold r).
  reflexivity.
Qed.

Lemma Field_takeWhile s : Field s -> takeWhile notTab s = s /\ dropWhile notTab s = "".
Proof.
  unfold Field. induction s as [|c r IH]; [now split|].
  cbn [allChars takeWhile dropWhile]. intros H.
  apply andb_true_iff in H as [Hc Hr]. rewrite Hc.
  destruct (IH Hr) as [-> ->]. now split.
Qed.

Lemma Field_app_tab first rest :
  Field first ->
  takeWhile notTab (first ++ String TAB rest) = first /\
  dropWhile notTab (first ++ String TAB rest) = String TAB rest.
Proof.
  unfold Field. induction first as [|c r IH]; [now split|].
  cbn [allChars append takeWhile dropWhile]. intros H.
  apply andb_true_iff in H as [Hc Hr]. rewrite Hc.
  destruct (IH Hr) as [-> ->]. now split.
Qed.

Lemma Field_app_end first rest :
  Field first -> FieldEnd rest -> takeWhile notTab (first ++ rest) = first.
Proof.
  intros Hf [->|[more ->]].
  - rewrite JsFacts.append_nil_r. now apply Field_takeWhile.
  - now apply Field_app_tab.
Qed.

Lemma nameOfLine_field line : Field line -> nameOfLine line = "".
Proof.
  intros H. unfold nameOfLine. destruct (Field_takeWhile H) as [_ ->]. reflexivity.
Qed.

Lemma nameOfLine_tab first rest :
  Field first -> nameOfLine (first ++ String TAB rest) = rest.
Proof.
  intros H. unfold nameOfLine. destruct (Field_app_tab rest H) as [_ ->].
  reflexivity.
Qed.

(** ** The entry of an ID *)

Lemma lastOffset_absent ls k :
  (forall line, In line ls -> ~ LineId line k) -> lastOffset ls 0 k = None.
Proof.
  intros Hno. destruct (lastOffset ls 0 k) as [j|] eqn:E; [|reflexivity].
  destruct (@FileStoreFacts.lastOffset_Some ls 0 k j E)
    as [n [line [_ [Hn [Hk _]]]]].
  apply FileStoreFacts.lineKey_iff in Hk. apply nth_error_In in Hn.
  now apply Hno in Hk.
Qed.

Lemma lastOffset_last ls k j line :
  LastWithId ls k j line -> lastOffset ls 0 k = Some j.
Proof.
  intros H.
  assert (Hg : JsMap.get k (indexLoop ls 0 JsMap.empty) = Some j)
    by (apply FileStoreFacts.indexLoop_last; now exists line).
  rewrite FileStoreFacts.indexLoop_get in Hg.
  destruct (lastOffset ls 0 k); [exact Hg | discriminate Hg].
Qed.

Lemma lastOffset_line ls k j :
  lastOffset ls 0 k = Some j ->
  exists line, nth_error ls j = Some line /\ LineId line k.
Proof.
  intros E. destruct (@FileStoreFacts.lastOffset_Some ls 0 k j E)
    as [n [line [-> [Hn [Hk _]]]]].
  exists line. split; [exact Hn | now apply FileStoreFacts.lineKey_iff].
Qed.

Lemma LineId_nonempty line id : LineId line id -> truthy line = true.
Proof.
  intros [run [[rest [-> [Hne _]]] _]]. destruct run; [congruence | reflexivity].
Qed.

(** [getEntryById] on caches that agree with the files. *)
Lemma getEntryById_entryOf fs nowCheck nowRead nowLines path content id st :
  store_ok fs st -> fs path = Some content ->
  exists st',
    getEntryById fs nowCheck nowRead nowLines path id st
    = (Ok (entryOf (fileLines content) id), st') /\
    store_ok fs st'.
Proof.
  intros Hok Hfs. unfold getEntryById, entryOf.
  destruct (@FileStoreFacts.buildIdIndex_ok fs nowCheck nowRead path content st
              Hok Hfs) as [st1 [E1 Hok1]].
  rewrite E1. unfold indexGet. rewrite FileStoreFacts.indexLoop_get.
  destruct (lastOffset (fileLines content) 0 (Num.canonKey id)) as [j|] eqn:El.
  - destruct (@FileStoreFacts.getCachedFileLines_ok fs nowLines path content st1
                Hok1 Hfs) as [st2 [E2 [Hok2 _]]].
    rewrite E2. destruct (lastOffset_line _ _ El) as [line [Hn Hid]].
    rewrite Hn, (LineId_nonempty Hid). cbn [negb].
    rewrite splitChar_name. exists st2. split; [reflexivity | exact Hok2].
  - cbn. exists st1. split; [reflexivity | exact Hok1].
Qed.

(** ** Pages *)

Lemma flat_map_seq_S {A : Type} (f : nat -> list A) n :
  flat_map f (seq 1 (S n)) = (f 1%nat ++ flat_map (fun p => f (S p)) (seq 1 n))%list.
Proof.
  cbn [seq flat_map]. f_equal. rewrite <- seq_shift, flat_map_concat_map, map_map.
  now rewrite <- flat_map_concat_map.
Qed.

(** The pages of a list, one after the other, give the list. *)
Lemma pages_concat {A : Type} (ps : nat) : forall n (l : list A),
  (0 < ps)%nat -> (List.length l <= n * ps)%nat ->
  flat_map (fun p => firstn ps (skipn ((p - 1) * ps) l)) (seq 1 n) = l.
Proof.
  induction n as [|n IH]; intros l Hps Hlen.
  - destruct l; [reflexivity | cbn in Hlen; lia].
  - rewrite flat_map_seq_S.
    transitivity (firstn ps l ++ skipn ps l)%list; [|apply firstn_skipn].
    f_equal.
    transitivity (flat_map (fun p => firstn ps (skipn ((p - 1) * ps) (skipn ps l)))
                           (seq 1 n)).
    + rewrite !flat_map_concat_map. f_equal. apply map_ext_in.
      intros p Hp. apply in_seq in Hp. rewrite skipn_skipn. f_equal. f_equal.
      destruct p as [|p']; [lia|]. cbn. lia.
    + apply IH; [exact Hps|]. rewrite length_skipn. cbn in Hlen. lia.
Qed.

Lemma ceilDiv_covers a b : (0 < b)%nat -> (a <= ceilDiv a b * b)%nat.
Proof.
  intros Hb. unfold ceilDiv.
  pose proof (Nat.div_mod_eq (a + b - 1) b) as Hd.
  pose proof (Nat.mod_upper_bound (a + b - 1) b ltac:(lia)) as Hm.
  rewrite Nat.mul_comm. lia.
Qed.

Lemma ceilDiv_least a b n : (0 < b)%nat -> (a <= n * b)%nat -> (ceilDiv a b <= n)%nat.
Proof.
  intros Hb Hn. unfold ceilDiv.
  assert (H : ((a + b - 1) / b < S n)%nat); [|lia].
  apply Nat.Div0.div_lt_upper_bound. nia.
Qed.

(** ** Exact names *)

Lemma notTab_false c : notTab c = false -> c = TAB.
Proof.
  unfold notTab. destruct (Ascii.eqb c TAB) eqn:E; [|discriminate].
  intros _. now apply Ascii.eqb_eq.
Qed.

Lemma FieldEnd_dropWhile s : FieldEnd (dropWhile notTab s).
Proof.
  destruct (dropWhile notTab s) as [|c r] eqn:E; [now left|].
  right. exists r. apply JsFacts.dropWhile_head in E.
  now rewrite (@notTab_false c E).
Qed.

(** The first two fields of a line, read off the parts of the line. *)
Lemma NamedLine_split line idField name :
  NamedLine line idField name <->
  truthy (trim line) = true /\
  (2 <=? List.length (splitChar TAB line))%nat = true /\
  nth 0 (splitChar TAB line) EmptyString = idField /\
  nth 1 (splitChar TAB line) EmptyString = name.
Proof.
  unfold NamedLine. split.
  - intros [Ht [rest [Hid [Hname [Hend ->]]]]]. split; [exact Ht|].
    rewrite splitChar_unfold.
    destruct (Field_app_tab (name ++ rest) Hid) as [-> ->].
    rewrite (splitChar_unfold (name ++ rest)), (Field_app_end Hname Hend).
    repeat split.
  - intros [Ht [Hlen [H0 H1]]]. split; [exact Ht|].
    rewrite splitChar_unfold in Hlen, H0, H1. cbn [nth] in H0, H1.
    pose proof (JsFacts.takeWhile_dropWhile notTab line) as Hline.
    destruct (dropWhile notTab line) as [|c r] eqn:Ed; [discriminate Hlen|].
    apply JsFacts.dropWhile_head in Ed. apply notTab_false in Ed. subst c.
    rewrite splitChar_unfold in H1. cbn [nth] in H1.
    exists (dropWhile notTab r). subst idField name.
    split; [apply JsFacts.takeWhile_all|].
    split; [apply JsFacts.takeWhile_all|].
    split; [apply FieldEnd_dropWhile|].
    now rewrite JsFacts.takeWhile_dropWhile.
Qed.

Lemma NamedLine_unique line a b a' b' :
  NamedLine line a b -> NamedLine line a' b' -> a = a' /\ b = b'.
Proof.
  intros H H'. apply NamedLine_split in H as [_ [_ [<- <-]]].
  apply NamedLine_split in H' as [_ [_ [<- <-]]]. now split.
Qed.

(** The loop of [findByExactName] returns the first line that is named
    as asked for. *)
Lemma findLoop_first ls q : forall i,
  match findLoop ls i q with
  | Some e =>
      exists k line idField name,
        nth_error ls k = Some line /\ NamedLine line idField name /\
        toLowerCase name = q /\
        e = mkEntry (JsExtra.parseInt idField) name (i + k + 1) line /\
        forall k' line' idField' name',
          (k' < k)%nat -> nth_error ls k' = Some line' ->
          NamedLine line' idField' name' -> toLowerCase name' <> q
  | None =>
      forall k line idField name,
        nth_error ls k = Some line -> NamedLine line idField name ->
        toLowerCase name <> q
  end.
Proof.
  induction ls as [|l rest IH]; intros i.
  - cbn. intros k line idField name Hn. destruct k; discriminate Hn.
  - cbn [findLoop].
    assert (Hskip :
      (forall idField name, NamedLine l idField name -> toLowerCase name <> q) ->
      match findLoop rest (S i) q with
      | Some e =>
          exists k line idField name,
            nth_error (l :: rest) k = Some line /\ NamedLine line idField name /\
            toLowerCase name = q /\
            e = mkEntry (JsExtra.parseInt idField) name (i + k + 1) line /\
            forall k' line' idField' name',
              (k' < k)%nat -> nth_error (l :: rest) k' = Some line' ->
              NamedLine line' idField' name' -> toLowerCase name' <> q
      | None =>
          forall k line idField name,
            nth_error (l :: rest) k = Some line -> NamedLine line idField name ->
            toLowerCase name <> q
      end).
    { intros Hl. specialize (IH (S i)).
      destruct (findLoop rest (S i) q) as [e|].
      - destruct IH as [k [line [idField [name [Hn [Hnamed [Hq [He Hmin]]]]]]]].
        exists (S k), line, idField, name.
        split; [exact Hn|]. split; [exact Hnamed|]. split; [exact Hq|]. split.
        + rewrite He. f_equal. lia.
        + intros k' line' idField' name' Hlt Hn' Hnamed'.
          destruct k' as [|k'].
          * cbn in Hn'. injection Hn' as <-. now apply (Hl idField' name').
          * apply (Hmin k' line' idField' name'); [lia | exact Hn' | exact Hnamed'].
      - intros k line idField name Hn Hnamed. destruct k as [|k].
        + cbn in Hn. injection Hn as <-. now apply (Hl idField name).
        + now apply (IH k line idField name). }
    destruct (truthy (trim l)) eqn:Ht; cbn [negb].
    + destruct ((2 <=? List.length (splitChar TAB l))%nat) eqn:Hlen; cbn [andb].
      * destruct (String.eqb (toLowerCase (nth 1 (splitChar TAB l) "")) q) eqn:Hq.
        -- apply String.eqb_eq in Hq.
           exists 0%nat, l, (nth 0 (splitChar TAB l) ""), (nth 1 (splitChar TAB l) "").
           split; [reflexivity|]. split; [now apply NamedLine_split|].
           split; [exact Hq|]. split; [f_equal; lia|].
           intros k' line' idField' name' Hlt. lia.
        -- apply Hskip. intros idField name Hnamed.
           apply NamedLine_split in Hnamed as [_ [_ [_ <-]]].
           now apply String.eqb_neq.
      * apply Hskip. intros idField name Hnamed.
        apply NamedLine_split in Hnamed as [_ [Hlen' _]]. congruence.
    + apply Hskip. intros idField name [Ht' _]. congruence.
Qed.

Lemma lowerChar_space c : Ascii.eqb (lowerChar c) " " = Ascii.eqb c " ".
Proof. destruct c as [[] [] [] [] [] [] [] []]; reflexivity. Qed.

Lemma toLowerCase_notBlank s :
  allChars notBlank (toLowerCase s) = allChars notBlank s.
Proof.
  induction s as [|c r IH]; [reflexivity|].
  cbn [toLowerCase allChars]. unfold notBlank at 1 3.
  now rewrite lowerChar_space, IH.
Qed.

Lemma underscoreForm_notBlank s : allChars notBlank (underscoreForm s) = true.
Proof.
  unfold underscoreForm. induction s as [|c r IH]; [reflexivity|].
  cbn [replaceAllChar allChars]. rewrite IH, andb_true_r. unfold notBlank.
  destruct (Ascii.eqb c " ") eqn:E; [reflexivity|]. now rewrite E.
Qed.

Lemma allChars_app p a b :
  allChars p (a ++ b) = allChars p a && allChars p b.
Proof.
  induction a as [|c r IH]; [reflexivity|].
  cbn [append allChars]. now rewrite IH, andb_assoc.
Qed.

Lemma notBlank_no_space s : allChars notBlank s = true -> ~ Occurs " " s.
Proof.
  intros H [before [after ->]].
  rewrite allChars_app in H. apply andb_true_iff in H as [_ H].
  discriminate H.
Qed.

(** ** Several IDs at once *)

Lemma entryOf_None ls id :
  entryOf ls id = None <->
  forall line, In line ls -> ~ LineId line (Num.canonKey id).
Proof.
  unfold entryOf. split.
  - destruct (lastOffset ls 0 (Num.canonKey id)) as [j|] eqn:E.
    + destruct (lastOffset_line _ _ E) as [line [-> _]]. discriminate.
    + intros _ line Hin Hid. apply In_nth_error in Hin as [n Hn].
      apply (@FileStoreFacts.lastOffset_None ls 0 (Num.canonKey id) E n line Hn).
      now apply FileStoreFacts.lineKey_iff.
  - intros Hno. now rewrite (lastOffset_absent _ Hno).
Qed.

Lemma entryOf_Some ls id e :
  entryOf ls id = Some e <->
  exists j line,
    LastWithId ls (Num.canonKey id) j line /\
    e = mkEntry id (nameOfLine line) (j + 1) line.
Proof.
  unfold entryOf. split.
  - destruct (lastOffset ls 0 (Num.canonKey id)) as [j|] eqn:E; [|discriminate].
    assert (Hg : JsMap.get (Num.canonKey id) (indexLoop ls 0 JsMap.empty) = Some j)
      by (rewrite FileStoreFacts.indexLoop_get; now rewrite E).
    apply FileStoreFacts.indexLoop_last in Hg as [line Hlast].
    pose proof Hlast as [Hn _]. rewrite Hn. intros [= <-].
    now exists j, line.
  - intros [j [line [Hlast ->]]]. rewrite (lastOffset_last Hlast).
    destruct Hlast as [-> _]. reflexivity.
Qed.

Lemma bulkLoop_ok fs clock path content ids :
  fs path = Some content ->
  forall n results notFound st,
    store_ok fs st ->
    exists st',
      bulkLoop fs clock n path ids results notFound st
      = (Ok ((results ++ flat_map (found (fileLines content)) ids)%list,
             (notFound ++ List.filter (missing (fileLines content)) ids)%list),
         st') /\
      store_ok fs st'.
Proof.
  intros Hfs. induction ids as [|id rest IH]; intros n results notFound st Hok.
  - cbn. rewrite !app_nil_r. now exists st.
  - cbn [bulkLoop flat_map List.filter].
    destruct (clock n) as [[nowCheck nowRead] nowLines].
    destruct (@getEntryById_entryOf fs nowCheck nowRead nowLines path content id st
                Hok Hfs) as [st1 [E Hok1]].
    rewrite E. unfold found at 1, missing at 1.
    destruct (entryOf (fileLines content) id) as [e|].
    + destruct (IH (S n) (results ++ [e])%list notFound st1 Hok1) as [st' [E' Hok']].
      rewrite E'. exists st'. split; [|exact Hok'].
      now rewrite <- app_assoc.
    + destruct (IH (S n) results (notFound ++ [id])%list st1 Hok1) as [st' [E' Hok']].
      rewrite E'. exists st'. split; [|exact Hok'].
      now rewrite <- app_assoc.
Qed.

Lemma found_missing_length ls ids :
  (List.length (flat_map (found ls) ids)
   + List.length (List.filter (missing ls) ids) = List.length ids)%nat.
Proof.
  induction ids as [|id rest IH]; [reflexivity|].
  cbn [flat_map List.filter]. unfold found at 1, missing at 1.
  destruct (entryOf ls id); cbn [List.length app] in *; lia.
Qed.

(** ** A range of IDs *)

(** Below 2^53 [id++] adds one. *)
Lemma increment_exact id : (0 <= id < 2 ^ 53)%Z -> increment id = (id + 1)%Z.
Proof.
  intros H. unfold increment.
  destruct (Z.eq_dec (id + 1) (2 ^ 53)) as [E|N].
  - rewrite E. vm_compute. reflexivity.
  - destruct (@NumFacts.ofZ_exact (id + 1)) as (m & e & Hx & He & Hm); [lia|].
    rewrite Hx. unfold integerOf. rewrite Hm, Z.mul_1_l.
    replace e with (- - e)%Z at 2 by lia.
    rewrite Z.shiftl_opp_r, Z.shiftr_div_pow2 by lia.
    apply Z.div_mul. apply Z.pow_nonzero; lia.
Qed.

Lemma rangeLoop_ok ls limit endId : forall count fuel id results,
  (0 <= id)%Z -> (id + Z.of_nat count = endId + 1)%Z -> (endId < 2 ^ 53)%Z ->
  (count < fuel)%nat -> (List.length results <= limit)%nat ->
  rangeLoop (indexLoop ls 0 JsMap.empty) ls limit fuel id endId results
  = Some (Ok (firstn limit
                (results ++ flat_map (rangeEntryOf ls) (zseq id count))%list)).
Proof.
  induction count as [|count IH]; intros fuel id results H0 Hc He Hf Hlen;
    (destruct fuel as [|fuel]; [lia|]); cbn [rangeLoop].
  - replace (id <=? endId)%Z with false by (symmetry; apply Z.leb_gt; lia).
    cbn. rewrite app_nil_r, firstn_all2 by exact Hlen. reflexivity.
  - replace (id <=? endId)%Z with true by (symmetry; apply Z.leb_le; lia).
    cbn [andb zseq flat_map].
    destruct (List.length results <? limit)%nat eqn:Hlt.
    + apply Nat.ltb_lt in Hlt. unfold indexGet, rangeEntryOf at 1.
      rewrite FileStoreFacts.indexLoop_get, increment_exact by lia.
      destruct (lastOffset ls 0 (Num.canonKey (Num.ofZ id))) as [j|] eqn:El.
      * destruct (lastOffset_line _ _ El) as [line [Hn _]]. rewrite Hn.
        rewrite splitChar_second, IH; try lia.
        -- now rewrite <- app_assoc.
        -- rewrite length_app. cbn. lia.
      * cbn [JsMap.get JsMap.empty app]. apply IH; lia.
    + apply Nat.ltb_ge in Hlt.
      rewrite firstn_app, firstn_all2 by exact Hlen.
      replace (limit - List.length results)%nat with 0%nat by lia.
      now rewrite firstn_O, app_nil_r.
Qed.

(** At 2^53 [id++] changes nothing: a loop that finds no entry there
    does not end. *)
Lemma rangeLoop_stalls idIndex ls limit :
  indexGet (Num.ofZ (2 ^ 53)) idIndex = None -> (0 < limit)%nat ->
  forall fuel, rangeLoop idIndex ls limit fuel (2 ^ 53) (2 ^ 53) [] = None.
Proof.
  intros Hget Hlimit. induction fuel as [|fuel IH]; [reflexivity|].
  cbn [rangeLoop]. rewrite Z.leb_refl.
  replace (List.length (@nil RangeEntry) <? limit)%nat with true
    by (symmetry; apply Nat.ltb_lt; cbn; lia).
  cbn [andb]. rewrite Hget.
  replace (increment (2 ^ 53)) with (2 ^ 53)%Z by (vm_compute; reflexivity).
  exact IH.
Qed.

End FileToolsFacts.

Module FileToolsProperties.
Import Js Spec FileStore FileStoreSpec FileTools FileToolsSpec FileToolsFacts.

(** X1.  Lines read from disk are served from the cache for one hour:
    when a read at [t1] went to the disk and the next operation on the
    caches is another read of the file, at [t2], then this read returns
    the same lines if [t2] is before [t1 + CACHE_TTL], whatever has
    become of the file, even if it was deleted, and goes to the disk
    again if [t2] is [t1 + CACHE_TTL] or later. *)
Theorem getCachedFileLines_served_for_one_hour
    fs1 fs2 t1 t2 path content st :
  (forall e, JsMap.get path (fileCache st) = Some e ->
             (CACHE_TTL <= t1 - timestamp e)%Z) ->
  fs1 path = Some content ->
  let st1 := snd (getCachedFileLines fs1 t1 path st) in
  fst (getCachedFileLines fs1 t1 path st) = Ok (fileLines content) /\
  ((t2 - t1 < CACHE_TTL)%Z ->
   fst (getCachedFileLines fs2 t2 path st1) = Ok (fileLines content)) /\
  ((CACHE_TTL <= t2 - t1)%Z ->
   fst (getCachedFileLines fs2 t2 path st1)
   = match fs2 path with
     | Some content2 => Ok (fileLines content2)
     | None => Throw ("File not found: " ++ path)
     end).
Proof.
  intros Hstale Hfs1.
  assert (E1 : getCachedFileLines fs1 t1 path st
          = (Ok (fileLines content),
             mkStore (JsMap.set path (mkFileEntry (fileLines content) t1)
                                (fileCache st))
                     (JsMap.delete path (idIndexCache st))
                     (fileCacheHits st) (S (fileCacheMisses st)))).
  { unfold getCachedFileLines. cbv zeta.
    destruct (JsMap.get path (fileCache st)) as [e|] eqn:E.
    - specialize (Hstale e eq_refl).
      assert (Hf : (t1 - timestamp e <? CACHE_TTL)%Z = false)
        by (apply Z.ltb_ge; exact Hstale).
      rewrite Hf, Hfs1. reflexivity.
    - rewrite Hfs1. reflexivity. }
  cbv zeta. rewrite E1. cbn [fst snd]. split; [reflexivity|].
  unfold getCachedFileLines. cbn [fileCache].
  rewrite JsMapFacts.get_set_eq. cbn [timestamp lines]. split.
  - intros Hlt. apply Z.ltb_lt in Hlt. rewrite Hlt. reflexivity.
  - intros Hge. apply Z.ltb_ge in Hge. rewrite Hge.
    destruct (fs2 path); reflexivity.
Qed.

Lemma getCachedFileLines_served_for_one_hour_witness :
  let st1 := snd (getCachedFileLines Examples.dataFiles 1000 "npctypes.txt"
                                     emptyStore) in
  fst (getCachedFileLines Examples.dataFiles 1000 "npctypes.txt" emptyStore)
  = Ok Examples.npcLines /\
  fst (getCachedFileLines Fixtures.noFiles 3000000 "npctypes.txt" st1)
  = Ok Examples.npcLines /\
  fst (getCachedFileLines Fixtures.noFiles 3601000 "npctypes.txt" st1)
  = Throw "File not found: npctypes.txt".
Proof.
  cbv zeta.
  destruct (@getCachedFileLines_served_for_one_hour
              Examples.dataFiles Fixtures.noFiles 1000 3000000 "npctypes.txt"
              Examples.npcFile emptyStore) as (H1 & H2 & _);
    [intros e H; discriminate H | reflexivity |].
  destruct (@getCachedFileLines_served_for_one_hour
              Examples.dataFiles Fixtures.noFiles 1000 3601000 "npctypes.txt"
              Examples.npcFile emptyStore) as (_ & _ & H3);
    [intros e H; discriminate H | reflexivity |].
  split; [exact H1|]. split.
  - apply H2. vm_compute. reflexivity.
  - apply H3. vm_compute. discriminate.
Defined.

(** X2.  [getFileLineCount] counts one line more than the file has line
    feeds, so an empty file has one line and a final line feed adds an
    empty last line; a file that does not exist counts 0 lines. *)
Theorem getFileLineCount_counts_line_feeds fs now path st :
  store_ok fs st ->
  fst (getFileLineCount fs now path st)
  = match fs path with
    | Some content => S (countChar LF content)
    | None => 0%nat
    end.
Proof.
  intros Hok. unfold getFileLineCount.
  destruct (fs path) as [content|] eqn:Hfs.
  - destruct (@FileStoreFacts.getCachedFileLines_ok fs now path content st Hok Hfs)
      as [st' [E _]].
    rewrite E. cbn [fst]. apply length_fileLines.
  - unfold getCachedFileLines.
    rewrite (@store_ok_missing fs st path Hok Hfs), Hfs. reflexivity.
Qed.

Lemma getFileLineCount_counts_line_feeds_witness :
  fst (getFileLineCount Examples.dataFiles 0 "npctypes.txt" emptyStore)
  = match Examples.dataFiles "npctypes.txt" with
    | Some content => S (countChar LF content)
    | None => 0%nat
    end.
Proof.
  apply (@getFileLineCount_counts_line_feeds Examples.dataFiles 0 "npctypes.txt"
           emptyStore).
  apply FileStoreFacts.store_ok_empty.
Defined.

(** X3.  Whatever the files were at the time of the calls before, the
    index [buildIdIndex] returns is the index of the lines that are cached
    for the file when it returns: a cached index never outlives the lines
    it was built from. *)
Theorem buildIdIndex_matches_cached_lines
    st fs nowCheck nowRead path idx :
  Reachable st ->
  fst (buildIdIndex fs nowCheck nowRead path st) = Ok idx ->
  exists e,
    JsMap.get path (fileCache (snd (buildIdIndex fs nowCheck nowRead path st)))
    = Some e /\
    idx = indexLoop (lines e) 0 JsMap.empty.
Proof.
  intros Hr. apply buildIdIndex_current. now apply Reachable_current.
Qed.

Lemma buildIdIndex_matches_cached_lines_witness :
  let st := snd (buildIdIndex Examples.dataFiles 0 0 "npctypes.txt" emptyStore) in
  let st' := snd (SoundIds.updateSoundIdsFromWiki
                    (Ok (Some (Fixtures.soundPage 3))) None "soundids.txt" false
                    Examples.dataFiles st) in
  let idx := indexLoop Examples.npcLines 0 JsMap.empty in
  exists e,
    JsMap.get "npctypes.txt"
      (fileCache (snd (buildIdIndex Fixtures.dataFilesEdited 5 5 "npctypes.txt" st')))
    = Some e /\
    idx = indexLoop (lines e) 0 JsMap.empty.
Proof.
  apply (@buildIdIndex_matches_cached_lines
           (snd (SoundIds.updateSoundIdsFromWiki
                   (Ok (Some (Fixtures.soundPage 3))) None "soundids.txt" false
                   Examples.dataFiles
                   (snd (buildIdIndex Examples.dataFiles 0 0 "npctypes.txt"
                                      emptyStore))))
           Fixtures.dataFilesEdited 5 5 "npctypes.txt").
  - apply Reachable_update. apply Reachable_index. apply Reachable_empty.
  - vm_compute. reflexivity.
Defined.

(** X4.  [getEntryById] returns [null] when no line of the file starts
    with the ID; otherwise it returns the last line that starts with it,
    with its 1-based line number and, as the name, everything after the
    first tabulator of the line (the empty string for a line without
    tabulator). *)
Theorem getEntryById_last_line_or_null
    fs nowCheck nowRead nowLines path content id st :
  store_ok fs st -> fs path = Some content ->
  let r := fst (getEntryById fs nowCheck nowRead nowLines path id st) in
  ((forall line, In line (fileLines content) -> ~ LineId line (Num.canonKey id)) ->
   r = Ok None) /\
  (forall j line,
     LastWithId (fileLines content) (Num.canonKey id) j line ->
     exists name,
       r = Ok (Some (mkEntry id name (j + 1) line)) /\
       (Field line -> name = EmptyString) /\
       (forall first rest,
          Field first -> line = first ++ String TAB rest -> name = rest)).
Proof.
  intros Hok Hfs.
  destruct (@getEntryById_entryOf fs nowCheck nowRead nowLines path content id st
              Hok Hfs) as [st' [E _]].
  cbv zeta. rewrite E. cbn [fst]. unfold entryOf. split.
  - intros Hno. now rewrite (lastOffset_absent _ Hno).
  - intros j line Hlast. rewrite (lastOffset_last Hlast).
    destruct Hlast as [Hn _]. rewrite Hn.
    exists (nameOfLine line). split; [reflexivity|]. split.
    + apply nameOfLine_field.
    + intros first rest Hf ->. now apply nameOfLine_tab.
Qed.

Lemma getEntryById_last_line_or_null_witness :
  fst (getEntryById Examples.dataFiles 0 0 0 "npctypes.txt" (Num.ofZ 99)
                    emptyStore)
  = Ok None /\
  fst (getEntryById Examples.dataFiles 0 0 0 "npctypes.txt" (Num.ofZ 12)
                    emptyStore)
  = Ok (Some (mkEntry (Num.ofZ 12) "Imp king" 3
                      ("12" ++ Examples.tab ++ "Imp king"))) /\
  fst (getEntryById Examples.dataFiles 0 0 0 "npctypes.txt" (Num.ofZ 7)
                    emptyStore)
  = Ok (Some (mkEntry (Num.ofZ 7) "Abyssal_whip" 4
                      ("7" ++ Examples.tab ++ "Abyssal_whip"))).
Proof.
  assert (Hlines : fileLines Examples.npcFile = Examples.npcLines)
    by (vm_compute; reflexivity).
  split; [|split].
  - destruct (@getEntryById_last_line_or_null Examples.dataFiles 0 0 0
                "npctypes.txt" Examples.npcFile (Num.ofZ 99) emptyStore)
      as [H _];
      [apply FileStoreFacts.store_ok_empty | reflexivity |].
    apply H. rewrite Hlines. intros line Hin Hid.
    apply FileStoreFacts.lineKey_iff in Hid.
    destruct Hin as [<-|[<-|[<-|[<-|[<-|[]]]]]]; vm_compute in Hid;
      discriminate Hid.
  - destruct (@getEntryById_last_line_or_null Examples.dataFiles 0 0 0
                "npctypes.txt" Examples.npcFile (Num.ofZ 12) emptyStore)
      as [_ H];
      [apply FileStoreFacts.store_ok_empty | reflexivity |].
    destruct (H 2%nat ("12" ++ Examples.tab ++ "Imp king"))
      as (name & E & _ & Hname).
    + rewrite Hlines. split; [reflexivity|]. split.
      * apply FileStoreFacts.lineKey_iff. vm_compute. reflexivity.
      * intros k line' Hk Hn Hid. apply FileStoreFacts.lineKey_iff in Hid.
        destruct k as [|[|[|[|[|k]]]]]; try lia; cbn in Hn;
          first [ injection Hn as <-; vm_compute in Hid; discriminate Hid
                | destruct k; discriminate Hn ].
    + rewrite E. now rewrite (Hname "12" "Imp king" eq_refl eq_refl).
  - destruct (@getEntryById_last_line_or_null Examples.dataFiles 0 0 0
                "npctypes.txt" Examples.npcFile (Num.ofZ 7) emptyStore)
      as [_ H];
      [apply FileStoreFacts.store_ok_empty | reflexivity |].
    destruct (H 3%nat ("7" ++ Examples.tab ++ "Abyssal_whip"))
      as (name & E & _ & Hname).
    + rewrite Hlines. split; [reflexivity|]. split.
      * apply FileStoreFacts.lineKey_iff. vm_compute. reflexivity.
      * intros k line' Hk Hn Hid. apply FileStoreFacts.lineKey_iff in Hid.
        destruct k as [|[|[|[|[|k]]]]]; try lia; cbn in Hn;
          first [ injection Hn as <-; vm_compute in Hid; discriminate Hid
                | destruct k; discriminate Hn ].
    + rewrite E. now rewrite (Hname "7" "Abyssal_whip" eq_refl eq_refl).
Defined.

(** X5.  The pages of [searchFile] partition the hits: there are
    [ceil(hits / pageSize)] pages, no page holds more than [pageSize]
    results, a page beyond the last one is empty, [hasNextPage] tells
    whether a later page exists, and the results of the pages 1, 2, ...
    up to the last one, put one after the other, are all the hits in
    the order of the file. *)
Theorem searchFile_pages_partition
    fs path query pageSize content (now : nat -> Z) (st : nat -> Store) :
  (forall p, store_ok fs (st p)) -> fs path = Some content ->
  let hits := allHits content query in
  let total := ceilDiv (List.length hits) (Pos.to_nat pageSize) in
  let resultsOf p :=
    match fst (searchFile fs (now p) path query (Pos.of_nat p) pageSize (st p)) with
    | Ok res => results res
    | Throw _ => []
    end in
  (forall p, (1 <= p)%nat ->
     exists res,
       fst (searchFile fs (now p) path query (Pos.of_nat p) pageSize (st p)) = Ok res /\
       totalPages (pagination res) = total /\
       (List.length hits <= total * Pos.to_nat pageSize)%nat /\
       (forall n, (List.length hits <= n * Pos.to_nat pageSize)%nat -> (total <= n)%nat) /\
       (List.length (results res) <= Pos.to_nat pageSize)%nat /\
       hasNextPage (pagination res) = (p <? total)%nat /\
       ((total < p)%nat -> results res = [])) /\
  flat_map resultsOf (seq 1 total) = List.map formatHit hits.
Proof.
  intros Hok Hfs. cbv zeta.
  assert (Hpage : forall p, (1 <= p)%nat ->
    fst (searchFile fs (now p) path query (Pos.of_nat p) pageSize (st p))
    = Ok (mkSearchResult
            (List.map formatHit
               (firstn (Pos.to_nat pageSize)
                  (skipn ((p - 1) * Pos.to_nat pageSize) (allHits content query))))
            (mkPagination p (Pos.to_nat pageSize)
               (List.length (allHits content query))
               (ceilDiv (List.length (allHits content query)) (Pos.to_nat pageSize))
               (p <? ceilDiv (List.length (allHits content query))
                             (Pos.to_nat pageSize))%nat
               (1 <? p)%nat))).
  { intros p Hp. unfold searchFile.
    destruct (@FileStoreFacts.getCachedFileLines_ok fs (now p) path content (st p)
                (Hok p) Hfs) as [st' [E _]].
    rewrite E. cbv zeta. cbn [fst]. rewrite Nat2Pos.id by lia. reflexivity. }
  pose proof (Pos2Nat.is_pos pageSize) as Hps.
  split.
  - intros p Hp. eexists. split; [apply (Hpage p Hp)|].
    cbn [pagination totalPages results hasNextPage].
    split; [reflexivity|]. split; [now apply ceilDiv_covers|].
    split; [intros n; now apply ceilDiv_least|].
    split; [rewrite length_map; apply firstn_le_length|].
    split; [reflexivity|].
    intros Hlt. rewrite skipn_all2; [now rewrite firstn_nil|].
    pose proof (@ceilDiv_covers (List.length (allHits content query))
                  (Pos.to_nat pageSize) Hps).
    nia.
  - transitivity
      (flat_map (fun p => List.map formatHit
                   (firstn (Pos.to_nat pageSize)
                      (skipn ((p - 1) * Pos.to_nat pageSize)
                             (allHits content query))))
                (seq 1 (ceilDiv (List.length (allHits content query))
                                (Pos.to_nat pageSize)))).
    + rewrite !flat_map_concat_map. f_equal. apply map_ext_in.
      intros p Hp. apply in_seq in Hp. rewrite Hpage by lia. reflexivity.
    + rewrite <- (@pages_concat _ (Pos.to_nat pageSize)
                    (ceilDiv (List.length (allHits content query))
                             (Pos.to_nat pageSize))
                    (allHits content query) Hps) at 2
        by (now apply ceilDiv_covers).
      rewrite !flat_map_concat_map, concat_map, map_map. reflexivity.
Qed.

Lemma searchFile_pages_partition_witness :
  let hits := allHits Examples.npcFile "1" in
  let total := ceilDiv (List.length hits) (Pos.to_nat 2) in
  let resultsOf p :=
    match fst (searchFile Examples.dataFiles 0 "npctypes.txt" "1"
                 (Pos.of_nat p) 2 emptyStore) with
    | Ok res => results res
    | Throw _ => []
    end in
  (forall p, (1 <= p)%nat ->
     exists res,
       fst (searchFile Examples.dataFiles 0 "npctypes.txt" "1"
              (Pos.of_nat p) 2 emptyStore) = Ok res /\
       totalPages (pagination res) = total /\
       (List.length hits <= total * Pos.to_nat 2)%nat /\
       (forall n, (List.length hits <= n * Pos.to_nat 2)%nat -> (total <= n)%nat) /\
       (List.length (results res) <= Pos.to_nat 2)%nat /\
       hasNextPage (pagination res) = (p <? total)%nat /\
       ((total < p)%nat -> results res = [])) /\
  flat_map resultsOf (seq 1 total) = List.map formatHit hits.
Proof.
  apply (@searchFile_pages_partition Examples.dataFiles "npctypes.txt" "1" 2
           Examples.npcFile (fun _ => 0%Z) (fun _ => emptyStore)).
  - intros p. apply FileStoreFacts.store_ok_empty.
  - reflexivity.
Defined.

(** X6.  [findByExactName] returns the first line of the file, in file
    order, that is not blank and whose second tabulator-separated field
    equals the name asked for when case is ignored and the spaces of the
    name asked for are read as underscores; the ID is [parseInt] of the
    first field.  It returns [null] when the file has no such line. *)
Theorem findByExactName_first_match fs now path name content st :
  store_ok fs st -> fs path = Some content ->
  let q := underscoreForm (toLowerCase name) in
  let r := fst (findByExactName fs now path name st) in
  ((forall line idField nm,
      In line (fileLines content) -> NamedLine line idField nm ->
      toLowerCase nm <> q) ->
   r = Ok None) /\
  (forall i line idField nm,
     nth_error (fileLines content) i = Some line ->
     NamedLine line idField nm -> toLowerCase nm = q ->
     (forall k line' idField' nm',
        (k < i)%nat -> nth_error (fileLines content) k = Some line' ->
        NamedLine line' idField' nm' -> toLowerCase nm' <> q) ->
     r = Ok (Some (mkEntry (JsExtra.parseInt idField) nm (i + 1) line))).
Proof.
  intros Hok Hfs. cbv zeta. unfold findByExactName.
  destruct (@FileStoreFacts.getCachedFileLines_ok fs now path content st Hok Hfs)
    as [st' [E _]].
  rewrite E. cbn [fst].
  pose proof (@findLoop_first (fileLines content)
                (replaceAllChar " " "_" (toLowerCase name)) 0) as Hloop.
  fold (underscoreForm (toLowerCase name)) in *.
  destruct (findLoop (fileLines content) 0 (underscoreForm (toLowerCase name)))
    as [e|].
  - destruct Hloop as [k [l [idF [nm0 [Hn [Hnamed [Hq [He Hmin]]]]]]]].
    split.
    + intros Hno. exfalso. apply (Hno l idF nm0); try assumption.
      now apply nth_error_In in Hn.
    + intros i line idField nm Hi Hline Hnm Hfirst.
      assert (Hki : k = i).
      { destruct (Nat.lt_trichotomy k i) as [Hlt|[Heq|Hgt]]; [|exact Heq|].
        - exfalso. now apply (Hfirst k l idF nm0 Hlt Hn Hnamed).
        - exfalso. now apply (Hmin i line idField nm Hgt Hi Hline). }
      subst k. rewrite Hn in Hi. injection Hi as <-.
      destruct (NamedLine_unique Hnamed Hline) as [<- <-].
      rewrite He. do 3 f_equal.
  - split; [reflexivity|].
    intros i line idField nm Hi Hline Hnm _. exfalso.
    now apply (Hloop i line idField nm Hi Hline).
Qed.

Lemma findByExactName_first_match_witness :
  let q := underscoreForm (toLowerCase "Abyssal Whip") in
  let r := fst (findByExactName Examples.dataFiles 0 "npctypes.txt"
                                "Abyssal Whip" emptyStore) in
  ((forall line idField nm,
      In line (fileLines Examples.npcFile) -> NamedLine line idField nm ->
      toLowerCase nm <> q) ->
   r = Ok None) /\
  (forall i line idField nm,
     nth_error (fileLines Examples.npcFile) i = Some line ->
     NamedLine line idField nm -> toLowerCase nm = q ->
     (forall k line' idField' nm',
        (k < i)%nat -> nth_error (fileLines Examples.npcFile) k = Some line' ->
        NamedLine line' idField' nm' -> toLowerCase nm' <> q) ->
     r = Ok (Some (mkEntry (JsExtra.parseInt idField) nm (i + 1) line))).
Proof.
  apply (@findByExactName_first_match Examples.dataFiles 0 "npctypes.txt"
           "Abyssal Whip" Examples.npcFile emptyStore).
  - apply FileStoreFacts.store_ok_empty.
  - reflexivity.
Defined.

(** X7.  Whatever the file holds, an entry [findByExactName] returns has
    a name that equals, when case is ignored, the name asked for with its
    spaces as underscores.  So it never returns an entry whose name
    contains a space: only the name asked for has its spaces replaced,
    not the names in the file. *)
Theorem findByExactName_never_a_name_with_space fs now path name st e :
  fst (findByExactName fs now path name st) = Ok (Some e) ->
  toLowerCase (entry_name e) = underscoreForm (toLowerCase name) /\
  ~ Occurs " " (entry_name e).
Proof.
  unfold findByExactName.
  destruct (getCachedFileLines fs now path st) as [[ls|msg] st1];
    [|discriminate].
  cbn [fst]. intros [= Hfind].
  pose proof (@findLoop_first ls (replaceAllChar " " "_" (toLowerCase name)) 0)
    as Hloop.
  rewrite Hfind in Hloop.
  destruct Hloop as [k [l [idF [nm [_ [_ [Hq [-> _]]]]]]]].
  cbn [entry_name]. split; [exact Hq|].
  apply notBlank_no_space. rewrite <- toLowerCase_notBlank, Hq.
  apply underscoreForm_notBlank.
Qed.

Lemma findByExactName_never_a_name_with_space_witness :
  toLowerCase "Abyssal_whip" = underscoreForm (toLowerCase "Abyssal Whip") /\
  ~ Occurs " " "Abyssal_whip".
Proof.
  apply (@findByExactName_never_a_name_with_space Examples.dataFiles 0
           "npctypes.txt" "Abyssal Whip" emptyStore
           (mkEntry (Num.ofZ 7) "Abyssal_whip" 4
                    ("7" ++ Examples.tab ++ "Abyssal_whip"))).
  vm_compute. reflexivity.
Defined.

(** X8.  A bulk lookup sorts every requested ID into exactly one of its
    two lists and keeps the order of the request: [notFound] holds the
    IDs no line of the file starts with, [results] the entries of the
    others, each the last line that starts with its ID. *)
Theorem bulkLookup_partitions_request fs clock path content ids st :
  store_ok fs st -> fs path = Some content ->
  exists results notFound st',
    bulkLookup fs clock path ids st = (Ok (results, notFound), st') /\
    (List.length results + List.length notFound = List.length ids)%nat /\
    results
    = flat_map (fun id => match entryOf (fileLines content) id with
                          | Some e => [e]
                          | None => []
                          end) ids /\
    notFound
    = List.filter (fun id => match entryOf (fileLines content) id with
                             | Some _ => false
                             | None => true
                             end) ids /\
    (forall id,
       In id notFound <->
       In id ids /\
       forall line, In line (fileLines content) -> ~ LineId line (Num.canonKey id)) /\
    (forall e,
       In e results <->
       exists id j line,
         In id ids /\ LastWithId (fileLines content) (Num.canonKey id) j line /\
         e = mkEntry id (nameOfLine line) (j + 1) line).
Proof.
  intros Hok Hfs. unfold bulkLookup.
  destruct (@bulkLoop_ok fs clock path content ids Hfs 0 [] [] st Hok)
    as [st' [E _]].
  cbn [app] in E. eexists _, _, st'. split; [exact E|].
  split; [apply found_missing_length|]. split; [reflexivity|].
  split; [reflexivity|]. split.
  - intros id. rewrite filter_In. unfold missing.
    rewrite <- entryOf_None.
    destruct (entryOf (fileLines content) id); split; intros [H1 H2];
      (split; [exact H1|]); congruence.
  - intros e. rewrite in_flat_map. unfold found. split.
    + intros [id [Hin He]].
      destruct (entryOf (fileLines content) id) as [e'|] eqn:Ee; [|destruct He].
      destruct He as [<-|[]]. apply entryOf_Some in Ee as [j [line [Hl ->]]].
      now exists id, j, line.
    + intros [id [j [line [Hin [Hl ->]]]]]. exists id. split; [exact Hin|].
      assert (Ee : entryOf (fileLines content) id
                   = Some (mkEntry id (nameOfLine line) (j + 1) line))
        by (apply entryOf_Some; now exists j, line).
      rewrite Ee. now left.
Qed.

Lemma bulkLookup_partitions_request_witness :
  exists results notFound st',
    bulkLookup Examples.dataFiles (fun _ => (0, 0, 0)%Z) "npctypes.txt"
               [Num.ofZ 7; Num.ofZ 99; Num.ofZ 12] emptyStore
    = (Ok (results, notFound), st') /\
    (List.length results + List.length notFound
     = List.length [Num.ofZ 7; Num.ofZ 99; Num.ofZ 12])%nat /\
    results
    = flat_map (fun id => match entryOf (fileLines Examples.npcFile) id with
                          | Some e => [e]
                          | None => []
                          end) [Num.ofZ 7; Num.ofZ 99; Num.ofZ 12] /\
    notFound
    = List.filter (fun id => match entryOf (fileLines Examples.npcFile) id with
                             | Some _ => false
                             | None => true
                             end) [Num.ofZ 7; Num.ofZ 99; Num.ofZ 12] /\
    (forall id,
       In id notFound <->
       In id [Num.ofZ 7; Num.ofZ 99; Num.ofZ 12] /\
       forall line, In line (fileLines Examples.npcFile) ->
                    ~ LineId line (Num.canonKey id)) /\
    (forall e,
       In e results <->
       exists id j line,
         In id [Num.ofZ 7; Num.ofZ 99; Num.ofZ 12] /\
         LastWithId (fileLines Examples.npcFile) (Num.canonKey id) j line /\
         e = mkEntry id (nameOfLine line) (j + 1) line).
Proof.
  apply (@bulkLookup_partitions_request Examples.dataFiles
           (fun _ => (0, 0, 0)%Z) "npctypes.txt" Examples.npcFile
           [Num.ofZ 7; Num.ofZ 99; Num.ofZ 12] emptyStore).
  - apply FileStoreFacts.store_ok_empty.
  - reflexivity.
Defined.

(** X9.  A range query for the IDs [startId] to [endId] with
    [0 <= startId] and [endId] below 2^53 ends (its loop tests its
    condition [endId - startId + 2] times at most) and reports, in
    ascending order of the IDs, the IDs of the range that some line of the
    file starts with, each with the line number of the last such line and
    the second field of that line as its name, and stops after [limit]
    entries; with [startId > endId] it reports the error instead and
    reads nothing. *)
Theorem getIdRange_ascending_up_to_limit
    fuel fs nowCheck nowRead nowLines path content startId endId limit st :
  store_ok fs st -> fs path = Some content ->
  (0 <= startId)%Z -> (endId < 2 ^ 53)%Z ->
  (Z.to_nat (endId - startId + 1) < fuel)%nat ->
  let r := getIdRange fuel fs nowCheck nowRead nowLines path startId endId
                      limit st in
  ((endId < startId)%Z -> r = (Some (Ok None), st)) /\
  ((startId <= endId)%Z ->
   exists results,
     fst r = Some (Ok (Some results)) /\
     results
     = firstn limit
         (flat_map (rangeEntryOf (fileLines content))
                   (zseq startId (Z.to_nat (endId - startId + 1)))) /\
     (List.length results <= limit)%nat).
Proof.
  intros Hok Hfs Hstart Hend Hfuel. cbv zeta. unfold getIdRange. split.
  - intros Hlt. apply Z.ltb_lt in Hlt. now rewrite Hlt.
  - intros Hle. apply Z.ltb_ge in Hle. rewrite Hle.
    destruct (@FileStoreFacts.buildIdIndex_ok fs nowCheck nowRead path content st
                Hok Hfs) as [st1 [E1 Hok1]].
    rewrite E1.
    destruct (@FileStoreFacts.getCachedFileLines_ok fs nowLines path content st1
                Hok1 Hfs) as [st2 [E2 _]].
    rewrite E2.
    rewrite (@rangeLoop_ok (fileLines content) limit endId
               (Z.to_nat (endId - startId + 1)) fuel startId [])
      by (cbn; lia).
    cbn [app fst].
    eexists. split; [reflexivity|]. split; [reflexivity|].
    apply firstn_le_length.
Qed.

Lemma getIdRange_ascending_up_to_limit_witness :
  fst (getIdRange 7 Examples.dataFiles 0 0 0 "npctypes.txt" 7 12 2 emptyStore)
  = Some (Ok (Some [mkRangeEntry 7 "Abyssal_whip" 4;
                    mkRangeEntry 8 "Abyssal whip" 5])) /\
  getIdRange 7 Examples.dataFiles 0 0 0 "npctypes.txt" 12 7 2 emptyStore
  = (Some (Ok None), emptyStore).
Proof.
  split.
  - destruct (@getIdRange_ascending_up_to_limit 7 Examples.dataFiles 0 0 0
                "npctypes.txt" Examples.npcFile 7 12 2 emptyStore)
      as [_ H];
      [apply FileStoreFacts.store_ok_empty | reflexivity | lia
      | vm_compute; reflexivity | vm_compute; lia |].
    destruct H as (results & E & -> & _); [lia|].
    rewrite E. vm_compute. reflexivity.
  - destruct (@getIdRange_ascending_up_to_limit 1 Examples.dataFiles 0 0 0
                "npctypes.txt" Examples.npcFile 12 7 2 emptyStore)
      as [H _];
      [apply FileStoreFacts.store_ok_empty | reflexivity | lia
      | vm_compute; reflexivity | vm_compute; lia |].
    vm_compute. reflexivity.
Defined.

(** The range 7 to 12 of the example file, two entries at most. *)
Example getIdRange_example :
  fst (getIdRange 10 Examples.dataFiles 0 0 0 "npctypes.txt" 7 12 2 emptyStore)
  = Some (Ok (Some [mkRangeEntry 7 "Abyssal_whip" 4;
                    mkRangeEntry 8 "Abyssal whip" 5])).
Proof. vm_compute. reflexivity. Qed.

(** From 2^53 on the loop makes no progress: the range from 2^53 to 2^53
    of the example file does not end, whatever the fuel. *)
Example getIdRange_stalls (fuel : nat) :
  fst (getIdRange fuel Examples.dataFiles 0 0 0 "npctypes.txt"
                  (2 ^ 53) (2 ^ 53) 2 emptyStore)
  = None.
Proof.
  unfold getIdRange. rewrite Z.ltb_irrefl.
  destruct (@FileStoreFacts.buildIdIndex_ok Examples.dataFiles 0 0
              "npctypes.txt" Examples.npcFile emptyStore
              (FileStoreFacts.store_ok_empty _) eq_refl) as [st1 [E1 Hok1]].
  rewrite E1.
  destruct (@FileStoreFacts.getCachedFileLines_ok Examples.dataFiles 0
              "npctypes.txt" Examples.npcFile st1 Hok1 eq_refl) as [st2 [E2 _]].
  rewrite E2, rangeLoop_stalls; [reflexivity | vm_compute; reflexivity | lia].
Qed.

End FileToolsProperties.

(* ================================================================== *)
(** * Further properties of the wiki response cache *)
(* ================================================================== *)

Module WikiCacheMoreFacts.
Import WikiCache WikiCacheSpec WikiCacheFacts.

(** ** The order of code units on strings *)

Lemma leb_trans a : forall b c,
  String.leb a b = true -> String.leb b c = true -> String.leb a c = true.
Proof.
  unfold String.leb.
  induction a as [|x a IH]; intros [|y b] [|z c]; cbn; try easy.
  unfold Ascii.compare.
  destruct (N.compare_spec (N_of_ascii x) (N_of_ascii y)) as [Exy|Lxy|Gxy];
    destruct (N.compare_spec (N_of_ascii y) (N_of_ascii z)) as [Eyz|Lyz|Gyz];
    destruct (N.compare_spec (N_of_ascii x) (N_of_ascii z)) as [Exz|Lxz|Gxz];
    try easy; try lia.
  apply IH.
Qed.

Lemma leb_false a b : String.leb a b = false -> String.leb b a = true.
Proof.
  intros H. destruct (String.leb_total a b) as [H'|H']; [congruence | exact H'].
Qed.

(** Insertions into a list commute. *)
Lemma insertSorted_comm x y : forall l,
  insertSorted x (insertSorted y l) = insertSorted y (insertSorted x l).
Proof.
  induction l as [|h r IH].
  - cbn. destruct (String.leb x y) eqn:Exy, (String.leb y x) eqn:Eyx;
      try reflexivity.
    + now rewrite (String.leb_antisym _ _ Exy Eyx).
    + apply leb_false in Exy. congruence.
  - cbn [insertSorted].
    destruct (String.leb y h) eqn:Eyh, (String.leb x h) eqn:Exh;
      cbn [insertSorted]; rewrite ?Eyh, ?Exh.
    + destruct (String.leb x y) eqn:Exy, (String.leb y x) eqn:Eyx;
        rewrite ?Exh, ?Eyh; try reflexivity.
      * now rewrite (String.leb_antisym _ _ Exy Eyx).
      * apply leb_false in Exy. congruence.
    + destruct (String.leb x y) eqn:Exy; [|reflexivity].
      now rewrite (leb_trans _ _ _ Exy Eyh) in Exh.
    + destruct (String.leb y x) eqn:Eyx; [|reflexivity].
      now rewrite (leb_trans _ _ _ Eyx Exh) in Eyh.
    + now rewrite IH.
Qed.

(** Sorting forgets the order of its input. *)
Lemma sortStrings_Permutation l l' :
  Permutation.Permutation l l' -> sortStrings l = sortStrings l'.
Proof.
  unfold sortStrings. induction 1 as [|x l l' _ IH|x y l|l l' l'' _ IH1 _ IH2].
  - reflexivity.
  - cbn. now rewrite IH.
  - cbn. apply insertSorted_comm.
  - now rewrite IH1.
Qed.

Lemma paramValue_In key v : forall params,
  NoDup (List.map fst params) -> In (key, v) params ->
  paramValue key params = v.
Proof.
  induction params as [|[k w] r IH]; intros Hnd Hin; [destruct Hin|].
  cbn [paramValue]. inversion Hnd as [|? ? Hnotin Hnd']; subst.
  destruct Hin as [[= -> ->]|Hin].
  - now rewrite String.eqb_refl.
  - destruct (String.eqb k key) eqn:E.
    + apply String.eqb_eq in E. subst k. exfalso. apply Hnotin.
      now apply (in_map fst) in Hin.
    + now apply IH.
Qed.

Section Overwrite.
Variable Data : Type.
Implicit Types (st : State Data).

Lemma size_set_old (m : JsMap.t string (CacheEntry Data)) k v :
  JsMap.get k m <> None -> JsMap.size (JsMap.set k v m) = JsMap.size m.
Proof.
  intros H. unfold JsMap.size.
  rewrite <- !(length_map fst). fold (JsMap.keys (JsMap.set k v m)).
  fold (JsMap.keys m). now rewrite JsMapFacts.keys_set_old.
Qed.

End Overwrite.

End WikiCacheMoreFacts.

Module WikiCacheMoreProperties.
Import WikiCache WikiCacheSpec WikiCacheFacts WikiCacheMoreFacts.

(** X10.  A value stored by [setWikiCache] and looked up under its key
    by the next operation on the cache, [getFromWikiCache], is returned
    when the lookup is made up to and including 30 minutes after the
    store, and the cache stays as it is; a lookup made more than 30
    minutes after the store returns [null] and removes the entry. *)
Theorem wiki_cache_round_trip
    (Data : Type) (st : State Data) (now later : Z) (key : string) (d : Data) :
  let st1 := setWikiCache now key d st in
  ((later - now <= WIKI_CACHE_TTL)%Z ->
   fst (getFromWikiCache later key st1) = Some d /\
   wikiCache (snd (getFromWikiCache later key st1)) = wikiCache st1) /\
  ((WIKI_CACHE_TTL < later - now)%Z ->
   fst (getFromWikiCache later key st1) = None /\
   JsMap.get key (wikiCache (snd (getFromWikiCache later key st1))) = None).
Proof.
  cbv zeta. unfold getFromWikiCache. rewrite setWikiCache_unfold.
  cbn [wikiCache]. rewrite JsMapFacts.get_set_eq. cbn [timestamp data]. split.
  - intros Hle. apply Z.ltb_ge in Hle. rewrite Hle. now split.
  - intros Hlt. apply Z.ltb_lt in Hlt. rewrite Hlt. cbn [fst snd wikiCache].
    split; [reflexivity | apply JsMapFacts.get_delete_eq].
Qed.

Lemma wiki_cache_round_trip_witness :
  let st1 := setWikiCache 0 "wiki_search:srsearch=whip" 42%nat (initial nat) in
  (fst (getFromWikiCache 1800000 "wiki_search:srsearch=whip" st1) = Some 42%nat /\
   wikiCache (snd (getFromWikiCache 1800000 "wiki_search:srsearch=whip" st1))
   = wikiCache st1) /\
  (fst (getFromWikiCache 1800001 "wiki_search:srsearch=whip" st1) = None /\
   JsMap.get "wiki_search:srsearch=whip"
     (wikiCache (snd (getFromWikiCache 1800001 "wiki_search:srsearch=whip" st1)))
   = None).
Proof.
  cbv zeta. split.
  - apply (@wiki_cache_round_trip nat (initial nat) 0 1800000
             "wiki_search:srsearch=whip" 42%nat).
    vm_compute. discriminate.
  - apply (@wiki_cache_round_trip nat (initial nat) 0 1800001
             "wiki_search:srsearch=whip" 42%nat).
    vm_compute. reflexivity.
Defined.

(** X11.  The cache key of a request does not depend on the order in
    which the parameters are listed: two listings of the same parameters,
    no parameter named twice, give the same key. *)
Theorem getWikiCacheKey_order_independent action params params' :
  NoDup (List.map fst params) -> Permutation.Permutation params params' ->
  getWikiCacheKey action params = getWikiCacheKey action params'.
Proof.
  intros Hnd Hperm. unfold getWikiCacheKey.
  assert (Hnd' : NoDup (List.map fst params')).
  { eapply Permutation.Permutation_NoDup; [|exact Hnd]. now apply Permutation.Permutation_map. }
  rewrite <- (@sortStrings_Permutation (List.map fst params) (List.map fst params'))
    by (now apply Permutation.Permutation_map).
  do 3 f_equal. apply map_ext_in. intros key Hin.
  assert (Hkey : In key (List.map fst params)).
  { set (sorted := sortStrings (List.map fst params)) in *.
    assert (Hs : forall l x, In x (sortStrings l) -> In x l).
    { clear. unfold sortStrings. induction l as [|h r IH]; intros x; [easy|].
      cbn [fold_right].
      assert (Hi : forall k s, In x (insertSorted k s) -> x = k \/ In x s).
      { clear. intros k. induction s as [|h r IH]; cbn [insertSorted].
        - intros [<-|[]]. now left.
        - destruct (String.leb k h).
          + intros [<-|H]; [now left | now right].
          + intros [<-|H]; [right; now left|].
            destruct (IH H) as [->|H']; [now left | right; now right]. }
      intros H. apply Hi in H as [->|H]; [now left | right; now apply IH]. }
    now apply Hs. }
  apply in_map_iff in Hkey as [[k v] [Hk Hin']]. cbn in Hk. subst k.
  rewrite (@paramValue_In key v params Hnd Hin').
  rewrite (@paramValue_In key v params' Hnd'); [reflexivity|].
  now apply (Permutation.Permutation_in _ Hperm).
Qed.

Lemma getWikiCacheKey_order_independent_witness :
  getWikiCacheKey "wiki_search" [("srsearch", "whip"); ("list", "search")]
  = getWikiCacheKey "wiki_search" [("list", "search"); ("srsearch", "whip")].
Proof.
  apply (@getWikiCacheKey_order_independent "wiki_search"
           [("srsearch", "whip"); ("list", "search")]
           [("list", "search"); ("srsearch", "whip")]).
  - repeat constructor; cbn; intuition discriminate.
  - apply Permutation.perm_swap.
Defined.

(** X12.  Storing again under a key that is already cached while the
    cache is full still evicts the oldest entry, although no room is
    needed: when the key is not the oldest one itself the cache shrinks
    to 499 entries; when it is, the key moves from the oldest place to
    the newest and the size stays 500. *)
Theorem setWikiCache_overwrite_when_full
    (Data : Type) (st : State Data) (now : Z) (key oldest : string) (d : Data) :
  Reachable st ->
  JsMap.size (wikiCache st) = WIKI_CACHE_MAX_SIZE ->
  JsMap.firstKey (wikiCache st) = Some oldest ->
  JsMap.get key (wikiCache st) <> None ->
  let st' := setWikiCache now key d st in
  JsMap.get key (wikiCache st') = Some (mkCacheEntry d now) /\
  (key <> oldest ->
   JsMap.size (wikiCache st') = 499%nat /\
   JsMap.get oldest (wikiCache st') = None) /\
  (key = oldest ->
   JsMap.size (wikiCache st') = 500%nat /\
   JsMap.keys (wikiCache st') = (List.tl (JsMap.keys (wikiCache st)) ++ [key])%list).
Proof.
  intros Hreach Hsize Hfirst Hkey. cbv zeta.
  pose proof (Reachable_cache_inv Hreach) as Hinv.
  destruct (evicted_full Hinv Hsize) as [o [v [rest [Hc He]]]].
  rewrite setWikiCache_unfold, He. cbn [wikiCache].
  rewrite Hc in Hfirst, Hkey, Hsize. cbn [JsMap.firstKey] in Hfirst.
  injection Hfirst as ->.
  destruct Hinv as [Hwf _]. rewrite Hc in Hwf. unfold JsMap.wf in Hwf.
  change (NoDup (oldest :: JsMap.keys rest)) in Hwf.
  apply NoDup_cons_iff in Hwf as [Hnotin Hwf'].
  assert (Hrest : JsMap.get oldest rest = None)
    by (now apply JsMapFacts.get_None_notin).
  unfold JsMap.size in Hsize. cbn [List.length] in Hsize.
  unfold WIKI_CACHE_MAX_SIZE in Hsize.
  split; [apply JsMapFacts.get_set_eq|]. split.
  - intros Hne. cbn [JsMap.get] in Hkey.
    destruct (eq_dec key oldest) as [Heq|_]; [contradiction|].
    split.
    + rewrite size_set_old by exact Hkey. unfold JsMap.size. lia.
    + rewrite JsMapFacts.get_set_neq by exact Hne. exact Hrest.
  - intros ->. split.
    + rewrite JsMapFacts.size_set_new by exact Hrest. unfold JsMap.size. lia.
    + rewrite Hc. cbn [JsMap.keys List.map fst List.tl].
      now apply JsMapFacts.keys_set_new.
Qed.

Lemma setWikiCache_overwrite_when_full_witness :
  let st' := setWikiCache 7 (getWikiCacheKey (Examples.actionName 3) []) tt
                          (Examples.filledCache 500) in
  JsMap.get (getWikiCacheKey (Examples.actionName 3) []) (wikiCache st')
  = Some (mkCacheEntry tt 7) /\
  (getWikiCacheKey (Examples.actionName 3) []
   <> getWikiCacheKey (Examples.actionName 0) [] ->
   JsMap.size (wikiCache st') = 499%nat /\
   JsMap.get (getWikiCacheKey (Examples.actionName 0) []) (wikiCache st') = None) /\
  (getWikiCacheKey (Examples.actionName 3) []
   = getWikiCacheKey (Examples.actionName 0) [] ->
   JsMap.size (wikiCache st') = 500%nat /\
   JsMap.keys (wikiCache st')
   = (List.tl (JsMap.keys (wikiCache (Examples.filledCache 500)))
      ++ [getWikiCacheKey (Examples.actionName 3) []])%list).
Proof.
  apply (@setWikiCache_overwrite_when_full unit (Examples.filledCache 500) 7
           (getWikiCacheKey (Examples.actionName 3) [])
           (getWikiCacheKey (Examples.actionName 0) []) tt).
  - apply filledCache_Reachable.
  - vm_compute. reflexivity.
  - vm_compute. reflexivity.
  - vm_compute. discriminate.
Defined.

End WikiCacheMoreProperties.

(* ================================================================== *)
(** * Further properties of the request deduplication *)
(* ================================================================== *)

Module DedupMoreFacts.
Import Dedup DedupSpec DedupFacts DedupMoreSpec.
Section WithValue.
Variable Value : Type.
Implicit Types (st : State Value).

Lemma filter_update (l : list (Promise Value)) k f : forall p x,
  nth_error l p = Some x -> key (f x) = key x ->
  List.length (List.filter (fun pr => String.eqb (key pr) k) (update p f l))
  = List.length (List.filter (fun pr => String.eqb (key pr) k) l).
Proof.
  induction l as [|y r IH]; intros [|p] x Hn Hf; try discriminate Hn.
  - cbn in Hn. injection Hn as ->. cbn [update List.filter]. rewrite Hf.
    destruct (String.eqb (key x) k); reflexivity.
  - cbn in Hn. cbn [update List.filter].
    destruct (String.eqb (key y) k); cbn [List.length];
      now rewrite (IH p x Hn Hf).
Qed.

Lemma produced_cons k k' (calls : list string) :
  List.count_occ string_dec (k' :: calls) k
  = ((if String.eqb k' k then 1 else 0) + List.count_occ string_dec calls k)%nat.
Proof.
  cbn [List.count_occ]. destruct (string_dec k' k) as [->|Hne].
  - now rewrite String.eqb_refl.
  - apply String.eqb_neq in Hne. now rewrite Hne.
Qed.

Lemma step_counted e st : Counted st -> Counted (step st e).
Proof.
  intros Hc k. specialize (Hc k). unfold produced, promisesFor in *.
  destruct e as [k'|p o|p]; cbn [step].
  - unfold fetchWithDedup.
    destruct (JsMap.get k' (pendingRequests st)); cbn [snd]; [exact Hc|].
    cbn [fetcherCalls promises]. rewrite produced_cons, filter_app, length_app, Hc.
    cbn [List.filter key]. destruct (String.eqb k' k); cbn [List.length]; lia.
  - unfold fetchSettles.
    destruct (nth_error (promises st) p) as [[kp [| |]]|] eqn:E; try exact Hc.
    cbn [fetcherCalls promises].
    now rewrite (@filter_update (promises st) k _ p _ E).
  - unfold finallyRuns.
    destruct (nth_error (promises st) p) as [[kp [| |]]|] eqn:E; try exact Hc.
    cbn [fetcherCalls promises].
    now rewrite (@filter_update (promises st) k _ p _ E).
Qed.

Lemma run_counted evs : forall st, Counted st -> Counted (run evs st).
Proof.
  induction evs as [|e r IH]; intros st H; [exact H|].
  apply IH, step_counted, H.
Qed.

Lemma Reachable_counted st : Reachable st -> Counted st.
Proof. intros [evs ->]. apply run_counted. intros k. reflexivity. Qed.

End WithValue.
End DedupMoreFacts.

Module DedupMoreProperties.
Import Dedup DedupSpec DedupFacts DedupMoreSpec DedupMoreFacts.

(** X13.  At any time at most one promise per key is not yet settled, so
    no two fetches for the same key are ever under way at once; and the
    producing operation has been called exactly once for every promise
    made for a key. *)
Theorem one_fetch_per_key_at_a_time
    (Value : Type) (st : State Value) (k : string) :
  Reachable st ->
  (forall p q s s',
     nth_error (promises st) p = Some (mkPromise k s) ->
     nth_error (promises st) q = Some (mkPromise k s') ->
     unsettled s -> unsettled s' -> p = q) /\
  produced k st = promisesFor k st.
Proof.
  intros Hr. split.
  - intros p q s s' Hp Hq Hs Hs'.
    destruct (Reachable_dedup_inv Hr) as [_ Hinv].
    pose proof (Hinv p k s Hp Hs) as H1.
    pose proof (Hinv q k s' Hq Hs') as H2. congruence.
  - now apply Reachable_counted.
Qed.

Lemma one_fetch_per_key_at_a_time_witness :
  let k := "wiki_drops:page=Goblin" in
  let st := run [Call nat k; Call nat k; FetchSettles 0 (Fulfilled 1%nat);
                 FinallyRuns nat 0; Call nat k] (initial nat) in
  (forall p q s s',
     nth_error (promises st) p = Some (mkPromise k s) ->
     nth_error (promises st) q = Some (mkPromise k s') ->
     unsettled s -> unsettled s' -> p = q) /\
  produced k st = promisesFor k st.
Proof.
  intros k st.
  apply (@one_fetch_per_key_at_a_time nat st k).
  eexists. reflexivity.
Defined.

(** Three calls, the second while the first fetch is under way: two
    promises and two calls of the fetcher. *)
Example one_fetch_per_key_example :
  let k := "wiki_drops:page=Goblin" in
  let st := run [Call nat k; Call nat k; FetchSettles 0 (Fulfilled 1%nat);
                 FinallyRuns nat 0; Call nat k] (initial nat) in
  produced k st = 2%nat /\ promisesFor k st = 2%nat.
Proof. split; reflexivity. Qed.

End DedupMoreProperties.

(* ================================================================== *)
(** * Further properties of the structured dataset cache *)
(* ================================================================== *)

Module OsrsBoxMoreFacts.
Import OsrsBox OsrsBoxMoreSpec.

Lemma find_append {A : Type} (f : A -> bool) (l1 l2 : list A) :
  List.find f (l1 ++ l2)
  = match List.find f l1 with
    | Some x => Some x
    | None => List.find f l2
    end.
Proof.
  induction l1 as [|x r IH]; [reflexivity|].
  cbn [app List.find]. destruct (f x); [reflexivity | exact IH].
Qed.

Lemma indexMonsters_monsters ms : forall a b c i,
  JsMap.get i (fst (fst (indexMonsters ms (a, b, c))))
  = match lastWithId ms i with
    | Some m => Some m
    | None => JsMap.get i a
    end.
Proof.
  unfold lastWithId.
  induction ms as [|m rest IH]; intros a b c i; [reflexivity|].
  cbn [indexMonsters]. rewrite IH. cbn [List.rev]. rewrite find_append.
  destruct (List.find (fun m0 => Z.eqb (id m0) i) (List.rev rest)); [reflexivity|].
  cbn [List.find]. destruct (Z.eqb_spec (id m) i) as [<-|Hne].
  - apply JsMapFacts.get_set_eq.
  - now apply JsMapFacts.get_set_neq.
Qed.

Lemma appended_app {A : Type} (o : option (list A)) n1 n2 :
  appended (appended o n1) n2 = appended o (n1 ++ n2)%list.
Proof.
  destruct n1 as [|x r]; [reflexivity|].
  destruct n2 as [|y r2].
  - cbn [appended app]. now rewrite app_nil_r.
  - cbn [appended app]. now rewrite <- app_assoc.
Qed.

Lemma appended_None {A : Type} (new : list A) : appended None new = nonEmpty new.
Proof. destruct new; reflexivity. Qed.

Lemma indexMonsters_names ms : forall a b c n,
  JsMap.get n (snd (fst (indexMonsters ms (a, b, c))))
  = appended (JsMap.get n b) (idsNamed ms n).
Proof.
  unfold idsNamed.
  induction ms as [|m rest IH]; intros a b c n; [reflexivity|].
  cbn [indexMonsters]. rewrite IH. cbn [List.filter].
  destruct (String.eqb_spec (Js.toLowerCase (name m)) n) as [<-|Hne].
  - rewrite JsMapFacts.get_set_eq. cbn [List.map].
    change (id m :: List.map id
              (List.filter (fun m0 => String.eqb (Js.toLowerCase (name m0))
                                                 (Js.toLowerCase (name m))) rest))
      with ([id m] ++ List.map id
              (List.filter (fun m0 => String.eqb (Js.toLowerCase (name m0))
                                                 (Js.toLowerCase (name m))) rest))%list.
    rewrite <- appended_app. reflexivity.
  - now rewrite JsMapFacts.get_set_neq.
Qed.

Lemma indexDrops_get m ds : forall idx item,
  JsMap.get item (indexDrops m ds idx)
  = appended (JsMap.get item idx)
      (List.map (sourceOf m) (List.filter (fun d => Z.eqb (drop_id d) item) ds)).
Proof.
  induction ds as [|d rest IH]; intros idx item; [reflexivity|].
  cbn [indexDrops]. rewrite IH. cbn [List.filter].
  destruct (Z.eqb_spec (drop_id d) item) as [<-|Hne].
  - rewrite JsMapFacts.get_set_eq. cbn [List.map].
    change (sourceOf m d :: ?l) with ([sourceOf m d] ++ l)%list.
    rewrite <- appended_app. reflexivity.
  - now rewrite JsMapFacts.get_set_neq.
Qed.

Lemma indexMonsters_items ms : forall a b c item,
  JsMap.get item (snd (indexMonsters ms (a, b, c)))
  = appended (JsMap.get item c) (sourcesOf ms item).
Proof.
  unfold sourcesOf.
  induction ms as [|m rest IH]; intros a b c item; [reflexivity|].
  cbn [indexMonsters]. rewrite IH. cbn [flat_map].
  rewrite <- appended_app. f_equal. unfold dropsOf.
  destruct (drops m) as [ds|]; [apply indexDrops_get | reflexivity].
Qed.

(** The three indexes of a dataset. *)
Lemma buildOsrsBoxIndexes_unfold now ms :
  buildOsrsBoxIndexes now ms
  = mkCache (fst (fst (indexMonsters ms (JsMap.empty, JsMap.empty, JsMap.empty))))
            (snd (fst (indexMonsters ms (JsMap.empty, JsMap.empty, JsMap.empty))))
            (snd (indexMonsters ms (JsMap.empty, JsMap.empty, JsMap.empty)))
            now.
Proof.
  unfold buildOsrsBoxIndexes.
  destruct (indexMonsters ms (JsMap.empty, JsMap.empty, JsMap.empty))
    as [[x y] z]. reflexivity.
Qed.

(** ** The statistics of a refresh *)







(** ** The search by name *)

Lemma In_get_wf {K V : Type} `{EqDec K} (m : JsMap.t K V) k v :
  JsMap.wf m -> (In (k, v) m <-> JsMap.get k m = Some v).
Proof.
  unfold JsMap.wf. induction m as [|[k' v'] r IH]; intros Hwf.
  - split; [intros [] | discriminate].
  - change (NoDup (k' :: JsMap.keys r)) in Hwf.
    apply NoDup_cons_iff in Hwf as [Hnotin Hwf].
    cbn [JsMap.get In]. destruct (eq_dec k k') as [->|Hne].
    + split.
      * intros [[= <-]|Hin]; [reflexivity|].
        exfalso. apply Hnotin. now apply (in_map fst) in Hin.
      * intros [= ->]. now left.
    + rewrite <- (IH Hwf). split.
      * intros [[= <- _]|Hin]; [congruence | exact Hin].
      * intros Hin. now right.
Qed.

Lemma wf_indexMonsters_names ms : forall a b c,
  JsMap.wf b -> JsMap.wf (snd (fst (indexMonsters ms (a, b, c)))).
Proof.
  induction ms as [|m rest IH]; intros a b c Hwf; [exact Hwf|].
  cbn [indexMonsters]. apply IH. now apply JsMapFacts.wf_set.
Qed.

Lemma lastWithId_In ms i m :
  lastWithId ms i = Some m -> In m ms /\ id m = i.
Proof.
  unfold lastWithId. intros H. apply find_some in H as [Hin Hid].
  apply in_rev in Hin. apply Z.eqb_eq in Hid. now split.
Qed.

Lemma NoDup_ids_eq ms : forall m m',
  NoDup (List.map id ms) -> In m ms -> In m' ms -> id m = id m' -> m = m'.
Proof.
  induction ms as [|x r IH]; intros m m' Hnd Hm Hm' Hid; [destruct Hm|].
  cbn [List.map] in Hnd. apply NoDup_cons_iff in Hnd as [Hnotin Hnd].
  destruct Hm as [->|Hm], Hm' as [->|Hm'].
  - reflexivity.
  - exfalso. apply Hnotin. rewrite Hid. now apply in_map.
  - exfalso. apply Hnotin. rewrite <- Hid. now apply in_map.
  - now apply IH.
Qed.

Lemma lastWithId_unique ms m :
  NoDup (List.map id ms) -> In m ms -> lastWithId ms (id m) = Some m.
Proof.
  intros Hnd Hin. destruct (lastWithId ms (id m)) as [m'|] eqn:E.
  - apply lastWithId_In in E as [Hin' Hid]. f_equal.
    now apply (@NoDup_ids_eq ms m' m).
  - exfalso. unfold lastWithId in E.
    assert (Hf : Z.eqb (id m) (id m) = false).
    { apply (find_none _ _ E m). now apply -> in_rev. }
    now rewrite Z.eqb_refl in Hf.
Qed.

Lemma idsNamed_In ms lname i :
  In i (idsNamed ms lname) <->
  exists m, In m ms /\ Js.toLowerCase (name m) = lname /\ id m = i.
Proof.
  unfold idsNamed. rewrite in_map_iff. split.
  - intros [m [Hid Hin]]. apply filter_In in Hin as [Hin Hn].
    apply String.eqb_eq in Hn. now exists m.
  - intros [m [Hin [Hn Hid]]]. exists m. split; [exact Hid|].
    apply filter_In. split; [exact Hin | now apply String.eqb_eq].
Qed.

Lemma In_page {A : Type} (x : A) n k l :
  In x (firstn n (skipn k l)) -> In x l.
Proof.
  intros H. rewrite <- (firstn_skipn k l). apply in_or_app. right.
  rewrite <- (firstn_skipn n (skipn k l)). apply in_or_app. now left.
Qed.

End OsrsBoxMoreFacts.

Module OsrsBoxMoreProperties.
Import OsrsBox OsrsBoxMoreSpec OsrsBoxMoreFacts.

(** X14.  In the indexes built from a dataset, the lookup of a monster
    ID gives the last monster of the dataset with that ID, and nothing
    for an ID no monster has. *)
Theorem monsters_index_last_record_wins now ms i :
  JsMap.get i (monsters (buildOsrsBoxIndexes now ms))
  = List.find (fun m => Z.eqb (id m) i) (List.rev ms).
Proof.
  rewrite buildOsrsBoxIndexes_unfold. cbn [monsters].
  rewrite indexMonsters_monsters. unfold lastWithId.
  now destruct (List.find (fun m => Z.eqb (id m) i) (List.rev ms)).
Qed.

(** X15.  The name index maps a lower-case name to the IDs of all the
    monsters of the dataset that have this name when case is ignored,
    in the order of the dataset and with repetitions kept, and has no
    entry for a name no monster has. *)
Theorem name_index_lists_all_ids now ms lname :
  JsMap.get lname (monsterNameIndex (buildOsrsBoxIndexes now ms))
  = nonEmpty
      (List.map id
         (List.filter (fun m => String.eqb (Js.toLowerCase (name m)) lname) ms)).
Proof.
  rewrite buildOsrsBoxIndexes_unfold. cbn [monsterNameIndex].
  rewrite indexMonsters_names. apply appended_None.
Qed.

(** X16.  The item index is the inversion of the drop lists: the entry
    of an item holds one source for every drop of that item by any
    monster of the dataset, in the order of the dataset, and an item
    nothing drops has no entry. *)
Theorem item_index_inverts_drops now ms item :
  JsMap.get item (itemDropIndex (buildOsrsBoxIndexes now ms))
  = nonEmpty
      (flat_map
         (fun m =>
            List.map (fun d => mkSource (id m) (name m) (combat_level m)
                                        (drop_rarity d) (drop_quantity d)
                                        (drop_noted d))
              (List.filter (fun d => Z.eqb (drop_id d) item)
                 (match drops m with Some ds => ds | None => [] end)))
         ms).
Proof.
  rewrite buildOsrsBoxIndexes_unfold. cbn [itemDropIndex].
  rewrite indexMonsters_items. apply appended_None.
Qed.



(** The dataset of 1000 goblins: three IDs, one item, 1000 drops. *)
Example refresh_statistics_example :
  fst (fetchOsrsBoxData (fun _ => "{}") "data/osrsbox-monsters.json"
         (Ok (Fixtures.goblins 1000)) false 5000 5000 Examples.goodWorld)
  = Ok (mkFetchResult true 1000 1000 1 true None) /\
  JsMap.size (monsters (buildOsrsBoxIndexes 5000
                          (Object_values (Fixtures.goblins 1000)))) = 3%nat.
Proof. split; vm_compute; reflexivity. Qed.



(** An old cache in memory and an old snapshot on disk: when the fetch
    fails the result is [null]. *)
Example getOsrsBoxCache_stale_and_offline :
  let w := mkWorld (Some ("{...}", 1000%Z))
                   (Some (buildOsrsBoxIndexes 1000 [Examples.goblin])) in
  getOsrsBoxCache (fun _ => "{}") (fun _ => Some Examples.truncatedDownload)
    "data/osrsbox-monsters.json" false (Throw "timeout")
    90000000 90000000 90000000 90000000 w
  = (None, w).
Proof. vm_compute. reflexivity. Qed.

(** X19.  A cache [getOsrsBoxCache] returns is never older than 24
    hours: it is the cache in memory and younger than that, or it was
    built during the call; and it is the cache that is in memory after
    the call. *)
Theorem getOsrsBoxCache_never_stale
    (JSON_stringify : RawData -> string) (JSON_parse : string -> option RawData)
    (snapshotPath : string) (forceRefresh : bool) (response : result RawData)
    (nowAge nowStat nowBuild nowWrite : Z) (w w' : World) (cache : OsrsBoxCache) :
  getOsrsBoxCache JSON_stringify JSON_parse snapshotPath forceRefresh response
                  nowAge nowStat nowBuild nowWrite w
  = (Some cache, w') ->
  osrsBoxCache w' = Some cache /\
  ((forceRefresh = false /\ w' = w /\
    (nowAge - timestamp cache < OSRSBOX_CACHE_TTL)%Z) \/
   timestamp cache = nowBuild).
Proof.
  unfold getOsrsBoxCache.
  assert (Hfetch : forall w0,
    match fetchOsrsBoxData JSON_stringify snapshotPath response true
                           nowWrite nowBuild w0 with
    | (Ok _, w1) => (osrsBoxCache w1, w1)
    | (Throw _, w1) => (None, w1)
    end = (Some cache, w') ->
    osrsBoxCache w' = Some cache /\ timestamp cache = nowBuild).
  { intros w0. unfold fetchOsrsBoxData.
    destruct response as [rawData|msg]; [|discriminate].
    destruct (List.length (Object_values rawData) =? 0)%nat; [discriminate|].
    destruct (List.length (Object_values rawData) <? 1000)%nat; [discriminate|].
    intros [= <- <-]. rewrite buildOsrsBoxIndexes_unfold. now split. }
  assert (Hdisk : forall w0,
    (if forceRefresh
     then match fetchOsrsBoxData JSON_stringify snapshotPath response true
                                 nowWrite nowBuild w0 with
          | (Ok _, w1) => (osrsBoxCache w1, w1)
          | (Throw _, w1) => (None, w1)
          end
     else match loadOsrsBoxFromDisk JSON_parse nowStat nowBuild w0 with
          | (true, w1) => (osrsBoxCache w1, w1)
          | (false, w1) =>
              match fetchOsrsBoxData JSON_stringify snapshotPath response true
                                     nowWrite nowBuild w1 with
              | (Ok _, w2) => (osrsBoxCache w2, w2)
              | (Throw _, w2) => (None, w2)
              end
          end) = (Some cache, w') ->
    osrsBoxCache w' = Some cache /\ timestamp cache = nowBuild).
  { intros w0. destruct forceRefresh; [apply Hfetch|].
    unfold loadOsrsBoxFromDisk.
    destruct (snapshot w0) as [[content mtime]|]; [|apply Hfetch].
    destruct (OSRSBOX_CACHE_TTL <? nowStat - mtime)%Z; [apply Hfetch|].
    destruct (JSON_parse content) as [rawData|]; [|apply Hfetch].
    intros [= <- <-]. rewrite buildOsrsBoxIndexes_unfold. now split. }
  destruct forceRefresh.
  - intros H. destruct (Hdisk w H) as [H1 H2]. split; [exact H1 | now right].
  - destruct (osrsBoxCache w) as [c|] eqn:Ec.
    + destruct (nowAge - timestamp c <? OSRSBOX_CACHE_TTL)%Z eqn:Efresh.
      * intros [= <- <-]. split; [exact Ec|]. left.
        apply Z.ltb_lt in Efresh. now repeat split.
      * intros H. destruct (Hdisk w H) as [H1 H2]. split; [exact H1 | now right].
    + intros H. destruct (Hdisk w H) as [H1 H2]. split; [exact H1 | now right].
Qed.

Lemma getOsrsBoxCache_never_stale_witness :
  osrsBoxCache Examples.goodWorld
  = Some (buildOsrsBoxIndexes 1000 [Examples.goblin; Examples.goblin]) /\
  ((false = false /\ Examples.goodWorld = Examples.goodWorld /\
    (5000 - timestamp (buildOsrsBoxIndexes 1000 [Examples.goblin; Examples.goblin])
     < OSRSBOX_CACHE_TTL)%Z) \/
   timestamp (buildOsrsBoxIndexes 1000 [Examples.goblin; Examples.goblin]) = 7000%Z).
Proof.
  apply (@getOsrsBoxCache_never_stale (fun _ => "{}") (fun _ => None)
           "data/osrsbox-monsters.json" false (Throw "timeout")
           5000 6000 7000 8000 Examples.goodWorld Examples.goodWorld
           (buildOsrsBoxIndexes 1000 [Examples.goblin; Examples.goblin])).
  vm_compute. reflexivity.
Defined.

(** X20.  On the indexes of a dataset in which no two monsters share an
    ID, the search by name finds exactly the monsters whose name contains
    the text asked for when case is ignored: it reports "no monsters
    found" exactly when there is none, and otherwise every monster on the
    page is such a monster of the dataset. *)
Theorem search_finds_the_monsters_named now ms monster_name :
  NoDup (List.map id ms) ->
  let cache := buildOsrsBoxIndexes now ms in
  (forall m,
     In m (MonsterTools.matchingMonsters cache (Js.toLowerCase monster_name))
     <-> In m ms /\ Spec.ContainsIgnoringCase (name m) monster_name) /\
  (forall page pageSize,
     MonsterTools.searchMonsterDrops cache monster_name page pageSize = None
     <-> forall m, In m ms -> ~ Spec.ContainsIgnoringCase (name m) monster_name) /\
  (forall page pageSize r x,
     MonsterTools.searchMonsterDrops cache monster_name page pageSize = Some r ->
     In x (MonsterTools.mp_monsters r) ->
     exists m, In m ms /\ Spec.ContainsIgnoringCase (name m) monster_name /\
               x = MonsterTools.formatMonster m).
Proof.
  intros Hnd. cbv zeta.
  assert (Hmem : forall m,
     In m (MonsterTools.matchingMonsters (buildOsrsBoxIndexes now ms)
             (Js.toLowerCase monster_name))
     <-> In m ms /\ Spec.ContainsIgnoringCase (name m) monster_name).
  { intros m. unfold MonsterTools.matchingMonsters, Spec.ContainsIgnoringCase.
    rewrite <- JsFacts.includes_iff.
    rewrite buildOsrsBoxIndexes_unfold. cbn [monsterNameIndex monsters].
    set (idx := snd (fst (indexMonsters ms (JsMap.empty, JsMap.empty, JsMap.empty)))).
    assert (Hwf : JsMap.wf idx).
    { apply wf_indexMonsters_names. constructor. }
    assert (Hget : forall n ids,
              In (n, ids) idx <-> nonEmpty (idsNamed ms n) = Some ids).
    { intros n ids. rewrite (@In_get_wf _ _ _ idx n ids Hwf). unfold idx.
      rewrite indexMonsters_names. cbn [JsMap.get JsMap.empty].
      rewrite appended_None. reflexivity. }
    rewrite in_flat_map. split.
    - intros [[n ids] [Hin Hm]]. apply Hget in Hin.
      destruct (Js.includes n (Js.toLowerCase monster_name)) eqn:Einc;
        [|destruct Hm].
      apply in_flat_map in Hm as [i [Hi Hm]].
      rewrite indexMonsters_monsters in Hm.
      destruct (lastWithId ms i) as [m'|] eqn:El; [|destruct Hm].
      destruct Hm as [<-|[]].
      apply lastWithId_In in El as [Hin' Hid].
      split; [exact Hin'|].
      assert (Hids : ids = idsNamed ms n).
      { destruct (idsNamed ms n); [discriminate Hin | now injection Hin]. }
      rewrite Hids in Hi. apply idsNamed_In in Hi as [m2 [Hin2 [Hn2 Hid2]]].
      assert (m2 = m') by (apply (@NoDup_ids_eq ms m2 m'); congruence).
      subst m2. now rewrite Hn2.
    - intros [Hin Hinc].
      set (n := Js.toLowerCase (name m)) in *.
      assert (Hi : In (id m) (idsNamed ms n))
        by (apply idsNamed_In; now exists m).
      exists (n, idsNamed ms n). split.
      + apply Hget. destruct (idsNamed ms n); [destruct Hi | reflexivity].
      + rewrite Hinc. apply in_flat_map. exists (id m). split; [exact Hi|].
        rewrite indexMonsters_monsters, (@lastWithId_unique ms m Hnd Hin).
        now left. }
  split; [exact Hmem|]. split.
  - intros page pageSize. unfold MonsterTools.searchMonsterDrops. cbv zeta.
    destruct (MonsterTools.matchingMonsters (buildOsrsBoxIndexes now ms)
                (Js.toLowerCase monster_name)) as [|m0 rest] eqn:Em.
    + split; [|reflexivity]. intros _ m Hin Hc.
      assert (H : In m []) by (apply Hmem; now split). destruct H.
    + split; [discriminate|]. intros Hno. exfalso.
      assert (H : In m0 (m0 :: rest)) by (now left).
      apply Hmem in H as [Hin Hc]. now apply (Hno m0).
  - intros page pageSize r x. unfold MonsterTools.searchMonsterDrops. cbv zeta.
    destruct (MonsterTools.matchingMonsters (buildOsrsBoxIndexes now ms)
                (Js.toLowerCase monster_name)) as [|m0 rest] eqn:Em;
      [discriminate|].
    intros [= <-]. cbn [MonsterTools.mp_monsters]. rewrite in_map_iff.
    intros [m [<- Hin]]. exists m.
    assert (H : In m (m0 :: rest)).
    { exact (@In_page _ m _ _ _ Hin). }
    apply Hmem in H as [Hin' Hc]. now repeat split.
Qed.

Lemma search_finds_the_monsters_named_witness :
  let cache := buildOsrsBoxIndexes 0 [Examples.goblin] in
  (forall m,
     In m (MonsterTools.matchingMonsters cache (Js.toLowerCase "GOB"))
     <-> In m [Examples.goblin] /\ Spec.ContainsIgnoringCase (name m) "GOB") /\
  (forall page pageSize,
     MonsterTools.searchMonsterDrops cache "GOB" page pageSize = None
     <-> forall m, In m [Examples.goblin] ->
                   ~ Spec.ContainsIgnoringCase (name m) "GOB") /\
  (forall page pageSize r x,
     MonsterTools.searchMonsterDrops cache "GOB" page pageSize = Some r ->
     In x (MonsterTools.mp_monsters r) ->
     exists m, In m [Examples.goblin] /\
               Spec.ContainsIgnoringCase (name m) "GOB" /\
               x = MonsterTools.formatMonster m).
Proof.
  apply (@search_finds_the_monsters_named 0 [Examples.goblin] "GOB").
  repeat constructor. intros [].
Defined.

(** The goblin of the examples as the search reports it. *)
Example searchMonsterDrops_example :
  option_map MonsterTools.mp_monsters
    (MonsterTools.searchMonsterDrops (buildOsrsBoxIndexes 0 [Examples.goblin])
       "GOB" 1 10)
  = Some [MonsterTools.mkMonsterResult 3029 "Goblin" 2 5
            "https://oldschool.runescape.wiki/w/Goblin" 1
            [MonsterTools.mkFormattedDrop 526 "Bones" "1" (Num.ofZ 1)
               "Always" "100.0000%" false]].
Proof. vm_compute. reflexivity. Qed.

End OsrsBoxMoreProperties.

(* ================================================================== *)
(** * Further properties of truncation and section filtering *)
(* ================================================================== *)

Module TruncateMoreFacts.
Import Js Truncate TruncateSpec.

Lemma length_append (a b : string) :
  String.length (a ++ b) = (String.length a + String.length b)%nat.
Proof. induction a as [|c r IH]; [reflexivity|]. cbn. now rewrite IH. Qed.

Lemma length_rev_acc s : forall acc,
  String.length (rev_acc s acc) = (String.length s + String.length acc)%nat.
Proof.
  induction s as [|c r IH]; intros acc; [reflexivity|].
  cbn [rev_acc]. rewrite IH. cbn. lia.
Qed.

Lemma length_rev s : String.length (rev s) = String.length s.
Proof. unfold rev. rewrite length_rev_acc. cbn. lia. Qed.

Lemma length_dropWhile p s :
  (String.length (dropWhile p s) <= String.length s)%nat.
Proof.
  induction s as [|c r IH]; [reflexivity|].
  cbn [dropWhile]. destruct (p c); cbn; lia.
Qed.

Lemma length_trim s : (String.length (trim s) <= String.length s)%nat.
Proof.
  unfold trim, trimEnd, trimStart. rewrite length_rev.
  etransitivity; [apply length_dropWhile|]. rewrite length_rev.
  apply length_dropWhile.
Qed.

Lemma length_take n : forall s, (String.length (take n s) <= n)%nat.
Proof.
  induction n as [|n IH]; intros [|c r]; cbn; try lia.
  specialize (IH r). lia.
Qed.

(** The loop over the headings keeps a match at or before the target. *)
Lemma lastHeading_bound ms t : forall acc i g,
  lastHeading ms t acc = Some (i, g) ->
  acc = Some (i, g) \/ (i <= t)%nat.
Proof.
  induction ms as [|[i0 g0] r IH]; intros acc i g H; [now left|].
  cbn [lastHeading] in H. apply IH in H as [H|H]; [|now right].
  destruct (i0 <=? t)%nat eqn:E; [|now left].
  injection H as -> _. right. now apply Nat.leb_le.
Qed.

Lemma lastIndexOf_from_bound p s : forall i bound last k,
  lastIndexOf_from p s i bound last = Some k ->
  last = Some k \/ (k <= bound)%nat.
Proof.
  induction s as [|c r IH]; intros i bound last k; cbn [lastIndexOf_from].
  - destruct ((i <=? bound)%nat && startsWith p "") eqn:E; [|now left].
    intros [= <-]. right. apply andb_true_iff in E as [E _].
    now apply Nat.leb_le.
  - intros H. apply IH in H as [H|H]; [|now right].
    destruct ((i <=? bound)%nat && startsWith p (String c r)) eqn:E; [|now left].
    injection H as <-. right. apply andb_true_iff in E as [E _].
    now apply Nat.leb_le.
Qed.

End TruncateMoreFacts.

Module TruncateMoreProperties.
Import Js Truncate TruncateSpec TruncateMoreFacts.

(** X21.  The result of a truncation keeps within the maximum length
    whenever that is at least the 111 characters of the trimmed notice:
    what is kept is a trimmed prefix of the content, cut at or before
    [maxLength - 113], with the notice of 113 characters appended.  For a
    smaller maximum length, longer content is replaced by the notice
    alone, which is then longer than the maximum. *)
Theorem truncateContent_keeps_within_the_maximum (content : string) (maxLength : Z) :
  ((111 <= maxLength)%Z ->
   (Z.of_nat (String.length (Truncate.content (truncateContent content maxLength)))
    <= maxLength)%Z) /\
  ((113 < maxLength)%Z -> (maxLength < Z.of_nat (String.length content))%Z ->
   exists cutPoint,
     (Z.of_nat cutPoint <= maxLength - 113)%Z /\
     Truncate.content (truncateContent content maxLength)
     = trim (take cutPoint content) ++ truncationMsg) /\
  ((maxLength < 111)%Z -> (maxLength < Z.of_nat (String.length content))%Z ->
   String.length (Truncate.content (truncateContent content maxLength)) = 111%nat).
Proof.
  assert (Hmsg : String.length truncationMsg = 113%nat) by reflexivity.
  assert (Hcut : forall target,
    let found := lastHeading (headingMatches (take (target + 500) content))
                             target None in
    (match found with
     | Some (index, _) => index
     | None =>
         match lastIndexOf content (String LF (String LF EmptyString)) target with
         | Some lastParaBreak =>
             if (target <? 2 * lastParaBreak)%nat then lastParaBreak else target
         | None => target
         end
     end <= target)%nat).
  { intros target. cbv zeta.
    destruct (lastHeading (headingMatches (take (target + 500) content)) target None)
      as [[index g]|] eqn:Eh.
    - apply lastHeading_bound in Eh as [Eh|Eh]; [discriminate | exact Eh].
    - destruct (lastIndexOf content (String LF (String LF "")) target)
        as [k|] eqn:El; [|lia].
      unfold lastIndexOf in El. apply lastIndexOf_from_bound in El as [El|El];
        [discriminate|].
      destruct (target <? 2 * k)%nat; lia. }
  unfold truncateContent. rewrite Hmsg.
  destruct (Z.of_nat (String.length content) <=? maxLength)%Z eqn:Efit.
  - apply Z.leb_le in Efit. cbn [Truncate.content]. split; [intros _; exact Efit|].
    split; intros; lia.
  - apply Z.leb_gt in Efit. change (Z.of_nat 113) with 113%Z.
    destruct (maxLength - 113 <=? 0)%Z eqn:Eguard.
    + apply Z.leb_le in Eguard. cbn [Truncate.content].
      assert (Htrim : String.length (trim truncationMsg) = 111%nat) by reflexivity.
      rewrite Htrim. split; [intros; lia|]. split; [intros; lia | reflexivity].
    + apply Z.leb_gt in Eguard. cbn [Truncate.content].
      specialize (Hcut (Z.to_nat (maxLength - 113))). cbv zeta in Hcut.
      set (cutPoint := match lastHeading _ _ _ with
                       | Some (index, _) => index
                       | None => _
                       end) in *.
      split; [|split].
      * intros _. rewrite length_append, Hmsg.
        pose proof (length_trim (take cutPoint content)).
        pose proof (length_take cutPoint content). lia.
      * intros _ _. exists cutPoint. split; [lia | reflexivity].
      * intros; lia.
Qed.

Lemma truncateContent_keeps_within_the_maximum_witness :
  ((111 <= 400)%Z ->
   (Z.of_nat (String.length
                (Truncate.content (truncateContent Examples.twoHeadings 400)))
    <= 400)%Z) /\
  ((113 < 400)%Z -> (400 < Z.of_nat (String.length Examples.twoHeadings))%Z ->
   exists cutPoint,
     (Z.of_nat cutPoint <= 400 - 113)%Z /\
     Truncate.content (truncateContent Examples.twoHeadings 400)
     = trim (take cutPoint Examples.twoHeadings) ++ truncationMsg) /\
  ((400 < 111)%Z -> (400 < Z.of_nat (String.length Examples.twoHeadings))%Z ->
   String.length (Truncate.content (truncateContent Examples.twoHeadings 400))
   = 111%nat).
Proof.
  apply (@truncateContent_keeps_within_the_maximum Examples.twoHeadings 400).
Defined.

End TruncateMoreProperties.

Module SectionsFacts.
Import Js Spec Truncate Sections SectionsSpec TruncateMoreFacts.


Lemma hash_not_space c : isHash c = true -> isSpace c = false.
Proof. unfold isHash. intros H. apply Ascii.eqb_eq in H. now subst c. Qed.





















End SectionsFacts.

Module SectionsProperties.
Import Js Spec Truncate Sections SectionsSpec SectionsFacts.



(** Two sections asked for by parts of their titles, and a title no
    section has. *)
Example extractSections_examples :
  extractSections Fixtures.whipPage ["SPECIAL"; "drop"]
  = "### Special attack" ++ Examples.nl ++ "Energy Drain." ++ Examples.nl
    ++ Examples.nl ++ "## Drop sources" ++ Examples.nl ++ "Abyssal demon." /\
  extractSections Fixtures.whipPage ["zzz"]
  = "*[No sections matching: zzz]*" ++ Examples.nl ++ Examples.nl
    ++ "Available sections:" ++ Examples.nl ++ "- Combat" ++ Examples.nl
    ++ "- Special attack" ++ Examples.nl ++ "- Drop sources".
Proof. split; vm_compute; reflexivity. Qed.

End SectionsProperties.

(* ================================================================== *)
(** * Further properties of the drop table extraction *)
(* ================================================================== *)

Module DropTableMoreFacts.
Import Js DropTable DropTableSpec DropTableMoreSpec.

(** A percentage is never the empty string. *)
Lemma rarityToPercent_truthy r p :
  Rarity.rarityToPercent r = Some p -> truthy p = true.
Proof.
  assert (Hp : forall s, truthy (s ++ "%") = true)
    by (intros s; destruct s; reflexivity).
  unfold Rarity.rarityToPercent.
  repeat match goal with
         | |- context [if ?c then _ else _] => destruct c
         | |- context [match ?o with Some _ => _ | None => _ end] => destruct o
         | |- context [let '(_, _) := ?x in _] => destruct x
         end;
    intros H; try discriminate H; injection H as <-;
    try reflexivity; apply Hp.
Qed.

Lemma parseRow_valid cols row e : parseRow cols row = Some e -> ValidEntry e.
Proof.
  unfold parseRow. destruct cols as [[itemColIdx quantityColIdx] rarityColIdx].
  cbv zeta. destruct (_ <? 3)%nat; [discriminate|].
  match goal with
  | |- (if negb (truthy ?i) || String.eqb ?i "Nothing" || String.eqb ?i "N/A"
        then _ else _) = _ -> _ =>
      set (itemName := i)
  end.
  match goal with
  | |- (if _ then _ else if negb (truthy ?r) then _ else _) = _ -> _ =>
      set (rarity0 := r)
  end.
  destruct (negb (truthy itemName) || String.eqb itemName "Nothing"
            || String.eqb itemName "N/A") eqn:Ei; [discriminate|].
  destruct (negb (truthy rarity0)) eqn:Er; [discriminate|].
  intros [= <-]. unfold ValidEntry.
  cbn [item quantity rarity rarityPercent].
  apply orb_false_iff in Ei as [Ei Ena]. apply orb_false_iff in Ei as [Et En].
  apply negb_false_iff in Et. apply negb_false_iff in Er.
  apply String.eqb_neq in En, Ena.
  repeat split; try assumption.
  - match goal with |- truthy (if truthy ?q then _ else _) = true =>
      destruct (truthy q) eqn:Eq; [exact Eq | reflexivity] end.
  - destruct (Rarity.rarityToPercent rarity0) as [p|] eqn:Ep; [|reflexivity].
    now rewrite (@rarityToPercent_truthy rarity0 p Ep).
Qed.

Lemma filterMap_In {A B : Type} (f : A -> option B) l y :
  In y (filterMap f l) -> exists x, In x l /\ f x = Some y.
Proof.
  induction l as [|x r IH]; [intros []|].
  cbn [filterMap]. destruct (f x) as [y'|] eqn:E.
  - intros [<-|Hin].
    + exists x. split; [now left | exact E].
    + destruct (IH Hin) as [x' [H1 H2]]. exists x'. split; [now right | exact H2].
  - intros Hin. destruct (IH Hin) as [x' [H1 H2]].
    exists x'. split; [now right | exact H2].
Qed.

Lemma dropsOf_valid table e : In e (dropsOf table) -> ValidEntry e.
Proof.
  unfold dropsOf. intros H. apply filterMap_In in H as [row [_ H]].
  now apply parseRow_valid in H.
Qed.

Lemma addDrops_categories cc ds secs x :
  In x (List.map category (addDrops cc ds secs)) ->
  x = cc \/ In x (List.map category secs).
Proof.
  induction secs as [|s r IH]; cbn [addDrops].
  - intros [<-|[]]. now left.
  - destruct (String.eqb (category s) cc) eqn:E; cbn [List.map category].
    + intros H. now right.
    + intros [<-|H]; [right; now left|].
      destruct (IH H) as [->|H']; [now left | right; now right].
Qed.

Lemma addDrops_wellFormed cc ds secs :
  ds <> [] -> (forall e, In e ds -> ValidEntry e) ->
  WellFormed secs -> WellFormed (addDrops cc ds secs).
Proof.
  intros Hne Hds. induction secs as [|s r IH]; intros [Hnd Hall]; cbn [addDrops].
  - split; [repeat constructor; intros []|].
    intros s [<-|[]]. cbn [drops]. now split.
  - cbn [List.map] in Hnd. apply NoDup_cons_iff in Hnd as [Hnotin Hnd].
    destruct (String.eqb (category s) cc) eqn:E.
    + split; [cbn [List.map category]; now constructor|].
      intros s' [<-|Hin]; [|apply Hall; now right].
      cbn [drops]. destruct (Hall s (or_introl eq_refl)) as [Hs Hv]. split.
      * destruct (drops s); [contradiction | discriminate].
      * intros e He. apply in_app_or in He as [He|He]; [now apply Hv | now apply Hds].
    + destruct IH as [Hnd' Hall'].
      { split; [exact Hnd|]. intros s' Hin. apply Hall. now right. }
      split.
      * cbn [List.map]. constructor; [|exact Hnd'].
        intros Hin. apply addDrops_categories in Hin as [Heq|Hin];
          [|contradiction].
        apply String.eqb_neq in E. congruence.
      * intros s' [<-|Hin]; [apply Hall; now left | now apply Hall'].
Qed.

Lemma addDrops_nonempty cc ds secs : addDrops cc ds secs <> [].
Proof.
  destruct secs as [|s r]; cbn [addDrops]; [discriminate|].
  destruct (String.eqb (category s) cc); discriminate.
Qed.

Section Walk.
Variable walk : list node -> option node.

Lemma eachTable_wellFormed tables : forall cc secs,
  WellFormed secs -> WellFormed (eachTable walk tables cc secs).
Proof.
  induction tables as [|[prevs table] rest IH]; intros cc secs H; [exact H|].
  cbn [eachTable]. destruct (negb (qualifies table)); [now apply IH|].
  apply IH. destruct (0 <? List.length (dropsOf table))%nat eqn:E; [|exact H].
  apply addDrops_wellFormed; [| |exact H].
  - apply Nat.ltb_lt in E. destruct (dropsOf table); [cbn in E; lia | discriminate].
  - intros e. apply dropsOf_valid.
Qed.

Lemma eachTable_keeps tables : forall cc secs,
  secs <> [] -> eachTable walk tables cc secs <> [].
Proof.
  induction tables as [|[prevs table] rest IH]; intros cc secs H; [exact H|].
  cbn [eachTable]. destruct (negb (qualifies table)); [now apply IH|].
  apply IH. destruct (0 <? List.length (dropsOf table))%nat; [|exact H].
  apply addDrops_nonempty.
Qed.

Lemma eachTable_empty tables : forall cc,
  eachTable walk tables cc [] = [] <->
  forall prevs table, In (prevs, table) tables -> qualifies table = true ->
                      dropsOf table = [].
Proof.
  induction tables as [|[prevs table] rest IH]; intros cc.
  - split; [intros _ ? ? [] | reflexivity].
  - cbn [eachTable]. destruct (qualifies table) eqn:Eq; cbn [negb].
    + destruct (dropsOf table) as [|d ds] eqn:Ed; cbn [List.length Nat.ltb Nat.leb].
      * rewrite IH. split.
        -- intros H p t [[= <- <-]|Hin] Hq; [exact Ed | now apply (H p t)].
        -- intros H p t Hin. apply (H p t). now right.
      * split.
        -- intros H. exfalso. revert H. apply eachTable_keeps.
           apply addDrops_nonempty.
        -- intros H. specialize (H prevs table (or_introl eq_refl) Eq).
           congruence.
    + rewrite IH. split.
      * intros H p t [[= <- <-]|Hin] Hq; [congruence | now apply (H p t)].
      * intros H p t Hin. apply (H p t). now right.
Qed.

End Walk.

End DropTableMoreFacts.

Module DropTableMoreProperties.
Import Js DropTable DropTableSpec DropTableMoreSpec DropTableMoreFacts.

(** X23.  What [extractDropTable] returns is well formed, in both
    snapshots: no two sections have the same category, no section is
    without drops, and every entry has an item name other than "Nothing"
    and "N/A", a rarity, a quantity ("1" where the table gives none) and
    the percentage [rarityToPercent] gives for its rarity.  The result is
    empty exactly when no table with an item and a rarity header has a
    row that yields an entry. *)
Theorem extractDropTable_well_formed document :
  WellFormed (extractDropTable document) /\
  WellFormed (extractDropTable_nearest document) /\
  (extractDropTable document = [] <->
   forall prevs table,
     In (prevs, table) (selectTables document) -> qualifies table = true ->
     dropsOf table = []) /\
  (extractDropTable_nearest document = [] <-> extractDropTable document = []).
Proof.
  assert (H0 : WellFormed []).
  { split; [constructor | intros s []]. }
  unfold extractDropTable, extractDropTable_nearest, extractDropTableWith.
  split; [now apply eachTable_wellFormed|].
  split; [now apply eachTable_wellFormed|].
  split; [apply eachTable_empty|].
  now rewrite !eachTable_empty.
Qed.

End DropTableMoreProperties.

(* ================================================================== *)
(** * Further properties of the rarity conversion and of the cache keys *)
(* ================================================================== *)

Module RarityMoreFacts.
Import Js Spec Num NumFmt Rarity RarityMoreSpec.

Lemma fractionAt_shape s N D :
  fractionAt s = Some (N, D) -> FractionIn s N D.
Proof.
  unfold fractionAt, FractionIn. intros H.
  pose proof (JsFacts.takeWhile_dropWhile isDigit s) as Hs.
  pose proof (JsFacts.takeWhile_all isDigit s) as HN.
  destruct (takeWhile isDigit s) as [|n0 nr] eqn:EN; [discriminate|].
  pose proof (JsFacts.takeWhile_dropWhile isSpace (dropWhile isDigit s)) as Hsp1.
  pose proof (JsFacts.takeWhile_all isSpace (dropWhile isDigit s)) as Hall1.
  destruct (dropWhile isSpace (dropWhile isDigit s)) as [|c r] eqn:Er;
    [discriminate|].
  destruct (Ascii.eqb_spec c "/") as [->|Hc].
  2:{ destruct c as [[] [] [] [] [] [] [] []]; try discriminate. now elim Hc. }
  pose proof (JsFacts.takeWhile_dropWhile isSpace r) as Hsp2.
  pose proof (JsFacts.takeWhile_all isSpace r) as Hall2.
  pose proof (JsFacts.takeWhile_dropWhile isDigitOrComma (dropWhile isSpace r)) as HD.
  pose proof (JsFacts.takeWhile_all isDigitOrComma (dropWhile isSpace r)) as HallD.
  destruct (takeWhile isDigitOrComma (dropWhile isSpace r)) as [|d0 dr] eqn:ED;
    [discriminate|].
  injection H as <- <-.
  exists "", (takeWhile isSpace (dropWhile isDigit s)), (takeWhile isSpace r),
         (dropWhile isDigitOrComma (dropWhile isSpace r)).
  repeat split; try assumption; try discriminate.
  cbn [append]. rewrite <- Hs at 1. cbn [append]. do 2 f_equal.
  rewrite <- Hsp1 at 1. f_equal. f_equal.
  rewrite <- Hsp2 at 1. f_equal.
  change (String d0 (dr ++ ?x)) with (String d0 dr ++ x).
  now rewrite HD.
Qed.

Lemma fractionMatch_shape N D : forall s,
  fractionMatch s = Some (N, D) -> FractionIn s N D.
Proof.
  induction s as [|c r IH]; cbn [fractionMatch].
  - destruct (fractionAt "") as [g|] eqn:E; [|discriminate].
    intros [= ->]. now apply fractionAt_shape.
  - destruct (fractionAt (String c r)) as [g|] eqn:E.
    + intros [= ->]. now apply fractionAt_shape.
    + intros H. destruct (IH H) as (before & sp1 & sp2 & after & -> & Hrest).
      exists (String c before), sp1, sp2, after. split; [reflexivity | exact Hrest].
Qed.

End RarityMoreFacts.

Module RarityMoreProperties.
Import Js Spec Num NumFmt Rarity RarityMoreSpec RarityMoreFacts.

(** X24.  [rarityToPercent] gives a percentage only for one of the five
    rarity terms (case and surrounding white space ignored) or for a text
    that holds a fraction N/D whose denominator, read without its commas,
    is greater than 0; every other text, a fraction over 0 included,
    gives [undefined].  A percentage it gives ends with the percent
    sign. *)
Theorem rarityToPercent_term_or_fraction rarity percent :
  rarityToPercent rarity = Some percent ->
  (exists body, percent = body ++ "%") /\
  (In (trim (toLowerCase rarity)) rarityTerms \/
   exists N D,
     fractionMatch rarity = Some (N, D) /\ FractionIn rarity N D /\
     gt (parseInt10 (removeCommas D)) (ofZ 0) = true).
Proof.
  unfold rarityToPercent, rarityTerms. cbv zeta.
  destruct (String.eqb_spec (trim (toLowerCase rarity)) "always") as [->|_].
  { intros [= <-]. split; [now exists "100" | left; cbn; tauto]. }
  destruct (String.eqb_spec (trim (toLowerCase rarity)) "common") as [->|_].
  { intros [= <-]. split; [now exists "~10-20" | left; cbn; tauto]. }
  destruct (String.eqb_spec (trim (toLowerCase rarity)) "uncommon") as [->|_].
  { intros [= <-]. split; [now exists "~5-10" | left; cbn; tauto]. }
  destruct (String.eqb_spec (trim (toLowerCase rarity)) "rare") as [->|_].
  { intros [= <-]. split; [now exists "~1-5" | left; cbn; tauto]. }
  destruct (String.eqb_spec (trim (toLowerCase rarity)) "very rare") as [->|_].
  { intros [= <-]. split; [now exists "<1" | left; cbn; tauto]. }
  destruct (fractionMatch rarity) as [[N D]|] eqn:EF; [|discriminate].
  destruct (gt (parseInt10 (removeCommas D)) (ofZ 0)) eqn:EG; [|discriminate].
  intros H. split.
  - destruct (ge _ (ofZ 1)); [|destruct (ge _ (div (ofZ 1) (ofZ 100)))];
      injection H as <-; eexists; reflexivity.
  - right. exists N, D. repeat split; try assumption.
    now apply fractionMatch_shape.
Qed.

Lemma rarityToPercent_term_or_fraction_witness :
  (exists body, "0.781%" = body ++ "%") /\
  (In (trim (toLowerCase "1/128")) rarityTerms \/
   exists N D,
     fractionMatch "1/128" = Some (N, D) /\ FractionIn "1/128" N D /\
     gt (parseInt10 (removeCommas D)) (ofZ 0) = true).
Proof.
  apply (@rarityToPercent_term_or_fraction "1/128" "0.781%").
  vm_compute. reflexivity.
Defined.

(** A fraction over 0 and a text without fraction have no percentage. *)
Example rarityToPercent_undefined :
  rarityToPercent "1/0" = None /\ rarityToPercent "1 in 128" = None /\
  rarityToPercent " Very Rare " = Some "<1%".
Proof. vm_compute. repeat split. Qed.

End RarityMoreProperties.

Module WikiKeyFacts.
Import Js Spec WikiCache WikiCacheMoreSpec.

(** A text is cut at the first occurrence of a code unit in one way. *)
Lemma lacks_split c : forall a a' r r',
  lacks c a -> lacks c a' ->
  (r = EmptyString \/ exists m, r = String c m) ->
  (r' = EmptyString \/ exists m, r' = String c m) ->
  a ++ r = a' ++ r' -> a = a' /\ r = r'.
Proof.
  unfold lacks.
  induction a as [|x a IH]; intros [|y a'] r r' Ha Ha' Hr Hr' E;
    cbn [append allChars] in *.
  - now split.
  - destruct Hr as [->|[m ->]]; [discriminate|].
    injection E as <- _. rewrite Ascii.eqb_refl in Ha'. discriminate.
  - destruct Hr' as [->|[m ->]]; [discriminate|].
    injection E as -> _. rewrite Ascii.eqb_refl in Ha. discriminate.
  - injection E as -> E.
    apply andb_true_iff in Ha as [_ Ha]. apply andb_true_iff in Ha' as [_ Ha'].
    destruct (IH a' r r' Ha Ha' Hr Hr' E) as [-> ->]. now split.
Qed.

Lemma join_cons sep p rest :
  join sep (p :: rest)
  = p ++ match rest with [] => EmptyString | _ => sep ++ join sep rest end.
Proof.
  destruct rest; cbn [join]; [now rewrite JsFacts.append_nil_r | reflexivity].
Qed.

(** Joining with [&] loses nothing when no part is empty or holds [&]. *)
Lemma join_injective : forall l l',
  (forall x, In x l -> x <> EmptyString /\ lacks "&" x) ->
  (forall x, In x l' -> x <> EmptyString /\ lacks "&" x) ->
  join "&" l = join "&" l' -> l = l'.
Proof.
  induction l as [|p r IH]; intros [|p' r'] Hl Hl' E.
  - reflexivity.
  - rewrite join_cons in E. cbn [join] in E.
    destruct (Hl' p' (or_introl eq_refl)) as [Hne _].
    destruct p'; [now elim Hne | discriminate].
  - rewrite join_cons in E. cbn [join] in E.
    destruct (Hl p (or_introl eq_refl)) as [Hne _].
    destruct p; [now elim Hne | discriminate].
  - rewrite !join_cons in E.
    destruct (Hl p (or_introl eq_refl)) as [_ Hp].
    destruct (Hl' p' (or_introl eq_refl)) as [_ Hp'].
    apply (@lacks_split "&" p p' _ _ Hp Hp') in E.
    + destruct E as [-> E]. f_equal.
      destruct r as [|q r]; destruct r' as [|q' r']; try discriminate;
        [reflexivity|].
      apply IH.
      * intros x Hx. apply Hl. now right.
      * intros x Hx. apply Hl'. now right.
      * cbn [append] in E. now injection E.
    + destruct r; [now left | right; eexists; reflexivity].
    + destruct r'; [now left | right; eexists; reflexivity].
Qed.

(** The texts [name=value] give their names and values back. *)
Lemma pairs_injective params params' : forall l l',
  (forall k, In k l -> lacks "=" k) -> (forall k, In k l' -> lacks "=" k) ->
  List.map (fun key => key ++ "=" ++ paramValue key params) l
  = List.map (fun key => key ++ "=" ++ paramValue key params') l' ->
  l = l' /\ forall k, In k l -> paramValue k params = paramValue k params'.
Proof.
  induction l as [|k r IH]; intros [|k' r'] Hl Hl' E; cbn [List.map] in E;
    try discriminate.
  - split; [reflexivity | intros k []].
  - injection E as E1 E2.
    apply (@lacks_split "=" k k' _ _ (Hl k (or_introl eq_refl))
             (Hl' k' (or_introl eq_refl))) in E1.
    2,3: right; eexists; reflexivity.
    destruct E1 as [-> E1]. cbn [append] in E1. injection E1 as E1.
    destruct (IH r') as [-> Hv]; try assumption.
    + intros x Hx. apply Hl. now right.
    + intros x Hx. apply Hl'. now right.
    + split; [reflexivity|]. intros x [<-|Hx]; [exact E1 | now apply Hv].
Qed.

Lemma insertSorted_In x k : forall l,
  In x (insertSorted k l) <-> x = k \/ In x l.
Proof.
  induction l as [|h r IH]; cbn [insertSorted].
  - cbn. intuition congruence.
  - destruct (String.leb k h); cbn [In]; [intuition congruence|].
    rewrite IH. intuition congruence.
Qed.

Lemma sortStrings_In x : forall l, In x (sortStrings l) <-> In x l.
Proof.
  unfold sortStrings. induction l as [|h r IH]; cbn [fold_right]; [reflexivity|].
  rewrite insertSorted_In, IH. cbn [In]. intuition congruence.
Qed.

(** The parameters of a plain request, as the key lists them. *)
Lemma Plain_parts action params :
  Plain action params ->
  (forall k, In k (sortStrings (List.map fst params)) -> lacks "=" k) /\
  (forall x,
     In x (List.map (fun key => key ++ "=" ++ paramValue key params)
                    (sortStrings (List.map fst params))) ->
     x <> EmptyString /\ lacks "&" x).
Proof.
  intros (_ & Hnd & Hp).
  assert (Hk : forall k, In k (sortStrings (List.map fst params)) ->
                 exists v, In (k, v) params /\ paramValue k params = v).
  { intros k Hin. apply (proj1 (@sortStrings_In _ _)) in Hin.
    apply in_map_iff in Hin as [[k0 v] [Hk0 Hin]]. cbn in Hk0. subst k0.
    exists v. split; [exact Hin|].
    now apply WikiCacheMoreFacts.paramValue_In. }
  split.
  - intros k Hin. destruct (Hk k Hin) as (v & Hin' & _).
    now destruct (Hp k v Hin').
  - intros x Hin. apply in_map_iff in Hin as [k [<- Hin]].
    destruct (Hk k Hin) as (v & Hin' & ->).
    destruct (Hp k v Hin') as (_ & Hka & Hva). split.
    + destruct k; discriminate.
    + unfold lacks in *.
      rewrite !FileToolsFacts.allChars_app, Hka, Hva. reflexivity.
Qed.

End WikiKeyFacts.

Module WikiKeyProperties.
Import Js Spec WikiCache WikiCacheMoreSpec WikiKeyFacts.

(** X25.  Requests that differ have different cache keys: when two
    requests have the same key, and neither has a colon in its action, a
    parameter named twice, [=] or [&] in a parameter name or [&] in a
    value, then they have the same action and the same parameters with
    the same values. *)
Theorem getWikiCacheKey_distinguishes_requests action params action' params' :
  Plain action params -> Plain action' params' ->
  getWikiCacheKey action params = getWikiCacheKey action' params' ->
  action = action' /\
  forall k v, In (k, v) params <-> In (k, v) params'.
Proof.
  intros HP HP' E.
  destruct (Plain_parts HP) as [Hk Hx].
  destruct (Plain_parts HP') as [Hk' Hx'].
  destruct HP as (Ha & Hnd & Hp). destruct HP' as (Ha' & Hnd' & Hp').
  unfold getWikiCacheKey in E.
  apply (@lacks_split ":" action action' _ _ Ha Ha') in E.
  2,3: right; eexists; reflexivity.
  destruct E as [-> E]. split; [reflexivity|].
  cbn [append] in E. injection E as E.
  apply join_injective in E; try assumption.
  apply pairs_injective in E; try assumption.
  destruct E as [Hkeys Hvals].
  assert (Hone : forall p p' k v,
            NoDup (List.map fst p) -> NoDup (List.map fst p') ->
            (forall x, In x (List.map fst p) -> In x (List.map fst p')) ->
            (forall x, In x (List.map fst p) -> paramValue x p = paramValue x p') ->
            In (k, v) p -> In (k, v) p').
  { intros p p' k v Hn Hn' Hsub Hval Hin.
    assert (Hkin : In k (List.map fst p)).
    { apply in_map_iff. now exists (k, v). }
    pose proof (Hsub k Hkin) as Hkin'.
    apply in_map_iff in Hkin' as [[k0 v'] [Hk0 Hin']]. cbn in Hk0. subst k0.
    pose proof (Hval k Hkin) as Hv.
    rewrite (@WikiCacheMoreFacts.paramValue_In k v p Hn Hin) in Hv.
    rewrite (@WikiCacheMoreFacts.paramValue_In k v' p' Hn' Hin') in Hv.
    now subst v'. }
  intros k v. split; apply Hone; try assumption.
  - intros x Hin. apply (proj1 (@sortStrings_In _ _)). rewrite <- Hkeys.
    now apply (proj2 (@sortStrings_In _ _)).
  - intros x Hin. apply Hvals. now apply (proj2 (@sortStrings_In _ _)).
  - intros x Hin. apply (proj1 (@sortStrings_In _ _)). rewrite Hkeys.
    now apply (proj2 (@sortStrings_In _ _)).
  - intros x Hin. symmetry. apply Hvals. rewrite Hkeys.
    now apply (proj2 (@sortStrings_In _ _)).
Qed.

Lemma getWikiCacheKey_distinguishes_requests_witness :
  "wiki_search" = "wiki_search" /\
  forall k v,
    In (k, v) [("srsearch", "whip"); ("list", "search")] <->
    In (k, v) [("list", "search"); ("srsearch", "whip")].
Proof.
  apply (@getWikiCacheKey_distinguishes_requests
           "wiki_search" [("srsearch", "whip"); ("list", "search")]
           "wiki_search" [("list", "search"); ("srsearch", "whip")]).
  - split; [reflexivity|]. split.
    + repeat constructor; cbn; intuition discriminate.
    + intros k v [[= <- <-]|[[= <- <-]|[]]]; repeat split.
  - split; [reflexivity|]. split.
    + repeat constructor; cbn; intuition discriminate.
    + intros k v [[= <- <-]|[[= <- <-]|[]]]; repeat split.
  - reflexivity.
Defined.

(** A value with [&] and [=] in it can stand for a second parameter. *)
Example getWikiCacheKey_collision :
  getWikiCacheKey "wiki_search" [("list", "search&srsearch=whip")]
  = getWikiCacheKey "wiki_search" [("list", "search"); ("srsearch", "whip")].
Proof. reflexivity. Qed.

End WikiKeyProperties.

(* ================================================================== *)
(** * Properties of the sound ID update *)
(* ================================================================== *)

Module SoundIdsFacts.
Import Js Spec Num NumFmt DropTable FileStore FileStoreSpec FileToolsSpec.
Import SoundIds SoundIdsSpec.

(** ** Integers as text *)

Lemma digitVal_digitChar d : (0 <= d < 10)%Z -> digitVal (digitChar d) = d.
Proof.
  intros H. assert (Hd : (d = 0 \/ d = 1 \/ d = 2 \/ d = 3 \/ d = 4 \/ d = 5
                          \/ d = 6 \/ d = 7 \/ d = 8 \/ d = 9)%Z) by lia.
  repeat (destruct Hd as [->|Hd]; [reflexivity|]). subst. reflexivity.
Qed.

Lemma digitsValue_acc_shift s : forall a,
  digitsValue_acc s a
  = (a * 10 ^ Z.of_nat (String.length s) + digitsValue_acc s 0)%Z.
Proof.
  induction s as [|c r IH]; intros a.
  - cbn. lia.
  - cbn [digitsValue_acc String.length].
    rewrite (IH (10 * a + digitVal c)%Z), (IH (10 * 0 + digitVal c)%Z).
    rewrite Nat2Z.inj_succ, Z.pow_succ_r by lia. lia.
Qed.

Lemma digitsValue_decimal_fuel fuel : forall z acc,
  (0 <= z < 2 ^ Z.of_nat fuel)%Z ->
  digitsValue (decimal_fuel fuel z acc)
  = (z * 10 ^ Z.of_nat (String.length acc) + digitsValue acc)%Z.
Proof.
  unfold digitsValue.
  induction fuel as [|fuel IH]; intros z acc Hz; cbn [decimal_fuel].
  - cbn in Hz. assert (z = 0%Z) by lia. subst. lia.
  - assert (Hd : digitsValue_acc (String (digitChar (z mod 10)) acc) 0
                 = (z mod 10 * 10 ^ Z.of_nat (String.length acc)
                    + digitsValue_acc acc 0)%Z).
    { cbn [digitsValue_acc]. rewrite digitsValue_acc_shift.
      rewrite digitVal_digitChar by (apply Z.mod_pos_bound; lia). lia. }
    destruct (Z.ltb_spec z 10) as [Hlt|Hge].
    + rewrite Hd, Z.mod_small by lia. reflexivity.
    + rewrite IH.
      * rewrite Hd. cbn [String.length].
        rewrite Nat2Z.inj_succ, Z.pow_succ_r by lia.
        pose proof (Z.div_mod z 10 ltac:(lia)) as Hdm. nia.
      * rewrite Nat2Z.inj_succ, Z.pow_succ_r in Hz by lia.
        split; [apply Z.div_pos; lia|].
        apply Z.div_lt_upper_bound; lia.
Qed.

(** The digits of an integer denote it. *)
Lemma digitsValue_decimal z : (0 <= z)%Z -> digitsValue (decimal z) = z.
Proof.
  intros Hz. unfold decimal. rewrite digitsValue_decimal_fuel.
  - cbn. lia.
  - split; [exact Hz|].
    destruct (Z.eq_dec z 0) as [->|Hne]; [reflexivity|].
    rewrite Nat2Z.inj_succ, Z2Nat.id by apply Z.log2_nonneg.
    apply Z.log2_spec. lia.
Qed.

(** An integer below 2^53 is written with all its digits. *)
Lemma integerToString_safe z :
  (0 <= z < 2 ^ 53)%Z -> integerToString (ofZ z) = decimal z.
Proof.
  intros Hz. destruct (Z.eq_dec z 0) as [->|Hne]; [reflexivity|].
  destruct (@NumFacts.ofZ_exact z ltac:(lia)) as (m & e & -> & He & Hm).
  unfold integerToString.
  assert (HX : (if (0 <=? e)%Z then (Z.pos m * 2 ^ e)%Z
                else (Z.pos m / 2 ^ (- e))%Z) = z).
  { destruct (Z.leb_spec 0 e) as [H0|H0].
    - assert (e = 0%Z) by lia. subst e. cbn in Hm. lia.
    - rewrite Hm. apply Z.div_mul. apply Z.pow_nonzero; lia. }
  rewrite HX. cbn [append].
  destruct (Z.ltb_spec z (2 ^ 53)); [reflexivity | lia].
Qed.

(** ** The parser *)

Lemma underscoreSpaces_notSpace s : forall inSpace,
  allChars notSpace (underscoreSpaces inSpace s) = true.
Proof.
  induction s as [|c r IH]; intros inSpace; cbn [underscoreSpaces];
    [reflexivity|].
  destruct (isSpace c) eqn:E.
  - destruct inSpace; [apply IH|]. cbn [allChars]. now rewrite IH.
  - cbn [allChars]. unfold notSpace at 1. now rewrite E, IH.
Qed.

Lemma setHas_canon x y s : canonKey x = canonKey y -> setHas x s = setHas y s.
Proof. intros E. unfold setHas. now rewrite E. Qed.

Lemma setHas_add x y s :
  setHas y (setAdd x s) = true <-> canonKey y = canonKey x \/ setHas y s = true.
Proof.
  unfold setAdd. destruct (setHas x s) eqn:Ex.
  - split; [now right|]. intros [E|H]; [|exact H].
    now rewrite (@setHas_canon y x s E).
  - unfold setHas. rewrite existsb_app, orb_true_iff. cbn [existsb].
    rewrite orb_false_r.
    destruct (eq_dec (canonKey y) (canonKey x)) as [E|E]; intuition congruence.
Qed.

Lemma NoDup_snoc {A : Type} (l : list A) a :
  NoDup l -> ~ In a l -> NoDup (l ++ [a]).
Proof.
  intros Hl Ha. apply NoDup_app; [exact Hl | repeat constructor; intros [] |].
  intros x Hx [<-|[]]. now apply Ha.
Qed.

Lemma parseSoundRow_kept idColIdx soundColIdx st row :
  Kept st -> Kept (parseSoundRow idColIdx soundColIdx st row).
Proof.
  intros [Hnd Hall]. unfold parseSoundRow. cbv zeta.
  destruct (List.length (find (hasTag "td") row) <? 2)%nat; [now split|].
  set (id := JsExtra.parseInt _).
  destruct (isNaN id) eqn:Enan; [now split|].
  destruct (setHas id (seenIds st)) eqn:Eseen; [now split|].
  set (soundName := underscoreSpaces false _).
  destruct (truthy soundName) eqn:Ename; cbn [negb]; [|now split].
  split; cbn [entries seenIds].
  - rewrite map_app. cbn [List.map]. apply NoDup_snoc; [exact Hnd|].
    intros Hin. apply in_map_iff in Hin as [e [He Hin]].
    destruct (Hall e Hin) as [_ Hseen].
    rewrite (@setHas_canon (sound_id e) id (seenIds st) He) in Hseen.
    congruence.
  - intros e Hin. apply in_app_iff in Hin as [Hin|[<-|[]]].
    + destruct (Hall e Hin) as [Hv Hseen]. split; [exact Hv|].
      apply setHas_add. now right.
    + cbn [sound_id sound_name]. split.
      * repeat split; [exact Enan | | apply underscoreSpaces_notSpace].
        fold soundName. destruct soundName; [discriminate | discriminate].
      * apply setHas_add. now left.
Qed.

Lemma fold_left_kept {A : Type} (f : ParseState -> A -> ParseState) :
  (forall st a, Kept st -> Kept (f st a)) ->
  forall l st, Kept st -> Kept (List.fold_left f l st).
Proof.
  intros Hf. induction l as [|a r IH]; intros st Hst; [exact Hst|].
  cbn [List.fold_left]. apply IH. now apply Hf.
Qed.

Lemma parseSoundTable_kept st table : Kept st -> Kept (parseSoundTable st table).
Proof.
  intros Hst. unfold parseSoundTable. cbv zeta.
  destruct (findIndex (String.eqb "id") _) as [idColIdx|]; [|exact Hst].
  destruct (findIndex (String.eqb "sound") _) as [soundColIdx|]; [|exact Hst].
  apply fold_left_kept; [|exact Hst].
  intros st' row. apply parseSoundRow_kept.
Qed.

Lemma insertEntry_Permutation e : forall l,
  Permutation.Permutation (e :: l) (insertEntry e l).
Proof.
  induction l as [|h r IH]; cbn [insertEntry]; [apply Permutation.Permutation_refl|].
  destruct (gt (compareIds e h) (ofZ 0)); [|apply Permutation.Permutation_refl].
  eapply Permutation.perm_trans; [apply Permutation.perm_swap|].
  now apply Permutation.perm_skip.
Qed.

(** Sorting keeps the entries. *)
Lemma sortEntries_Permutation : forall l,
  Permutation.Permutation l (sortEntries l).
Proof.
  unfold sortEntries. induction l as [|e r IH]; cbn [fold_right];
    [apply Permutation.perm_nil|].
  eapply Permutation.perm_trans; [|apply insertEntry_Permutation].
  now apply Permutation.perm_skip.
Qed.

Lemma parseSoundIdTables_kept document :
  NoDup (List.map (fun e => canonKey (sound_id e)) (parseSoundIdTables document)) /\
  forall e, In e (parseSoundIdTables document) -> ValidEntry e.
Proof.
  unfold parseSoundIdTables.
  set (st := List.fold_left parseSoundTable _ _).
  assert (Hst : Kept st).
  { apply fold_left_kept; [apply parseSoundTable_kept|].
    split; [constructor | intros e []]. }
  destruct Hst as [Hnd Hall].
  pose proof (sortEntries_Permutation (entries st)) as Hperm. split.
  - eapply Permutation.Permutation_NoDup; [|exact Hnd].
    now apply Permutation.Permutation_map.
  - intros e Hin. apply Hall.
    eapply Permutation.Permutation_in; [|exact Hin].
    now apply Permutation.Permutation_sym.
Qed.

(** ** The file written *)

Lemma allChars_impl (p q : ascii -> bool) s :
  (forall c, p c = true -> q c = true) ->
  allChars p s = true -> allChars q s = true.
Proof.
  intros Hpq. induction s as [|c r IH]; cbn [allChars]; [reflexivity|].
  intros H. apply andb_true_iff in H as [Hc Hr].
  now rewrite (Hpq c Hc), IH.
Qed.

Lemma digit_notSpace c : isDigit c = true -> notSpace c = true.
Proof.
  intros H. unfold notSpace. now rewrite (RarityFacts.digit_not_space c H).
Qed.

Lemma digit_notTab c : isDigit c = true -> notTab c = true.
Proof.
  intros H. unfold notTab.
  destruct (Ascii.eqb_spec c TAB) as [->|]; [discriminate | reflexivity].
Qed.

Lemma notSpace_lacks sep s :
  isSpace sep = true -> allChars notSpace s = true -> WikiCacheMoreSpec.lacks sep s.
Proof.
  intros Hsep. apply (@allChars_impl notSpace). intros c Hc.
  destruct (Ascii.eqb_spec c sep) as [->|_]; [|reflexivity].
  unfold notSpace in Hc. now rewrite Hsep in Hc.
Qed.

(** The line of an entry with a valid name and an ID below 2^53: the
    digits of the ID, a tab, the name; no line break in it. *)
Lemma entryLine_safe e z :
  ValidEntry e -> (0 <= z < 2 ^ 53)%Z -> sound_id e = ofZ z ->
  entryLine e = decimal z ++ String TAB (sound_name e) /\
  WikiCacheMoreSpec.lacks LF (entryLine e) /\
  WikiCacheMoreSpec.lacks CR (entryLine e).
Proof.
  intros (_ & _ & Hname) Hz Hid. unfold entryLine.
  rewrite Hid, integerToString_safe by exact Hz.
  pose proof (@allChars_impl isDigit notSpace (decimal z) digit_notSpace
                (RarityFacts.decimal_digits z)) as Hd.
  split; [reflexivity|].
  unfold WikiCacheMoreSpec.lacks.
  split; rewrite FileToolsFacts.allChars_app; apply andb_true_iff; split.
  - now apply (@notSpace_lacks LF).
  - cbn [allChars]. apply andb_true_iff. split; [reflexivity|].
    now apply (@notSpace_lacks LF).
  - now apply (@notSpace_lacks CR).
  - cbn [allChars]. apply andb_true_iff. split; [reflexivity|].
    now apply (@notSpace_lacks CR).
Qed.

Lemma splitChar_lacks sep rest : forall p,
  WikiCacheMoreSpec.lacks sep p ->
  splitChar sep (p ++ String sep rest) = p :: splitChar sep rest.
Proof.
  unfold WikiCacheMoreSpec.lacks.
  induction p as [|c r IH]; intros Hp; cbn [append splitChar allChars] in *.
  - now rewrite Ascii.eqb_refl.
  - apply andb_true_iff in Hp as [Hc Hr].
    destruct (Ascii.eqb c sep); [discriminate|]. now rewrite IH.
Qed.

Lemma splitChar_lacks_end sep : forall p,
  WikiCacheMoreSpec.lacks sep p -> splitChar sep p = [p].
Proof.
  unfold WikiCacheMoreSpec.lacks.
  induction p as [|c r IH]; intros Hp; cbn [splitChar allChars] in *;
    [reflexivity|].
  apply andb_true_iff in Hp as [Hc Hr].
  destruct (Ascii.eqb c sep); [discriminate|]. now rewrite IH.
Qed.

(** Lines without line break that were joined are split into themselves. *)
Lemma fileLines_join : forall ls,
  ls <> [] ->
  (forall l, In l ls ->
     WikiCacheMoreSpec.lacks LF l /\ WikiCacheMoreSpec.lacks CR l) ->
  fileLines (join (String LF EmptyString) ls) = ls.
Proof.
  assert (Hcr : forall s, WikiCacheMoreSpec.lacks CR s -> stripTrailingCR s = s).
  { unfold WikiCacheMoreSpec.lacks.
    induction s as [|c r IH]; intros Hs; [reflexivity|].
    cbn [allChars] in Hs. apply andb_true_iff in Hs as [Hc Hr].
    cbn [stripTrailingCR]. destruct r as [|d r'].
    - destruct (Ascii.eqb c CR); [discriminate | reflexivity].
    - now rewrite (IH Hr). }
  unfold fileLines.
  induction ls as [|p r IH]; intros Hne Hall; [now elim Hne|].
  destruct (Hall p (or_introl eq_refl)) as [Hlf Hc].
  destruct r as [|q r'].
  - cbn [join]. rewrite splitChar_lacks_end by exact Hlf.
    cbn [List.map]. now rewrite Hcr.
  - change (join (String LF EmptyString) (p :: q :: r'))
      with (p ++ String LF (join (String LF EmptyString) (q :: r'))).
    rewrite splitChar_lacks by exact Hlf. cbn [List.map].
    rewrite Hcr by exact Hc. f_equal. apply IH; [discriminate|].
    intros l Hl. apply Hall. now right.
Qed.

(** Rewriting a file and dropping what is cached of it keeps the caches
    in agreement with the files. *)
Lemma store_ok_rewritten fs st path content :
  store_ok fs st ->
  store_ok (writeFile path content fs)
           (mkStore (JsMap.delete path (fileCache st))
                    (JsMap.delete path (idIndexCache st))
                    (fileCacheHits st) (fileCacheMisses st)).
Proof.
  intros [Hfiles Hidx]. split; cbn [fileCache idIndexCache].
  - intros p e Hget. destruct (string_dec path p) as [->|Hne].
    + now rewrite JsMapFacts.get_delete_eq in Hget.
    + rewrite JsMapFacts.get_delete_neq in Hget by exact Hne.
      unfold writeFile. destruct (String.eqb_spec p path) as [->|_];
        [now elim Hne|]. now apply Hfiles.
  - intros p idx e Hgi Hgf. destruct (string_dec path p) as [->|Hne].
    + now rewrite JsMapFacts.get_delete_eq in Hgi.
    + rewrite JsMapFacts.get_delete_neq in Hgi by exact Hne.
      rewrite JsMapFacts.get_delete_neq in Hgf by exact Hne.
      now apply (Hidx p).
Qed.

(** A run that is not dry and finds 1,000 entries or more writes them. *)
Lemma updateSoundIdsFromWiki_written html path fs st :
  (1000 <= List.length (parseSoundIdTables html))%nat ->
  exists res,
    updateSoundIdsFromWiki (Ok (Some html)) None path false fs st
    = (Ok res,
       writeFile path
         (join (String LF EmptyString)
               (List.map entryLine (parseSoundIdTables html))) fs,
       mkStore (JsMap.delete path (fileCache st))
               (JsMap.delete path (idIndexCache st))
               (fileCacheHits st) (fileCacheMisses st)).
Proof.
  intros Hlen. unfold updateSoundIdsFromWiki. cbv zeta.
  destruct (parseSoundIdTables html) as [|first rest] eqn:E;
    [cbn in Hlen; lia|].
  destruct (Nat.ltb_spec (List.length (first :: rest)) 1000); [lia|].
  eexists. reflexivity.
Qed.

(** The line of an entry starts with its ID, and with no other. *)
Lemma entryLine_LineId e z k :
  ValidEntry e -> (0 <= z < 2 ^ 53)%Z -> sound_id e = ofZ z ->
  LineId (entryLine e) k <-> k = ofZ z.
Proof.
  intros Hv Hz Hid.
  destruct (@entryLine_safe e z Hv Hz Hid) as (-> & _ & _).
  assert (Hthis : LineId (decimal z ++ String TAB (sound_name e)) (ofZ z)).
  { exists (decimal z). split.
    - exists (String TAB (sound_name e)). repeat split.
      + apply RarityFacts.decimal_nonempty.
      + apply RarityFacts.decimal_digits.
      + intros c rest' [= <- _]. reflexivity.
    - destruct (@NumFacts.parseInt10_run (decimal z)
                  (RarityFacts.decimal_nonempty z) (RarityFacts.decimal_digits z))
        as (-> & _ & _).
      rewrite digitsValue_decimal by lia. reflexivity. }
  split.
  - intros Hk. apply FileStoreFacts.lineKey_iff in Hk, Hthis. congruence.
  - now intros ->.
Qed.

End SoundIdsFacts.

Module SoundIdsProperties.
Import Js Spec Num NumFmt DropTable FileStore FileStoreSpec FileToolsSpec.
Import SoundIds SoundIdsSpec SoundIdsFacts.

(** X26.  Whatever the page holds, the entries [parseSoundIdTables]
    returns have pairwise different IDs (0 and -0 count as one ID), no
    ID is [NaN], and every name is non-empty and holds no white space,
    so no tab and no line break. *)
Theorem parseSoundIdTables_distinct_valid document :
  NoDup (List.map (fun e => canonKey (sound_id e)) (parseSoundIdTables document)) /\
  forall e, In e (parseSoundIdTables document) ->
    isNaN (sound_id e) = false /\ sound_name e <> EmptyString /\
    allChars notSpace (sound_name e) = true /\
    ~ Occurs (String TAB EmptyString) (sound_name e) /\
    ~ Occurs (String LF EmptyString) (sound_name e).
Proof.
  destruct (parseSoundIdTables_kept document) as [Hnd Hall].
  split; [exact Hnd|]. intros e Hin.
  destruct (Hall e Hin) as (Hnan & Hne & Hsp).
  repeat split; try assumption.
  - intros (before & after & E). rewrite E in Hsp.
    rewrite !FileToolsFacts.allChars_app in Hsp. cbn in Hsp.
    rewrite andb_false_r in Hsp. discriminate.
  - intros (before & after & E). rewrite E in Hsp.
    rewrite !FileToolsFacts.allChars_app in Hsp. cbn in Hsp.
    rewrite andb_false_r in Hsp. discriminate.
Qed.

(** X27.  Provided the write of the file itself does not fail,
    [updateSoundIdsFromWiki] never touches a file other than the sound ID
    file, and that one only in a run that is not dry and returns a
    result: a failed request, a page without text, fewer than 1,000
    entries found and a dry run all leave the files and the caches as
    they are.  A result always reports 1,000 entries or more.  As the run
    that writes the file drops the cached lines and the cached index of
    it, caches that agreed with the files before the call agree with them
    after it. *)
Theorem updateSoundIdsFromWiki_guarded response path dryRun fs st :
  store_ok fs st ->
  let out := updateSoundIdsFromWiki response None path dryRun fs st in
  store_ok (snd (fst out)) (snd out) /\
  SameElsewhere path fs (snd (fst out)) /\
  (forall res, fst (fst out) = Ok res ->
     (1000 <= upd_entriesFound res)%nat /\ upd_dryRun res = dryRun /\
     (dryRun = false ->
      upd_entriesWritten res = Some (upd_entriesFound res) /\
      JsMap.get path (fileCache (snd out)) = None /\
      JsMap.get path (idIndexCache (snd out)) = None)) /\
  ((dryRun = true \/ exists message, fst (fst out) = Throw message) ->
   snd (fst out) = fs /\ snd out = st).
Proof.
  intros Hok. unfold updateSoundIdsFromWiki. cbv zeta.
  assert (Hthrow : forall message,
            let out := (@Throw UpdateSoundIdsResult message, fs, st) in
            store_ok (snd (fst out)) (snd out) /\
            SameElsewhere path fs (snd (fst out)) /\
            (forall res, fst (fst out) = Ok res ->
               (1000 <= upd_entriesFound res)%nat /\ upd_dryRun res = dryRun /\
               (dryRun = false ->
                upd_entriesWritten res = Some (upd_entriesFound res) /\
                JsMap.get path (fileCache (snd out)) = None /\
                JsMap.get path (idIndexCache (snd out)) = None)) /\
            ((dryRun = true \/ exists message, fst (fst out) = Throw message) ->
             snd (fst out) = fs /\ snd out = st)).
  { intros message. cbn [fst snd].
    split; [exact Hok|]. split; [now intros p _|].
    split; [intros res H; discriminate H | intros _; now split]. }
  destruct response as [[html|]|e]; [|apply Hthrow..].
  destruct (parseSoundIdTables html) as [|first rest] eqn:E; [apply Hthrow|].
  destruct (Nat.ltb_spec (List.length (first :: rest)) 1000) as [Hlt|Hge];
    [apply Hthrow|].
  destruct dryRun.
  { cbn [fst snd]. split; [exact Hok|]. split; [now intros p _|]. split.
    - intros res H. injection H as <-. cbn.
      split; [exact Hge|]. split; [reflexivity | discriminate].
    - intros _. now split. }
  cbn [fst snd].
  split; [now apply store_ok_rewritten|]. split.
  { intros p Hne. unfold writeFile.
    destruct (String.eqb_spec p path); [now elim Hne | reflexivity]. }
  split.
  - intros res H. injection H as <-. cbn.
    split; [exact Hge|]. split; [reflexivity|]. intros _.
    split; [reflexivity|]. split; apply JsMapFacts.get_delete_eq.
  - intros [Hdry|[message Hm]]; discriminate.
Qed.

Lemma updateSoundIdsFromWiki_guarded_witness :
  (* a page with 1,000 sounds: the file is written *)
  (exists res,
     fst (fst (updateSoundIdsFromWiki (Ok (Some (Fixtures.soundPage 1000))) None
                 "soundids.txt" false Examples.dataFiles emptyStore))
     = Ok res /\
     (1000 <= upd_entriesFound res)%nat /\
     upd_entriesWritten res = Some (upd_entriesFound res)) /\
  snd (fst (updateSoundIdsFromWiki (Ok (Some (Fixtures.soundPage 1000))) None
              "soundids.txt" false Examples.dataFiles emptyStore))
      "npctypes.txt"
  = Some Examples.npcFile /\
  (* a page with 3 sounds: nothing is written *)
  snd (fst (updateSoundIdsFromWiki (Ok (Some (Fixtures.soundPage 3))) None
              "soundids.txt" false Examples.dataFiles emptyStore))
  = Examples.dataFiles /\
  (* a dry run on the page with 1,000 sounds: nothing is written *)
  snd (fst (updateSoundIdsFromWiki (Ok (Some (Fixtures.soundPage 1000))) None
              "soundids.txt" true Examples.dataFiles emptyStore))
  = Examples.dataFiles.
Proof.
  assert (Hlen : (1000 <= List.length
                            (parseSoundIdTables (Fixtures.soundPage 1000)))%nat)
    by (apply Nat.leb_le; vm_compute; reflexivity).
  destruct (@updateSoundIdsFromWiki_guarded
              (Ok (Some (Fixtures.soundPage 1000))) "soundids.txt" false
              Examples.dataFiles emptyStore
              (FileStoreFacts.store_ok_empty _)) as (_ & Hsame & Hres & _).
  destruct (@updateSoundIdsFromWiki_guarded
              (Ok (Some (Fixtures.soundPage 3))) "soundids.txt" false
              Examples.dataFiles emptyStore
              (FileStoreFacts.store_ok_empty _)) as (_ & _ & _ & Hfew).
  destruct (@updateSoundIdsFromWiki_guarded
              (Ok (Some (Fixtures.soundPage 1000))) "soundids.txt" true
              Examples.dataFiles emptyStore
              (FileStoreFacts.store_ok_empty _)) as (_ & _ & _ & Hdry).
  split; [|split; [|split]].
  - destruct (@updateSoundIdsFromWiki_written (Fixtures.soundPage 1000)
                "soundids.txt" Examples.dataFiles emptyStore Hlen) as [res E].
    exists res.
    assert (E1 : fst (fst (updateSoundIdsFromWiki
                             (Ok (Some (Fixtures.soundPage 1000))) None
                             "soundids.txt" false Examples.dataFiles emptyStore))
                 = Ok res) by (now rewrite E).
    destruct (Hres res E1) as (Hfound & _ & Hwritten).
    split; [exact E1|]. split; [exact Hfound|].
    now destruct (Hwritten eq_refl) as (Hw & _).
  - rewrite (Hsame "npctypes.txt") by discriminate. reflexivity.
  - apply Hfew. right. eexists. vm_compute. reflexivity.
  - apply Hdry. now left.
Defined.

(** Three sounds are too few to replace the file. *)
Example updateSoundIdsFromWiki_too_few :
  fst (fst (updateSoundIdsFromWiki (Ok (Some (Fixtures.soundPage 3))) None
              "soundids.txt" false Examples.dataFiles emptyStore))
  = Throw ("Only 3 entries found, expected 10,000+. "
           ++ "Wiki page structure may have changed.").
Proof. vm_compute. reflexivity. Qed.

(** X28.  After a run of [updateSoundIdsFromWiki] that writes the file,
    with every ID found an integer from 0 to 2^53 - 1, the file has one
    line per entry, in the order of the entries, and [getEntryById]
    finds every entry by its ID: it returns the name of the entry, the
    number of its line, and its line (the ID, a tab, the name), when the
    caches agreed with the files before the update. *)
Theorem updated_sounds_are_found
    html path fs st nowCheck nowRead nowLines :
  store_ok fs st ->
  (1000 <= List.length (parseSoundIdTables html))%nat ->
  SafeIds (parseSoundIdTables html) ->
  let out := updateSoundIdsFromWiki (Ok (Some html)) None path false fs st in
  (exists content,
     snd (fst out) path = Some content /\
     fileLines content = List.map entryLine (parseSoundIdTables html)) /\
  forall j e,
    nth_error (parseSoundIdTables html) j = Some e ->
    fst (getEntryById (snd (fst out)) nowCheck nowRead nowLines path
                      (sound_id e) (snd out))
    = Ok (Some (mkEntry (sound_id e) (sound_name e) (j + 1) (entryLine e))).
Proof.
  intros Hok Hlen Hsafe.
  destruct (@updateSoundIdsFromWiki_written html path fs st Hlen) as [res ->].
  cbn [fst snd].
  destruct (parseSoundIdTables_kept html) as [Hnd Hvalid].
  set (es := parseSoundIdTables html) in *.
  set (content := join (String LF EmptyString) (List.map entryLine es)).
  assert (Hfile : writeFile path content fs path = Some content).
  { unfold writeFile. now rewrite String.eqb_refl. }
  assert (Hlines : fileLines content = List.map entryLine es).
  { apply fileLines_join.
    - destruct es; [cbn in Hlen; lia | discriminate].
    - intros l Hl. apply in_map_iff in Hl as [e [<- He]].
      destruct (Hsafe e He) as (z & Hz & Hid).
      now destruct (@entryLine_safe e z (Hvalid e He) Hz Hid) as (_ & H1 & H2). }
  split; [now exists content|].
  intros j e Hj.
  pose proof (store_ok_rewritten path content Hok) as Hok'.
  destruct (@FileToolsFacts.getEntryById_entryOf _ nowCheck nowRead nowLines
              path content (sound_id e) _ Hok' Hfile) as (st' & -> & _).
  cbn [fst]. f_equal. rewrite Hlines.
  pose proof (nth_error_In _ _ Hj) as He.
  destruct (Hsafe e He) as (z & Hz & Hid).
  destruct (@entryLine_safe e z (Hvalid e He) Hz Hid) as (Hline & _ & _).
  apply FileToolsFacts.entryOf_Some. exists j, (entryLine e). split.
  - destruct (@NumFacts.ofZ_nonneg z ltac:(lia)) as [_ Hcanon].
    rewrite Hid, Hcanon. split; [now apply map_nth_error|]. split.
    + now apply (@entryLine_LineId e z (ofZ z) (Hvalid e He) Hz Hid).
    + intros k line' Hjk Hk Hline'.
      rewrite nth_error_map in Hk.
      destruct (nth_error es k) as [e'|] eqn:Ek; [|discriminate].
      injection Hk as <-.
      pose proof (nth_error_In _ _ Ek) as He'.
      destruct (Hsafe e' He') as (z' & Hz' & Hid').
      apply (@entryLine_LineId e' z' (ofZ z) (Hvalid e' He') Hz' Hid') in Hline'.
      assert (Hsame : nth_error (List.map (fun e => canonKey (sound_id e)) es) j
                      = nth_error (List.map (fun e => canonKey (sound_id e)) es) k).
      { rewrite !nth_error_map, Hj, Ek. cbn [option_map].
        now rewrite Hid, Hid', Hline'. }
      apply (proj1 (NoDup_nth_error _) Hnd) in Hsame; [lia|].
      rewrite length_map. apply nth_error_Some. now rewrite Hj.
  - f_equal. rewrite Hline. symmetry. apply FileToolsFacts.nameOfLine_tab.
    apply (@allChars_impl isDigit notTab (decimal z) digit_notTab).
    apply RarityFacts.decimal_digits.
Qed.

Lemma updated_sounds_are_found_witness :
  let out :=
    updateSoundIdsFromWiki (Ok (Some (Fixtures.soundPage 1000))) None
      "soundids.txt" false Examples.dataFiles emptyStore in
  (exists content,
     snd (fst out) "soundids.txt" = Some content /\
     fileLines content
     = List.map entryLine (parseSoundIdTables (Fixtures.soundPage 1000))) /\
  forall j e,
    nth_error (parseSoundIdTables (Fixtures.soundPage 1000)) j = Some e ->
    fst (getEntryById (snd (fst out)) 0 0 0 "soundids.txt"
                      (sound_id e) (snd out))
    = Ok (Some (mkEntry (sound_id e) (sound_name e) (j + 1) (entryLine e))).
Proof.
  pose (es := parseSoundIdTables (Fixtures.soundPage 1000)).
  assert (Hids : List.map sound_id es
                 = List.map (fun k => ofZ (Z.of_nat k)) (seq 0 1000))
    by (vm_compute; reflexivity).
  apply (@updated_sounds_are_found (Fixtures.soundPage 1000) "soundids.txt"
           Examples.dataFiles emptyStore 0 0 0).
  - apply FileStoreFacts.store_ok_empty.
  - change (1000 <= List.length es)%nat. clearbody es.
    pose proof (f_equal (@List.length number) Hids) as Hlen.
    rewrite !length_map, length_seq in Hlen. rewrite Hlen. apply le_n.
  - change (SafeIds es). clearbody es. intros e He.
    pose proof (in_map sound_id es e He) as Hin. rewrite Hids in Hin.
    apply in_map_iff in Hin as [k [Hk Hin]]. apply in_seq in Hin.
    exists (Z.of_nat k). split; [|now symmetry].
    assert (H53 : (2 ^ 53 = 9007199254740992)%Z) by reflexivity. lia.
Defined.

End SoundIdsProperties.
